(* ===== verification/_CoqProject ===== *)
-Q . S2P
Prelude.v
Utils.v
Text.v
Externals.v
Net.v
U160.v
NodeInfo.v
Bucket.v
BucketTasks.v
Wire.v
Format.v
BucketSerde.v
Router.v
Token.v
Kmsg.v
Message.v
Display.v
Received.v
Service.v
Messenger.v
UnitTests.v
BucketTests.v
Server.v
Node.v
Sweep.v
Start.v
System.v
Liveness.v
Main.v
