(* ===== verification/Prelude.v ===== *)
(** * A verification development for dht-explorer

    dht-explorer is a node of the BitTorrent DHT written in Rust (crate under
    [src/src/]). A node keeps a Kademlia routing table of other nodes, asks them
    over UDP for nodes or peers close to a 160-bit identifier, and answers the
    same questions. This library translates its code into Rocq definitions and
    proves what makes each part correct. This file holds the vocabulary all
    parts share; the others follow the program's own layers, each file named for
    the part it models, each requiring the parts it calls.

    ** The parts

    - [Utils] ([utils.rs]): the set of concurrent tasks over the documented
      behaviour of [select_all], slices to arrays, logging of errors.
    - [Text]: strings as bytes, decimal numerals, with and without leading zeros.
    - [Externals], [Net]: the CRC-32C checksum and the hexadecimal and base64
      texts as concrete instances of the crates of these names, used in examples,
      tests and [token_bound]; IP and socket addresses of [std::net], with the two extension
      traits of [utils.rs].
    - [U160] ([u160.rs]): identifiers as the pair of machine words the code
      stores, their bit operations, order, distance, byte codec, and the BEP 42
      derivation from an address. [value] is the number a pair stands for.
    - [NodeInfo] ([node_info.rs]): a contact, its two byte encodings, its order.
    - [Bucket] ([router/bucket.rs]): the routing table, a chain of buckets each
      of which holds the nodes whose first differing bit is its index. [add],
      [lookup], [remove] and [make_next_bucket] are the methods of that name;
      the [OnceCell] of the next bucket is an [option], a lock taken by one task
      is no event. [table_ok] is the invariant of the chain.
    - [BucketTasks] (the same file under several tasks): a call of [add] or
      [remove] as a stack of frames, one for each place where it can be
      interrupted; [frame_step] performs one access to the shared buckets,
      [system_step] one step of any task. Write locks are held over steps while
      a bucket is split.
    - [Wire] ([kmsg/serde_extra.rs], [wrappers.rs], [error.rs]): the class
      [Serde], a type's translation to and from the tree of values [sval] that
      bencode writes, with the class of its law [SerdeLaw], and the instances
      the code writes by hand. Dictionaries with the same entries in another
      order are equivalent, [≡], and decoders respect that ([SerdeProper]). The
      law of a byte format is the class [ByteFormat]: it reads what it writes,
      up to [≡], and reads trees of bytes from bytes.
    - [Format]: bencode, as an instance of [ByteFormat]; the theorems take any
      instance, the witnesses this one.
    - [BucketSerde] (the rest of [bucket.rs]): saving and loading the table.
    - [Router] ([router.rs]): the table behind a list of banned identifiers.
    - [Token] ([node/token.rs]): tokens that bind an announcement to an address.
    - [Kmsg] ([kmsg.rs], [kresponse.rs]): the KRPC dictionaries with their derived
      serde implementations, field by field.
    - [Message] ([message.rs], [message_impl.rs]): queries, responses and errors,
      [to_kmsg] and [from_kmsg], client codes.
    - [Display] (the [Display] and [Debug] implementations): the text of a message
      as the log shows it. The encoders of the crates are parameters with the
      class [TextCodes].
    - [Received]: the ranges of the types, as properties of what the decoders of
      [Wire], [Kmsg] and [Message] give ([SerdeTyped], [message_typed]).
    - [Service] ([messenger/service.rs]): outstanding queries. A state has the
      queue and one record per running query; [exec] performs one event (a query
      starts, its send completes, a packet arrives, a task wakes or times out),
      so a list of events is one interleaving of the tasks.
    - [Messenger] ([messenger.rs], the receiving half of [service.rs]): the class
      [QueryHandler] for the trait of that name, its law, and what a packet
      leads to, proved against the class.
    - [UnitTests], [BucketTests] (the test functions of [u160.rs], [node_info.rs],
      [token.rs], [kmsg_tests.rs], [message_impl.rs], [messenger_tests.rs], and of
      [bucket.rs]): what they draw is an argument, and so is the schedule of
      their tasks; an assertion that fails is a [Panic].
    - [Server] ([node.rs], [impl Server]): the handlers, an instance of
      [QueryHandler]; the store of announced peers is the class [Sled] with the
      laws the crate documents, [peers_at] the abstract map of hashes to peers.
    - [Node] ([node.rs], [impl Node]): building queries, asking a node, and the
      search [find_n_starting_at], one [find_step] per turn of its loop. The
      [BTreeSet]s of the node are [btree_insert] on sorted lists (below).
    - [Sweep] ([Node::infohash_sweep]): the walk over the whole key space,
      [sweep_step] per turn of its loop or end of the background search.
    - [Start] ([Node::new], [Node::bootstrap], [find] and its callers): putting a
      node together, its first search, and the searches it offers.
    - [System]: a node at work: the service, the server and any number of searches
      that share the routing table; a [happening] is a packet that comes in or
      one step of a task between two of its await points, [sys_run] a run.
      Handling a packet is one step: its accesses to the table are not
      interleaved with those of others ([BucketTasks] is about that).
    - [Liveness]: a bound for the steps that a [System] takes by itself.
    - [Main] ([main.rs], [parameters.rs]): options, logging, and the program as a
      whole. The node of [main] is read only and drops queries, so nothing
      changes its table between the two searches.

    ** What is shown

    - A node as a whole: [system_never_panics] for all packets from IPv4 addresses
      and all interleavings, [system_searches] (its searches are those of
      [Node], whatever happens in between) and [searches_end] (they end).
      [main_correct] lists the outcomes of the program.
    - Identifiers: the word operations compute what they mean on 160-bit
      numbers ([words_are_numbers], [shr_correct]), with the shifts for which they do not
      ([shl_shifts_operand]); distance is a metric; [validate] decides BEP 42.
    - Routing table: [add_correct], [remove_correct] and [lookup_closest_bucket]
      give the three operations on every branch with the invariant they keep;
      [lookup_after_adds] sharpens lookup for tables that only grew, and
      [lookup_duplicates], [lookup_not_k_closest] show what lookup does not
      give. [router_refines] gives the router as an abstract machine.
    - Routing table under tasks: whatever the interleaving, [tasks_invariant]
      keeps each bucket well formed and [tasks_finish] bounds the run and
      excludes deadlock; [adds_complete] excludes panics when nothing is
      removed; [tasks_alone] says that a task that runs alone does what
      [Bucket] computes; [lookup_under_tasks] is about lookups that run
      meanwhile ([lookup_seen]). [race_panics] and [race_misplaces] are the
      interleavings that break the sequential contract.
    - Encodings: round trips for contacts, tables, dictionaries and messages,
      the last as the receiver of a packet sees it; what malformed input leads to;
      [receive_typed]: what is decoded is in the ranges of its types.
    - Tests: [unit_tests_pass] and [bucket_tests_pass] show that the program's own
      tests pass for every draw and under every interleaving, up to the three
      assertions that a draw can falsify. The second says more of tables under
      tasks: a node that belongs to its bucket stays there while others are
      added, and what concurrent additions leave is saved and loaded unchanged.
    - Tokens: [token_valid_iff] says which tokens pass; [token_bound] that one
      issued to an IPv4 address passes for no other, since CRC-32C tells texts
      apart that differ in four bytes ([crc32c_prefix_inj]).
    - Log: [log_line_tells] says what a line identifies.
    - Concurrency of queries: [service_invariant], [answers_match],
      [return_result_delivers] and [query_returns] hold for every interleaving;
      [timeout_ends_other_query] and [failed_sends_leak] are interleavings in
      which the queue is mistreated.
    - Server: [server_implements_handler] discharges the interface for every
      well-formed state and query, [query_answered] is the client's theorem
      proved against it; [announce_then_get] is the announce protocol from end
      to end; [ipv6_sender_breaks_answers] is the input it does not survive.
    - Search: it ends under every schedule and every behaviour of the network
      ([find_returns]) and returns the closest nodes it heard of ([find_closest]);
      [invalid_node_returned] is a node it should have left out.
      [find_peers_correct] says which peers it returns.
    - Start: [node_new_ok] establishes the invariants that the theorems on server
      and service assume, and [bootstrap_correct] keeps them.
    - Sweep: [sweep_asks_once] bounds its work and says whom it asks;
      [sweep_ends_during_backfill] is the work it can lose.

    ** Conventions

    A computation that may panic is a [run]: [Ret], [Panic], or [NoFuel] where a
    recursion of the model is cut off. Overflow is checked or wraps as the
    [profile] says, as in a debug or release build; theorems hold for both
    unless they name one. Integers are [Z] with [in_width] or [wrap] for their
    range. Code outside the repository is a parameter: the [crc32c] and ChaCha20
    functions, the byte format of bencode (a [ByteFormat]), the store; random draws, the clock and what the network answers are arguments.
    Each theorem with hypotheses has a witness, an instance where they hold.

    ** Fuel

    [Bucket.add] recurses to the next bucket, of which there are at most 160:
    [FUEL] is 160, and [add_correct] shows that it is enough. [find_loop] takes
    one unit per turn; [find_returns] shows that some amount is enough, since
    each turn but the first answers for a node newly seen, and more changes
    nothing ([find_more]), so that [main_correct] holds for every larger amount.
    The parser of [Format] gets the length of its input, of which each call
    consumes at least one byte. Other recursions are
    structural. Relations and event lists need no fuel: a run of tasks is bounded
    by the cost of its calls ([system_cost], which counts a split at every
    level), a sweep by the number of identifiers.

    ** What is not modelled

    The parser of the command line, which [structopt] derives; what is logged
    outside [Utils] and [Main], and the derived [Debug] texts; the text of an IPv6 address
    and of a duration, which are parameters of [Display]; tests that only print; the system calls behind socket, store and files;
    [stats] and saving while other tasks change the table; truncation of
    datagrams; the limit of the sweep's channel.
    Time stamps of outstanding queries are only logged and are left out. *)

From Stdlib Require Export ZArith Lia.
From stdpp Require Export base list gmap sets strings sorting.
From Stdlib Require Import Btauto.

#[global] Open Scope Z_scope.
#[export] Set Default Goal Selector "!".

(** ** Outcomes of a Rust computation *)

(** A Rust function returns, panics (an [unwrap] on [None], an overflow caught
    by the overflow checks, a failed [assert!]), or, for the functions whose
    recursion is not structural, is cut off by the fuel of the model. *)
Inductive run (A : Type) : Type :=
  | Ret (a : A)
  | Panic
  | NoFuel.
Arguments Ret {A} a.
Arguments Panic {A}.
Arguments NoFuel {A}.

Definition run_bind {A B} (m : run A) (k : A → run B) : run B :=
  match m with
  | Ret a => k a
  | Panic => Panic
  | NoFuel => NoFuel
  end.

Definition run_map {A B} (f : A → B) (m : run A) : run B :=
  run_bind m (λ a, Ret (f a)).

(** [Option::unwrap] *)
Definition unwrap {A} (o : option A) : run A :=
  match o with
  | Some a => Ret a
  | None => Panic
  end.

(** Rust's [Result<A, E>] *)
Inductive result (A E : Type) : Type :=
  | Ok (a : A)
  | Err (e : E).
Arguments Ok {A E} a.
Arguments Err {A E} e.

Definition result_bind {A B E} (m : result A E) (k : A → result B E) : result B E :=
  match m with
  | Ok a => k a
  | Err e => Err e
  end.

(** [Option::ok_or] *)
Definition ok_or {A E} (o : option A) (e : E) : result A E :=
  match o with
  | Some a => Ok a
  | None => Err e
  end.

(** A function that may both panic and fail: [?] inside a body that can panic. *)
Definition try_bind {A B E} (m : run (result A E)) (k : A → run (result B E))
    : run (result B E) :=
  run_bind m (λ r, match r with Ok a => k a | Err e => Ret (Err e) end).

Declare Scope rust_scope.
Delimit Scope rust_scope with rust.
Notation "'let!' x := m 'in' k" := (run_bind m (λ x, k))
  (at level 200, x pattern, m at level 200, k at level 200, right associativity) : rust_scope.
Notation "'let?' x := m 'in' k" := (result_bind m (λ x, k))
  (at level 200, x pattern, m at level 200, k at level 200, right associativity) : rust_scope.
Notation "'let!?' x := m 'in' k" := (try_bind m (λ x, k))
  (at level 200, x pattern, m at level 200, k at level 200, right associativity) : rust_scope.
#[global] Open Scope rust_scope.

Lemma Ok_inj {A E} (a b : A) : Ok (E:=E) a = Ok b → a = b.
Proof. by intros [= ->]. Qed.
Lemma Ret_inj {A} (a b : A) : Ret a = Ret b → a = b.
Proof. by intros [= ->]. Qed.

Lemma run_bind_Ret {A B} (m : run A) (k : A → run B) b :
  run_bind m k = Ret b ↔ ∃ a, m = Ret a ∧ k a = Ret b.
Proof. destruct m; naive_solver. Qed.

Lemma run_bind_assoc {A B C} (m : run A) (k : A → run B) (h : B → run C) :
  run_bind (run_bind m k) h = run_bind m (λ a, run_bind (k a) h).
Proof. by destruct m. Qed.

(** Invert the [Ret] results of nested binds in the context. *)
Ltac inv_run :=
  repeat match goal with
    | H : run_bind _ _ = Ret _ |- _ =>
        apply run_bind_Ret in H;
        let a := fresh "a" in let E := fresh "E" in destruct H as (a & E & H)
    | H : Ret _ = Ret _ |- _ => injection H as H; subst
    | H : Panic = Ret _ |- _ => discriminate H
    | H : NoFuel = Ret _ |- _ => discriminate H
    end.

(** [collect] of an iterator of fallible conversions: the first failure wins. *)
Fixpoint collect {A B E} (f : A → result B E) (l : list A) : result (list B) E :=
  match l with
  | [] => Ok []
  | a :: l => let? b := f a in let? l := collect f l in Ok (b :: l)
  end.
Fixpoint run_collect {A B} (f : A → run B) (l : list A) : run (list B) :=
  match l with
  | [] => Ret []
  | a :: l => let! b := f a in let! l := run_collect f l in Ret (b :: l)
  end.

Lemma collect_Ok {A B E} (f : A → result B E) (g : B → A) l :
  (∀ b, b ∈ l → f (g b) = Ok b) → collect f (g <$> l) = Ok l.
Proof.
  induction l as [|b l IH]; intros H; [done |]. rewrite fmap_cons. cbn [collect].
  rewrite H by set_solver. cbn [result_bind]. by rewrite IH by set_solver.
Qed.

Lemma run_collect_Ret {A B} (f : A → run B) (g : A → B) l :
  (∀ a, a ∈ l → f a = Ret (g a)) → run_collect f l = Ret (g <$> l).
Proof.
  induction l as [|a l IH]; intros H; [done |]. cbn [run_collect].
  rewrite H by set_solver. cbn [run_bind]. by rewrite IH by set_solver.
Qed.

(** ** Machine integers *)

(** A [w]-bit unsigned integer is a [Z] in range; the arithmetic that can
    leave the range panics under overflow checks (the debug profile) and wraps
    without them (the release profile). *)
Inductive profile := Debug | Release.

#[export] Instance profile_eq_dec : EqDecision profile.
Proof. solve_decision. Defined.

Definition in_width (w z : Z) : Prop := 0 ≤ z < 2 ^ w.
Definition wrap (w z : Z) : Z := z mod 2 ^ w.

Definition checked (p : profile) (w z : Z) : run Z :=
  if (0 <=? z) && (z <? 2 ^ w) then Ret z
  else match p with Debug => Panic | Release => Ret (wrap w z) end.

Definition add_u (p : profile) (w a b : Z) : run Z := checked p w (a + b).
Definition sub_u (p : profile) (w a b : Z) : run Z := checked p w (a - b).

(** A shift amount of at least the width is an overflow: a panic when checked,
    reduced modulo the width otherwise. *)
Definition shift_amount (p : profile) (w s : Z) : run Z :=
  if s <? w then Ret s
  else match p with Debug => Panic | Release => Ret (s mod w) end.

Definition shl_u (p : profile) (w a s : Z) : run Z :=
  run_map (λ s, wrap w (Z.shiftl a s)) (shift_amount p w s).
Definition shr_u (p : profile) (w a s : Z) : run Z :=
  run_map (λ s, Z.shiftr a s) (shift_amount p w s).

Lemma checked_in p w z : in_width w z → checked p w z = Ret z.
Proof.
  intros [??]. unfold checked.
  by rewrite (proj2 (Z.leb_le _ _)), (proj2 (Z.ltb_lt _ _)) by lia.
Qed.

Lemma shl_u_lt p w a s : s < w → shl_u p w a s = Ret (wrap w (Z.shiftl a s)).
Proof. intros. unfold shl_u, shift_amount. by rewrite (proj2 (Z.ltb_lt _ _)) by lia. Qed.

Lemma shr_u_lt p w a s : s < w → shr_u p w a s = Ret (Z.shiftr a s).
Proof. intros. unfold shr_u, shift_amount. by rewrite (proj2 (Z.ltb_lt _ _)) by lia. Qed.

Lemma wrap_in_width w z : 0 ≤ w → in_width w (wrap w z).
Proof. intros. apply Z.mod_pos_bound. lia. Qed.

Lemma wrap_id w z : in_width w z → wrap w z = z.
Proof. intros [??]. by apply Z.mod_small. Qed.

(** ** Bits *)

Lemma testbit_wrap w z i : 0 ≤ w → Z.testbit (wrap w z) i = (i <? w) && Z.testbit z i.
Proof.
  intros. unfold wrap. destruct (Z.ltb_spec i w).
  - by rewrite Z.mod_pow2_bits_low by lia.
  - by rewrite Z.mod_pow2_bits_high by lia.
Qed.

Lemma testbit_shiftl z n i :
  Z.testbit (Z.shiftl z n) i = (0 <=? i) && Z.testbit z (i - n).
Proof.
  destruct (Z.leb_spec 0 i); simpl.
  - by rewrite Z.shiftl_spec.
  - by rewrite Z.testbit_neg_r.
Qed.

Lemma testbit_shiftr z n i :
  Z.testbit (Z.shiftr z n) i = (0 <=? i) && Z.testbit z (i + n).
Proof.
  destruct (Z.leb_spec 0 i); simpl.
  - by rewrite Z.shiftr_spec.
  - by rewrite Z.testbit_neg_r.
Qed.

Lemma testbit_ones w i : 0 ≤ w → Z.testbit (Z.ones w) i = (0 <=? i) && (i <? w).
Proof.
  intros. destruct (Z.leb_spec 0 i); simpl.
  - destruct (Z.ltb_spec i w); [by apply Z.ones_spec_low | apply Z.ones_spec_high; lia].
  - by rewrite Z.testbit_neg_r.
Qed.

Lemma testbit_out w z i : in_width w z → w ≤ i → Z.testbit z i = false.
Proof.
  intros Hz Hi. rewrite <- (wrap_id w z Hz).
  destruct (decide (0 ≤ w)).
  - rewrite testbit_wrap by done. by rewrite (proj2 (Z.ltb_ge _ _)) by lia.
  - destruct Hz. rewrite Z.pow_neg_r in * by lia. lia.
Qed.

Lemma in_width_testbit w z :
  0 ≤ w → 0 ≤ z → (∀ i, w ≤ i → Z.testbit z i = false) → in_width w z.
Proof.
  intros Hw Hz Hb. assert (Hz' : z = wrap w z).
  { apply Z.bits_inj'. intros i ?. rewrite testbit_wrap by done.
    destruct (Z.ltb_spec i w); simpl; [done | by apply Hb]. }
  rewrite Hz'. by apply wrap_in_width.
Qed.

Create HintDb bits.
#[export] Hint Rewrite Z.land_spec Z.lor_spec Z.lxor_spec Z.testbit_0_l
  testbit_shiftl testbit_shiftr andb_false_r andb_true_r orb_false_r orb_true_r
  andb_false_l andb_true_l orb_false_l orb_true_l : bits.
#[export] Hint Rewrite testbit_wrap testbit_ones using lia : bits.

(** Case on the comparisons of an index that a bit-level goal mentions, and
    drop the bits known to be out of range. *)
Ltac bit_cases :=
  repeat match goal with
    | |- context [?a <? ?b] => destruct (Z.ltb_spec a b); simpl; try lia
    | |- context [?a <=? ?b] => destruct (Z.leb_spec a b); simpl; try lia
    end.
Ltac bit_out :=
  repeat match goal with
    | H : in_width ?w ?z |- context [Z.testbit ?z ?i] =>
        rewrite (testbit_out w z i H) by lia
    | |- context [Z.testbit ?z ?i] => rewrite (Z.testbit_neg_r z i) by lia
    end.
Ltac bitwise :=
  autorewrite with bits; bit_cases; bit_out; autorewrite with bits;
  try done; try solve [f_equal; lia]; try btauto.

(** Bitwise operators stay in range. *)
Lemma in_width_land_r w a b : 0 ≤ w → in_width w b → in_width w (Z.land a b).
Proof.
  intros Hw Hb. apply in_width_testbit; [done | |].
  - apply Z.land_nonneg. right. by destruct Hb.
  - intros i Hi. by rewrite Z.land_spec, (testbit_out w b), andb_false_r.
Qed.
Lemma in_width_land_l w a b : 0 ≤ w → in_width w a → in_width w (Z.land a b).
Proof. rewrite Z.land_comm. apply in_width_land_r. Qed.
Lemma in_width_lor w a b : 0 ≤ w → in_width w a → in_width w b → in_width w (Z.lor a b).
Proof.
  intros Hw Ha Hb. apply in_width_testbit; [done | |].
  - apply Z.lor_nonneg. by destruct Ha, Hb.
  - intros i Hi. by rewrite Z.lor_spec, (testbit_out w a), (testbit_out w b).
Qed.
Lemma in_width_lxor w a b : 0 ≤ w → in_width w a → in_width w b → in_width w (Z.lxor a b).
Proof.
  intros Hw Ha Hb. apply in_width_testbit; [done | |].
  - apply Z.lxor_nonneg. by destruct Ha, Hb.
  - intros i Hi. by rewrite Z.lxor_spec, (testbit_out w a), (testbit_out w b).
Qed.
Lemma in_width_shiftr w a s : 0 ≤ w → 0 ≤ s → in_width w a → in_width w (Z.shiftr a s).
Proof.
  intros Hw Hs Ha. apply in_width_testbit; [done | |].
  - apply Z.shiftr_nonneg. by destruct Ha.
  - intros i Hi. rewrite Z.shiftr_spec by lia. apply (testbit_out w); [done | lia].
Qed.
Lemma in_width_0 w : 0 ≤ w → in_width w 0.
Proof. intros. split; [done |]. by apply Z.pow_pos_nonneg. Qed.

(** A shifted number and a narrow one do not overlap: [|] adds them. *)
Lemma lor_shiftl_add w a b : 0 ≤ w → in_width w b → Z.lor (Z.shiftl a w) b = a * 2 ^ w + b.
Proof.
  intros Hw Hb. rewrite <- Z.shiftl_mul_pow2 by lia.
  assert (Hdisj : Z.land (Z.shiftl a w) b = 0).
  { apply Z.bits_inj'. intros i ?. destruct (Z.ltb_spec i w); bitwise. }
  by rewrite <- Z.lxor_lor, Z.add_nocarry_lxor.
Qed.

Create HintDb width.
#[export] Hint Resolve in_width_land_l in_width_lor in_width_lxor in_width_shiftr
  in_width_0 wrap_in_width : width.
#[export] Hint Extern 2 (_ ≤ _) => lia : width.
#[export] Hint Extern 2 (in_width _ ?z) =>
  (is_ground z; unfold in_width; lia) : width.

(** ** Bytes *)

(** A byte is a [Z] in [0, 256). *)
Definition is_byte (b : Z) : Prop := in_width 8 b.
Definition bytes_ok (l : list Z) : Prop := Forall is_byte l.

(** [to_be_bytes] of an [n]-byte unsigned integer, and [from_be_bytes]. *)
Fixpoint to_be (n : nat) (z : Z) : list Z :=
  match n with
  | O => []
  | S n => wrap 8 (Z.shiftr z (8 * Z.of_nat n)) :: to_be n z
  end.

Definition from_be (l : list Z) : Z := fold_left (λ acc b, acc * 256 + b) l 0.

Lemma length_to_be n z : length (to_be n z) = n.
Proof. induction n; simpl; congruence. Qed.

Lemma to_be_ok n z : bytes_ok (to_be n z).
Proof. induction n; constructor; [by apply wrap_in_width | done]. Qed.

Lemma from_be_acc l acc :
  fold_left (λ acc b, acc * 256 + b) l acc = acc * 2 ^ (8 * Z.of_nat (length l)) + from_be l.
Proof.
  unfold from_be. revert acc. induction l as [|b l IH]; intros acc; cbn [fold_left length].
  - simpl Z.of_nat. rewrite Z.mul_0_r, Z.pow_0_r. lia.
  - rewrite (IH (acc * 256 + b)), (IH (0 * 256 + b)).
    rewrite Nat2Z.inj_succ, Z.mul_succ_r, Z.pow_add_r by lia. change (2 ^ 8) with 256. ring.
Qed.

Lemma from_be_cons b l : from_be (b :: l) = b * 2 ^ (8 * Z.of_nat (length l)) + from_be l.
Proof. unfold from_be at 1. cbn [fold_left]. by rewrite from_be_acc. Qed.

Lemma from_be_app l k :
  from_be (l ++ k) = from_be l * 2 ^ (8 * Z.of_nat (length k)) + from_be k.
Proof. unfold from_be at 1. rewrite fold_left_app. apply from_be_acc. Qed.

Lemma from_be_in_width l : bytes_ok l → in_width (8 * Z.of_nat (length l)) (from_be l).
Proof.
  induction 1 as [|b l [Hb1 Hb2] Hl [IH1 IH2]].
  - by apply in_width_0.
  - rewrite from_be_cons. cbn [length].
    rewrite Nat2Z.inj_succ, Z.mul_succ_r. split; [nia |].
    rewrite Z.pow_add_r by lia. change (2 ^ 8) with 256 in *. nia.
Qed.

Lemma from_be_to_be n z : in_width (8 * Z.of_nat n) z → from_be (to_be n z) = z.
Proof.
  intros Hz. rewrite <- (wrap_id _ _ Hz) at 2. clear Hz.
  induction n as [|n IH]; cbn [to_be].
  - simpl. unfold wrap. by rewrite Z.mod_1_r.
  - rewrite from_be_cons, length_to_be, IH. unfold wrap.
    rewrite Nat2Z.inj_succ, Z.mul_succ_r, Z.pow_add_r by lia.
    rewrite Z.rem_mul_r by lia. rewrite Z.shiftr_div_pow2 by lia. ring.
Qed.

Lemma to_be_ext n a b :
  wrap (8 * Z.of_nat n) a = wrap (8 * Z.of_nat n) b → to_be n a = to_be n b.
Proof.
  intros Hab. assert (Hbit : ∀ i, i < 8 * Z.of_nat n → Z.testbit a i = Z.testbit b i).
  { intros i Hi. pose proof (f_equal (λ z, Z.testbit z i) Hab) as H. simpl in H.
    rewrite !testbit_wrap in H by lia. by rewrite (proj2 (Z.ltb_lt _ _) Hi) in H. }
  clear Hab. induction n as [|n IH]; cbn [to_be]; [done |]. f_equal.
  - apply Z.bits_inj'. intros i ?. autorewrite with bits. bit_cases.
    apply Hbit. lia.
  - apply IH. intros i Hi. apply Hbit. lia.
Qed.

Lemma to_be_from_be l n : bytes_ok l → length l = n → to_be n (from_be l) = l.
Proof.
  intros Hl <-. induction Hl as [|b l Hb Hl IH]; cbn [length to_be]; [done |].
  pose proof (from_be_in_width _ Hl) as [Hw1 Hw2]. rewrite from_be_cons. f_equal.
  - rewrite Z.shiftr_div_pow2, Z.div_add_l, Z.div_small by lia.
    rewrite Z.add_0_r. by apply wrap_id.
  - etrans; [| exact IH]. apply to_be_ext. unfold wrap.
    by rewrite Z.add_comm, Z.mod_add by lia.
Qed.

Lemma from_be_inj l k :
  bytes_ok l → bytes_ok k → length l = length k → from_be l = from_be k → l = k.
Proof.
  intros Hl Hk Hlen Heq.
  by rewrite <- (to_be_from_be l (length k)), Heq, to_be_from_be.
Qed.

Lemma bytes_ok_app l k : bytes_ok (l ++ k) ↔ bytes_ok l ∧ bytes_ok k.
Proof. apply Forall_app. Qed.
Lemma bytes_ok_take n l : bytes_ok l → bytes_ok (take n l).
Proof. apply Forall_take. Qed.
Lemma bytes_ok_drop n l : bytes_ok l → bytes_ok (drop n l).
Proof. apply Forall_drop. Qed.
Lemma bytes_ok_concat ls : Forall bytes_ok ls → bytes_ok (concat ls).
Proof. induction 1; simpl; [constructor | by apply bytes_ok_app]. Qed.

Create HintDb bytes.
#[export] Hint Resolve to_be_ok from_be_in_width bytes_ok_take bytes_ok_drop
  bytes_ok_concat : bytes.
#[export] Hint Rewrite length_to_be @length_app @length_cons @length_nil @length_take
  @length_drop @length_reverse @length_replicate : len.

(** ** Vectors and slices *)

(** [Iterator::position] and the position seen from the right end. *)
Fixpoint position {A} (f : A → bool) (l : list A) : option nat :=
  match l with
  | [] => None
  | x :: l => if f x then Some 0%nat else S <$> position f l
  end.

Lemma position_Some {A} (f : A → bool) l i :
  position f l = Some i ↔
  ∃ x l1 l2, l = l1 ++ x :: l2 ∧ length l1 = i ∧ f x = true ∧ Forall (λ y, f y = false) l1.
Proof.
  revert i. induction l as [|a l IH]; intros i; simpl.
  - split; [done | by intros (?&[|??]&?&?&?)].
  - destruct (f a) eqn:Ha.
    + split.
      * intros [= <-]. by exists a, [], l.
      * intros (x & [|b l1] & l2 & ? & ? & ? & HF); simplify_eq/=; [done |].
        inversion HF; congruence.
    + rewrite fmap_Some. setoid_rewrite IH. split.
      * intros (j & (x & l1 & l2 & -> & ? & ? & ?) & ->).
        exists x, (a :: l1), l2. split_and!; simpl; auto.
      * intros (x & [|b l1] & l2 & ? & <- & ? & HF); simplify_eq/=; [congruence |].
        inversion HF; subst. eexists. split; [| done]. by exists x, l1, l2.
Qed.

Lemma position_None {A} (f : A → bool) l :
  position f l = None ↔ Forall (λ y, f y = false) l.
Proof.
  induction l as [|a l IH]; simpl; [done |].
  destruct (f a) eqn:Ha; [split; [done | inversion 1; congruence] |].
  rewrite fmap_None, IH, Forall_cons. tauto.
Qed.

Lemma exists_last_cases {A} (l : list A) : l = [] ∨ ∃ l' x, l = l' ++ [x].
Proof. destruct l as [|x l' _] using rev_ind; eauto. Qed.

Lemma elem_of_take_weak {A} n (l : list A) x : x ∈ take n l → x ∈ l.
Proof. intros. rewrite <- (take_drop n l). set_solver. Qed.

(** [Vec::remove] *)
Definition vec_remove {A} (i : nat) (l : list A) : run (A * list A) :=
  match l !! i with
  | Some x => Ret (x, delete i l)
  | None => Panic
  end.

(** [Vec::swap_remove]: the last element takes the removed one's place. *)
Definition swap_remove {A} (i : nat) (l : list A) : run (A * list A) :=
  match l !! i, last l with
  | Some x, Some y => Ret (x, take (length l - 1) (<[i:=y]> l))
  | _, _ => Panic
  end.

Lemma swap_remove_last {A} (l : list A) x :
  swap_remove (length l) (l ++ [x]) = Ret (x, l).
Proof.
  unfold swap_remove. rewrite lookup_app_r, Nat.sub_diag, last_snoc by done. simpl.
  rewrite length_app. simpl. rewrite Nat.add_sub, insert_app_r_alt, Nat.sub_diag by done.
  by rewrite take_app_length.
Qed.

Lemma swap_remove_middle {A} (l1 l2 : list A) x y :
  swap_remove (length l1) (l1 ++ x :: l2 ++ [y]) = Ret (x, l1 ++ y :: l2).
Proof.
  unfold swap_remove. rewrite lookup_app_r, Nat.sub_diag by done. simpl.
  rewrite (app_comm_cons l2 [y] x), app_assoc, last_snoc. f_equal. f_equal.
  rewrite <- app_assoc, insert_app_r_alt, Nat.sub_diag by done. simpl.
  rewrite (app_comm_cons l2 [y] y), (app_assoc l1 (y :: l2) [y]). apply take_app_length'.
  rewrite !length_app. simpl. rewrite length_app. simpl. lia.
Qed.

(** [slice::swap] *)
Definition vec_swap {A} (i j : nat) (l : list A) : run (list A) :=
  match l !! i, l !! j with
  | Some x, Some y => Ret (<[j:=x]> (<[i:=y]> l))
  | _, _ => Panic
  end.

Lemma vec_swap_adjacent {A} (l1 l2 : list A) x y :
  vec_swap (length l1) (S (length l1)) (l1 ++ x :: y :: l2) = Ret (l1 ++ y :: x :: l2).
Proof.
  unfold vec_swap. rewrite !lookup_app_r, Nat.sub_diag by lia.
  replace (S (length l1) - length l1)%nat with 1%nat by lia. simpl. f_equal.
  rewrite insert_app_r_alt, Nat.sub_diag by lia. simpl.
  rewrite insert_app_r_alt by lia.
  by replace (S (length l1) - length l1)%nat with 1%nat by lia.
Qed.

(** [slice::chunks_exact]: the remainder shorter than a chunk is dropped. *)
Fixpoint chunks_exact_fuel {A} (fuel n : nat) (l : list A) : list (list A) :=
  match fuel with
  | O => []
  | S fuel =>
      if decide (length l < n)%nat then []
      else take n l :: chunks_exact_fuel fuel n (drop n l)
  end.
Definition chunks_exact {A} (n : nat) (l : list A) : list (list A) :=
  chunks_exact_fuel (length l) n l.

Lemma chunks_exact_fuel_concat {A} (n : nat) (ls : list (list A)) rest fuel :
  (0 < n)%nat → Forall (λ c, length c = n) ls → (length rest < n)%nat →
  (length ls ≤ fuel)%nat →
  chunks_exact_fuel fuel n (concat ls ++ rest) = ls.
Proof.
  intros Hn Hls Hrest. revert fuel. induction Hls as [|c ls Hc Hls IH]; intros fuel Hfuel.
  - simpl. destruct fuel; [done |]. simpl. by rewrite decide_True.
  - destruct fuel as [|fuel]; simpl in *; [lia |]. rewrite decide_False.
    + rewrite <- app_assoc, <- Hc, take_app_length, drop_app_length, Hc. f_equal.
      apply IH. lia.
    + rewrite !length_app. lia.
Qed.

(** A concatenation of full chunks, followed by a shorter tail, is cut back
    into its chunks. *)
Lemma chunks_exact_concat {A} (n : nat) (ls : list (list A)) rest :
  (0 < n)%nat → Forall (λ c, length c = n) ls → (length rest < n)%nat →
  chunks_exact n (concat ls ++ rest) = ls.
Proof.
  intros Hn Hls Hrest. apply chunks_exact_fuel_concat; try done.
  rewrite length_app. clear Hrest.
  induction Hls; simpl; [lia |]. rewrite length_app. lia.
Qed.

Lemma lookup_to_be n z j :
  (j < n)%nat → to_be n z !! j = Some (wrap 8 (Z.shiftr z (8 * (Z.of_nat n - 1 - Z.of_nat j)))).
Proof.
  revert j. induction n as [|n IH]; intros j Hj; [lia |]. cbn [to_be].
  destruct j as [|j]; simpl.
  - do 3 f_equal. lia.
  - rewrite IH by lia. do 3 f_equal. lia.
Qed.

(** ** Ordered sets *)

(** [BTreeSet::insert], on the list of the elements in order: [false] when an
    element that compares equal is there already. *)
Fixpoint btree_insert {A} (cmp : A → A → comparison) (x : A) (l : list A) : list A * bool :=
  match l with
  | [] => ([x], true)
  | y :: l' =>
      match cmp x y with
      | Lt => (x :: l, true)
      | Eq => (l, false)
      | Gt => let (l'', fresh) := btree_insert cmp x l' in (y :: l'', fresh)
      end
  end.

Lemma btree_insert_elem {A} cmp (x : A) l l' fresh y :
  btree_insert cmp x l = (l', fresh) → y ∈ l' ↔ y ∈ l ∨ (fresh = true ∧ y = x).
Proof.
  revert l' fresh. induction l as [|z l IH]; intros l' fresh; simpl; [intros [= <- <-]; set_solver |].
  destruct (cmp x z); [intros [= <- <-]; naive_solver | intros [= <- <-]; set_solver |].
  destruct (btree_insert cmp x l) as [l'' f]. intros [= <- <-]. specialize (IH l'' f eq_refl). set_solver.
Qed.

Lemma btree_insert_perm {A} cmp (x : A) l l' fresh :
  btree_insert cmp x l = (l', fresh) → l' ≡ₚ (if fresh then x :: l else l).
Proof.
  revert l' fresh. induction l as [|z l IH]; intros l' fresh; simpl; [by intros [= <- <-] |].
  destruct (cmp x z); [by intros [= <- <-] | by intros [= <- <-] |].
  destruct (btree_insert cmp x l) as [l'' f]. intros [= <- <-]. rewrite (IH l'' f eq_refl).
  destruct f; [apply Permutation_swap | done].
Qed.

Lemma btree_insert_length {A} cmp (x : A) l l' fresh :
  btree_insert cmp x l = (l', fresh) → length l' = (length l + if fresh then 1 else 0)%nat.
Proof. intros ->%btree_insert_perm. destruct fresh; simpl; lia. Qed.
