(* ===== verification/Utils.v ===== *)
(** * Helpers

    [src/utils.rs]: the set of concurrent tasks that the search and the sweep
    loop over, the conversions of slices to arrays, and the logging of errors. *)

From S2P Require Import Prelude.

(** ** [UnboundedConcurrentTaskSet] *)

(** A handle stands for the result that its task, which runs by itself, will have.
    [select_all] waits for any of the handles: it gives the result of one, its
    index and the handles that remain. *)
Record TaskSet (T : Type) : Type := mkTaskSet { handles : list T }.
Arguments mkTaskSet {T}.
Arguments handles {T}.

Definition task_set_new {T} : TaskSet T := mkTaskSet [].
Definition add_task {T} (task : T) (self : TaskSet T) : TaskSet T := mkTaskSet (handles self ++ [task]).

(** What [futures] documents of [select_all]: one handle is taken out, the others
    remain, in an order that is not said. *)
Class SelectAll (T : Type) (select_all : list T → T * nat * list T) : Prop := {
  select_taken l out i remaining :
    l ≠ [] → select_all l = (out, i, remaining) → l !! i = Some out ∧ remaining ≡ₚ delete i l;
}.

Section TaskSet.
Context {T : Type} (select_all : list T → T * nat * list T).

Definition get_next_result (self : TaskSet T) : option (T * TaskSet T) :=
  match handles self with
  | [] => None
  | _ => let '(out, _, remaining) := select_all (handles self) in Some (out, mkTaskSet remaining)
  end.

(** The loops of the program: take a result, add the tasks it leads to. *)
Fixpoint drain (fuel : nat) (body : T → list T) (self : TaskSet T) : list T * TaskSet T :=
  match fuel with
  | O => ([], self)
  | S fuel =>
      match get_next_result self with
      | None => ([], self)
      | Some (out, self) =>
          let (outs, self) := drain fuel body (foldl (λ s t, add_task t s) self (body out)) in
          (out :: outs, self)
      end
  end.

Context {Hsel : SelectAll T select_all}.

Lemma add_tasks ts (self : TaskSet T) :
  handles (foldl (λ s t, add_task t s) self ts) = handles self ++ ts.
Proof using Type.
  revert self. induction ts as [|t ts IH]; intros self; cbn [foldl]; [by rewrite app_nil_r |].
  rewrite IH. cbn [add_task handles]. by rewrite <- app_assoc.
Qed.

Lemma next_result (self : TaskSet T) :
  match get_next_result self with
  | None => handles self = []
  | Some (out, rest) => handles self ≡ₚ out :: handles rest
  end.
Proof using All.
  unfold get_next_result. destruct (handles self) as [|t ts] eqn:E; [done |]. rewrite <- E.
  destruct (select_all (handles self)) as [[out i] remaining] eqn:Hs. cbn [handles].
  apply select_taken in Hs as [Hi ->]; [| by rewrite E].
  by apply delete_Permutation.
Qed.

(** No task is lost and none is delivered twice: what came out and what is still
    in the set are together the tasks that were there and those that were added. *)
Theorem task_set_delivers fuel body (self : TaskSet T) outs rest :
  drain fuel body self = (outs, rest) →
  outs ++ handles rest ≡ₚ handles self ++ concat (body <$> outs) ∧
  (length outs < fuel → handles rest = [])%nat.
Proof using All.
  revert self outs rest. induction fuel as [|fuel IH]; intros self outs rest; cbn [drain].
  { intros [= <- <-]. cbn. rewrite app_nil_r. split; [done | lia]. }
  pose proof (next_result self) as Hn. destruct (get_next_result self) as [[out self']|].
  - destruct (drain fuel body _) as [outs' rest'] eqn:Hd. intros [= <- <-].
    destruct (IH _ _ _ Hd) as [Hp Hl]. rewrite add_tasks in Hp. split; [| simpl; intros; apply Hl; lia].
    rewrite Hn, fmap_cons. cbn [concat app]. rewrite Hp. by rewrite <- !app_assoc.
  - intros [= <- <-]. rewrite Hn. by split.
Qed.
End TaskSet.

(** Waiting for the first *)
Definition select_first {T} (d : T) (l : list T) : T * nat * list T :=
  match l with [] => (d, 0%nat, []) | x :: l => (x, 0%nat, l) end.
Lemma select_first_law {T} (d : T) : SelectAll T (select_first d).
Proof. split. intros [|x l] out i r Hl; [done |]. by intros [= <- <- <-]. Qed.

Lemma task_set_delivers_witness :
  fst (drain (select_first 0%nat) 10 (λ n, match n with S n => [n] | O => [] end) (mkTaskSet [2; 1]%nat)) ++ []
    ≡ₚ [2; 1]%nat ++ [1; 0; 0]%nat.
Proof.
  pose proof (task_set_delivers (select_first 0%nat) (Hsel:=select_first_law 0%nat) 10
    (λ n, match n with S n => [n] | O => [] end) (mkTaskSet [2; 1]%nat) [2; 1; 1; 0; 0]%nat (mkTaskSet [])
    eq_refl) as [H _].
  exact H.
Defined.

(** ** [MySliceExt] *)

Definition to_sized {A} (n : nat) (l : list A) : option (list A) :=
  if Nat.eqb (length l) n then Some l else None.
Definition to_sized_or_fill {A} (n : nat) (fill : A) (l : list A) : list A :=
  if Nat.eqb (length l) n then l else replicate n fill.
(** [fill] may give another value each time: the [i]-th call gives [fill i]. *)
Definition to_sized_or_else_fill {A} (n : nat) (fill : nat → A) (l : list A) : list A :=
  if Nat.eqb (length l) n then l else fill <$> seq 0 n.

Lemma sized_lengths {A} n fill (f : nat → A) l :
  length (to_sized_or_fill n fill l) = n ∧ length (to_sized_or_else_fill n f l) = n ∧
  (∀ k, to_sized n l = Some k → k = l ∧ length k = n) ∧
  (length l = n → to_sized n l = Some (to_sized_or_fill n fill l)).
Proof.
  unfold to_sized, to_sized_or_fill, to_sized_or_else_fill. destruct (Nat.eqb_spec (length l) n) as [E|E].
  - split_and!; [done | done | by intros k [= <-] | done].
  - split_and!; [apply length_replicate | by rewrite length_fmap, length_seq | done | done].
Qed.

(** ** [LogErrExt] *)

(** What a call on a result logs, and what is left of the result; [show] is the
    error's [Debug] text. *)
Section Log.
Context {T E : Type} (show : E → string).
#[local] Open Scope string_scope.

Definition log_with (s : string) (self : result T E) : list string :=
  match self with Err e => [s +:+ " " +:+ show e] | Ok _ => [] end.
Definition log (self : result T E) : list string := log_with "" self.
Definition ok_or_log_with (s : string) (self : result T E) : option T * list string :=
  match self with
  | Err e => (None, [s +:+ " " +:+ show e])
  | Ok t => (Some t, [])
  end.
Definition ok_or_log (self : result T E) : option T * list string := ok_or_log_with "" self.
End Log.
