(* ===== verification/Text.v ===== *)
(** * Text

    Strings and the bytes they consist of, and decimal numbers as the encoder of
    bencode and the formatter of [std::fmt] write them. *)

From S2P Require Import Prelude.

(** ** Strings *)

Definition string_bytes (s : string) : list Z :=
  (λ a, Z.of_nat (Ascii.nat_of_ascii a)) <$> String.list_ascii_of_string s.
Definition bytes_string (l : list Z) : string :=
  String.string_of_list_ascii ((λ z, Ascii.ascii_of_nat (Z.to_nat z)) <$> l).

Lemma bytes_string_bytes s : bytes_string (string_bytes s) = s.
Proof.
  unfold bytes_string, string_bytes. rewrite <- list_fmap_compose.
  rewrite <- (String.string_of_list_ascii_of_string s) at 2. f_equal.
  rewrite <- (list_fmap_id (String.list_ascii_of_string s)) at 2.
  apply list_fmap_ext. intros i a _. simpl. by rewrite Nat2Z.id, Ascii.ascii_nat_embedding.
Qed.

Lemma string_bytes_string l : bytes_ok l → string_bytes (bytes_string l) = l.
Proof.
  intros Hl. unfold string_bytes, bytes_string. rewrite String.list_ascii_of_string_of_list_ascii.
  rewrite <- list_fmap_compose. rewrite <- (list_fmap_id l) at 2. apply list_fmap_ext. intros i z Hz. simpl.
  eapply Forall_lookup in Hz; [| exact Hl]. unfold is_byte, in_width in Hz. simpl in Hz.
  rewrite Ascii.nat_ascii_embedding; lia.
Qed.

(** ** Decimal numbers *)

Definition in_range (lo hi b : Z) : bool := (lo <=? b) && (b <=? hi).

(** The decimal digits of a natural number *)
Fixpoint digits_fuel (fuel : nat) (n : Z) : list Z :=
  match fuel with
  | O => []
  | S fuel => if n <? 10 then [48 + n] else digits_fuel fuel (n / 10) ++ [48 + n mod 10]
  end.
Definition digits (n : Z) : list Z := digits_fuel (S (Z.to_nat (Z.log2 n))) n.

Definition is_digit (b : Z) : bool := in_range 48 57 b.

Definition all_digits (l : list Z) : Prop := Forall (λ b, is_digit b = true) l.

(** The number that digits stand for *)
Definition number (l : list Z) : Z := fold_left (λ a b, a * 10 + (b - 48)) l 0.

Lemma is_digit_true b : is_digit b = true ↔ 48 ≤ b ≤ 57.
Proof. unfold is_digit, in_range. rewrite andb_true_iff, !Z.leb_le. lia. Qed.

Lemma digits_fuel_spec fuel n :
  0 ≤ n < 2 ^ Z.of_nat fuel → (0 < fuel)%nat →
  all_digits (digits_fuel fuel n) ∧ number (digits_fuel fuel n) = n ∧
  digits_fuel fuel n ≠ [].
Proof.
  revert n. induction fuel as [|fuel IH]; intros n Hn Hf; [lia |]. cbn [digits_fuel].
  destruct (Z.ltb_spec n 10).
  { split_and!; [| cbn; lia | done]. apply Forall_singleton, is_digit_true. lia. }
  rewrite Nat2Z.inj_succ, Z.pow_succ_r in Hn by lia.
  assert (Hq : 0 ≤ n / 10 < 2 ^ Z.of_nat fuel) by (Z.to_euclidean_division_equations; lia).
  assert (Hf' : (0 < fuel)%nat).
  { destruct fuel; [| lia]. simpl in Hn. lia. }
  destruct (IH (n / 10) Hq Hf') as (Hd & Hv & _). split_and!.
  - apply Forall_app_2; [done |]. apply Forall_singleton, is_digit_true.
    Z.to_euclidean_division_equations. lia.
  - unfold number in *. rewrite fold_left_app, Hv. simpl. Z.to_euclidean_division_equations. lia.
  - by destruct (digits_fuel fuel (n / 10)).
Qed.

Lemma digits_spec n :
  0 ≤ n → all_digits (digits n) ∧ number (digits n) = n ∧ digits n ≠ [].
Proof.
  intros Hn. apply digits_fuel_spec; [| lia].
  rewrite Nat2Z.inj_succ, Z2Nat.id by apply Z.log2_nonneg.
  split; [done |]. destruct (decide (n = 0)) as [->|]; [done |]. apply Z.log2_spec. lia.
Qed.

Lemma digits_head n : 0 ≤ n → ∃ d l, digits n = d :: l ∧ 48 ≤ d ≤ 57.
Proof.
  intros Hn. destruct (digits_spec n Hn) as (Hd & _ & Hne). destruct (digits n) as [|d l]; [done |].
  apply Forall_cons in Hd as [Hd _]. exists d, l. split; [done |]. by apply is_digit_true.
Qed.

(** [{}] and [{:0w}] of [std::fmt] on unsigned integers *)
Definition dec (n : Z) : string := bytes_string (digits n).
Definition padded (w : nat) (n : Z) : string :=
  bytes_string (replicate (w - length (digits n)) 48 ++ digits n).

Lemma digits_bytes n : 0 ≤ n → bytes_ok (digits n).
Proof.
  intros Hn. destruct (digits_spec n Hn) as (Hd & _). eapply Forall_impl; [exact Hd |].
  intros b ?%is_digit_true. unfold is_byte, in_width. lia.
Qed.

Lemma number_digits_inj n m : 0 ≤ n → 0 ≤ m → digits n = digits m → n = m.
Proof.
  intros Hn Hm E. destruct (digits_spec n Hn) as (_ & <- & _), (digits_spec m Hm) as (_ & <- & _). by rewrite E.
Qed.

(** A number below [10 ^ w] has at most [w] digits. *)
Lemma digits_fuel_short fuel (w : nat) n :
  0 ≤ n < 10 ^ Z.of_nat w → (0 < w)%nat → (length (digits_fuel fuel n) ≤ w)%nat.
Proof.
  revert w n. induction fuel as [|fuel IH]; intros w n Hn Hw; cbn [digits_fuel]; [simpl; lia |].
  destruct (Z.ltb_spec n 10); [simpl; lia |]. rewrite length_app. simpl.
  destruct w as [|w]; [lia |]. rewrite Nat2Z.inj_succ, Z.pow_succ_r in Hn by lia.
  assert (Hw' : (0 < w)%nat) by (destruct w; [simpl in Hn; lia | lia]).
  assert (length (digits_fuel fuel (n / 10)) ≤ w)%nat; [| lia].
  apply IH; [| done]. Z.to_euclidean_division_equations. lia.
Qed.

Lemma number_zeros j l : number (replicate j 48 ++ l) = number l.
Proof. induction j as [|j IH]; [done | exact IH]. Qed.

Lemma length_bytes_string l : String.length (bytes_string l) = length l.
Proof. induction l as [|b l IH]; [done |]. cbn [length]. rewrite <- IH. reflexivity. Qed.

Lemma bytes_string_inj l l' : bytes_ok l → bytes_ok l' → bytes_string l = bytes_string l' → l = l'.
Proof. intros Hl Hl' E. by rewrite <- (string_bytes_string l), <- (string_bytes_string l'), E. Qed.

Lemma padded_bytes w n : 0 ≤ n → bytes_ok (replicate (w - length (digits n)) 48 ++ digits n).
Proof.
  intros Hn. apply Forall_app. split; [by apply Forall_replicate | by apply digits_bytes].
Qed.

Lemma padded_inj w n m : 0 ≤ n → 0 ≤ m → padded w n = padded w m → n = m.
Proof.
  intros Hn Hm E%bytes_string_inj; [| by apply padded_bytes..].
  destruct (digits_spec n Hn) as (_ & <- & _), (digits_spec m Hm) as (_ & <- & _).
  by rewrite <- (number_zeros (w - length (digits n))), E, number_zeros.
Qed.

Lemma padded_length (w : nat) n : 0 ≤ n < 10 ^ Z.of_nat w → (0 < w)%nat → String.length (padded w n) = w.
Proof.
  intros Hn Hw. unfold padded. rewrite length_bytes_string, length_app, length_replicate.
  pose proof (digits_fuel_short (S (Z.to_nat (Z.log2 n))) w n Hn Hw). unfold digits. lia.
Qed.

(** *** Texts one after the other *)

Lemma string_app_assoc (a b c : string) : ((a +:+ b) +:+ c = a +:+ (b +:+ c))%string.
Proof. induction a as [|x a IH]; [done | exact (f_equal (String x) IH)]. Qed.

Lemma string_app_nil_r (a : string) : (a +:+ "" = a)%string.
Proof. induction a as [|x a IH]; [done | exact (f_equal (String x) IH)]. Qed.

Lemma string_length_app (a b : string) : (String.length (a +:+ b) = String.length a + String.length b)%nat.
Proof. induction a as [|x a IH]; [done | exact (f_equal S IH)]. Qed.

(** Texts of the same length in front can be told apart. *)
Lemma string_app_inj (a a' b b' : string) :
  String.length a = String.length a' → (a +:+ b = a' +:+ b')%string → a = a' ∧ b = b'.
Proof.
  revert a'. induction a as [|x a IH]; intros [|x' a'] Hl E; [done.. |].
  injection Hl as Hl. injection E as -> E. by destruct (IH a' Hl E) as [-> ->].
Qed.

Lemma string_app_cancel (a b b' : string) : (a +:+ b = a +:+ b')%string → b = b'.
Proof. by intros [_ E]%string_app_inj. Qed.
