(* ===== verification/Externals.v ===== *)
(** * Concrete instances of the external functions

    The components take the functions of third-party crates as parameters. The
    instances of this file serve examples, tests and what is proved of CRC-32C, to
    show that the hypotheses on those parameters can be met and to evaluate
    the definitions on concrete data. *)

From S2P Require Import Prelude Text.
From Stdlib Require Import Btauto.

(** CRC-32C (Castagnoli), bit by bit, with the reflected polynomial. *)
Fixpoint crc32c_bits (n : nat) (c : Z) : Z :=
  match n with
  | O => c
  | S n =>
      crc32c_bits n (if Z.odd c then Z.lxor (Z.shiftr c 1) 0x82f63b78 else Z.shiftr c 1)
  end.
Definition crc32c_table_free (l : list Z) : Z :=
  wrap 32 (Z.lxor (fold_left (λ c b, crc32c_bits 8 (Z.lxor c b)) l 0xffffffff) 0xffffffff).

Lemma crc32c_table_free_u32 l : in_width 32 (crc32c_table_free l).
Proof. by apply wrap_in_width. Qed.

(** The check value of the CRC catalogue: the checksum of "123456789". *)
Example crc32c_check : crc32c_table_free [49; 50; 51; 52; 53; 54; 55; 56; 57] = 0xe3069283.
Proof. reflexivity. Qed.

(** One bit of the checksum *)
Definition crc32c_bit (c : Z) : Z := if Z.odd c then Z.lxor (Z.shiftr c 1) 0x82f63b78 else Z.shiftr c 1.

Lemma crc32c_bit_lxor a b : crc32c_bit (Z.lxor a b) = Z.lxor (crc32c_bit a) (crc32c_bit b).
Proof.
  unfold crc32c_bit. rewrite <- !Z.bit0_odd, Z.lxor_spec, !Z.bit0_odd, Z.shiftr_lxor.
  destruct (Z.odd a), (Z.odd b); simpl; apply Z.bits_inj'; intros i _; rewrite ?Z.lxor_spec; btauto.
Qed.

Lemma crc32c_bits_lxor n a b : crc32c_bits n (Z.lxor a b) = Z.lxor (crc32c_bits n a) (crc32c_bits n b).
Proof.
  revert a b. induction n as [|n IH]; intros a b; [done |].
  cbn [crc32c_bits]. fold (crc32c_bit (Z.lxor a b)) (crc32c_bit a) (crc32c_bit b). by rewrite crc32c_bit_lxor.
Qed.

Lemma crc32c_bits_add n m c : crc32c_bits (n + m) c = crc32c_bits m (crc32c_bits n c).
Proof. revert c. induction n as [|n IH]; intros c; [done |]. apply IH. Qed.

(** Zeros are shifted out. *)
Lemma crc32c_bits_shifted n b : crc32c_bits n (Z.shiftl b (Z.of_nat n)) = b.
Proof.
  induction n as [|n IH]; [apply Z.shiftl_0_r |]. cbn [crc32c_bits].
  assert (Z.shiftl b (Z.of_nat (S n)) = 2 * Z.shiftl b (Z.of_nat n)) as ->.
  { rewrite !Z.shiftl_mul_pow2 by lia. rewrite Nat2Z.inj_succ, Z.pow_succ_r by lia. lia. }
  rewrite Z.odd_mul. simpl andb. cbv iota. rewrite Z.shiftr_div_pow2 by done.
  change (2 ^ 1) with 2. rewrite Z.mul_comm, Z.div_mul by done. apply IH.
Qed.

(** A register of 32 bits loses nothing: the highest bit of the polynomial tells
    which bit was shifted out. *)
Lemma crc32c_bit_ok c : in_width 32 c → in_width 32 (crc32c_bit c).
Proof. intros Hc. unfold crc32c_bit. case_match; auto with width lia. Qed.

Lemma crc32c_bits_ok n c : in_width 32 c → in_width 32 (crc32c_bits n c).
Proof.
  revert c. induction n as [|n IH]; intros c Hc; [done |]. apply IH, (crc32c_bit_ok c Hc).
Qed.

Lemma crc32c_bits_zero n c : in_width 32 c → crc32c_bits n c = 0 → c = 0.
Proof.
  revert c. induction n as [|n IH]; intros c Hc; [done |]. intros E%(IH (crc32c_bit c)); [| by apply crc32c_bit_ok].
  unfold crc32c_bit in E. pose proof (Z.div2_odd c) as Hd. rewrite Z.div2_spec in Hd.
  destruct (Z.odd c); cbn [Z.b2z] in Hd; [| lia]. apply Z.lxor_eq in E. destruct Hc. lia.
Qed.

Lemma crc32c_bits_inj n a b : in_width 32 a → in_width 32 b → crc32c_bits n a = crc32c_bits n b → a = b.
Proof.
  intros Ha Hb E. apply Z.lxor_eq, (crc32c_bits_zero n); [by auto with width lia |].
  by rewrite crc32c_bits_lxor, E, Z.lxor_nilpotent.
Qed.

Definition crc32c_register (c : Z) (l : list Z) : Z := fold_left (λ c b, crc32c_bits 8 (Z.lxor c b)) l c.

Lemma byte_u32 b : is_byte b → in_width 32 b.
Proof. unfold is_byte, in_width. lia. Qed.

Lemma crc32c_register_ok l c : bytes_ok l → in_width 32 c → in_width 32 (crc32c_register c l).
Proof.
  intros Hl. revert c. induction Hl as [|b l Hb%byte_u32 _ IH]; intros c Hc; [done |].
  apply IH, crc32c_bits_ok. auto with width lia.
Qed.

Lemma crc32c_register_inj l c c' :
  bytes_ok l → in_width 32 c → in_width 32 c' → crc32c_register c l = crc32c_register c' l → c = c'.
Proof.
  intros Hl. revert c c'. induction Hl as [|b l Hb%byte_u32 _ IH]; intros c c' Hc Hc' E; [done |].
  apply IH in E; [| apply crc32c_bits_ok; by auto with width lia..].
  apply crc32c_bits_inj in E; [| by auto with width lia..].
  by rewrite <- (Z.lxor_0_r c), <- (Z.lxor_nilpotent b), <- Z.lxor_assoc, E, Z.lxor_assoc, Z.lxor_nilpotent, Z.lxor_0_r.
Qed.

(** Bytes as a number, the first the lowest *)
Fixpoint word (l : list Z) : Z := match l with [] => 0 | b :: l => Z.lxor b (Z.shiftl (word l) 8) end.

Lemma word_cons b l : is_byte b → word (b :: l) = word l * 256 + b.
Proof.
  intros Hb. cbn [word]. rewrite <- (lor_shiftl_add 8) by done. rewrite Z.lxor_comm, Z.lxor_lor; [done |].
  apply Z.bits_inj'. intros i ?. unfold is_byte in Hb. destruct (Z.ltb_spec i 8); bitwise.
Qed.

Lemma word_spec l : bytes_ok l → in_width (8 * Z.of_nat (length l)) (word l) ∧
  ∀ l', bytes_ok l' → length l' = length l → word l = word l' → l = l'.
Proof.
  induction 1 as [|b l Hb _ [IH IHi]]; [by split; [| by intros []] |].
  rewrite word_cons by done. split.
  - unfold is_byte, in_width in *. rewrite length_cons. replace (8 * Z.of_nat (S (length l))) with (8 * Z.of_nat (length l) + 8) by lia.
    rewrite Z.pow_add_r by lia. change (2 ^ 8) with 256 in *. nia.
  - intros [|b' l']; [done |]. intros [Hb' Hl']%Forall_cons Hlen. rewrite word_cons by done.
    intros E. unfold is_byte, in_width in *. simpl in *.
    assert (b = b') as -> by lia. f_equal. apply IHi; [done | lia | lia].
Qed.

Lemma crc32c_register_word l c :
  crc32c_register c l = crc32c_bits (8 * length l) (Z.lxor c (word l)).
Proof.
  revert c. induction l as [|b l IH]; intros c; [by rewrite Z.lxor_0_r |].
  change (crc32c_register c (b :: l)) with (crc32c_register (crc32c_bits 8 (Z.lxor c b)) l).
  rewrite IH. rewrite <- (crc32c_bits_shifted 8 (word l)) at 1.
  rewrite <- crc32c_bits_lxor, <- crc32c_bits_add. cbn [word length]. rewrite Z.lxor_assoc. f_equal. lia.
Qed.

(** Texts that differ in their first four bytes only have different checksums. *)
Lemma crc32c_prefix_inj a b s :
  bytes_ok a → bytes_ok b → length a = 4%nat → length b = 4%nat → bytes_ok s →
  crc32c_table_free (a ++ s) = crc32c_table_free (b ++ s) → a = b.
Proof.
  intros Ha Hb Hla Hlb Hs. unfold crc32c_table_free. rewrite !fold_left_app.
  fold (crc32c_register 0xffffffff a) (crc32c_register 0xffffffff b).
  fold (crc32c_register (crc32c_register 0xffffffff a) s) (crc32c_register (crc32c_register 0xffffffff b) s).
  destruct (word_spec a Ha) as [Hwa Hinj]. destruct (word_spec b Hb) as [Hwb _].
  rewrite Hla in Hwa. rewrite Hlb in Hwb. simpl in Hwa, Hwb.
  assert (Hall : in_width 32 0xffffffff) by done.
  pose proof (crc32c_register_ok a _ Ha Hall) as Hra. pose proof (crc32c_register_ok b _ Hb Hall) as Hrb.
  pose proof (crc32c_register_ok s _ Hs Hra) as Hrsa. pose proof (crc32c_register_ok s _ Hs Hrb) as Hrsb.
  rewrite !wrap_id by auto with width lia. intros E.
  apply (f_equal (λ z, Z.lxor z 0xffffffff)) in E. rewrite !Z.lxor_assoc, Z.lxor_nilpotent, !Z.lxor_0_r in E.
  apply crc32c_register_inj in E; [| done..]. rewrite !crc32c_register_word, Hla, Hlb in E.
  apply crc32c_bits_inj in E; [| by auto with width lia..].
  apply (f_equal (Z.lxor 0xffffffff)) in E. rewrite <- !Z.lxor_assoc, Z.lxor_nilpotent, !Z.lxor_0_l in E.
  apply Hinj; [done | congruence | done].
Qed.

(** ** Texts *)

Section Texts.
#[local] Open Scope Z_scope.

(** The [hex] crate: two digits for each byte, lower case; both cases are read. *)
Definition hex_digit (d : Z) : Z := if d <? 10 then 48 + d else 87 + d.
Definition hex_value (c : Z) : option Z :=
  if in_range 48 57 c then Some (c - 48)
  else if in_range 97 102 c then Some (c - 87)
  else if in_range 65 70 c then Some (c - 55)
  else None.
Definition hex_digits (l : list Z) : list Z := concat ((λ b, [hex_digit (b / 16); hex_digit (b mod 16)]) <$> l).
Definition hex_text (l : list Z) : string := bytes_string (hex_digits l).

Fixpoint hex_pairs (l : list Z) : option (list Z) :=
  match l with
  | [] => Some []
  | a :: b :: l => a ← hex_value a; b ← hex_value b; l ← hex_pairs l; Some (a * 16 + b :: l)
  | _ => None
  end.
Definition hex_decode_text (n : nat) (s : string) : option (list Z) :=
  l ← hex_pairs (string_bytes s); if Nat.eqb (length l) n then Some l else None.

Lemma hex_value_digit d : 0 ≤ d < 16 → hex_value (hex_digit d) = Some d.
Proof.
  intros Hd. unfold hex_value, hex_digit, in_range.
  destruct (Z.ltb_spec d 10); repeat case_match; rewrite ?andb_true_iff, ?andb_false_iff, ?Z.leb_le, ?Z.leb_gt in *;
    try f_equal; lia.
Qed.

Lemma hex_digit_byte d : 0 ≤ d < 16 → is_byte (hex_digit d) ∧ hex_digit d ≠ 32.
Proof. intros Hd. unfold hex_digit, is_byte, in_width. destruct (Z.ltb_spec d 10); simpl; lia. Qed.

Lemma byte_digits b : is_byte b → 0 ≤ b / 16 < 16 ∧ 0 ≤ b mod 16 < 16.
Proof. unfold is_byte, in_width. simpl. intros. Z.to_euclidean_division_equations. lia. Qed.

Lemma hex_digits_ok l : bytes_ok l → Forall (λ c, is_byte c ∧ c ≠ 32) (hex_digits l).
Proof.
  intros Hl. apply Forall_concat, Forall_fmap. eapply Forall_impl; [exact Hl |]. intros b [??]%byte_digits.
  by repeat constructor; apply hex_digit_byte.
Qed.

Lemma hex_pairs_digits l : bytes_ok l → hex_pairs (hex_digits l) = Some l.
Proof.
  intros Hl. induction Hl as [|b l Hb Hl IH]; [done |]. destruct (byte_digits b Hb).
  unfold hex_digits in *. cbn [fmap list_fmap concat app hex_pairs]. rewrite !hex_value_digit by done.
  cbn [mbind option_bind]. rewrite IH. cbn [mbind option_bind]. do 2 f_equal.
  Z.to_euclidean_division_equations. lia.
Qed.

Lemma hex_text_bytes l : bytes_ok l → string_bytes (hex_text l) = hex_digits l.
Proof.
  intros Hl. apply string_bytes_string. eapply Forall_impl; [by apply hex_digits_ok |]. by intros c [].
Qed.

(** What is written is read. *)
Lemma hex_decode_hex n l : bytes_ok l → length l = n → hex_decode_text n (hex_text l) = Some l.
Proof.
  intros Hl Hn. unfold hex_decode_text. rewrite hex_text_bytes, hex_pairs_digits by done.
  cbn [mbind option_bind]. by rewrite Hn, Nat.eqb_refl.
Qed.

Lemma hex_text_inj l l' : bytes_ok l → bytes_ok l' → hex_text l = hex_text l' → l = l'.
Proof.
  intros Hl Hl' E. apply (f_equal string_bytes) in E. rewrite !hex_text_bytes in E by done.
  apply (f_equal hex_pairs) in E. rewrite !hex_pairs_digits in E by done. by injection E.
Qed.

Lemma hex_text_plain l :
  bytes_ok l → Forall (λ c, c ≠ Ascii.ascii_of_nat 32) (String.list_ascii_of_string (hex_text l)).
Proof.
  intros Hl. unfold hex_text, bytes_string. rewrite String.list_ascii_of_string_of_list_ascii.
  apply Forall_fmap. eapply Forall_impl; [by apply hex_digits_ok |]. intros c [Hc Hne] E. cbn in E.
  apply (f_equal Ascii.nat_of_ascii) in E. unfold is_byte, in_width in Hc. simpl in Hc.
  rewrite !Ascii.nat_ascii_embedding in E by lia. lia.
Qed.

(** The [base64] crate with its standard alphabet and padding *)
Definition base64_char (d : Z) : Z :=
  if d <? 26 then 65 + d else if d <? 52 then 71 + d else if d <? 62 then d - 4 else if d =? 62 then 43 else 47.
Fixpoint base64_chars (l : list Z) : list Z :=
  match l with
  | [] => []
  | [a] => [base64_char (a / 4); base64_char (a mod 4 * 16); 61; 61]
  | [a; b] => [base64_char (a / 4); base64_char (a mod 4 * 16 + b / 16); base64_char (b mod 16 * 4); 61]
  | a :: b :: c :: l =>
      base64_char (a / 4) :: base64_char (a mod 4 * 16 + b / 16) :: base64_char (b mod 16 * 4 + c / 64)
      :: base64_char (c mod 64) :: base64_chars l
  end.
Definition base64_text (l : list Z) : string := bytes_string (base64_chars l).

Definition base64_value (c : Z) : option Z :=
  if in_range 65 90 c then Some (c - 65)
  else if in_range 97 122 c then Some (c - 71)
  else if in_range 48 57 c then Some (c + 4)
  else if c =? 43 then Some 62
  else if c =? 47 then Some 63
  else None.
Fixpoint base64_groups (l : list Z) : option (list Z) :=
  match l with
  | [] => Some []
  | a :: b :: c :: d :: l =>
      a ← base64_value a; b ← base64_value b;
      let first := a * 4 + b / 16 in
      if (c =? 61) && (d =? 61) && bool_decide (l = []) then Some [first]
      else
        c ← base64_value c;
        let second := b mod 16 * 16 + c / 4 in
        if (d =? 61) && bool_decide (l = []) then Some [first; second]
        else d ← base64_value d; l ← base64_groups l; Some (first :: second :: c mod 4 * 64 + d :: l)
  | _ => None
  end.
Definition base64_decode (s : string) : option (list Z) := base64_groups (string_bytes s).

(** Lists in groups of three *)
Lemma list_ind3 {A} (P : list A → Prop) :
  P [] → (∀ a, P [a]) → (∀ a b, P [a; b]) → (∀ a b c l, P l → P (a :: b :: c :: l)) → ∀ l, P l.
Proof.
  intros H0 H1 H2 H3. fix IH 1. intros [|a [|b [|c l]]]; [apply H0 | apply H1 | apply H2 | apply H3, IH].
Qed.

Lemma base64_char_byte d : 0 ≤ d < 64 → is_byte (base64_char d).
Proof.
  intros Hd. unfold base64_char, is_byte, in_width. repeat case_match; simpl; lia.
Qed.

Lemma base64_char_inj d e : 0 ≤ d < 64 → 0 ≤ e < 64 → base64_char d = base64_char e → d = e.
Proof. intros Hd He. unfold base64_char. repeat case_match; lia. Qed.

(** The four digits of a group *)
Lemma base64_group a b c :
  is_byte a → is_byte b → is_byte c →
  0 ≤ a / 4 < 64 ∧ 0 ≤ a mod 4 * 16 + b / 16 < 64 ∧ 0 ≤ b mod 16 * 4 + c / 64 < 64 ∧ 0 ≤ c mod 64 < 64.
Proof. unfold is_byte, in_width. simpl. intros. Z.to_euclidean_division_equations. lia. Qed.

Lemma base64_group_inj a b c a' b' c' :
  is_byte a → is_byte b → is_byte c → is_byte a' → is_byte b' → is_byte c' →
  base64_char (a / 4) = base64_char (a' / 4) →
  base64_char (a mod 4 * 16 + b / 16) = base64_char (a' mod 4 * 16 + b' / 16) →
  base64_char (b mod 16 * 4 + c / 64) = base64_char (b' mod 16 * 4 + c' / 64) →
  base64_char (c mod 64) = base64_char (c' mod 64) → a = a' ∧ b = b' ∧ c = c'.
Proof.
  intros Ha Hb Hc Ha' Hb' Hc'.
  destruct (base64_group a b c Ha Hb Hc) as (?&?&?&?), (base64_group a' b' c' Ha' Hb' Hc') as (?&?&?&?).
  intros E1%base64_char_inj E2%base64_char_inj E3%base64_char_inj E4%base64_char_inj; try done.
  unfold is_byte, in_width in *. simpl in *. Z.to_euclidean_division_equations. lia.
Qed.

Lemma base64_chars_ok l : bytes_ok l → bytes_ok (base64_chars l).
Proof.
  induction l as [|a|a b|a b c l IH] using list_ind3; intros Hl; [constructor | ..];
    repeat (let H := fresh in apply Forall_cons in Hl as [H Hl]).
  - destruct (base64_group a 0 0) as (?&?&?&?); [done..|]. rewrite Zdiv_0_l, Z.add_0_r in *.
    by repeat constructor; try apply base64_char_byte.
  - destruct (base64_group a b 0) as (?&?&?&?); [done..|]. rewrite Zdiv_0_l, Z.add_0_r in *.
    by repeat constructor; try apply base64_char_byte.
  - destruct (base64_group a b c) as (?&?&?&?); [done..|]. cbn [base64_chars].
    do 4 (constructor; [by apply base64_char_byte |]). by apply IH.
Qed.

Lemma base64_chars_inj l l' :
  bytes_ok l → bytes_ok l' → length l = length l' → base64_chars l = base64_chars l' → l = l'.
Proof.
  revert l'. induction l as [|a|a b|a b c l IH] using list_ind3; intros l' Hl Hl' Hn E;
    (destruct l' as [|a' [|b' [|c' l']]]; try done);
    unfold bytes_ok in *;
    repeat match goal with H : Forall is_byte (_ :: _) |- _ => apply Forall_cons in H as [? H] end;
    cbn [base64_chars] in E.
  - injection E as E1 E2. destruct (base64_group_inj a 0 0 a' 0 0) as (-> & _); try done;
      by rewrite ?Zdiv_0_l, ?Z.add_0_r.
  - injection E as E1 E2 E3. destruct (base64_group_inj a b 0 a' b' 0) as (-> & -> & _); try done;
      by rewrite ?Zdiv_0_l, ?Z.add_0_r.
  - injection E as E1 E2 E3 E4 E. destruct (base64_group_inj a b c a' b' c') as (-> & -> & ->); try done.
    injection Hn as Hn. by rewrite (IH l').
Qed.

Lemma length_base64_chars l : length (base64_chars l) = (4 * ((length l + 2) / 3))%nat.
Proof.
  induction l as [|a|a b|a b c l IH] using list_ind3; [done..|].
  cbn [base64_chars length]. rewrite IH. replace (S (S (S (length l))) + 2)%nat with (length l + 2 + 1 * 3)%nat by lia.
  rewrite Nat.div_add by lia. lia.
Qed.
End Texts.

Example base64_check : base64_text [104; 101; 108; 108; 111] = "aGVsbG8="%string.
Proof. reflexivity. Qed.
Example base64_decode_check :
  forallb (λ l, bool_decide (base64_decode (base64_text l) = Some l))
    [[]; [104]; [104; 101]; [104; 101; 108]; [0; 255; 16; 131; 63]] = true.
Proof. reflexivity. Qed.
Example hex_check : hex_decode_text 3 "00fFa1" = Some [0; 255; 161].
Proof. reflexivity. Qed.
