(* ===== verification/Net.v ===== *)
(** * Network addresses

    The types of [std::net] the program uses and the two extension traits of
    [src/utils.rs] on them ([Ipv4AddrExt], [Ipv6AddrExt]). *)

From S2P Require Import Prelude.

(** [std::net::IpAddr], each address as its octets in network order. *)
Inductive IpAddr : Type :=
  | V4 (octets : list Z)
  | V6 (octets : list Z).

Definition ip_ok (ip : IpAddr) : Prop :=
  match ip with
  | V4 o => bytes_ok o ∧ length o = 4%nat
  | V6 o => bytes_ok o ∧ length o = 16%nat
  end.

(** [std::net::SocketAddr]: a v6 socket address also carries a flow label and
    a scope id. *)
Inductive SocketAddr : Type :=
  | SocketV4 (octets : list Z) (port : Z)
  | SocketV6 (octets : list Z) (port flowinfo scope_id : Z).

#[export] Instance IpAddr_eq_dec : EqDecision IpAddr.
Proof. solve_decision. Defined.
#[export] Instance SocketAddr_eq_dec : EqDecision SocketAddr.
Proof. solve_decision. Defined.
#[export] Program Instance SocketAddr_countable : Countable SocketAddr :=
  inj_countable'
    (λ a, match a with
          | SocketV4 o p => inl (o, p)
          | SocketV6 o p f s => inr (o, p, f, s)
          end)
    (λ s, match s with
          | inl (o, p) => SocketV4 o p
          | inr (o, p, f, s) => SocketV6 o p f s
          end) _.
Next Obligation. by intros []. Qed.

(** [SocketAddr::new]: flow label and scope id are zero. *)
Definition socket_addr (ip : IpAddr) (port : Z) : SocketAddr :=
  match ip with
  | V4 o => SocketV4 o port
  | V6 o => SocketV6 o port 0 0
  end.

Definition sock_ip (a : SocketAddr) : IpAddr :=
  match a with
  | SocketV4 o _ => V4 o
  | SocketV6 o _ _ _ => V6 o
  end.

Definition sock_port (a : SocketAddr) : Z :=
  match a with
  | SocketV4 _ p => p
  | SocketV6 _ p _ _ => p
  end.

Definition sock_ok (a : SocketAddr) : Prop :=
  ip_ok (sock_ip a) ∧ in_width 16 (sock_port a).

(** The addresses a flow label and scope id of zero leave determined by ip and
    port: every v4 address, and the v6 addresses [SocketAddr::new] builds. *)
Definition sock_plain (a : SocketAddr) : Prop := socket_addr (sock_ip a) (sock_port a) = a.

(** [IpAddr::octets().to_vec()] of either family. *)
Definition ip_octets (ip : IpAddr) : list Z :=
  match ip with
  | V4 o => o
  | V6 o => o
  end.

Lemma socket_addr_plain ip port : sock_plain (socket_addr ip port).
Proof. by destruct ip. Qed.
Lemma socket_addr_ip ip port : sock_ip (socket_addr ip port) = ip.
Proof. by destruct ip. Qed.
Lemma socket_addr_port ip port : sock_port (socket_addr ip port) = port.
Proof. by destruct ip. Qed.
#[export] Hint Rewrite socket_addr_ip socket_addr_port : net.

Lemma ip_octets_ok ip : ip_ok ip → bytes_ok (ip_octets ip).
Proof. by destruct ip as [o|o]; intros []. Qed.
#[export] Hint Resolve ip_octets_ok : bytes.

(** [Ipv4AddrExt::to_u32] *)
Definition to_u32 (octets : list Z) : Z := from_be octets.

(** [Ipv6AddrExt::ms_u64]: the first eight of the sixteen octets. *)
Definition ms_u64 (octets : list Z) : Z := from_be (take 8 octets).
