(* ===== verification/U160.v ===== *)
(** * 160-bit identifiers

    [src/u160.rs]: node identifiers and infohashes as a pair of a [u128] and a
    [u32], with the bit operators, the XOR distance, the byte codec and the
    BEP 42 derivation of an identifier from an address. *)

From S2P Require Import Prelude Externals Net.

(** [struct U160] *)
Record U160 : Type := mkU160 { msbytes : Z; lsbytes : Z }.

#[export] Instance U160_eq_dec : EqDecision U160.
Proof. solve_decision. Defined.
#[export] Program Instance U160_countable : Countable U160 :=
  inj_countable' (λ u, (msbytes u, lsbytes u)) (λ p, mkU160 p.1 p.2) _.
Next Obligation. by intros []. Qed.

(** The fields are a [u128] and a [u32]. *)
Definition u160_ok (u : U160) : Prop :=
  in_width 128 (msbytes u) ∧ in_width 32 (lsbytes u).

(** The 160-bit number the pair stands for. *)
Definition value (u : U160) : Z := Z.lor (Z.shiftl (msbytes u) 32) (lsbytes u).

(** ** The operations of [impl U160] *)

Definition new (ms ls : Z) : U160 := mkU160 ms ls.
Definition min : U160 := mkU160 0 0.
Definition max : U160 := mkU160 (Z.ones 128) (Z.ones 32).

(** The derived [PartialEq] and [Ord]: lexicographic on the two fields. *)
Definition u160_eqb (a b : U160) : bool :=
  (msbytes a =? msbytes b) && (lsbytes a =? lsbytes b).
Definition u160_cmp (a b : U160) : comparison :=
  match msbytes a ?= msbytes b with
  | Eq => lsbytes a ?= lsbytes b
  | c => c
  end.
Definition u160_ltb (a b : U160) : bool :=
  match u160_cmp a b with Lt => true | _ => false end.

(** [BitXor], [BitAnd], [BitOr], [Not] *)
Definition bitxor (a b : U160) : U160 :=
  new (Z.lxor (msbytes a) (msbytes b)) (Z.lxor (lsbytes a) (lsbytes b)).
Definition bitand (a b : U160) : U160 :=
  new (Z.land (msbytes a) (msbytes b)) (Z.land (lsbytes a) (lsbytes b)).
Definition bitor (a b : U160) : U160 :=
  new (Z.lor (msbytes a) (msbytes b)) (Z.lor (lsbytes a) (lsbytes b)).
Definition not (a : U160) : U160 :=
  new (Z.lxor (Z.ones 128) (msbytes a)) (Z.lxor (Z.ones 32) (lsbytes a)).

Definition distance (a b : U160) : U160 := bitxor a b.
Definition ms_u128 (a : U160) : Z := msbytes a.
Definition u160_ms_u64 (a : U160) : Z := wrap 64 (Z.shiftr (msbytes a) 64).

(** [impl Shr<u8>]: [rhs] is any [u8]. *)
Definition shr (p : profile) (self : U160) (rhs : Z) : run U160 :=
  let msshift := Z.min rhs 127 in
  let msremain := rhs - msshift in
  let! ms := (if 0 <? msremain then Ret 0 else shr_u p 128 (msbytes self) msshift) in
  let! t := shl_u p 128 (msbytes self) (127 - msshift) in
  let! t := shr_u p 128 t msremain in
  let! t := shr_u p 128 t (127 - 32) in
  let overflow := wrap 32 t in
  let lsshift := Z.min rhs 31 in
  let lsremain := rhs - lsshift in
  let! ls := (if 0 <? lsremain then Ret 0 else shr_u p 32 (lsbytes self) lsshift) in
  Ret (new ms (Z.lor ls overflow)).

(** [impl Shl<u8>] *)
Definition shl (p : profile) (self : U160) (rhs : Z) : run U160 :=
  let lsshift := Z.min rhs 31 in
  let lsremain := rhs - lsshift in
  let! ls := (if 0 <? lsremain then Ret 0 else shl_u p 32 (lsbytes self) lsshift) in
  let! overflow :=
    (if (lsshift =? 0) || (127 <? lsremain) then Ret 0
     else let! t := shr_u p 32 (lsbytes self) (32 - lsshift) in
          shl_u p 128 t lsremain) in
  let msshift := Z.min rhs 127 in
  let msremain := rhs - msshift in
  let! ms := (if 0 <? msremain then Ret 0 else shl_u p 128 (msbytes self) msshift) in
  Ret (new (Z.lor ms overflow) ls).

(** [get_bit]: the bit at a big-endian index, [false] past the end. *)
Definition get_bit (self : U160) (be_index : Z) : bool :=
  if 160 <=? be_index then false
  else if 128 <=? be_index then
    negb (Z.land (wrap 32 (Z.shiftl 1 (31 - (be_index - 128)))) (lsbytes self) =? 0)
  else
    negb (Z.land (wrap 128 (Z.shiftl 1 (127 - be_index))) (msbytes self) =? 0).

(** [from_be_bytes] on a 20-byte array and [to_be_bytes] *)
Definition from_be_bytes (bytes : list Z) : U160 :=
  new (from_be (take 16 bytes)) (from_be (drop 16 bytes)).
Definition to_be_bytes (self : U160) : list Z :=
  to_be 16 (msbytes self) ++ to_be 4 (lsbytes self).

(** [U160::rand], its two random draws as arguments *)
Definition rand (rand_ms rand_ls : Z) : U160 := mkU160 rand_ms rand_ls.

(** [to_hex] and [from_hex], over the encoder and decoder of the [hex] crate;
    [decode_to_slice] fails unless the text decodes to exactly the slice. *)
Section Hex.
Context (hex_encode : list Z → string).
Context (hex_decode_to_slice : nat → string → option (list Z)).

Definition to_hex (self : U160) : string := hex_encode (to_be_bytes self).
Definition from_hex (hex : string) : run U160 :=
  let! bytes := unwrap (hex_decode_to_slice 20 hex) in
  Ret (from_be_bytes bytes).
End Hex.

(** ** Identifiers bound to an address (BEP 42)

    [crc32c] is the function of the [crc32c] crate; each call of
    [rand::random] is an argument. *)
Section Bep42.
Context (crc32c : list Z → Z).

(** The checksum of the masked address and the three bits [r]. *)
Definition ip_prefix (addr : IpAddr) (r : Z) : Z :=
  match addr with
  | V4 ip => crc32c (to_be 4 (Z.lor (Z.land (to_u32 ip) 0x030f3fff) (wrap 32 (Z.shiftl r 29))))
  | V6 ip => crc32c (to_be 8 (Z.lor (Z.land (ms_u64 ip) 0x0103070f1f3f7fff)
                                    (wrap 64 (Z.shiftl r 61))))
  end.

Definition from_ip_with_r (addr : IpAddr) (r rand_ms rand_ls : Z) : U160 :=
  let pfx := ip_prefix addr r in
  let ms := Z.lor (Z.land rand_ms 0x000007ffffffffffffffffffffffffff)
                  (wrap 128 (Z.shiftl (Z.land pfx 0xfffff800) 96)) in
  let ls := Z.lor (Z.land rand_ls 0xfffffff8) (Z.land r 0x07) in
  new ms ls.

Definition from_ip (addr : IpAddr) (rand_r rand_ms rand_ls : Z) : U160 :=
  from_ip_with_r addr (Z.land rand_r 0x07) rand_ms rand_ls.

Definition validate (self : U160) (addr : IpAddr) (rand_ms rand_ls : Z) : bool :=
  let r := Z.land (default 0 (to_be 4 (lsbytes self) !! 3%nat)) 0x07 in
  let test := from_ip_with_r addr r rand_ms rand_ls in
  let filter := new 0xfffff800000000000000000000000000 0x00000007 in
  u160_eqb (bitand self filter) (bitand test filter).
End Bep42.

(** ** The pair as a number *)

Lemma testbit_value u i :
  u160_ok u →
  Z.testbit (value u) i =
  if i <? 32 then Z.testbit (lsbytes u) i else Z.testbit (msbytes u) (i - 32).
Proof.
  intros [Hm Hl]. unfold value. rewrite Z.lor_spec, testbit_shiftl.
  destruct (Z.ltb_spec i 32).
  - rewrite (Z.testbit_neg_r (msbytes u)) by lia. by rewrite andb_false_r.
  - rewrite (testbit_out 32 (lsbytes u)) by (done || lia).
    rewrite orb_false_r, (proj2 (Z.leb_le _ _)) by lia. done.
Qed.

Lemma value_add u : u160_ok u → value u = msbytes u * 2 ^ 32 + lsbytes u.
Proof.
  intros [Hm Hl]. unfold value. by rewrite lor_shiftl_add.
Qed.

Lemma value_in_width u : u160_ok u → in_width 160 (value u).
Proof.
  intros Hu. rewrite value_add by done. destruct Hu as [[??] [??]].
  unfold in_width in *. change (2 ^ 160) with (2 ^ 128 * 2 ^ 32). lia.
Qed.

Lemma value_inj a b : u160_ok a → u160_ok b → value a = value b → a = b.
Proof.
  intros Ha Hb. rewrite !value_add by done. destruct a as [ma la], b as [mb lb].
  destruct Ha as [[??] [??]], Hb as [[??] [??]]; simpl in *. intros. f_equal; lia.
Qed.

(** Two values agree when all their bits do. *)
Lemma value_bits_inj a b :
  u160_ok a → u160_ok b →
  (∀ i, 0 ≤ i < 160 → Z.testbit (value a) i = Z.testbit (value b) i) → a = b.
Proof.
  intros Ha Hb Hbit. apply value_inj; [done.. |]. apply Z.bits_inj'. intros i ?.
  destruct (decide (i < 160)); [by apply Hbit |].
  by rewrite !(testbit_out 160) by (lia || by apply value_in_width).
Qed.

(** ** Closure of the operations *)

Lemma min_ok : u160_ok min.
Proof. by split. Qed.
Lemma max_ok : u160_ok max.
Proof. by split. Qed.
Lemma bitxor_ok a b : u160_ok a → u160_ok b → u160_ok (bitxor a b).
Proof. intros [??] [??]. split; simpl; auto with width lia. Qed.
Lemma bitand_ok a b : u160_ok a → u160_ok b → u160_ok (bitand a b).
Proof. intros [??] [??]. split; simpl; auto with width lia. Qed.
Lemma bitor_ok a b : u160_ok a → u160_ok b → u160_ok (bitor a b).
Proof. intros [??] [??]. split; simpl; auto with width lia. Qed.
Lemma not_ok a : u160_ok a → u160_ok (not a).
Proof. intros [??]. split; simpl; apply in_width_lxor; done || lia. Qed.
Lemma distance_ok a b : u160_ok a → u160_ok b → u160_ok (distance a b).
Proof. apply bitxor_ok. Qed.
Lemma from_be_bytes_ok l : bytes_ok l → length l = 20%nat → u160_ok (from_be_bytes l).
Proof.
  intros Hl Hlen. split; simpl.
  - replace 128 with (8 * Z.of_nat (length (take 16 l))) by (rewrite length_take; lia).
    auto with bytes.
  - replace 32 with (8 * Z.of_nat (length (drop 16 l))) by (rewrite length_drop; lia).
    auto with bytes.
Qed.

Create HintDb u160.
#[export] Hint Resolve min_ok max_ok bitxor_ok bitand_ok bitor_ok not_ok distance_ok
  from_be_bytes_ok : u160.

(** The bitwise operators act on the 160-bit number. *)
Lemma value_bitxor a b :
  u160_ok a → u160_ok b → value (bitxor a b) = Z.lxor (value a) (value b).
Proof.
  intros. apply Z.bits_inj'. intros i ?.
  rewrite Z.lxor_spec, !testbit_value by auto with u160. simpl.
  case_match; by rewrite Z.lxor_spec.
Qed.
Lemma value_bitand a b :
  u160_ok a → u160_ok b → value (bitand a b) = Z.land (value a) (value b).
Proof.
  intros. apply Z.bits_inj'. intros i ?.
  rewrite Z.land_spec, !testbit_value by auto with u160. simpl.
  case_match; by rewrite Z.land_spec.
Qed.
Lemma value_bitor a b :
  u160_ok a → u160_ok b → value (bitor a b) = Z.lor (value a) (value b).
Proof.
  intros. apply Z.bits_inj'. intros i ?.
  rewrite Z.lor_spec, !testbit_value by auto with u160. simpl.
  case_match; by rewrite Z.lor_spec.
Qed.

(** ** Order *)

Lemma u160_eqb_eq a b : u160_eqb a b = true ↔ a = b.
Proof.
  unfold u160_eqb. rewrite andb_true_iff, !Z.eqb_eq. destruct a, b; simpl. naive_solver.
Qed.

Lemma u160_cmp_value a b :
  u160_ok a → u160_ok b → u160_cmp a b = (value a ?= value b).
Proof.
  intros Ha Hb. rewrite !value_add by done.
  destruct a as [ma la], b as [mb lb], Ha as [[??] [??]], Hb as [[??] [??]]; simpl in *.
  unfold u160_cmp; simpl.
  destruct (Z.compare_spec ma mb); destruct (Z.compare_spec la lb);
    symmetry; rewrite ?Z.compare_eq_iff, ?Z.compare_lt_iff, ?Z.compare_gt_iff; lia.
Qed.

Lemma u160_ltb_lt a b :
  u160_ok a → u160_ok b → u160_ltb a b = true ↔ value a < value b.
Proof.
  intros. unfold u160_ltb. rewrite u160_cmp_value by done.
  destruct (Z.compare_spec (value a) (value b)); split; (done || lia).
Qed.

(** ** Bits and bytes *)

Lemma land_single_bit w z k :
  0 ≤ k < w → negb (Z.land (wrap w (Z.shiftl 1 k)) z =? 0) = Z.testbit z k.
Proof.
  intros Hk. rewrite wrap_id.
  2:{ rewrite Z.shiftl_1_l. split; [lia | by apply Z.pow_lt_mono_r; lia]. }
  destruct (Z.eqb_spec (Z.land (Z.shiftl 1 k) z) 0) as [E|E]; simpl.
  - pose proof (f_equal (λ x, Z.testbit x k) E) as Hb. simpl in Hb.
    rewrite Z.land_spec, Z.shiftl_1_l, Z.pow2_bits_true, Z.testbit_0_l in Hb by lia. done.
  - destruct (Z.testbit z k) eqn:Hz; [done |]. destruct E.
    apply Z.bits_inj'. intros i ?. rewrite Z.land_spec, Z.shiftl_1_l, Z.testbit_0_l.
    destruct (decide (i = k)) as [->|]; [by rewrite Hz, andb_false_r |].
    by rewrite Z.pow2_bits_false by lia.
Qed.

Lemma get_bit_value u i :
  u160_ok u → 0 ≤ i → get_bit u i = (i <? 160) && Z.testbit (value u) (159 - i).
Proof.
  intros Hu Hi. unfold get_bit. rewrite testbit_value by done.
  destruct (Z.leb_spec 160 i), (Z.leb_spec 128 i), (Z.ltb_spec i 160),
    (Z.ltb_spec (159 - i) 32); try lia; simpl; try done.
  - rewrite land_single_bit by lia. f_equal; lia.
  - rewrite land_single_bit by lia. f_equal; lia.
Qed.

(** The bits of a distance say where two identifiers differ. *)
Lemma get_bit_distance a b i :
  u160_ok a → u160_ok b → 0 ≤ i →
  get_bit (distance a b) i = xorb (get_bit a i) (get_bit b i).
Proof.
  intros. rewrite !get_bit_value by auto with u160.
  unfold distance. rewrite value_bitxor, Z.lxor_spec by done.
  by destruct (i <? 160).
Qed.

Lemma get_bit_inj a b :
  u160_ok a → u160_ok b → (∀ i, 0 ≤ i < 160 → get_bit a i = get_bit b i) → a = b.
Proof.
  intros Ha Hb Hbit. apply value_bits_inj; [done.. |]. intros i Hi.
  specialize (Hbit (159 - i) ltac:(lia)). rewrite !get_bit_value in Hbit by (done || lia).
  rewrite (proj2 (Z.ltb_lt _ _)) in Hbit by lia. simpl in Hbit.
  by replace (159 - (159 - i)) with i in Hbit by lia.
Qed.

Lemma length_to_be_bytes u : length (to_be_bytes u) = 20%nat.
Proof. unfold to_be_bytes. by rewrite length_app, !length_to_be. Qed.
Lemma to_be_bytes_ok u : bytes_ok (to_be_bytes u).
Proof. apply bytes_ok_app. auto with bytes. Qed.
Lemma from_be_to_be_bytes u : u160_ok u → from_be_bytes (to_be_bytes u) = u.
Proof.
  intros [Hm Hl]. unfold from_be_bytes, to_be_bytes.
  rewrite take_app_length', drop_app_length' by by rewrite length_to_be.
  rewrite !from_be_to_be by done. by destruct u.
Qed.
Lemma to_be_from_be_bytes l :
  bytes_ok l → length l = 20%nat → to_be_bytes (from_be_bytes l) = l.
Proof.
  intros Hl Hlen. unfold from_be_bytes, to_be_bytes. simpl msbytes. simpl lsbytes.
  rewrite !to_be_from_be; [apply take_drop | ..]; auto with bytes.
  - by rewrite length_drop, Hlen.
  - rewrite length_take, Hlen. lia.
Qed.
#[export] Hint Resolve to_be_bytes_ok : bytes.
#[export] Hint Rewrite length_to_be_bytes : len.

(** ** The XOR metric *)

Lemma lxor_le_add a b : 0 ≤ a → 0 ≤ b → Z.lxor a b ≤ a + b.
Proof.
  intros Ha Hb. pose proof (Z.add_lor_land a b).
  assert (Hsplit : Z.lor a b = Z.lxor a b + Z.land a b).
  { assert (Hdisj : Z.land (Z.lxor a b) (Z.land a b) = 0).
    { apply Z.bits_inj'. intros i ?. autorewrite with bits.
      by destruct (Z.testbit a i), (Z.testbit b i). }
    rewrite Z.add_nocarry_lxor by done.
    apply Z.bits_inj'. intros i ?. autorewrite with bits.
    by destruct (Z.testbit a i), (Z.testbit b i). }
  pose proof (proj2 (Z.land_nonneg a b) (or_introl Ha)). lia.
Qed.

Lemma distance_comm a b : distance a b = distance b a.
Proof. unfold distance, bitxor. by rewrite Z.lxor_comm, (Z.lxor_comm (lsbytes a)). Qed.
Lemma distance_self a : distance a a = min.
Proof. unfold distance, bitxor. by rewrite !Z.lxor_nilpotent. Qed.
Lemma distance_cancel a b : distance a (distance a b) = b.
Proof.
  unfold distance, bitxor; simpl. rewrite <- !Z.lxor_assoc, !Z.lxor_nilpotent, !Z.lxor_0_l.
  by destruct b.
Qed.
Lemma distance_inj a b c : distance a b = distance a c → b = c.
Proof. intros H. by rewrite <- (distance_cancel a b), H, distance_cancel. Qed.
Lemma value_distance a b :
  u160_ok a → u160_ok b → value (distance a b) = Z.lxor (value a) (value b).
Proof. apply value_bitxor. Qed.

(** ** Shifts *)

(** Unfold the checked shifts whose amount is known to be below the width. *)
Ltac run_shifts :=
  repeat (first [rewrite shl_u_lt by lia | rewrite shr_u_lt by lia]; cbn [run_bind]).

Lemma shr_spec p u s :
  u160_ok u → 0 ≤ s < 255 →
  ∃ v, shr p u s = Ret v ∧ u160_ok v ∧ value v = Z.shiftr (value u) s.
Proof.
  intros Hu Hs. unfold shr.
  destruct (Z.ltb_spec 0 (s - Z.min s 127)), (Z.ltb_spec 0 (s - Z.min s 31));
    try lia; cbn [run_bind]; run_shifts; eexists; (split; [done |]).
  all: match goal with |- u160_ok ?v ∧ _ =>
    assert (Hv : u160_ok v) by
      (destruct Hu; split; simpl; repeat apply in_width_lor; auto with width lia;
       apply wrap_in_width; lia) end.
  all: split; [done |]; apply Z.bits_inj'; intros i ?.
  all: rewrite testbit_value, testbit_shiftr, testbit_value by done; simpl.
  all: destruct Hu as [Hm Hl]; autorewrite with bits; bit_cases; bit_out;
    autorewrite with bits; try done; f_equal; lia.
Qed.

Lemma shr_255 p u :
  shr p u 255 =
  match p with
  | Debug => Panic
  | Release => Ret (new 0 (wrap 32 (Z.shiftr (wrap 128 (msbytes u)) 95)))
  end.
Proof.
  unfold shr. change (Z.min 255 127) with 127. change (Z.min 255 31) with 31.
  simpl (0 <? _). cbn [run_bind]. rewrite shl_u_lt by lia. cbn [run_bind].
  destruct p; cbn; [done |]. by rewrite Z.shiftl_0_r.
Qed.

(** What [shl] shifts: from 32 places on, the lowest bit is lost. *)
Definition shl_operand (u : U160) (s : Z) : Z :=
  if s <? 32 then value u else Z.clearbit (value u) 0.

Lemma testbit_shl_operand u s i :
  0 ≤ i →
  Z.testbit (shl_operand u s) i =
  Z.testbit (value u) i && ((s <? 32) || (1 <=? i)).
Proof.
  intros. unfold shl_operand. destruct (Z.ltb_spec s 32); simpl; [by rewrite andb_true_r |].
  destruct (Z.leb_spec 1 i).
  - by rewrite Z.clearbit_neq, andb_true_r by lia.
  - replace i with 0 by lia. by rewrite Z.clearbit_eq, andb_false_r.
Qed.

Lemma shl_spec p u s :
  u160_ok u → 0 ≤ s < 256 →
  ∃ v, shl p u s = Ret v ∧ u160_ok v ∧ value v = wrap 160 (Z.shiftl (shl_operand u s) s).
Proof.
  intros Hu Hs. unfold shl.
  destruct (Z.ltb_spec 0 (s - Z.min s 31)), (Z.eqb_spec (Z.min s 31) 0),
    (Z.ltb_spec 127 (s - Z.min s 31)), (Z.ltb_spec 0 (s - Z.min s 127));
    try lia; simpl orb; cbv iota; cbn [run_bind]; run_shifts; eexists; (split; [done |]).
  all: match goal with |- u160_ok ?v ∧ _ =>
    assert (Hv : u160_ok v) by
      (destruct Hu; split; simpl; repeat apply in_width_lor; auto with width lia;
       apply wrap_in_width; lia) end.
  all: split; [done |]; apply Z.bits_inj'; intros i ?.
  all: rewrite testbit_value, testbit_wrap, testbit_shiftl by (done || lia); simpl.
  all: destruct (Z.ltb_spec i s);
    [rewrite (Z.testbit_neg_r (shl_operand _ _)) by lia
    |rewrite testbit_shl_operand, testbit_value by (done || lia)].
  all: destruct Hu as [Hm Hl]; autorewrite with bits; bit_cases; bit_out;
    autorewrite with bits; try done; f_equal; lia.
Qed.

(** ** BEP 42 *)

(** What BEP 42 asks of an identifier: its top 21 bits are those of the
    checksum computed with its last three bits. *)
Definition bep42 (crc32c : list Z → Z) (self : U160) (addr : IpAddr) : Prop :=
  Z.shiftr (msbytes self) 107 =
  Z.shiftr (ip_prefix crc32c addr (lsbytes self mod 8)) 11.

Lemma validate_r self :
  Z.land (default 0 (to_be 4 (lsbytes self) !! 3%nat)) 0x07 = lsbytes self mod 8.
Proof.
  change 8 with (2 ^ 3). rewrite <- Z.land_ones by lia. cbn -[Z.land Z.shiftr wrap].
  change 7 with (Z.ones 3). apply Z.bits_inj'. intros i ?. bitwise.
Qed.

Section Bep42_facts.
Context (crc32c : list Z → Z) (crc32c_u32 : ∀ l, in_width 32 (crc32c l)).

Lemma ip_prefix_u32 addr r : in_width 32 (ip_prefix crc32c addr r).
Proof. destruct addr; apply crc32c_u32. Qed.

Lemma from_ip_with_r_ok addr r rand_ms rand_ls :
  0 ≤ r → in_width 128 rand_ms → in_width 32 rand_ls →
  u160_ok (from_ip_with_r crc32c addr r rand_ms rand_ls).
Proof.
  intros Hr Hm Hl. split; simpl; apply in_width_lor; auto with width lia.
  apply in_width_land_r; auto with width lia.
Qed.

(** The top 21 bits of the derived identifier are those of the checksum. *)
Lemma from_ip_with_r_prefix addr r rand_ms rand_ls :
  in_width 128 rand_ms →
  Z.shiftr (msbytes (from_ip_with_r crc32c addr r rand_ms rand_ls)) 107 =
  Z.shiftr (ip_prefix crc32c addr r) 11.
Proof.
  intros Hm. pose proof (ip_prefix_u32 addr r) as Hp. simpl.
  change 0x000007ffffffffffffffffffffffffff with (Z.ones 107).
  change 0xfffff800 with (Z.shiftl (Z.ones 21) 11).
  apply Z.bits_inj'. intros i ?. bitwise.
Qed.

Lemma from_ip_with_r_low addr r rand_ms rand_ls :
  lsbytes (from_ip_with_r crc32c addr r rand_ms rand_ls) mod 8 = Z.land r 7.
Proof.
  simpl. change 0xfffffff8 with (Z.shiftl (Z.ones 29) 3). change 7 with (Z.ones 3).
  rewrite <- (Z.land_ones _ 3) by lia. apply Z.bits_inj'. intros i ?. bitwise.
Qed.

Lemma masked_ms_eq a b :
  in_width 128 a → in_width 128 b →
  Z.land a 0xfffff800000000000000000000000000 = Z.land b 0xfffff800000000000000000000000000 ↔
  Z.shiftr a 107 = Z.shiftr b 107.
Proof.
  change 0xfffff800000000000000000000000000 with (Z.shiftl (Z.ones 21) 107).
  intros Ha Hb. split; intros E; apply Z.bits_inj'; intros i ?.
  - pose proof (f_equal (λ z, Z.testbit z (i + 107)) E) as Hbit. simpl in Hbit.
    revert Hbit. autorewrite with bits. bit_cases; bit_out; by autorewrite with bits.
  - pose proof (f_equal (λ z, Z.testbit z (i - 107)) E) as Hbit. simpl in Hbit.
    revert Hbit. autorewrite with bits. bit_cases.
    all: try replace (i - 107 + 107) with i by lia; intros; by f_equal.
Qed.

Lemma validate_bep42 self addr rand_ms rand_ls :
  u160_ok self → in_width 128 rand_ms → in_width 32 rand_ls →
  validate crc32c self addr rand_ms rand_ls = true ↔ bep42 crc32c self addr.
Proof.
  intros Hself Hm Hl. unfold validate. rewrite validate_r.
  set (r := lsbytes self mod 8).
  assert (Hr : 0 ≤ r < 8) by (apply Z.mod_pos_bound; lia).
  pose proof (from_ip_with_r_ok addr r rand_ms rand_ls ltac:(lia) Hm Hl) as [Htm Htl].
  rewrite u160_eqb_eq. unfold bitand, bep42. fold r.
  rewrite <- (from_ip_with_r_prefix addr r rand_ms rand_ls Hm).
  pose proof (from_ip_with_r_low addr r rand_ms rand_ls) as Hlow.
  set (t := from_ip_with_r _ _ _ _ _) in *.
  assert (Hlow7 : Z.land (lsbytes t) 7 = Z.land (lsbytes self) 7).
  { change 7 with (Z.ones 3) in *. rewrite !Z.land_ones in * by lia.
    change (2 ^ 3) with 8 in *. rewrite Hlow. by rewrite Z.mod_small. }
  unfold new. split.
  - intros [= E _]. by apply masked_ms_eq; [apply Hself | |].
  - intros E. f_equal; [| done]. apply masked_ms_eq; [apply Hself | done..].
Qed.

Lemma from_ip_bep42 addr rand_r rand_ms rand_ls :
  in_width 8 rand_r → in_width 128 rand_ms → in_width 32 rand_ls →
  bep42 crc32c (from_ip crc32c addr rand_r rand_ms rand_ls) addr.
Proof.
  intros Hr Hm Hl. unfold bep42, from_ip.
  rewrite from_ip_with_r_prefix, from_ip_with_r_low by done.
  by rewrite <- Z.land_assoc.
Qed.

Lemma from_ip_ok addr rand_r rand_ms rand_ls :
  in_width 8 rand_r → in_width 128 rand_ms → in_width 32 rand_ls →
  u160_ok (from_ip crc32c addr rand_r rand_ms rand_ls).
Proof.
  intros. apply from_ip_with_r_ok; [| done..]. apply Z.land_nonneg. right. lia.
Qed.
End Bep42_facts.

(** ** The pair and the number *)

Lemma value_from_be_bytes l :
  bytes_ok l → length l = 20%nat → value (from_be_bytes l) = from_be l.
Proof.
  intros Hl Hlen. rewrite value_add by by apply from_be_bytes_ok.
  unfold from_be_bytes. cbn [msbytes lsbytes new].
  rewrite <- (take_drop 16 l) at 3. rewrite from_be_app, length_drop, Hlen. done.
Qed.

Lemma to_be_bytes_value u : u160_ok u → to_be_bytes u = to_be 20 (value u).
Proof.
  intros Hu. rewrite <- (from_be_to_be_bytes u) at 2 by done.
  rewrite value_from_be_bytes; [| apply to_be_bytes_ok | apply length_to_be_bytes].
  by rewrite to_be_from_be; [| apply to_be_bytes_ok | apply length_to_be_bytes].
Qed.

Lemma value_not u : u160_ok u → value (not u) = 2 ^ 160 - 1 - value u.
Proof.
  intros Hu. rewrite !value_add by auto with u160. unfold not. cbn [msbytes lsbytes new].
  assert (Hn : ∀ w z, 0 ≤ w → in_width w z → Z.lxor (Z.ones w) z = Z.ones w - z).
  { intros w z Hw Hz. rewrite Z.sub_nocarry_ldiff.
    - apply Z.bits_inj'. intros i Hi. rewrite Z.lxor_spec, Z.ldiff_spec, testbit_ones by done.
      rewrite (proj2 (Z.leb_le _ _) Hi). destruct (Z.ltb_spec i w); cbn [andb]; [by destruct (Z.testbit z i) |].
      by rewrite (testbit_out w) by (done || lia).
    - apply Z.bits_inj'. intros i Hi. rewrite Z.ldiff_spec, testbit_ones, Z.bits_0 by done.
      rewrite (proj2 (Z.leb_le _ _) Hi). destruct (Z.ltb_spec i w); cbn [andb negb]; [by rewrite andb_false_r |].
      by rewrite (testbit_out w) by (done || lia). }
  destruct Hu as [Hm Hl]. rewrite !Hn by (done || lia). rewrite !Z.ones_equiv. lia.
Qed.

(** Every 160-bit number is the value of a pair. *)
Lemma value_surj z : in_width 160 z → ∃ u, u160_ok u ∧ value u = z.
Proof.
  intros Hz. exists (from_be_bytes (to_be 20 z)).
  pose proof (to_be_ok 20 z) as Hok. pose proof (length_to_be 20 z) as Hlen.
  split; [by apply from_be_bytes_ok |]. rewrite value_from_be_bytes by done. by apply from_be_to_be.
Qed.

(** ** Properties *)

(** The XOR distance is a metric on identifiers: it is zero exactly between
    equal identifiers, symmetric, satisfies the triangle inequality, and is
    unidirectional (every distance from [a] is reached by exactly one
    identifier). *)
Theorem distance_metric a b c :
  u160_ok a → u160_ok b → u160_ok c →
  (distance a b = min ↔ a = b) ∧
  distance a b = distance b a ∧
  value (distance a c) ≤ value (distance a b) + value (distance b c) ∧
  (∀ d, u160_ok d → exists! x, u160_ok x ∧ distance a x = d).
Proof.
  intros Ha Hb Hc. split_and!.
  - split; [| intros ->; apply distance_self].
    rewrite <- (distance_self a). by intros ?%distance_inj.
  - apply distance_comm.
  - rewrite !value_distance by done.
    replace (Z.lxor (value a) (value c))
      with (Z.lxor (Z.lxor (value a) (value b)) (Z.lxor (value b) (value c)))
      by (by rewrite Z.lxor_assoc, <- (Z.lxor_assoc (value b)), Z.lxor_nilpotent, Z.lxor_0_l).
    apply lxor_le_add; rewrite <- value_distance by done;
      apply value_in_width; auto with u160.
  - intros d Hd. exists (distance a d). split.
    + split; [auto with u160 | apply distance_cancel].
    + intros x [_ <-]. apply distance_cancel.
Qed.

Lemma distance_metric_witness :
  distance (new 1 2) (new 3 4) = distance (new 3 4) (new 1 2).
Proof. apply (distance_metric (new 1 2) (new 3 4) (new 5 6)); by split. Defined.

(** For every shift amount a [u8] can hold except 255, [>>] is the right
    shift of the 160-bit number, in both build profiles; at 255 the inner
    [>> 128] overflows: the debug profile panics and the release profile
    shifts by 0 there, leaving the top 33 bits truncated to 32. *)
Theorem shr_correct p u s :
  u160_ok u → in_width 8 s →
  if s <? 255
  then ∃ v, shr p u s = Ret v ∧ u160_ok v ∧ value v = Z.shiftr (value u) s
  else shr p u s =
       match p with
       | Debug => Panic
       | Release => Ret (new 0 (wrap 32 (Z.shiftr (msbytes u) 95)))
       end.
Proof.
  intros Hu [Hs1 Hs2]. destruct (Z.ltb_spec s 255).
  - by apply shr_spec.
  - replace s with 255 by lia. rewrite shr_255. destruct p; [done |].
    by rewrite (wrap_id 128) by apply Hu.
Qed.

Lemma shr_correct_witness :
  shr Debug (new 0 2) 255 = Panic ∧
  ∃ v, shr Debug (new 0 2) 1 = Ret v ∧ u160_ok v ∧ value v = Z.shiftr 2 1.
Proof.
  split; [apply (shr_correct Debug (new 0 2) 255) | apply (shr_correct Debug (new 0 2) 1)];
    by repeat split.
Defined.

(** [<<] never panics; below 32 places it is the left shift of the 160-bit
    number modulo 2^160, and from 32 places on it is that of the number with
    its lowest bit cleared, because [lsbytes >> 31 << (s - 31)] drops the bit
    that [lsbytes << (s - 32)] would keep. *)
Theorem shl_shifts_operand p u s :
  u160_ok u → in_width 8 s →
  ∃ v, shl p u s = Ret v ∧ u160_ok v ∧
    value v =
    wrap 160 (Z.shiftl (if s <? 32 then value u else Z.clearbit (value u) 0) s).
Proof. intros Hu [??]. by apply shl_spec. Qed.

(** Shifting 1 by 32 places gives 0, not 2^32. *)
Lemma shl_shifts_operand_witness :
  ∃ v, shl Debug (new 0 1) 32 = Ret v ∧ u160_ok v ∧ value v = 0.
Proof. apply (shl_shifts_operand Debug (new 0 1) 32); by repeat split. Defined.

(** [to_be_bytes] and [from_be_bytes] are inverse to each other, on every
    identifier and on every array of twenty bytes. *)
Theorem u160_bytes_roundtrip :
  (∀ u, u160_ok u →
     bytes_ok (to_be_bytes u) ∧ length (to_be_bytes u) = 20%nat ∧
     from_be_bytes (to_be_bytes u) = u) ∧
  (∀ l, bytes_ok l → length l = 20%nat →
     u160_ok (from_be_bytes l) ∧ to_be_bytes (from_be_bytes l) = l).
Proof.
  split; intros.
  - split_and!; [apply to_be_bytes_ok | apply length_to_be_bytes | by apply from_be_to_be_bytes].
  - split; [by apply from_be_bytes_ok | by apply to_be_from_be_bytes].
Qed.

Lemma lookup_to_be_bytes u j :
  u160_ok u → (j < 20)%nat →
  to_be_bytes u !! j = Some (wrap 8 (Z.shiftr (value u) (8 * (19 - Z.of_nat j)))).
Proof.
  intros Hu Hj. unfold to_be_bytes. destruct (decide (j < 16)%nat).
  - rewrite lookup_app_l, lookup_to_be by (rewrite ?length_to_be; lia). f_equal.
    apply Z.bits_inj'. intros i ?. rewrite !testbit_wrap, !testbit_shiftr, testbit_value by (done || lia).
    destruct (Z.ltb_spec (i + 8 * (19 - Z.of_nat j)) 32); [lia |]. do 3 f_equal. lia.
  - rewrite lookup_app_r, length_to_be, lookup_to_be by (rewrite ?length_to_be; lia). f_equal.
    apply Z.bits_inj'. intros i ?. rewrite !testbit_wrap, !testbit_shiftr, testbit_value by (done || lia).
    destruct (Z.ltb_spec i 8); [| done]. simpl.
    destruct (Z.ltb_spec (i + 8 * (19 - Z.of_nat j)) 32); [| lia]. do 2 f_equal. lia.
Qed.

(** [get_bit] numbers the bits as the byte codec orders them: bit [i] is
    the bit of weight [7 - i mod 8] in byte [i / 8] of [to_be_bytes], and it is
    [false] from index 160 on. *)
Theorem get_bit_of_bytes u i :
  u160_ok u → in_width 8 i →
  get_bit u i =
  match to_be_bytes u !! Z.to_nat (i / 8) with
  | Some b => Z.testbit b (7 - i mod 8)
  | None => false
  end.
Proof.
  intros Hu [Hi _]. rewrite get_bit_value by done.
  pose proof (Z.mod_pos_bound i 8 ltac:(lia)). pose proof (Z.div_mod i 8 ltac:(lia)).
  destruct (Z.ltb_spec i 160); simpl.
  - rewrite lookup_to_be_bytes by (done || lia).
    rewrite testbit_wrap, testbit_shiftr by lia. bit_cases. f_equal. lia.
  - rewrite lookup_ge_None_2; [done |]. rewrite length_to_be_bytes. lia.
Qed.

Lemma get_bit_of_bytes_witness :
  get_bit (new 0 1) 159 = true ∧ get_bit (new 0 1) 200 = false.
Proof.
  split; [rewrite (get_bit_of_bytes (new 0 1) 159) | rewrite (get_bit_of_bytes (new 0 1) 200)];
    by repeat split.
Defined.



(** The identifiers of the [bep42] test, with the real checksum. *)
Example bep42_vectors :
  forallb (λ p, validate crc32c_table_free p.1 (V4 p.2) 0 0)
    [(new 0x5fbfbff10c5d6a4ec8a88e4c6ab4c28b 0x95eee401, [124; 31; 75; 21]);
     (new 0x5a3ce9c14e7a08645677bbd1cfe7d8f9 0x56d53256, [21; 75; 31; 124]);
     (new 0xa5d43220bc8f112a3d426c84764f8c2a 0x1150e616, [65; 23; 51; 170]);
     (new 0x1b0321dd1bb1fe518101ceef99462b94 0x7a01ff41, [84; 124; 73; 14]);
     (new 0xe56f6cbf5b7c4be0237986d5243b87aa 0x6d51305a, [43; 213; 53; 83])] = true.
Proof. reflexivity. Qed.


