(* ===== verification/NodeInfo.v ===== *)
(** * Node contact information

    [src/node_info.rs]: an identifier with a socket address, its two byte
    encodings (the 26-byte compact IPv4 form of the protocol and the serde form
    used for persistence, 26 or 38 bytes), and its order. *)

From S2P Require Import Prelude Externals Net U160.

(** [struct NodeInfo] *)
Record NodeInfo : Type := mkNodeInfo { id : U160; addr : SocketAddr }.

#[export] Instance NodeInfo_eq_dec : EqDecision NodeInfo.
Proof. solve_decision. Defined.
#[export] Program Instance NodeInfo_countable : Countable NodeInfo :=
  inj_countable' (λ n, (id n, addr n)) (λ p, mkNodeInfo p.1 p.2) _.
Next Obligation. by intros []. Qed.

Definition node_ok (n : NodeInfo) : Prop := u160_ok (id n) ∧ sock_ok (addr n).

Definition IPV4_DHT_NODE_BYTES_LEN : nat := 26.

Section Bep42.
Context (crc32c : list Z → Z).

Definition from_addr (addr : SocketAddr) (rand_r rand_ms rand_ls : Z) : NodeInfo :=
  mkNodeInfo (from_ip crc32c (sock_ip addr) rand_r rand_ms rand_ls) addr.

Definition node_validate (self : NodeInfo) (rand_ms rand_ls : Z) : bool :=
  validate crc32c (id self) (sock_ip (addr self)) rand_ms rand_ls.
End Bep42.

Definition node_distance (self other : NodeInfo) : U160 := distance (id self) (id other).

(** [ip4_to_bytes]: a node with an IPv6 address makes it panic. *)
Definition ip4_to_bytes (self : NodeInfo) : run (list Z) :=
  match sock_ip (addr self) with
  | V4 octets => Ret (to_be_bytes (id self) ++ octets ++ to_be 2 (sock_port (addr self)))
  | V6 _ => Panic
  end.

(** [ip4_from_bytes], on an array of 26 bytes *)
Definition ip4_from_bytes (bytes : list Z) : NodeInfo :=
  mkNodeInfo (from_be_bytes (take 20 bytes))
    (socket_addr (V4 (take 4 (drop 20 bytes))) (from_be (drop 24 bytes))).

(** The bytes [Serialize] writes *)
Definition serialize (self : NodeInfo) : list Z :=
  to_be_bytes (id self) ++ ip_octets (sock_ip (addr self)) ++
  to_be 2 (sock_port (addr self)).

(** [Visitor::visit_bytes] of [Deserialize]; the error is serde's
    [invalid_length]. *)
Inductive de_error := InvalidLength (len : nat).

Definition visit_bytes (v : list Z) : result NodeInfo de_error :=
  let? ip :=
    match length v with
    | 26%nat => Ok (V4 (take 4 (drop 20 v)))
    | 38%nat => Ok (V6 (take 16 (drop 20 v)))
    | n => Err (InvalidLength n)
    end in
  let port := from_be (drop (length v - 2) v) in
  Ok (mkNodeInfo (from_be_bytes (take 20 v)) (socket_addr ip port)).

(** The order of socket addresses: IPv4 before IPv6, then by address, then by
    port; flow label and scope id are not compared. *)
Definition sock_cmp (a b : SocketAddr) : comparison :=
  match a, b with
  | SocketV4 ip p, SocketV4 ip' p' =>
      match from_be ip ?= from_be ip' with Eq => p ?= p' | c => c end
  | SocketV6 ip p _ _, SocketV6 ip' p' _ _ =>
      match from_be ip ?= from_be ip' with Eq => p ?= p' | c => c end
  | SocketV4 _ _, SocketV6 _ _ _ _ => Lt
  | SocketV6 _ _ _ _, SocketV4 _ _ => Gt
  end.

(** [Ord::cmp]: by identifier, then by address *)
Definition node_cmp (self other : NodeInfo) : comparison :=
  match u160_cmp (id self) (id other) with
  | Eq => sock_cmp (addr self) (addr other)
  | ord => ord
  end.

(** ** Lemmas *)

Lemma length_serialize n :
  node_ok n →
  length (serialize n) = match sock_ip (addr n) with V4 _ => 26%nat | V6 _ => 38%nat end.
Proof.
  intros [_ [Hip _]]. unfold serialize.
  rewrite !length_app, length_to_be_bytes, length_to_be.
  destruct (sock_ip (addr n)); simpl in *; destruct Hip as [_ ->]; done.
Qed.

Lemma serialize_ok n : node_ok n → bytes_ok (serialize n).
Proof.
  intros [_ [Hip _]]. unfold serialize. rewrite !bytes_ok_app.
  split_and!; auto with bytes.
Qed.

Lemma visit_serialize n :
  node_ok n →
  visit_bytes (serialize n) =
  Ok (mkNodeInfo (id n) (socket_addr (sock_ip (addr n)) (sock_port (addr n)))).
Proof.
  intros Hn. pose proof (length_serialize n Hn) as Hlen.
  destruct Hn as [Hid [Hip Hport]].
  assert (Hid' : take 20 (serialize n) = to_be_bytes (id n)).
  { apply take_app_length'. by rewrite length_to_be_bytes. }
  assert (Hrest : drop 20 (serialize n) =
    ip_octets (sock_ip (addr n)) ++ to_be 2 (sock_port (addr n))).
  { apply drop_app_length'. by rewrite length_to_be_bytes. }
  assert (Hp : drop (length (serialize n) - 2) (serialize n) = to_be 2 (sock_port (addr n))).
  { unfold serialize. rewrite app_assoc. apply drop_app_length'.
    rewrite !length_app, length_to_be. lia. }
  unfold visit_bytes. rewrite Hp, Hid', from_be_to_be_bytes, (from_be_to_be 2), Hrest, Hlen by done.
  destruct (sock_ip (addr n)); simpl in *; destruct Hip as [_ Hip];
    by rewrite take_app_length' by done.
Qed.

Lemma ip4_to_bytes_serialize n o :
  sock_ip (addr n) = V4 o → ip4_to_bytes n = Ret (serialize n).
Proof. intros H. unfold ip4_to_bytes, serialize. by rewrite H. Qed.

Lemma ip4_from_bytes_visit v :
  length v = 26%nat → visit_bytes v = Ok (ip4_from_bytes v).
Proof. intros H. unfold visit_bytes, ip4_from_bytes. by rewrite H. Qed.

Lemma ip4_from_bytes_ok v :
  bytes_ok v → length v = 26%nat → node_ok (ip4_from_bytes v).
Proof.
  intros Hv Hlen. split; simpl.
  - apply from_be_bytes_ok; auto with bytes. rewrite length_take. lia.
  - split; simpl.
    + split; [by auto with bytes |]. rewrite length_take, length_drop. lia.
    + replace 16 with (8 * Z.of_nat (length (drop 24 v))) by (rewrite length_drop; lia).
      auto with bytes.
Qed.

Lemma serialize_ip4_from_bytes v :
  bytes_ok v → length v = 26%nat → serialize (ip4_from_bytes v) = v.
Proof.
  intros Hv Hlen. unfold serialize, ip4_from_bytes.
  cbn [id addr socket_addr sock_ip sock_port ip_octets].
  rewrite to_be_from_be_bytes by (auto with bytes; rewrite length_take; lia).
  rewrite to_be_from_be by (auto with bytes; rewrite length_drop; lia).
  rewrite <- (take_drop 20 v) at 4. f_equal.
  rewrite <- (take_drop 4 (drop 20 v)) at 2. by rewrite drop_drop.
Qed.
#[export] Hint Resolve serialize_ok ip4_from_bytes_ok : bytes.

(** ** Properties *)

(** Deserializing what a node serializes to gives the node back, with the
    flow label and scope id of an IPv6 address reset to zero (so the node
    itself when its address has none), and the only byte strings the
    deserializer refuses are those whose length is neither 26 nor 38. *)
Theorem node_serde_roundtrip :
  (∀ n, node_ok n →
     visit_bytes (serialize n) =
     Ok (mkNodeInfo (id n) (socket_addr (sock_ip (addr n)) (sock_port (addr n))))) ∧
  (∀ n, node_ok n → sock_plain (addr n) → visit_bytes (serialize n) = Ok n) ∧
  (∀ v, (∃ e, visit_bytes v = Err e) ↔ length v ≠ 26%nat ∧ length v ≠ 38%nat).
Proof.
  split_and!.
  - apply visit_serialize.
  - intros n Hn Hplain. rewrite visit_serialize, Hplain by done. by destruct n.
  - intros v. unfold visit_bytes. split.
    + intros [e He]. split; intros Hlen; by rewrite Hlen in He.
    + intros [H1 H2]. exists (InvalidLength (length v)). do 39 (destruct v as [|? v]; [done |]).
      done.
Qed.

(** The compact form of a node is 26 bytes and decodes to the same node when
    its address is IPv4, every 26 bytes are the compact form of the node they
    decode to, and the encoder panics on an IPv6 address. *)
Theorem ip4_bytes_roundtrip :
  (∀ n o, node_ok n → sock_ip (addr n) = V4 o →
     ∃ v, ip4_to_bytes n = Ret v ∧ length v = IPV4_DHT_NODE_BYTES_LEN ∧ ip4_from_bytes v = n) ∧
  (∀ v, bytes_ok v → length v = IPV4_DHT_NODE_BYTES_LEN →
     node_ok (ip4_from_bytes v) ∧ ip4_to_bytes (ip4_from_bytes v) = Ret v) ∧
  (∀ n o, sock_ip (addr n) = V6 o → ip4_to_bytes n = Panic).
Proof.
  split_and!.
  - intros n o Hn Ho. exists (serialize n).
    rewrite (ip4_to_bytes_serialize n o), length_serialize, Ho by done. split_and!; [done.. |].
    pose proof (visit_serialize n Hn) as Hv. pose proof (length_serialize n Hn) as Hlen.
    rewrite Ho in Hlen. rewrite ip4_from_bytes_visit in Hv by done.
    apply Ok_inj in Hv as ->.
    destruct n as [i a]; simpl in *. by destruct a.
  - intros v Hv Hlen. split; [by apply ip4_from_bytes_ok |].
    erewrite ip4_to_bytes_serialize by done. by rewrite serialize_ip4_from_bytes.
  - intros n o Ho. unfold ip4_to_bytes. by rewrite Ho.
Qed.
