(* ===== verification/Bucket.v ===== *)
(** * The routing table

    [src/router/bucket.rs]: a chain of buckets. Bucket [i] keeps nodes whose
    distance from our own identifier has bit [i] set, the last bucket of the
    chain every node the earlier ones do not take; a full last bucket grows the
    chain by one. The operations are those a single task performs: no other
    task runs between two of its awaits. *)

From S2P Require Import Prelude Externals Net U160 NodeInfo.

Definition MAX_BUCKET_INDEX : Z := 159.

(** [struct Bucket], without the locks *)
Inductive Bucket : Type := mkBucket {
  own_id : U160;
  bucket_index : Z;
  k_size : Z;
  nodes : list NodeInfo;
  next_bucket : option Bucket;
}.

Definition set_nodes (b : Bucket) (ns : list NodeInfo) : Bucket :=
  mkBucket (own_id b) (bucket_index b) (k_size b) ns (next_bucket b).
Definition set_next (b nb : Bucket) : Bucket :=
  mkBucket (own_id b) (bucket_index b) (k_size b) (nodes b) (Some nb).

Definition is_none {A} (o : option A) : bool :=
  match o with None => true | Some _ => false end.

(** ** The operations *)

Definition root (own_id : U160) (k_size : Z) : Bucket := mkBucket own_id 0 k_size [] None.

Definition bucket_id (self : Bucket) : U160 := own_id self.

Definition belongs_here (self : Bucket) (node : NodeInfo) : bool :=
  get_bit (distance (own_id self) (id node)) (bucket_index self).
Definition id_belongs_here (self : Bucket) (x : U160) : bool :=
  get_bit (distance (own_id self) x) (bucket_index self).

(** The loop of [add_or_update] that moves the entry at [index] to the end. *)
Fixpoint bump (fuel : nat) (index : nat) (ns : list NodeInfo) : run (list NodeInfo) :=
  if decide (index < length ns - 1)%nat then
    match fuel with
    | O => NoFuel
    | S fuel =>
        let! ns := vec_swap index (index + 1) ns in
        bump fuel (index + 1) ns
    end
  else Ret ns.

Definition add_or_update (self : Bucket) (node : NodeInfo) : run Bucket :=
  match position (λ n, u160_eqb (id n) (id node)) (reverse (nodes self)) with
  | Some index =>
      let index := (length (nodes self) - 1 - index)%nat in
      let! ns := bump (length (nodes self)) index (nodes self) in
      Ret (set_nodes self ns)
  | None =>
      if Z.of_nat (length (nodes self)) <? k_size self
      then Ret (set_nodes self (nodes self ++ [node]))
      else Ret self
  end.

(** The loop of [make_next_bucket] that moves the nodes that do not belong to
    the bucket on to the next one; [add] is the recursive call. *)
Fixpoint split_nodes (add : Bucket → NodeInfo → run Bucket) (belongs : NodeInfo → bool)
    (fuel : nat) (index : nat) (ns : list NodeInfo) (next : Bucket)
    : run (list NodeInfo * Bucket) :=
  if decide (index < length ns)%nat then
    match fuel with
    | O => NoFuel
    | S fuel =>
        let! n := unwrap (ns !! index) in
        if belongs n then split_nodes add belongs fuel (index + 1) ns next
        else
          let! (n, ns) := swap_remove index ns in
          let! next := add next n in
          split_nodes add belongs fuel index ns next
    end
  else Ret (ns, next).

Definition make_next_bucket (p : profile) (add : Bucket → NodeInfo → run Bucket)
    (self : Bucket) : run (Bucket * bool) :=
  if bucket_index self =? MAX_BUCKET_INDEX then Ret (self, false)
  else
    let! index := add_u p 8 (bucket_index self) 1 in
    let set := mkBucket (own_id self) index (k_size self) [] None in
    match next_bucket self with
    | Some _ => Ret (self, true)
    | None =>
        let! (ns, next) :=
          split_nodes add (belongs_here self) (length (nodes self)) 0 (nodes self) set in
        Ret (set_next (set_nodes self ns) next, true)
    end.

(** [Bucket::add]. Each recursive call is one level down the chain. *)
Fixpoint add (p : profile) (fuel : nat) (self : Bucket) (node : NodeInfo) : run Bucket :=
  match fuel with
  | O => NoFuel
  | S fuel =>
      if is_none (next_bucket self) && (Z.of_nat (length (nodes self)) <? k_size self)
      then add_or_update self node
      else
        let! (self, made) :=
          (if is_none (next_bucket self) && (Z.of_nat (length (nodes self)) =? k_size self)
           then make_next_bucket p (add p fuel) self
           else Ret (self, true)) in
        if negb made then Ret self
        else if negb (belongs_here self node) then
          let! next := unwrap (next_bucket self) in
          let! next := add p fuel next node in
          Ret (set_next self next)
        else add_or_update self node
  end.

(** [Bucket::lookup] *)
Fixpoint lookup (p : profile) (self : Bucket) (x : U160) : run (list NodeInfo) :=
  let! k_nearest :=
    match next_bucket self with
    | Some next => if negb (id_belongs_here self x) then lookup p next x else Ret []
    | None => Ret []
    end in
  let! gap := sub_u p 64 (k_size self) (Z.of_nat (length k_nearest)) in
  let k_nearest :=
    (if 0 <? gap then k_nearest ++ take (Z.to_nat gap) (nodes self) else k_nearest) in
  let! gap := sub_u p 64 (k_size self) (Z.of_nat (length k_nearest)) in
  match next_bucket self with
  | Some next =>
      if 0 <? gap then
        let! rest := lookup p next x in
        Ret (k_nearest ++ take (Z.to_nat gap) rest)
      else Ret k_nearest
  | None => Ret k_nearest
  end.

(** [Bucket::remove] *)
Fixpoint remove (self : Bucket) (x : U160) : run (Bucket * bool) :=
  if is_none (next_bucket self) || id_belongs_here self x then
    match position (λ n, u160_eqb (id n) x) (nodes self) with
    | Some i =>
        let! (_, ns) := vec_remove i (nodes self) in
        Ret (set_nodes self ns, true)
    | None => Ret (self, false)
    end
  else
    match next_bucket self with
    | Some next =>
        let! (next, removed) := remove next x in
        Ret (set_next self next, removed)
    | None => Panic
    end.

(** [Bucket::stats]: the node count of each bucket, from which the message
    prints the sum and the number of buckets. *)
Fixpoint bucket_counts (self : Bucket) : list nat :=
  length (nodes self) ::
  match next_bucket self with
  | Some next => bucket_counts next
  | None => []
  end.
Definition stats (self : Bucket) : nat * nat :=
  (sum_list (bucket_counts self), length (bucket_counts self)).

(** ** Structure of the chain *)

(** Induction along [next_bucket]. *)
Lemma Bucket_chain_ind (P : Bucket → Prop) :
  (∀ o i k ns, P (mkBucket o i k ns None)) →
  (∀ o i k ns next, P next → P (mkBucket o i k ns (Some next))) →
  ∀ b, P b.
Proof.
  intros Hlast Hlink. fix IH 1. intros [o i k ns [next|]].
  - apply Hlink, IH.
  - apply Hlast.
Qed.

Fixpoint all_nodes (b : Bucket) : list NodeInfo :=
  nodes b ++ match next_bucket b with Some next => all_nodes next | None => [] end.

Definition ids (ns : list NodeInfo) : list U160 := id <$> ns.

(** [x] agrees with our own identifier on the bits before [i]. *)
Definition shares_prefix (own : U160) (i : Z) (x : U160) : Prop :=
  ∀ j, 0 ≤ j < i → get_bit (distance own x) j = false.

(** The node list of bucket [i]: bounded, without two nodes of one identifier,
    and with the identifiers that reach the bucket. *)
Record nodes_ok (own : U160) (k i : Z) (ns : list NodeInfo) : Prop := {
  nodes_bound : Z.of_nat (length ns) ≤ k;
  nodes_nodup : NoDup (ids ns);
  nodes_valid : Forall node_ok ns;
  nodes_prefix : Forall (λ n, shares_prefix own i (id n)) ns;
}.

(** A well-formed chain from index [i]: indices count up and stay below 160,
    every bucket's list is well formed, and a bucket with a successor holds only
    nodes that belong to it. *)
Inductive chain_ok (own : U160) (k : Z) : Z → Bucket → Prop :=
  | chain_last i ns :
      0 ≤ i ≤ MAX_BUCKET_INDEX → nodes_ok own k i ns →
      chain_ok own k i (mkBucket own i k ns None)
  | chain_link i ns next :
      0 ≤ i < MAX_BUCKET_INDEX → nodes_ok own k i ns →
      Forall (λ n, get_bit (distance own (id n)) i = true) ns →
      chain_ok own k (i + 1) next →
      chain_ok own k i (mkBucket own i k ns (Some next)).

Definition table_ok (own : U160) (k : Z) (b : Bucket) : Prop :=
  u160_ok own ∧ in_width 8 k ∧ chain_ok own k 0 b.

(** ** Lists of nodes *)

Lemma ids_app l k : ids (l ++ k) = ids l ++ ids k.
Proof. apply fmap_app. Qed.
Lemma ids_perm l k : l ≡ₚ k → ids l ≡ₚ ids k.
Proof. intros H. unfold ids. by rewrite H. Qed.
Lemma elem_of_ids x ns : x ∈ ids ns ↔ ∃ n, id n = x ∧ n ∈ ns.
Proof. unfold ids. rewrite list_elem_of_fmap. naive_solver. Qed.

Lemma position_id_Some ns x i :
  position (λ n, u160_eqb (id n) x) ns = Some i →
  ∃ n l1 l2, ns = l1 ++ n :: l2 ∧ length l1 = i ∧ id n = x ∧ x ∉ ids l1.
Proof.
  intros (n & l1 & l2 & -> & <- & Hn & Hl1)%position_Some.
  exists n, l1, l2. split_and!; [done | done | by apply u160_eqb_eq |].
  rewrite elem_of_ids. intros (m & <- & Hm).
  rewrite Forall_forall in Hl1. specialize (Hl1 _ Hm).
  apply not_true_iff_false in Hl1. by rewrite u160_eqb_eq in Hl1.
Qed.

Lemma position_id_None ns x :
  position (λ n, u160_eqb (id n) x) ns = None ↔ x ∉ ids ns.
Proof.
  rewrite position_None, Forall_forall, elem_of_ids. split.
  - intros H (m & <- & Hm). specialize (H _ Hm).
    apply not_true_iff_false in H. by rewrite u160_eqb_eq in H.
  - intros H m Hm. apply not_true_iff_false. rewrite u160_eqb_eq. eauto.
Qed.

Lemma bump_spec fuel l1 x l2 :
  (length l2 ≤ fuel)%nat →
  bump fuel (length l1) (l1 ++ x :: l2) = Ret (l1 ++ l2 ++ [x]).
Proof.
  revert fuel l1. induction l2 as [|y l2 IH]; intros fuel l1 Hfuel; simpl in *.
  - destruct fuel; simpl; rewrite decide_False by (rewrite length_app; simpl; lia); done.
  - destruct fuel as [|fuel]; [lia |]. simpl.
    rewrite decide_True by (rewrite length_app; simpl; lia).
    rewrite Nat.add_1_r, vec_swap_adjacent. cbn [run_bind].
    change (l1 ++ y :: x :: l2) with (l1 ++ [y] ++ x :: l2). rewrite app_assoc.
    replace (S (length l1)) with (length (l1 ++ [y])) by (rewrite length_app; simpl; lia).
    rewrite IH by lia. by rewrite <- app_assoc.
Qed.

(** [add_or_update] moves the entry of a known identifier to the end (and keeps
    the stored entry), appends a new one if there is room, and otherwise does
    nothing. *)
Lemma add_or_update_known self node :
  id node ∈ ids (nodes self) → NoDup (ids (nodes self)) →
  ∃ n l1 l2, nodes self = l1 ++ n :: l2 ∧ id n = id node ∧
    add_or_update self node = Ret (set_nodes self (l1 ++ l2 ++ [n])).
Proof.
  intros Hin Hnd. unfold add_or_update.
  destruct (position _ _) as [i|] eqn:Hpos.
  - apply position_id_Some in Hpos as (n & l1 & l2 & Hrev & <- & Hn & _).
    apply (f_equal reverse) in Hrev. rewrite reverse_involutive, reverse_app, reverse_cons in Hrev.
    rewrite <- app_assoc in Hrev. simpl in Hrev.
    exists n, (reverse l2), (reverse l1). split_and!; [done | done |].
    replace (length (nodes self) - 1 - length l1)%nat with (length (reverse l2)).
    + rewrite Hrev at 2. rewrite bump_spec; [done |].
      rewrite Hrev, length_app. simpl. lia.
    + rewrite Hrev, length_app. simpl. rewrite (length_reverse l1). lia.
  - exfalso. apply position_id_None in Hpos. apply Hpos.
    unfold ids in *. by rewrite fmap_reverse, elem_of_reverse.
Qed.

Lemma add_or_update_new self node :
  id node ∉ ids (nodes self) →
  add_or_update self node =
  Ret (if Z.of_nat (length (nodes self)) <? k_size self
       then set_nodes self (nodes self ++ [node]) else self).
Proof.
  intros Hin. unfold add_or_update. rewrite (proj2 (position_id_None _ _)).
  - by destruct (_ <? _).
  - unfold ids in *. by rewrite fmap_reverse, elem_of_reverse.
Qed.

(** ** Well-formed node lists *)

Lemma nodes_ok_nil own k i : 0 ≤ k → nodes_ok own k i [].
Proof. intros. split; [done | constructor..]. Qed.

Lemma nodes_ok_sub own k i ns ns' rest :
  ns' ++ rest ≡ₚ ns → nodes_ok own k i ns → nodes_ok own k i ns'.
Proof.
  intros Hp [Hb Hn Hv Hpre]. rewrite <- Hp in Hv, Hpre.
  apply Forall_app in Hv as [Hv _]. apply Forall_app in Hpre as [Hpre _].
  apply Permutation_length in Hp as Hlen. rewrite length_app in Hlen.
  rewrite <- (ids_perm _ _ Hp), ids_app in Hn. apply NoDup_app in Hn as (Hn & _ & _).
  split; [lia | done..].
Qed.

Lemma nodes_ok_perm own k i ns ns' :
  ns' ≡ₚ ns → nodes_ok own k i ns → nodes_ok own k i ns'.
Proof. intros Hp. apply (nodes_ok_sub _ _ _ _ _ []). by rewrite app_nil_r. Qed.

Lemma nodes_ok_snoc own k i ns n :
  nodes_ok own k i ns → Z.of_nat (length ns) < k → node_ok n →
  shares_prefix own i (id n) → id n ∉ ids ns →
  nodes_ok own k i (ns ++ [n]).
Proof.
  intros [Hb Hn Hv Hpre] Hlen Hok Hp Hin. split.
  - rewrite length_app. simpl. lia.
  - rewrite ids_app. apply NoDup_app. split_and!; [done | set_solver | apply NoDup_singleton].
  - by apply Forall_app_2; [| apply Forall_singleton].
  - by apply Forall_app_2; [| apply Forall_singleton].
Qed.

Lemma nodes_ok_deeper own k i ns :
  0 ≤ i →
  nodes_ok own k i ns → Forall (λ n, get_bit (distance own (id n)) i = false) ns →
  nodes_ok own k (i + 1) ns.
Proof.
  intros Hi [Hb Hn Hv Hpre] Hbit. split; [done.. |].
  rewrite Forall_forall in *. intros n Hin j Hj.
  destruct (decide (j = i)) as [->|]; [by apply Hbit | apply (Hpre n Hin); lia].
Qed.

Lemma shares_prefix_deeper own i x :
  0 ≤ i → shares_prefix own i x → get_bit (distance own x) i = false → shares_prefix own (i + 1) x.
Proof.
  intros Hi Hp Hb j Hj. destruct (decide (j = i)) as [->|]; [done | apply Hp; lia].
Qed.

Lemma shares_prefix_0 own x : shares_prefix own 0 x.
Proof. intros j ?. lia. Qed.

(** What [add_or_update] does to a well-formed bucket's list. *)
Definition upsert_post (k : Z) (node : NodeInfo) (ns ns' : list NodeInfo) : Prop :=
  (id node ∈ ids ns ∧ ns' ≡ₚ ns) ∨
  (id node ∉ ids ns ∧
   ((Z.of_nat (length ns) < k ∧ ns' = ns ++ [node]) ∨ (k ≤ Z.of_nat (length ns) ∧ ns' = ns))).

Lemma add_or_update_spec own k i ns next node :
  nodes_ok own k i ns → node_ok node → shares_prefix own i (id node) →
  ∃ ns', add_or_update (mkBucket own i k ns next) node = Ret (mkBucket own i k ns' next) ∧
    upsert_post k node ns ns' ∧ nodes_ok own k i ns'.
Proof.
  intros Hns Hnode Hp. destruct (decide (id node ∈ ids ns)) as [Hin|Hin].
  - destruct (add_or_update_known (mkBucket own i k ns next) node)
      as (n & l1 & l2 & Hl & Hn & ->); [done | apply Hns |].
    simpl in Hl. assert (Hperm : l1 ++ l2 ++ [n] ≡ₚ ns).
    { rewrite Hl. by rewrite <- Permutation_cons_append. }
    eexists. split; [done |]. split; [by left | by eapply nodes_ok_perm].
  - rewrite add_or_update_new by done. simpl. destruct (Z.ltb_spec (Z.of_nat (length ns)) k).
    + exists (ns ++ [node]). split; [done |]. split; [right; naive_solver |].
      by apply nodes_ok_snoc.
    + exists ns. split; [done |]. split; [right | done]. naive_solver.
Qed.

(** ** Splitting a full bucket *)

Lemma split_nodes_spec addf belongs own i k fuel l1 l2 ms :
  (∀ ms x, Z.of_nat (length ms) < k → id x ∉ ids ms →
     addf (mkBucket own i k ms None) x = Ret (mkBucket own i k (ms ++ [x]) None)) →
  (length l2 ≤ fuel)%nat →
  Z.of_nat (length l2 + length ms) ≤ k →
  NoDup (ids (l2 ++ ms)) →
  ∃ stay moved,
    split_nodes addf belongs fuel (length l1) (l1 ++ l2) (mkBucket own i k ms None) =
    Ret (l1 ++ stay, mkBucket own i k (ms ++ moved) None) ∧
    stay ++ moved ≡ₚ l2 ∧
    Forall (λ n, belongs n = true) stay ∧ Forall (λ n, belongs n = false) moved.
Proof.
  intros Hadd. revert l1 l2 ms. induction fuel as [|fuel IH]; intros l1 l2 ms Hfuel Hlen Hnd.
  { destruct l2; simpl in *; [| lia]. exists [], [].
    rewrite !app_nil_r, decide_False by lia. by split_and!. }
  destruct l2 as [|x l2].
  { exists [], []. simpl. rewrite !app_nil_r, decide_False by lia. by split_and!. }
  cbn [split_nodes]. rewrite decide_True by (rewrite length_app; simpl; lia).
  rewrite lookup_app_r, Nat.sub_diag by lia. simpl in *.
  apply NoDup_cons in Hnd as [Hx Hnd]. destruct (belongs x) eqn:Hb.
  - rewrite Nat.add_1_r.
    replace (S (length l1)) with (length (l1 ++ [x])) by (rewrite length_app; simpl; lia).
    change (l1 ++ x :: l2) with (l1 ++ [x] ++ l2). rewrite app_assoc.
    destruct (IH (l1 ++ [x]) l2 ms) as (stay & moved & -> & Hp & Hs & Hm); [lia.. | done |].
    exists (x :: stay), moved. rewrite <- app_assoc. split_and!; [done | | by constructor | done].
    simpl. by f_equiv.
  - assert (Hswap : ∃ l2', swap_remove (length l1) (l1 ++ x :: l2) = Ret (x, l1 ++ l2') ∧ l2' ≡ₚ l2).
    { destruct (exists_last_cases l2) as [->|(l2' & y & ->)].
      - exists []. by rewrite swap_remove_last, app_nil_r.
      - exists (y :: l2'). rewrite swap_remove_middle. split; [done |].
        by rewrite Permutation_cons_append. }
    destruct Hswap as (l2' & -> & Hl2). cbn [run_bind].
    rewrite ids_app in Hx, Hnd. rewrite Hadd by (lia || set_solver). cbn [run_bind].
    pose proof (Permutation_length Hl2).
    destruct (IH l1 l2' (ms ++ [x])) as (stay & moved & -> & Hp & Hs & Hm).
    + lia.
    + rewrite length_app. simpl. lia.
    + rewrite !ids_app, (ids_perm _ _ Hl2), app_assoc. simpl.
      rewrite <- Permutation_cons_append. by constructor; [| rewrite <- ids_app in *].
    + exists stay, (x :: moved). rewrite <- app_assoc. split_and!; [done | | done | by constructor].
      rewrite <- Hl2, <- Hp. by rewrite Permutation_middle.
Qed.

(** ** Where an identifier lives *)

(** The node list of the bucket that the recursion on [x] ends in. *)
Fixpoint bucket_for (b : Bucket) (x : U160) : list NodeInfo :=
  match next_bucket b with
  | Some next => if id_belongs_here b x then nodes b else bucket_for next x
  | None => nodes b
  end.

Lemma all_nodes_last o i k ns : all_nodes (mkBucket o i k ns None) = ns.
Proof. simpl. apply app_nil_r. Qed.

Lemma chain_index own k i b : chain_ok own k i b → 0 ≤ i ≤ MAX_BUCKET_INDEX.
Proof. inversion 1; lia. Qed.

Lemma chain_prefix own k i b :
  chain_ok own k i b → Forall (λ n, node_ok n ∧ shares_prefix own i (id n)) (all_nodes b).
Proof.
  induction 1 as [i ns Hi Hns | i ns next Hi Hns Hbel Hnext IH]; simpl.
  - rewrite app_nil_r. apply Forall_and. by destruct Hns.
  - apply Forall_app. split; [apply Forall_and; by destruct Hns |].
    eapply Forall_impl; [exact IH |]. simpl. intros n [Hn Hp]. split; [done |].
    intros j Hj. apply Hp. lia.
Qed.

Lemma chain_next_bit own k i b :
  0 ≤ i → chain_ok own k (i + 1) b →
  Forall (λ n, get_bit (distance own (id n)) i = false) (all_nodes b).
Proof.
  intros Hi H%chain_prefix. eapply Forall_impl; [exact H |]. simpl.
  intros n [_ Hp]. apply Hp. lia.
Qed.

Lemma bucket_for_incl b x n : n ∈ bucket_for b x → n ∈ all_nodes b.
Proof.
  induction b as [o i k ns | o i k ns next IH] using Bucket_chain_ind; simpl.
  - set_solver.
  - case_match; set_solver.
Qed.

(** A node of the table is in the bucket its identifier leads to. *)
Lemma chain_bucket_for own k i b x n :
  chain_ok own k i b → n ∈ all_nodes b → id n = x → n ∈ bucket_for b x.
Proof.
  intros Hb Hn <-. induction Hb as [i ns Hi Hns | i ns next Hi Hns Hbel Hnext IH]; simpl in *.
  - by rewrite app_nil_r in Hn.
  - unfold id_belongs_here; simpl. apply elem_of_app in Hn as [Hn|Hn].
    + rewrite Forall_forall in Hbel. by rewrite Hbel.
    + pose proof (chain_next_bit _ _ _ _ (proj1 Hi) Hnext) as Hbit.
      rewrite Forall_forall in Hbit. rewrite Hbit by done. by apply IH.
Qed.

Lemma chain_ids_bucket_for own k i b x :
  chain_ok own k i b → x ∈ ids (all_nodes b) ↔ x ∈ ids (bucket_for b x).
Proof.
  intros Hb. rewrite !elem_of_ids. split; intros (n & Hn & Hin); exists n; (split; [done |]).
  - by eapply chain_bucket_for.
  - by eapply bucket_for_incl.
Qed.

Lemma chain_nodup own k i b : chain_ok own k i b → NoDup (ids (all_nodes b)).
Proof.
  induction 1 as [i ns Hi Hns | i ns next Hi Hns Hbel Hnext IH]; simpl.
  - rewrite app_nil_r. apply Hns.
  - rewrite ids_app. apply NoDup_app. split_and!; [apply Hns | | done].
    intros x (n & <- & Hn)%elem_of_ids (m & Hm & Hin)%elem_of_ids.
    pose proof (chain_next_bit _ _ _ _ (proj1 Hi) Hnext) as Hbit.
    rewrite Forall_forall in Hbit, Hbel.
    specialize (Hbit _ Hin). specialize (Hbel _ Hn). congruence.
Qed.

(** ** [make_next_bucket] and [add] *)

Lemma add_unfold p fuel self node :
  add p (S fuel) self node =
  if is_none (next_bucket self) && (Z.of_nat (length (nodes self)) <? k_size self)
  then add_or_update self node
  else
    let! (self, made) :=
      (if is_none (next_bucket self) && (Z.of_nat (length (nodes self)) =? k_size self)
       then make_next_bucket p (add p fuel) self
       else Ret (self, true)) in
    if negb made then Ret self
    else if negb (belongs_here self node) then
      let! next := unwrap (next_bucket self) in
      let! next := add p fuel next node in
      Ret (set_next self next)
    else add_or_update self node.
Proof. done. Qed.

Lemma add_last_room p fuel own i k ms x :
  Z.of_nat (length ms) < k → id x ∉ ids ms →
  add p (S fuel) (mkBucket own i k ms None) x = Ret (mkBucket own i k (ms ++ [x]) None).
Proof.
  intros Hlen Hx. simpl. rewrite (proj2 (Z.ltb_lt _ _) Hlen), add_or_update_new by done.
  simpl. by rewrite (proj2 (Z.ltb_lt _ _) Hlen).
Qed.

Lemma make_next_bucket_spec p fuel own k i ns :
  0 ≤ i < MAX_BUCKET_INDEX → nodes_ok own k i ns →
  ∃ stay moved,
    make_next_bucket p (add p (S fuel)) (mkBucket own i k ns None) =
    Ret (mkBucket own i k stay (Some (mkBucket own (i + 1) k moved None)), true) ∧
    stay ++ moved ≡ₚ ns ∧
    chain_ok own k i (mkBucket own i k stay (Some (mkBucket own (i + 1) k moved None))).
Proof.
  unfold MAX_BUCKET_INDEX. intros Hi Hns. unfold make_next_bucket. simpl bucket_index.
  rewrite (proj2 (Z.eqb_neq _ _)) by (unfold MAX_BUCKET_INDEX; lia).
  unfold add_u. rewrite checked_in by (unfold in_width; lia). cbn [run_bind].
  destruct (split_nodes_spec (add p (S fuel)) (belongs_here (mkBucket own i k ns None))
              own (i + 1) k (length ns) [] ns []) as (stay & moved & E & Hp & Hs & Hm).
  - intros. by apply add_last_room.
  - done.
  - rewrite Nat.add_0_r. apply Hns.
  - rewrite app_nil_r. apply Hns.
  - cbn [app length] in E. cbn [next_bucket nodes own_id k_size]. rewrite E. exists stay, moved.
    split; [done |]. split; [done |].
    assert (Hstay : nodes_ok own k i stay) by (by eapply nodes_ok_sub).
    assert (Hmoved : nodes_ok own k i moved).
    { eapply (nodes_ok_sub _ _ _ ns moved stay); [| done]. by rewrite Permutation_app_comm. }
    apply chain_link; [done.. |]. apply chain_last; [unfold MAX_BUCKET_INDEX; lia |].
    by apply nodes_ok_deeper; [lia | |].
Qed.

(** Every bucket that has a successor starts a chain of at least [k] nodes:
    the state a table is in when it has only been added to. *)
Fixpoint dense (k : Z) (b : Bucket) : Prop :=
  match next_bucket b with
  | Some next => k ≤ Z.of_nat (length (all_nodes b)) ∧ dense k next
  | None => True
  end.

(** The multiset of nodes after [add]: nothing is evicted and nothing but the
    new node is added; a node that is neither known nor stored found its bucket
    full. *)
Definition add_post (k : Z) (node : NodeInfo) (b b' : Bucket) : Prop :=
  (id node ∈ ids (all_nodes b) ∧ all_nodes b' ≡ₚ all_nodes b) ∨
  (id node ∉ ids (all_nodes b) ∧ all_nodes b' ≡ₚ node :: all_nodes b) ∨
  (id node ∉ ids (all_nodes b) ∧ all_nodes b' ≡ₚ all_nodes b ∧
   Z.of_nat (length (bucket_for b' (id node))) = k).

Lemma add_post_perm k node b1 b2 b' :
  all_nodes b1 ≡ₚ all_nodes b2 → add_post k node b1 b' → add_post k node b2 b'.
Proof. unfold add_post. intros Hp. by rewrite (ids_perm _ _ Hp), Hp. Qed.

Lemma add_post_length k node b b' :
  add_post k node b b' → (length (all_nodes b) ≤ length (all_nodes b'))%nat.
Proof. unfold add_post. intros [[_ ->] | [[_ ->] | [_ [-> _]]]]; simpl; lia. Qed.

Lemma upsert_add_post own k i ns ns' next node :
  chain_ok own k i (mkBucket own i k ns next) →
  bucket_for (mkBucket own i k ns next) (id node) = ns →
  bucket_for (mkBucket own i k ns' next) (id node) = ns' →
  upsert_post k node ns ns' →
  add_post k node (mkBucket own i k ns next) (mkBucket own i k ns' next).
Proof.
  intros Hb Hf Hf' Hpost. unfold add_post. rewrite (chain_ids_bucket_for _ _ _ _ _ Hb), Hf, Hf'.
  simpl. destruct Hpost as [[Hin Hp] | [Hin [[_ ->] | [Hlen ->]]]].
  - left. by rewrite Hp.
  - right; left. split; [done |]. rewrite <- app_assoc. symmetry. apply Permutation_middle.
  - right; right. split_and!; [done.. |].
    assert (Z.of_nat (length ns) ≤ k) by (inversion Hb as [??? []|???? []]; simplify_eq; done). lia.
Qed.

Lemma add_here p fuel own k i ns next node :
  chain_ok own k i (mkBucket own i k ns (Some next)) → node_ok node →
  shares_prefix own i (id node) → get_bit (distance own (id node)) i = true →
  ∃ b', add p (S fuel) (mkBucket own i k ns (Some next)) node = Ret b' ∧
    chain_ok own k i b' ∧ add_post k node (mkBucket own i k ns (Some next)) b' ∧
    (dense k (mkBucket own i k ns (Some next)) → dense k b').
Proof.
  intros Hb Hnode Hp Hbit. simpl. unfold belongs_here; simpl. rewrite Hbit. simpl.
  inversion Hb as [|? ? ? Hi Hns Hbel Hnext]; subst.
  destruct (add_or_update_spec own k i ns (Some next) node) as (ns' & -> & Hpost & Hns'); [done.. |].
  eexists. split; [done |].
  assert (Hf : ∀ l, bucket_for (mkBucket own i k l (Some next)) (id node) = l).
  { intros l. simpl. unfold id_belongs_here; simpl. by rewrite Hbit. }
  assert (Hadd : add_post k node (mkBucket own i k ns (Some next)) (mkBucket own i k ns' (Some next)))
    by (by apply (upsert_add_post own k i)).
  split_and!; [| done | pose proof (add_post_length _ _ _ _ Hadd); simpl in *; intuition lia].
  apply chain_link; [done.. | | done].
  destruct Hpost as [[_ Hperm] | [_ [[_ ->] | [_ ->]]]].
  - by rewrite Hperm.
  - by apply Forall_app_2; [| apply Forall_singleton].
  - done.
Qed.

Lemma add_below p fuel own k i ns next next' node :
  chain_ok own k i (mkBucket own i k ns (Some next)) →
  get_bit (distance own (id node)) i = false →
  add p fuel next node = Ret next' → chain_ok own k (i + 1) next' → add_post k node next next' →
  (dense k next → dense k next') →
  ∃ b', add p (S fuel) (mkBucket own i k ns (Some next)) node = Ret b' ∧
    chain_ok own k i b' ∧ add_post k node (mkBucket own i k ns (Some next)) b' ∧
    (dense k (mkBucket own i k ns (Some next)) → dense k b').
Proof.
  intros Hb Hbit E Hnext' Hpost Hdense. simpl. unfold belongs_here; simpl. rewrite Hbit. simpl.
  rewrite E. cbn [run_bind]. eexists. split; [done |].
  inversion Hb as [|? ? ? Hi Hns Hbel Hnext]; subst.
  split; [by apply chain_link |].
  pose proof (add_post_length _ _ _ _ Hpost).
  split; [| simpl; rewrite !length_app; intuition lia]. unfold add_post in *.
  assert (Hin : id node ∈ ids (all_nodes (mkBucket own i k ns (Some next))) ↔
                id node ∈ ids (all_nodes next)).
  { rewrite (chain_ids_bucket_for _ _ _ _ _ Hb), (chain_ids_bucket_for _ _ _ _ _ Hnext).
    simpl. unfold id_belongs_here; simpl. by rewrite Hbit. }
  rewrite Hin. simpl. unfold id_belongs_here; simpl. rewrite Hbit.
  destruct Hpost as [[? ->] | [[? ->] | [? [-> ?]]]]; [by left | right; left | right; right].
  - split; [done |]. symmetry. apply Permutation_middle.
  - done.
Qed.

(** A full last bucket that may still grow behaves as its split chain. *)
Lemma add_grow p fuel own k i ns node :
  0 ≤ i < MAX_BUCKET_INDEX → nodes_ok own k i ns → Z.of_nat (length ns) = k →
  ∃ stay moved,
    let grown := mkBucket own i k stay (Some (mkBucket own (i + 1) k moved None)) in
    add p (S (S fuel)) (mkBucket own i k ns None) node = add p (S (S fuel)) grown node ∧
    chain_ok own k i grown ∧ all_nodes grown ≡ₚ all_nodes (mkBucket own i k ns None) ∧
    dense k grown.
Proof.
  intros Hi Hns Hk.
  destruct (make_next_bucket_spec p fuel own k i ns) as (stay & moved & E & Hsm & Hb'); [done.. |].
  exists stay, moved. cbv zeta.
  assert (Hperm : stay ++ moved ++ [] ≡ₚ ns ++ []) by by rewrite !app_nil_r.
  split_and!; [| done | done | simpl; rewrite Hperm, app_nil_r; by split; [lia |]].
  rewrite !(add_unfold p (S fuel)). cbn [next_bucket nodes k_size is_none andb].
  rewrite Hk, Z.ltb_irrefl, Z.eqb_refl, E. reflexivity.
Qed.

(** [add] on a well-formed chain: as much fuel as there are indices left is
    enough, no step panics, the chain stays well formed. *)
Lemma add_spec p fuel own k i b node :
  chain_ok own k i b → node_ok node → shares_prefix own i (id node) →
  160 - i ≤ Z.of_nat fuel →
  ∃ b', add p fuel b node = Ret b' ∧ chain_ok own k i b' ∧ add_post k node b b' ∧
    (dense k b → dense k b').
Proof.
  revert i b. induction fuel as [|fuel IH]; intros i b Hb Hnode Hp Hfuel.
  { apply chain_index in Hb. unfold MAX_BUCKET_INDEX in *. lia. }
  assert (Hlink : ∀ ns next, chain_ok own k i (mkBucket own i k ns (Some next)) →
    ∃ b', add p (S fuel) (mkBucket own i k ns (Some next)) node = Ret b' ∧
      chain_ok own k i b' ∧ add_post k node (mkBucket own i k ns (Some next)) b' ∧
      (dense k (mkBucket own i k ns (Some next)) → dense k b')).
  { intros ns next Hc. destruct (get_bit (distance own (id node)) i) eqn:Hbit; [by apply add_here |].
    inversion Hc as [|? ? ? Hi ? ? Hnext]; subst.
    destruct (IH (i + 1) _ Hnext Hnode) as (next' & ? & ? & ? & ?);
      [by apply shares_prefix_deeper; [lia | |] | lia |].
    by eapply add_below. }
  inversion Hb as [? ns Hi Hns | ? ns next Hi Hns Hbel Hnext]; subst; [| by apply Hlink].
  unfold MAX_BUCKET_INDEX in *.
  destruct (Z.ltb_spec (Z.of_nat (length ns)) k) as [Hlen|Hlen].
  { rewrite add_unfold. simpl next_bucket. simpl nodes. simpl k_size.
    rewrite (proj2 (Z.ltb_lt _ _) Hlen).
    destruct (add_or_update_spec own k i ns None node) as (ns' & -> & Hpost & Hns'); [done.. |].
    eexists. split; [done |].
    split_and!; [by apply chain_last | by apply (upsert_add_post own k i) | done]. }
  assert (Hk : Z.of_nat (length ns) = k) by (destruct Hns; lia).
  destruct (decide (i = 159)) as [->|].
  - rewrite add_unfold. simpl next_bucket. simpl nodes. simpl k_size.
    rewrite (proj2 (Z.ltb_ge _ _) Hlen), Hk, Z.eqb_refl. simpl.
    eexists. split; [done |]. split_and!; [done | | done].
    unfold add_post. rewrite all_nodes_last.
    destruct (decide (id node ∈ ids ns)); [by left | by right; right].
  - destruct fuel as [|fuel]; [lia |].
    destruct (add_grow p fuel own k i ns node) as (stay & moved & -> & Hb' & Hperm & Hd);
      [unfold MAX_BUCKET_INDEX; lia | done.. |].
    destruct (Hlink _ _ Hb') as (b' & ? & ? & ? & ?). exists b'.
    split_and!; [done.. | by eapply add_post_perm | auto].
Qed.

(** ** [remove] *)

Lemma nodes_remove own k i ns x j :
  nodes_ok own k i ns → position (λ n, u160_eqb (id n) x) ns = Some j →
  ∃ n ns', vec_remove j ns = Ret (n, ns') ∧ id n = x ∧ ns ≡ₚ n :: ns' ∧ nodes_ok own k i ns'.
Proof.
  intros Hns (n & l1 & l2 & -> & <- & Hn & _)%position_id_Some.
  exists n, (l1 ++ l2). unfold vec_remove.
  rewrite lookup_app_r, Nat.sub_diag by done. simpl. rewrite delete_middle.
  split_and!; [done | done | by rewrite Permutation_middle |].
  eapply (nodes_ok_sub _ _ _ _ (l1 ++ l2) [n]); [| done].
  rewrite <- Permutation_cons_append. apply Permutation_middle.
Qed.

Definition remove_post (x : U160) (b b' : Bucket) (removed : bool) : Prop :=
  if removed
  then ∃ n, id n = x ∧ all_nodes b ≡ₚ n :: all_nodes b'
  else x ∉ ids (all_nodes b) ∧ b' = b.

Lemma remove_spec own k i b x :
  chain_ok own k i b →
  ∃ b' removed, remove b x = Ret (b', removed) ∧ chain_ok own k i b' ∧ remove_post x b b' removed.
Proof.
  induction 1 as [i ns Hi Hns | i ns next Hi Hns Hbel Hnext IH].
  - simpl. destruct (position _ _) as [j|] eqn:Hpos.
    + destruct (nodes_remove own k i ns x j) as (n & ns' & -> & Hn & Hp & Hns'); [done.. |].
      eexists _, true. split; [done |]. split; [by apply chain_last |].
      exists n. simpl. by rewrite !app_nil_r.
    + eexists _, false. split; [done |]. split; [by apply chain_last |]. split; [| done].
      rewrite all_nodes_last. by apply position_id_None.
  - simpl. unfold id_belongs_here at 1. simpl. destruct (get_bit _ _) eqn:Hbit.
    + destruct (position _ _) as [j|] eqn:Hpos.
      * destruct (nodes_remove own k i ns x j) as (n & ns' & -> & Hn & Hp & Hns'); [done.. |].
        eexists _, true. split; [done |]. split.
        -- apply chain_link; [done.. | | done]. rewrite Hp in Hbel. by inversion Hbel.
        -- exists n. simpl. by rewrite Hp.
      * eexists _, false. split; [done |]. split; [by apply chain_link |]. split; [| done].
        rewrite (chain_ids_bucket_for own k i) by by apply chain_link.
        simpl. unfold id_belongs_here; simpl. rewrite Hbit. by apply position_id_None.
    + destruct IH as (next' & removed & -> & Hnext' & Hpost). cbn [run_bind].
      eexists _, removed. split; [done |]. split; [by apply chain_link |].
      destruct removed; simpl in *.
      * destruct Hpost as (n & Hn & Hp). exists n. split; [done |].
        rewrite Hp. symmetry. apply Permutation_middle.
      * destruct Hpost as [Hx ->]. split; [| done].
        change (x ∉ ids (all_nodes (mkBucket own i k ns (Some next)))).
        rewrite (chain_ids_bucket_for own k i) by by apply chain_link.
        simpl. unfold id_belongs_here; simpl. rewrite Hbit.
        by rewrite <- (chain_ids_bucket_for _ _ _ _ _ Hnext).
Qed.

(** ** [lookup] *)

(** The list [lookup] computes, its two gaps as truncated differences. *)
Fixpoint lookup_list (k : nat) (b : Bucket) (x : U160) : list NodeInfo :=
  let near :=
    match next_bucket b with
    | Some next => if negb (id_belongs_here b x) then lookup_list k next x else []
    | None => []
    end in
  let near := near ++ take (k - length near) (nodes b) in
  match next_bucket b with
  | Some next => near ++ take (k - length near) (lookup_list k next x)
  | None => near
  end.

Lemma take_gap {A} (k : nat) (near l : list A) :
  (length near ≤ k)%nat → (length (near ++ take (k - length near) l) ≤ k)%nat.
Proof. intros. rewrite length_app, length_take. lia. Qed.

Lemma sub_gap p k (near : list NodeInfo) :
  in_width 8 k → (length near ≤ Z.to_nat k)%nat →
  sub_u p 64 k (Z.of_nat (length near)) = Ret (k - Z.of_nat (length near)).
Proof. intros [??] ?. apply checked_in. unfold in_width in *. lia. Qed.

Lemma gap_extend k (near l : list NodeInfo) :
  0 ≤ k → (length near ≤ Z.to_nat k)%nat →
  (if 0 <? k - Z.of_nat (length near)
   then near ++ take (Z.to_nat (k - Z.of_nat (length near))) l else near) =
  near ++ take (Z.to_nat k - length near) l.
Proof.
  intros Hk Hlen. replace (Z.to_nat (k - Z.of_nat (length near))) with (Z.to_nat k - length near)%nat by lia.
  destruct (Z.ltb_spec 0 (k - Z.of_nat (length near))); [done |].
  replace (Z.to_nat k - length near)%nat with 0%nat by lia. by rewrite take_0, app_nil_r.
Qed.

Lemma lookup_spec p own k i b x :
  in_width 8 k → chain_ok own k i b →
  lookup p b x = Ret (lookup_list (Z.to_nat k) b x) ∧
  (length (lookup_list (Z.to_nat k) b x) ≤ Z.to_nat k)%nat.
Proof.
  intros Hk. pose proof (proj1 Hk). induction 1 as [i ns Hi Hns | i ns next Hi Hns Hbel Hnext [IH IHlen]].
  - cbn [lookup lookup_list next_bucket k_size nodes run_bind].
    rewrite sub_gap by (done || simpl; lia). cbn [run_bind].
    rewrite gap_extend by (done || simpl; lia).
    rewrite sub_gap by (done || apply take_gap; simpl; lia). cbn [run_bind].
    split; [done | apply take_gap; simpl; lia].
  - cbn [lookup lookup_list next_bucket k_size nodes run_bind]. rewrite IH.
    set (near := if negb _ then lookup_list _ _ _ else []).
    assert (Hnear : (length near ≤ Z.to_nat k)%nat) by (unfold near; case_match; simpl; lia).
    replace (if negb _ then Ret _ else Ret []) with (Ret near) by (unfold near; by case_match).
    cbn [run_bind]. rewrite sub_gap by done. cbn [run_bind]. rewrite gap_extend by done.
    pose proof (take_gap (Z.to_nat k) near ns Hnear) as Hnear'.
    rewrite sub_gap by done. cbn [run_bind].
    split; [| by apply take_gap]. rewrite <- (gap_extend k _ _ (proj1 Hk) Hnear').
    by destruct (0 <? _).
Qed.

Lemma lookup_list_incl k b x n : n ∈ lookup_list k b x → n ∈ all_nodes b.
Proof.
  revert n. induction b as [o i k' ns | o i k' ns next IH] using Bucket_chain_ind; intros n; simpl.
  - rewrite app_nil_r. apply elem_of_take_weak.
  - rewrite !elem_of_app. intros [[Hn|Hn%elem_of_take_weak]|Hn%elem_of_take_weak]; [| auto | auto].
    case_match; [auto | set_solver].
Qed.

Lemma bucket_for_length own k i b x :
  chain_ok own k i b → Z.of_nat (length (bucket_for b x)) ≤ k.
Proof.
  induction 1 as [i ns Hi Hns | i ns next Hi Hns Hbel Hnext IH]; simpl; [apply Hns |].
  case_match; [apply Hns | done].
Qed.

(** The bucket of the target comes first, complete. *)
Lemma lookup_list_prefix own k i b x :
  chain_ok own k i b → ∃ rest, lookup_list (Z.to_nat k) b x = bucket_for b x ++ rest.
Proof.
  induction 1 as [i ns Hi Hns | i ns next Hi Hns Hbel Hnext [rest IH]]; simpl.
  - exists []. rewrite Nat.sub_0_r, app_nil_r. apply take_ge. destruct Hns. lia.
  - destruct (id_belongs_here _ _); simpl.
    + rewrite Nat.sub_0_r, (take_ge ns) by (destruct Hns; lia). eauto.
    + rewrite IH, <- !app_assoc. eauto.
Qed.

(** On a dense chain nothing is returned twice and nothing is left out that
    would fit. *)
Lemma lookup_list_dense own k i b x :
  0 ≤ k → chain_ok own k i b → dense k b →
  NoDup (ids (lookup_list (Z.to_nat k) b x)) ∧
  length (lookup_list (Z.to_nat k) b x) = Nat.min (Z.to_nat k) (length (all_nodes b)).
Proof.
  intros Hk. induction 1 as [i ns Hi Hns | i ns next Hi Hns Hbel Hnext IH]; intros Hd; simpl.
  - rewrite Nat.sub_0_r, (take_ge ns), app_nil_r by (destruct Hns; lia).
    split; [apply Hns | destruct Hns; lia].
  - destruct Hd as [Hlen Hd]. destruct (IH Hd) as [IHnd IHlen].
    assert (Hdisj : ∀ y, y ∈ ids ns → y ∉ ids (all_nodes next)).
    { apply NoDup_app. rewrite <- ids_app.
      apply (chain_nodup own k i (mkBucket own i k ns (Some next))). by apply chain_link. }
    assert (Hsub : ∀ y, y ∈ ids (lookup_list (Z.to_nat k) next x) → y ∈ ids (all_nodes next)).
    { intros y. rewrite !elem_of_ids. intros (n & ? & ?). eauto using lookup_list_incl. }
    assert (Htake : ∀ m l y, y ∈ ids (take m l) → y ∈ ids l).
    { intros m l y. rewrite !elem_of_ids. intros (n & ? & ?). eauto using elem_of_take_weak. }
    assert (Hnd : ∀ m l, NoDup (ids l) → NoDup (ids (take m l))).
    { intros m l. unfold ids. rewrite fmap_take. intros H. rewrite <- (take_drop m (id <$> l)) in H.
      by apply NoDup_app in H as [? _]. }
    simpl in Hlen. rewrite length_app in *. destruct (id_belongs_here _ _); simpl.
    + rewrite Nat.sub_0_r, (take_ge ns) by (destruct Hns; lia).
      rewrite !length_app, length_take, IHlen. split; [| destruct Hns; lia].
      rewrite ids_app. apply NoDup_app. split_and!; [apply Hns | | by apply Hnd].
      intros y Hy Hy'%Htake%Hsub. by apply (Hdisj y).
    + rewrite !length_app, !length_take, IHlen.
      replace (_ - (_ + _))%nat with 0%nat by lia. rewrite take_0, app_nil_r.
      split; [| lia]. rewrite ids_app. apply NoDup_app. split_and!; [done | | by apply Hnd, Hns].
      intros y Hy%Hsub Hy'%Htake. by apply (Hdisj y).
Qed.

(** ** Distances from a target *)

Lemma value_lt_bit u i :
  u160_ok u → 0 ≤ i ≤ 160 →
  (∀ j, 0 ≤ j < i → get_bit u j = false) → value u < 2 ^ (160 - i).
Proof.
  intros Hu Hi Hbits. apply in_width_testbit; [lia | by apply value_in_width |].
  intros j Hj. destruct (decide (j < 160)).
  - specialize (Hbits (159 - j) ltac:(lia)). rewrite get_bit_value in Hbits by (done || lia).
    rewrite (proj2 (Z.ltb_lt _ _)) in Hbits by lia. simpl in Hbits.
    by replace (159 - (159 - j)) with j in Hbits by lia.
  - apply (testbit_out 160); [by apply value_in_width | lia].
Qed.

Lemma value_ge_bit u j :
  u160_ok u → 0 ≤ j < 160 → get_bit u j = true → 2 ^ (159 - j) ≤ value u.
Proof.
  intros Hu Hj Hb. rewrite get_bit_value in Hb by (done || lia).
  rewrite (proj2 (Z.ltb_lt _ _)) in Hb by lia. simpl in Hb.
  destruct (Z.le_gt_cases (2 ^ (159 - j)) (value u)) as [|Hlt]; [done |].
  rewrite (testbit_out (159 - j)) in Hb; [done | | lia].
  split; [| done]. by apply value_in_width.
Qed.

(** If [a] agrees with [x] before bit [i] included and [b] differs from it at or
    before bit [i], then [a] is the closer one. *)
Lemma closer_by_prefix x a b i j :
  u160_ok x → u160_ok a → u160_ok b → 0 ≤ j ≤ i → i < 160 →
  (∀ l, 0 ≤ l ≤ i → get_bit (distance x a) l = false) →
  get_bit (distance x b) j = true →
  value (distance x a) < value (distance x b).
Proof.
  intros Hx Ha Hb Hj Hi Hpre Hbit.
  apply (Z.lt_le_trans _ (2 ^ (160 - (i + 1)))).
  - apply value_lt_bit; [auto with u160 | lia |]. intros l Hl. apply Hpre. lia.
  - apply (Z.le_trans _ (2 ^ (159 - j))); [apply Z.pow_le_mono_r; lia |].
    apply value_ge_bit; [auto with u160 | lia | done].
Qed.

Lemma get_bit_distance_via own x a l :
  u160_ok own → u160_ok x → u160_ok a → 0 ≤ l →
  get_bit (distance x a) l = xorb (get_bit (distance own x) l) (get_bit (distance own a) l).
Proof.
  intros. rewrite !get_bit_distance by done.
  by destruct (get_bit x l), (get_bit a l), (get_bit own l).
Qed.

Lemma bucket_for_closer own k i b x n m :
  u160_ok own → u160_ok x → shares_prefix own i x → chain_ok own k i b →
  n ∈ bucket_for b x → m ∈ all_nodes b → m ∉ bucket_for b x →
  value (distance x (id n)) < value (distance x (id m)).
Proof.
  intros Hown Hx Hxp Hb. revert n m Hxp.
  induction Hb as [i ns Hi Hns | i ns next Hi Hns Hbel Hnext IH]; intros n m Hxp Hn Hm Hout.
  { simpl in *. rewrite app_nil_r in Hm. done. }
  unfold MAX_BUCKET_INDEX in Hi.
  assert (Hall := chain_prefix own k i _ (chain_link own k i ns next Hi Hns Hbel Hnext)).
  assert (Hnext' := chain_prefix _ _ _ _ Hnext).
  rewrite Forall_forall in Hall, Hbel, Hnext'.
  assert (Hnin : n ∈ all_nodes (mkBucket own i k ns (Some next))) by by eapply bucket_for_incl.
  destruct (Hall _ Hnin) as [[Hnid _] Hnp]. destruct (Hall _ Hm) as [[Hmid _] Hmp].
  simpl in Hn, Hm, Hout. unfold id_belongs_here in *; simpl in *.
  assert (Hclose : ∀ bit, get_bit (distance own x) i = bit → get_bit (distance own (id n)) i = bit →
    get_bit (distance own (id m)) i = negb bit →
    value (distance x (id n)) < value (distance x (id m))).
  { intros bit Hxb Hnb Hmb. apply (closer_by_prefix x _ _ i i); [done.. | lia | lia | |].
    - intros l Hl. rewrite (get_bit_distance_via own) by (done || lia).
      destruct (decide (l = i)) as [->|]; [rewrite Hxb, Hnb; by destruct bit |].
      by rewrite Hxp, Hnp by lia.
    - rewrite (get_bit_distance_via own), Hxb, Hmb by (done || lia). by destruct bit. }
  destruct (get_bit (distance own x) i) eqn:Hxb.
  - apply (Hclose true); [done | by apply Hbel |].
    apply elem_of_app in Hm as [Hm|Hm]; [done |]. apply (Hnext' _ Hm). lia.
  - apply elem_of_app in Hm as [Hm|Hm].
    + apply (Hclose false); [done | | by apply Hbel].
      apply (Hnext' n); [by eapply bucket_for_incl | lia].
    + apply IH; [by apply shares_prefix_deeper; [lia | |] | done..].
Qed.

(** ** Whole tables *)

(** There are 160 indices, so a fuel of 160 suffices from the root. *)
Definition FUEL : nat := 160.

Fixpoint add_all (p : profile) (b : Bucket) (ns : list NodeInfo) : run Bucket :=
  match ns with
  | [] => Ret b
  | n :: ns => let! b := add p FUEL b n in add_all p b ns
  end.

Lemma root_ok own k : u160_ok own → in_width 8 k → table_ok own k (root own k).
Proof.
  intros Hown Hk. split_and!; [done.. |]. apply chain_last; [by unfold MAX_BUCKET_INDEX |].
  apply nodes_ok_nil, Hk.
Qed.

Lemma add_table p own k b node :
  table_ok own k b → node_ok node →
  ∃ b', add p FUEL b node = Ret b' ∧ table_ok own k b' ∧ add_post k node b b' ∧
    (dense k b → dense k b').
Proof.
  intros (Hown & Hk & Hb) Hnode.
  destruct (add_spec p FUEL own k 0 b node) as (b' & ? & ? & ? & ?);
    [done.. | apply shares_prefix_0 | by unfold FUEL |].
  exists b'. by split_and!.
Qed.

Lemma add_all_table p own k b ns :
  table_ok own k b → dense k b → Forall node_ok ns →
  ∃ b', add_all p b ns = Ret b' ∧ table_ok own k b' ∧ dense k b'.
Proof.
  intros Hb Hd Hns. revert b Hb Hd. induction Hns as [|n ns Hn Hns IH]; intros b Hb Hd.
  - by exists b.
  - destruct (add_table p own k b n Hb Hn) as (b1 & E & Hb1 & _ & Hd1).
    destruct (IH b1 Hb1 (Hd1 Hd)) as (b' & E' & ?). exists b'. split; [| done].
    cbn [add_all]. by rewrite E.
Qed.

Lemma table_nodup own k b : table_ok own k b → NoDup (ids (all_nodes b)).
Proof. intros (_ & _ & Hb). by eapply chain_nodup. Qed.

Lemma remove_table own k b x :
  table_ok own k b →
  ∃ b' removed, remove b x = Ret (b', removed) ∧ table_ok own k b' ∧
    remove_post x b b' removed ∧ x ∉ ids (all_nodes b').
Proof.
  intros (Hown & Hk & Hb). destruct (remove_spec own k 0 b x Hb) as (b' & r & E & Hb' & Hpost).
  exists b', r. split_and!; [done.. |]. destruct r; simpl in Hpost.
  - destruct Hpost as (n & <- & Hp). pose proof (chain_nodup _ _ _ _ Hb) as Hnd.
    rewrite (ids_perm _ _ Hp) in Hnd. by apply NoDup_cons in Hnd as [? _].
  - by destruct Hpost as [? ->].
Qed.

(** The clients of the table reason by the lemmas above. *)
#[global] Arguments FUEL : simpl never.
#[global] Arguments add _ _ _ _ : simpl never.
#[global] Arguments lookup _ _ _ : simpl never.
#[global] Arguments remove _ _ : simpl never.

(** ** Properties *)

(** C11: [add] on a well-formed table terminates within the 160 levels of the
    chain, panics nowhere and keeps the table well formed. No stored node is
    ever evicted: the nodes afterwards are those before, plus the new one
    exactly when its identifier was unknown and its bucket (after the growth
    the call itself may cause) had room. *)
Theorem add_correct p own k b node :
  table_ok own k b → node_ok node →
  ∃ b', add p FUEL b node = Ret b' ∧ table_ok own k b' ∧
    ((id node ∈ ids (all_nodes b) ∧ all_nodes b' ≡ₚ all_nodes b) ∨
     (id node ∉ ids (all_nodes b) ∧ all_nodes b' ≡ₚ node :: all_nodes b) ∨
     (id node ∉ ids (all_nodes b) ∧ all_nodes b' ≡ₚ all_nodes b ∧
      Z.of_nat (length (bucket_for b' (id node))) = k)).
Proof.
  intros Hb Hn. destruct (add_table p own k b node Hb Hn) as (b' & ? & ? & ? & _). by exists b'.
Qed.

Definition ex_node (ms ls : Z) : NodeInfo := mkNodeInfo (new ms ls) (SocketV4 [10; 0; 0; 1] 6881).

Lemma ex_node_ok ms ls : u160_ok (new ms ls) → node_ok (ex_node ms ls).
Proof.
  intros. split; [done |]. split; [split; [| done] | by split].
  by repeat (constructor; [by split |]).
Qed.

Lemma add_correct_witness :
  ∃ b', add Debug FUEL (root min 8) (ex_node 1 2) = Ret b' ∧ table_ok min 8 b' ∧
    ((id (ex_node 1 2) ∈ ids (all_nodes (root min 8)) ∧ all_nodes b' ≡ₚ all_nodes (root min 8)) ∨
     (id (ex_node 1 2) ∉ ids (all_nodes (root min 8)) ∧
      all_nodes b' ≡ₚ ex_node 1 2 :: all_nodes (root min 8)) ∨
     (id (ex_node 1 2) ∉ ids (all_nodes (root min 8)) ∧
      all_nodes b' ≡ₚ all_nodes (root min 8) ∧
      Z.of_nat (length (bucket_for b' (id (ex_node 1 2)))) = 8)).
Proof.
  apply (add_correct Debug min 8 (root min 8) (ex_node 1 2)).
  - by apply root_ok.
  - by apply ex_node_ok.
Defined.

(** C13: [remove] on a well-formed table never panics and keeps it well formed; it
    answers [true] and takes out exactly the node of that identifier when there
    is one, answers [false] and changes nothing when there is none, and the
    identifier is not in the table afterwards. *)
Theorem remove_correct own k b x :
  table_ok own k b →
  ∃ b' removed, remove b x = Ret (b', removed) ∧ table_ok own k b' ∧
    x ∉ ids (all_nodes b') ∧
    if removed : bool
    then ∃ n, id n = x ∧ all_nodes b ≡ₚ n :: all_nodes b'
    else x ∉ ids (all_nodes b) ∧ b' = b.
Proof.
  intros Hb. destruct (remove_table own k b x Hb) as (b' & r & ? & ? & ? & ?).
  by exists b', r.
Qed.

Lemma remove_correct_witness :
  ∃ b' removed, remove (root min 8) (new 1 2) = Ret (b', removed) ∧ table_ok min 8 b' ∧
    new 1 2 ∉ ids (all_nodes b') ∧
    if removed : bool
    then ∃ n, id n = new 1 2 ∧ all_nodes (root min 8) ≡ₚ n :: all_nodes b'
    else new 1 2 ∉ ids (all_nodes (root min 8)) ∧ b' = root min 8.
Proof. apply (remove_correct min 8 (root min 8) (new 1 2)). by apply root_ok. Defined.

(** C12: [lookup] on a well-formed table never underflows a gap and returns at most
    [k] nodes of the table, starting with the whole bucket the target falls in;
    every node of the table outside that bucket is strictly farther from the
    target than every node in it. *)
Theorem lookup_closest_bucket p own k b x :
  table_ok own k b → u160_ok x →
  ∃ rest, lookup p b x = Ret (bucket_for b x ++ rest) ∧
    Z.of_nat (length (bucket_for b x ++ rest)) ≤ k ∧
    (∀ n, n ∈ bucket_for b x ++ rest → n ∈ all_nodes b) ∧
    (∀ n m, n ∈ bucket_for b x → m ∈ all_nodes b → m ∉ bucket_for b x →
       value (distance x (id n)) < value (distance x (id m))).
Proof.
  intros (Hown & Hk & Hb) Hx.
  destruct (lookup_spec p own k 0 b x Hk Hb) as [E Hlen].
  destruct (lookup_list_prefix own k 0 b x Hb) as [rest Hrest].
  rewrite Hrest in *. exists rest. split_and!; [done | destruct Hk; lia | |].
  - intros n. rewrite <- Hrest. apply lookup_list_incl.
  - intros n m. apply (bucket_for_closer own k 0); [done.. | apply shares_prefix_0 | done].
Qed.

Lemma lookup_closest_bucket_witness :
  ∃ rest, lookup Debug (root min 8) (new 1 2) = Ret (bucket_for (root min 8) (new 1 2) ++ rest) ∧
    Z.of_nat (length (bucket_for (root min 8) (new 1 2) ++ rest)) ≤ 8 ∧
    (∀ n, n ∈ bucket_for (root min 8) (new 1 2) ++ rest → n ∈ all_nodes (root min 8)) ∧
    (∀ n m, n ∈ bucket_for (root min 8) (new 1 2) → m ∈ all_nodes (root min 8) →
       m ∉ bucket_for (root min 8) (new 1 2) →
       value (distance (new 1 2) (id n)) < value (distance (new 1 2) (id m))).
Proof. apply (lookup_closest_bucket Debug min 8); [by apply root_ok | by split]. Defined.

(** C36: in a table that nodes were only added to, [lookup] of any target returns
    no identifier twice and as many nodes as fit: the smaller of [k] and the
    number of nodes in the table. *)
Theorem lookup_after_adds p own k ns x :
  u160_ok own → in_width 8 k → Forall node_ok ns →
  ∃ b l, add_all p (root own k) ns = Ret b ∧ lookup p b x = Ret l ∧
    NoDup (ids l) ∧ length l = Nat.min (Z.to_nat k) (length (all_nodes b)).
Proof.
  intros Hown Hk Hns.
  destruct (add_all_table p own k (root own k) ns) as (b & E & (_ & _ & Hb) & Hd);
    [by apply root_ok | done | done |].
  exists b, (lookup_list (Z.to_nat k) b x). split; [done |].
  split; [by apply (lookup_spec p own k 0) |].
  apply (lookup_list_dense own k 0); [apply Hk | done..].
Qed.

(** Eight nodes that fill the root bucket: five with the first bit set, three
    without; a ninth one makes it split. *)
Definition ex_nodes : list NodeInfo :=
  (λ j, ex_node (2 ^ 127 + j) 0) <$> [1; 2; 3; 4; 5].
Definition ex_nodes_near : list NodeInfo := (λ j, ex_node j 0) <$> [1; 2; 3; 4].

Lemma lookup_after_adds_witness :
  ∃ b l, add_all Debug (root min 8) (ex_nodes ++ ex_nodes_near) = Ret b ∧
    lookup Debug b (new 6 0) = Ret l ∧ NoDup (ids l) ∧
    length l = Nat.min 8 (length (all_nodes b)).
Proof.
  apply (lookup_after_adds Debug min 8 (ex_nodes ++ ex_nodes_near) (new 6 0));
    [by split | by split |].
  by repeat (constructor; [by apply ex_node_ok; split |]).
Defined.

(** Once nodes have been removed, [lookup] can return the same node twice:
    with four of the first-bit nodes gone, the target's bucket is listed before
    the root bucket's only node and again after it, and fills the answer with
    three duplicates. *)
Theorem lookup_duplicates :
  ∃ b b' l,
    add_all Debug (root min 8) (ex_nodes ++ ex_nodes_near) = Ret b ∧
    (let! (b, _) := remove b (new (2 ^ 127 + 1) 0) in
     let! (b, _) := remove b (new (2 ^ 127 + 2) 0) in
     let! (b, _) := remove b (new (2 ^ 127 + 3) 0) in
     let! (b, _) := remove b (new (2 ^ 127 + 4) 0) in Ret b) = Ret b' ∧
    lookup Debug b' (new 6 0) = Ret l ∧
    length (all_nodes b') = 5%nat ∧ length l = 8%nat ∧
    ids l = (λ j, new j 0) <$> [1; 3; 2; 4; 2 ^ 127 + 5; 1; 3; 2].
Proof.
  do 3 eexists. do 3 (split; [vm_compute; reflexivity |]).
  split_and!; reflexivity.
Qed.

(** Seven nodes near our own identifier, one in the root bucket, and one more. *)
Definition ex_nodes_same : list NodeInfo := (λ j, ex_node j 0) <$> [1; 2; 3; 4; 5; 6; 7].
Definition ex_far : NodeInfo := ex_node (2 ^ 127) 0.
Definition ex_omitted : NodeInfo := ex_node (2 ^ 126) 0.
Definition ex_target : U160 := new (2 ^ 127 + 2 ^ 126) 0.

(** Outside the target's bucket, [lookup] fills up in storage order, so its
    answer need not be the [k] closest nodes of the table: here the answer for
    a target in the root bucket leaves out a node that is closer than seven of the
    eight it returns. *)
Theorem lookup_not_k_closest :
  ∃ b l,
    add_all Debug (root min 8) (ex_nodes_same ++ [ex_far; ex_omitted]) = Ret b ∧
    lookup Debug b ex_target = Ret l ∧
    ex_omitted ∈ all_nodes b ∧ length l = 8%nat ∧ ex_omitted ∉ l ∧
    Forall (λ n, n = ex_far ∨
      value (distance ex_target (id ex_omitted)) < value (distance ex_target (id n))) l.
Proof.
  do 2 eexists. split; [vm_compute; reflexivity |]. split; [vm_compute; reflexivity |].
  split; [by refine (bool_decide_unpack _ _); vm_compute |].
  split; [done |]. split; [by refine (bool_decide_unpack _ _); vm_compute |].
  constructor; [by left |]. repeat (constructor; [right; by vm_compute |]). constructor.
Qed.
