(* ===== verification/BucketTasks.v ===== *)
(** * The routing table under several tasks

    [src/router/bucket.rs] again, with the locks: the operations of [Bucket] as the
    steps of tasks that run at the same time. The chain is a list of cells, the
    next bucket of the one at [i] being there when the cell at [i + 1] is. A
    lock is held from one step to the next only by [make_next_bucket], which
    writes while it moves nodes on; other accesses are one step, which waits
    while the cell is locked. [lookup], which changes nothing, is a function of
    what its accesses find ([lookup_seen]). *)

From S2P Require Import Prelude Externals Net U160 NodeInfo Bucket.

(** The nodes of a bucket, and whether a task holds the write lock over steps *)
Record cell : Type := mkCell { c_nodes : list NodeInfo; c_locked : bool }.

(** Where a call stands in [add], [make_next_bucket] and [remove], at the bucket
    of the given index *)
Inductive frame : Type :=
  | Enter (i : nat) (n : NodeInfo)
  | ReadRoom (i : nat) (n : NodeInfo)
  | CheckFull (i : nat) (n : NodeInfo)
  | ReadFull (i : nat) (n : NodeInfo)
  | Make (i : nat) (n : NodeInfo)
  | Lock (i : nat) (n : NodeInfo)
  | Split (i : nat) (n : NodeInfo) (index : nat)
  | Choose (i : nat) (n : NodeInfo)
  | Update (i : nat) (n : NodeInfo)
  | RemoveAt (i : nat) (x : U160)
  | RemoveHere (i : nat) (x : U160).

(** A task is the stack of its calls, the running one first. *)
Notation stack := (list frame).

Inductive outcome : Type :=
  | Blocked
  | Panicked
  | Next (chain : list cell) (frames : stack).

Section Tasks.
Context (own : U160) (k : Z).

Definition has_next (chain : list cell) (i : nat) : bool := (S i <? length chain)%nat.
Definition belongs_at (i : nat) (x : U160) : bool := get_bit (distance own x) (Z.of_nat i).

(** An access to the nodes of bucket [i]: it waits for the lock. *)
Definition access (chain : list cell) (i : nat) (f : list NodeInfo → outcome) : outcome :=
  match chain !! i with
  | Some c => if c_locked c then Blocked else f (c_nodes c)
  | None => Panicked
  end.

Definition frame_step (chain : list cell) (f : frame) : outcome :=
  match f with
  | Enter i n => Next chain [if has_next chain i then Choose i n else ReadRoom i n]
  | ReadRoom i n =>
      access chain i (λ ns,
        Next chain [if Z.of_nat (length ns) <? k then Update i n else CheckFull i n])
  | CheckFull i n => Next chain [if has_next chain i then Choose i n else ReadFull i n]
  | ReadFull i n =>
      access chain i (λ ns, Next chain [if Z.of_nat (length ns) =? k then Make i n else Choose i n])
  | Make i n =>
      if Z.of_nat i =? MAX_BUCKET_INDEX then Next chain []
      else if has_next chain i then Next chain [Choose i n]
      else Next (chain ++ [mkCell [] false]) [Lock i n]
  | Lock i n => access chain i (λ ns, Next (<[i := mkCell ns true]> chain) [Split i n 0])
  | Split i n index =>
      match chain !! i with
      | None => Panicked
      | Some c =>
          match c_nodes c !! index with
          | None => Next (<[i := mkCell (c_nodes c) false]> chain) [Choose i n]
          | Some m =>
              if belongs_at i (id m) then Next chain [Split i n (index + 1)]
              else
                match swap_remove index (c_nodes c) with
                | Ret (m, ns) => Next (<[i := mkCell ns true]> chain) [Enter (S i) m; Split i n index]
                | _ => Panicked
                end
          end
      end
  | Choose i n =>
      if belongs_at i (id n) then Next chain [Update i n]
      else if has_next chain i then Next chain [Enter (S i) n]
      else Panicked
  | Update i n =>
      access chain i (λ ns,
        match add_or_update (mkBucket own (Z.of_nat i) k ns None) n with
        | Ret b => Next (<[i := mkCell (nodes b) false]> chain) []
        | _ => Panicked
        end)
  | RemoveAt i x =>
      Next chain [if negb (has_next chain i) || belongs_at i x then RemoveHere i x else RemoveAt (S i) x]
  | RemoveHere i x =>
      access chain i (λ ns,
        match position (λ n, u160_eqb (id n) x) ns with
        | Some j =>
            match vec_remove j ns with
            | Ret (_, ns) => Next (<[i := mkCell ns false]> chain) []
            | _ => Panicked
            end
        | None => Next chain []
        end)
  end.

(** The chain with the tasks on it *)
Record system : Type := mkSystem { chain : list cell; stacks : list stack }.

(** One step of the task [t] *)
Definition task_step (t : nat) (s : system) : outcome :=
  match stacks s !! t with
  | Some (f :: _) => frame_step (chain s) f
  | _ => Blocked
  end.

(** A run: the tasks that step, one after the other; [None] when one of them is
    blocked, [Panic] when one panics. *)
Fixpoint tasks_run (ts : list nat) (s : system) : run (option system) :=
  match ts with
  | [] => Ret (Some s)
  | t :: ts =>
      match task_step t s with
      | Blocked => Ret None
      | Panicked => Panic
      | Next c fs => tasks_run ts (mkSystem c (alter (λ st, fs ++ tail st) t (stacks s)))
      end
  end.

Inductive system_step : system → system → Prop :=
  | step_task s t c fs :
      task_step t s = Next c fs →
      system_step s (mkSystem c (alter (λ st, fs ++ tail st) t (stacks s))).
End Tasks.

(** The chain of a table no task is working on *)
Fixpoint cells (b : Bucket) : list cell :=
  mkCell (nodes b) false :: match next_bucket b with Some next => cells next | None => [] end.

(** ** Frames and locks *)

Definition frame_index (f : frame) : nat :=
  match f with
  | Enter i _ | ReadRoom i _ | CheckFull i _ | ReadFull i _ | Make i _ | Lock i _
  | Split i _ _ | Choose i _ | Update i _ | RemoveAt i _ | RemoveHere i _ => i
  end.

(** The node a frame adds *)
Definition frame_node (f : frame) : option NodeInfo :=
  match f with
  | Enter _ n | ReadRoom _ n | CheckFull _ n | ReadFull _ n | Make _ n | Lock _ n
  | Split _ n _ | Choose _ n | Update _ n => Some n
  | RemoveAt _ _ | RemoveHere _ _ => None
  end.

(** The bucket whose lock a frame holds *)
Definition frame_lock (f : frame) : option nat :=
  match f with Split i _ _ => Some i | _ => None end.
Definition held (st : stack) : list nat := omap frame_lock st.

Definition locked (ch : list cell) (i : nat) : bool := default false (c_locked <$> ch !! i).
Definition nodes_at (ch : list cell) (i : nat) : list NodeInfo := default [] (c_nodes <$> ch !! i).

(** Below its first frame a stack has callers only, at indices that go down. *)
Fixpoint callers_below (i : nat) (st : stack) : Prop :=
  match st with
  | [] => True
  | Split j _ _ :: st => (j < i)%nat ∧ callers_below j st
  | _ => False
  end.
Definition stack_ok (st : stack) : Prop :=
  match st with [] => True | f :: st => callers_below (frame_index f) st end.

Lemma callers_held i st j : callers_below i st → j ∈ held st → (j < i)%nat.
Proof.
  revert i. induction st as [|[] st IH]; intros i0 Hst Hj; simpl in *; try done.
  - set_solver.
  - destruct Hst as [Hlt Hst]. apply elem_of_cons in Hj as [->|Hj]; [done |].
    specialize (IH _ Hst Hj). lia.
Qed.

Lemma callers_mono i j st : (i ≤ j)%nat → callers_below i st → callers_below j st.
Proof. destruct st as [|[] st]; simpl; intuition lia. Qed.

Lemma held_app s1 s2 : held (s1 ++ s2) = held s1 ++ held s2.
Proof. apply omap_app. Qed.

Lemma has_next_true ch i : has_next ch i = true ↔ (S i < length ch)%nat.
Proof. apply Nat.ltb_lt. Qed.

Section Invariant.
Context (own : U160) (k : Z).

Notation step := (frame_step own k).

(** Every bucket has a well-formed list for its index. Nothing says that the
    nodes of a bucket with a successor belong to it: see [race_misplaces]. *)
Definition cells_ok (ch : list cell) : Prop :=
  (length ch ≤ 160)%nat ∧ ∀ i c, ch !! i = Some c → nodes_ok own k (Z.of_nat i) (c_nodes c).

Definition frame_ok (ch : list cell) (f : frame) : Prop :=
  (frame_index f < length ch)%nat ∧
  (∀ n, frame_node f = Some n → node_ok n ∧ shares_prefix own (Z.of_nat (frame_index f)) (id n)) ∧
  match f with
  | Lock i _ | Split i _ _ => (S i < length ch)%nat
  | _ => True
  end.
Definition frames_ok (ch : list cell) (st : stack) : Prop := Forall (frame_ok ch) st.

(** One lock, one holder *)
Definition holds (s : system) (t i : nat) : Prop := ∃ st, stacks s !! t = Some st ∧ i ∈ held st.
Definition locks_ok (s : system) : Prop :=
  (∀ i, locked (chain s) i = true ↔ ∃ t, holds s t i) ∧
  (∀ i t t', holds s t i → holds s t' i → t = t').

Record system_ok (s : system) : Prop := {
  ok_cells : cells_ok (chain s);
  ok_stacks : Forall (λ st, stack_ok st ∧ frames_ok (chain s) st) (stacks s);
  ok_locks : locks_ok s;
}.

(** *** Cells *)

Lemma cells_insert ch i c :
  cells_ok ch → nodes_ok own k (Z.of_nat i) (c_nodes c) → cells_ok (<[i := c]> ch).
Proof using Type.
  intros [Hlen Hc] Hn. split; [by rewrite length_insert |].
  intros j d [(<- & <- & _)|[_ Hj]]%list_lookup_insert_Some; [done | by apply Hc].
Qed.

Lemma cells_snoc ch i :
  0 ≤ k → cells_ok ch → (i < length ch)%nat → has_next ch i = false → Z.of_nat i ≠ MAX_BUCKET_INDEX →
  cells_ok (ch ++ [mkCell [] false]).
Proof using Type.
  unfold has_next, MAX_BUCKET_INDEX. intros Hk0 [Hlen Hc] Hi Hn Hmax. apply Nat.ltb_ge in Hn. split.
  - rewrite length_app. simpl. lia.
  - intros j d [Hj|[_ Hj]]%lookup_app_Some; [by apply Hc |].
    apply list_lookup_singleton_Some in Hj as [_ <-]. by apply nodes_ok_nil.
Qed.

Lemma access_Next ch i f ch' fs :
  access ch i f = Next ch' fs →
  ∃ ns, ch !! i = Some (mkCell ns false) ∧ f ns = Next ch' fs.
Proof using Type.
  unfold access. destruct (ch !! i) as [[ns []]|] eqn:E; [done | | done]. simpl. eauto.
Qed.

Lemma update_cell i n ns b :
  nodes_ok own k i ns → node_ok n → shares_prefix own i (id n) →
  add_or_update (mkBucket own i k ns None) n = Ret b →
  nodes_ok own k i (nodes b) ∧ upsert_post k n ns (nodes b).
Proof using Type.
  intros Hns Hn Hp E. destruct (add_or_update_spec own k i ns None n) as (ns' & E' & Hpost & Hok); [done.. |].
  rewrite E' in E. by simplify_eq.
Qed.

Lemma swap_remove_perm {A} i (l : list A) x l' :
  swap_remove i l = Ret (x, l') → l !! i = Some x ∧ x :: l' ≡ₚ l.
Proof using Type.
  intros H. destruct (l !! i) as [y|] eqn:E; [| by unfold swap_remove in H; rewrite E in H].
  apply list_elem_of_split_length in E as (l1 & l2 & -> & ->).
  destruct (exists_last_cases l2) as [->|(l2' & z & ->)].
  - rewrite swap_remove_last in H. simplify_eq. split; [done |]. apply Permutation_cons_append.
  - rewrite swap_remove_middle in H. simplify_eq. split; [done |].
    rewrite <- Permutation_cons_append. apply Permutation_middle.
Qed.

Lemma step_cells ch f ch' fs :
  0 ≤ k → cells_ok ch → frame_ok ch f → step ch f = Next ch' fs →
  cells_ok ch' ∧ (length ch ≤ length ch')%nat.
Proof using Type.
  intros Hk0 Hch (Hlt & Hn & _) E. pose proof (proj2 Hch) as Hc.
  destruct f as [i n|i n|i n|i n|i n|i n|i n idx|i n|i n|i x|i x]; cbn [frame_step frame_index] in *;
    try (apply access_Next in E as (ns & Hi & E); specialize (Hc _ _ Hi); simpl in Hc).
  - by simplify_eq.
  - by simplify_eq.
  - by simplify_eq.
  - by simplify_eq.
  - destruct (Z.eqb_spec (Z.of_nat i) MAX_BUCKET_INDEX); [by simplify_eq |].
    destruct (has_next ch i) eqn:Hnext; simplify_eq; [done |].
    split; [by eapply cells_snoc | rewrite length_app; lia].
  - simplify_eq. rewrite length_insert. split; [by apply cells_insert | done].
  - destruct (ch !! i) as [c|] eqn:Hi; [| done]. specialize (Hc _ _ Hi).
    repeat case_match; simplify_eq; try done; rewrite length_insert; (split; [| done]);
      apply cells_insert; [done.. | | done | done].
    match goal with H : swap_remove _ _ = _ |- _ => apply swap_remove_perm in H as [_ Hp] end.
    eapply (nodes_ok_sub _ _ _ _ _ [_]); [| done]. rewrite <- Hp. symmetry. apply Permutation_cons_append.
  - repeat case_match; by simplify_eq.
  - destruct (add_or_update _ _) as [b| |] eqn:Hu; simplify_eq. rewrite length_insert. split; [| done].
    destruct (Hn n) as [Hnode Hp]; [done |]. apply cells_insert; [done |].
    by eapply update_cell.
  - by simplify_eq.
  - destruct (position _ _) as [j|] eqn:Hpos; [| by simplify_eq].
    destruct (nodes_remove own k _ ns x j Hc Hpos) as (m & ns' & E' & _ & _ & Hok). rewrite E' in E.
    simplify_eq. rewrite length_insert. split; [by apply cells_insert | done].
Qed.

(** *** Frames *)

Lemma frame_ok_mono ch ch' f : (length ch ≤ length ch')%nat → frame_ok ch f → frame_ok ch' f.
Proof using Type.
  intros Hlen (Hi & Hn & Hl). split_and!; [lia | done |]. destruct f; intuition lia.
Qed.

Lemma frames_ok_mono ch ch' st : (length ch ≤ length ch')%nat → frames_ok ch st → frames_ok ch' st.
Proof using Type. intros Hlen H. eapply Forall_impl; [done |]. intros f. by apply frame_ok_mono. Qed.

(** The node a frame carries may go on to the next bucket. *)
Lemma carry_deeper i n :
  node_ok n ∧ shares_prefix own (Z.of_nat i) (id n) → belongs_at own i (id n) = false →
  node_ok n ∧ shares_prefix own (Z.of_nat (S i)) (id n).
Proof using Type.
  intros [Hn Hp] Hb. split; [done |]. replace (Z.of_nat (S i)) with (Z.of_nat i + 1) by lia.
  apply shares_prefix_deeper; [lia | done..].
Qed.

Lemma carry_stored ch i c n :
  cells_ok ch → ch !! i = Some c → n ∈ c_nodes c → node_ok n ∧ shares_prefix own (Z.of_nat i) (id n).
Proof using Type.
  intros [_ Hc] Hi Hn. destruct (Hc _ _ Hi) as [_ _ Hv Hp].
  rewrite Forall_forall in Hv, Hp. split; [by apply Hv | by apply (Hp n)].
Qed.

Lemma step_frames ch f ch' fs :
  0 ≤ k → cells_ok ch → frame_ok ch f → step ch f = Next ch' fs → frames_ok ch' fs.
Proof using Type.
  intros Hk0 Hch Hf E. destruct (step_cells _ _ _ _ Hk0 Hch Hf E) as [_ Hlen].
  destruct Hf as (Hlt & Hn & Hl). unfold frames_ok.
  destruct f as [i n|i n|i n|i n|i n|i n|i n idx|i n|i n|i x|i x]; cbn [frame_step frame_index] in *;
    try (specialize (Hn n eq_refl));
    try (apply access_Next in E as (ns & Hi & E)).
  - simplify_eq. constructor; [| done]. case_match; (split_and!; simpl; [lia | naive_solver | done]).
  - simplify_eq. constructor; [| done]. case_match; (split_and!; simpl; [lia | naive_solver | done]).
  - simplify_eq. constructor; [| done]. case_match; (split_and!; simpl; [lia | naive_solver | done]).
  - simplify_eq. constructor; [| done]. case_match; (split_and!; simpl; [lia | naive_solver | done]).
  - destruct (_ =? _); [by simplify_eq |]. destruct (has_next ch i) eqn:Hnext; simplify_eq.
    + constructor; [| done]. split_and!; simpl; [lia | naive_solver | done].
    + constructor; [| done]. rewrite length_app in Hlen.
      split_and!; simpl; rewrite ?length_app; simpl; [lia | naive_solver | lia].
  - simplify_eq. constructor; [| done]. rewrite length_insert in Hlen.
    split_and!; simpl; rewrite ?length_insert; [lia | naive_solver | lia].
  - destruct (ch !! i) as [c|] eqn:Hi; [| done].
    destruct (c_nodes c !! idx) as [m|] eqn:Hm; [destruct (belongs_at own i (id m)) eqn:Hb |].
    + simplify_eq. constructor; [| done]. split_and!; simpl; [lia | naive_solver | lia].
    + destruct (swap_remove idx (c_nodes c)) as [[m' ns]| |] eqn:Hs; simplify_eq.
      apply swap_remove_perm in Hs as [Hm' _]. simplify_eq.
      apply list_elem_of_lookup_2 in Hm.
      pose proof (carry_deeper _ _ (carry_stored _ _ _ _ Hch Hi Hm) Hb).
      constructor; [| constructor; [| done]]; split_and!; simpl; rewrite ?length_insert; naive_solver lia.
    + simplify_eq. constructor; [| done]. split_and!; simpl; rewrite ?length_insert; naive_solver lia.
  - destruct (belongs_at own i (id n)) eqn:Hb; [| destruct (has_next ch i) eqn:Hnext];
      simplify_eq; (constructor; [| done]).
    + split_and!; simpl; naive_solver.
    + apply has_next_true in Hnext. pose proof (carry_deeper _ _ Hn Hb).
      split_and!; simpl; naive_solver.
  - destruct (add_or_update _ _) as [b| |] eqn:Hu; by simplify_eq.
  - simplify_eq. constructor; [| done]. destruct (has_next ch' i) eqn:Hnext; simpl; [case_match |].
    + by split_and!.
    + apply has_next_true in Hnext. by split_and!.
    + by split_and!.
  - repeat case_match; by simplify_eq.
Qed.

Lemma step_stack ch f st ch' fs :
  callers_below (frame_index f) st → step ch f = Next ch' fs → stack_ok (fs ++ st).
Proof using Type.
  intros Hst E.
  destruct f; cbn [frame_step frame_index] in *; unfold access in E;
    repeat case_match; simplify_eq; simpl; repeat case_match; simpl;
    try done; try (by eapply callers_mono; [| done]; lia);
    try (split; [lia | done]);
    destruct st as [|[] st]; simpl in *; intuition.
Qed.

(** *** Locks *)

(** A step leaves the locks alone, takes one that was free, or frees one. *)
Inductive lock_change (ch ch' : list cell) : list nat → list nat → Prop :=
  | lock_same before : (∀ j, locked ch' j = locked ch j) → lock_change ch ch' before before
  | lock_take i :
      locked ch i = false → (∀ j, locked ch' j = bool_decide (j = i) || locked ch j) →
      lock_change ch ch' [] [i]
  | lock_free i :
      (∀ j, locked ch' j = negb (bool_decide (j = i)) && locked ch j) →
      lock_change ch ch' [i] [].

Lemma locked_insert ch i c j :
  (i < length ch)%nat → locked (<[i := c]> ch) j = if decide (j = i) then c_locked c else locked ch j.
Proof using Type.
  intros Hi. unfold locked. destruct (decide (j = i)) as [->|Hj].
  - by rewrite list_lookup_insert_eq.
  - by rewrite list_lookup_insert_ne.
Qed.

Lemma locked_at ch i c : ch !! i = Some c → locked ch i = c_locked c.
Proof using Type. unfold locked. by intros ->. Qed.

Lemma locked_snoc ch j : locked (ch ++ [mkCell [] false]) j = locked ch j.
Proof using Type.
  unfold locked. destruct (decide (j < length ch)%nat).
  - by rewrite lookup_app_l.
  - rewrite lookup_app_r, (lookup_ge_None_2 ch j) by lia. by destruct (j - length ch)%nat as [|[]].
Qed.

Lemma locked_same ch i ns ns' b j :
  ch !! i = Some (mkCell ns b) → locked (<[i := mkCell ns' b]> ch) j = locked ch j.
Proof using Type.
  intros Hi. rewrite locked_insert by (by eapply lookup_lt_Some). case_decide; [| done].
  subst. by rewrite (locked_at _ _ _ Hi).
Qed.

Lemma step_locks ch f ch' fs :
  (∀ i, frame_lock f = Some i → locked ch i = true) → step ch f = Next ch' fs →
  lock_change ch ch' (held [f]) (held fs).
Proof using Type.
  intros Hl E.
  destruct f as [i n|i n|i n|i n|i n|i n|i n idx|i n|i n|i x|i x]; cbn [frame_step] in *;
    try (apply access_Next in E as (ns & Hi & E)); simplify_eq;
    try (by repeat case_match; simplify_eq; constructor).
  - repeat case_match; simplify_eq; constructor; try done. apply locked_snoc.
  - apply lock_take; [by rewrite (locked_at _ _ _ Hi) |]. intros j.
    rewrite locked_insert by (by eapply lookup_lt_Some). by case_decide; case_bool_decide.
  - destruct (ch !! i) as [[ns b]|] eqn:Hi; [| done].
    specialize (Hl i eq_refl). rewrite (locked_at _ _ _ Hi) in Hl. simpl in *. subst.
    repeat case_match; simplify_eq; [by constructor | constructor; intros j; by eapply locked_same |].
    apply lock_free. intros j.
    rewrite locked_insert by (by eapply lookup_lt_Some). by case_decide; case_bool_decide.
  - repeat case_match; simplify_eq. constructor. intros j. by eapply locked_same.
  - repeat case_match; simplify_eq; constructor; try done. intros j. by eapply locked_same.
Qed.

Lemma held_cons f st : held (f :: st) = held [f] ++ held st.
Proof using Type. apply (held_app [f] st). Qed.

(** The stacks after a step of task [t] *)
Notation after s t ch' fs := (mkSystem ch' (alter (λ st, fs ++ tail st) t (stacks s))).

Lemma after_lookup s t f st ch' fs t' :
  stacks s !! t = Some (f :: st) →
  stacks (after s t ch' fs) !! t' = if decide (t' = t) then Some (fs ++ st) else stacks s !! t'.
Proof using Type.
  intros Ht. simpl. case_decide as Heq.
  - subst t'. by rewrite list_lookup_alter_eq, Ht.
  - by rewrite list_lookup_alter_ne.
Qed.

(** Who holds what after a step *)
Lemma after_holds s t f st ch' fs t' i :
  stacks s !! t = Some (f :: st) →
  holds (after s t ch' fs) t' i ↔
  if decide (t' = t) then i ∈ held fs ∨ i ∈ held st else holds s t' i.
Proof using Type.
  intros Ht. unfold holds. rewrite (after_lookup s t f st) by done.
  case_decide; [| done]. rewrite <- elem_of_app, <- held_app. naive_solver.
Qed.

Lemma locks_step s t f st ch' fs :
  locks_ok s → stacks s !! t = Some (f :: st) → callers_below (frame_index f) st →
  step (chain s) f = Next ch' fs → locks_ok (after s t ch' fs).
Proof using Type.
  intros [Hl Hu] Ht Hst E.
  assert (Hhold : ∀ i, holds s t i ↔ i ∈ held [f] ∨ i ∈ held st).
  { intros i. unfold holds. rewrite Ht, <- elem_of_app, <- held_cons. naive_solver. }
  assert (Hown : ∀ i, frame_lock f = Some i → locked (chain s) i = true).
  { intros i Hi. apply Hl. exists t. apply Hhold. left. simpl. rewrite Hi. left. }
  assert (Hbelow : ∀ i, held [f] = [i] → i ∉ held st).
  { intros i Hi Hin. pose proof (callers_held _ _ _ Hst Hin). destruct f; simpl in *; simplify_eq. lia. }
  pose proof (λ t' i, after_holds s t f st ch' fs t' i Ht) as Hafter.
  pose proof (step_locks _ _ _ _ Hown E) as Hc.
  revert Hafter Hhold Hbelow Hc.
  generalize (held [f]), (held fs), (held st).
  intros before taken below Hafter Hhold Hbelow Hc.
  destruct Hc as [same Hsame | i Hfree Htake | i Hfree].
  - assert (Heq : ∀ t' j, holds (after s t ch' fs) t' j ↔ holds s t' j).
    { intros t' j. rewrite Hafter. case_decide; [subst; by rewrite Hhold | done]. }
    split; [| setoid_rewrite Heq; exact Hu].
    intros j. simpl. rewrite Hsame, Hl. by setoid_rewrite Heq.
  - assert (Hno : ∀ t', ¬ holds s t' i).
    { intros t' Hh. by rewrite (proj2 (Hl i)) in Hfree by eauto. }
    assert (Heq : ∀ t' j, holds (after s t ch' fs) t' j ↔ holds s t' j ∨ (j = i ∧ t' = t)).
    { intros t' j. rewrite Hafter. case_decide; [subst; rewrite Hhold |]; set_solver. }
    split; [| setoid_rewrite Heq; naive_solver].
    intros j. simpl. rewrite Htake, orb_true_iff, bool_decide_eq_true, Hl. setoid_rewrite Heq. naive_solver.
  - assert (Hme : holds s t i) by (apply Hhold; left; left).
    assert (Heq : ∀ t' j, holds (after s t ch' fs) t' j ↔ holds s t' j ∧ j ≠ i).
    { intros t' j. rewrite Hafter. specialize (Hbelow i eq_refl).
      case_decide; [subst; rewrite Hhold; set_solver | naive_solver]. }
    split; [| setoid_rewrite Heq; naive_solver].
    intros j. simpl. rewrite Hfree, andb_true_iff, negb_true_iff, bool_decide_eq_false, Hl.
    setoid_rewrite Heq. naive_solver.
Qed.

(** *** The invariant *)

Lemma task_step_inv s t ch' fs :
  task_step own k t s = Next ch' fs →
  ∃ f st, stacks s !! t = Some (f :: st) ∧ step (chain s) f = Next ch' fs.
Proof using Type. unfold task_step. destruct (stacks s !! t) as [[|f st]|]; try done. eauto. Qed.

Lemma system_ok_step s t ch' fs :
  0 ≤ k → system_ok s → task_step own k t s = Next ch' fs → system_ok (after s t ch' fs).
Proof using Type.
  intros Hk0 [Hc Hs Hl] (f & st & Ht & E)%task_step_inv.
  pose proof (Forall_lookup_1 _ _ _ _ Hs Ht) as [Hst [Hf Hfs]%Forall_cons]. simpl in Hst.
  destruct (step_cells _ _ _ _ Hk0 Hc Hf E) as [Hc' Hlen].
  split; simpl; [done | | by eapply locks_step].
  apply Forall_lookup_2. intros t' st' Hlook.
  pose proof (after_lookup s t f st ch' fs t' Ht) as Ha. simpl in Ha. rewrite Ha in Hlook.
  case_decide; simplify_eq.
  - split; [exact (step_stack _ _ _ _ _ Hst E) |]. apply Forall_app.
    split; [exact (step_frames _ _ _ _ Hk0 Hc Hf E) | by eapply frames_ok_mono].
  - pose proof (Forall_lookup_1 _ _ _ _ Hs Hlook) as [? ?]. split; [done | by eapply frames_ok_mono].
Qed.

(** *** Panics and waiting *)

(** The one step that can panic: [next_bucket.get().unwrap()] *)
Lemma frame_panics ch f :
  cells_ok ch → frame_ok ch f → step ch f = Panicked →
  ∃ i n, f = Choose i n ∧ has_next ch i = false ∧ belongs_at own i (id n) = false.
Proof using Type.
  intros Hch (Hlt & Hn & _) E. pose proof (proj2 Hch) as Hc.
  apply lookup_lt_is_Some in Hlt as [[ns b] Hi]. specialize (Hc _ _ Hi). simpl in Hc.
  destruct f as [i n|i n|i n|i n|i n|i n|i n idx|i n|i n|i x|i x]; cbn [frame_step frame_index] in *;
    unfold access in E; rewrite ?Hi in E; cbn [c_nodes c_locked] in *.
  - done.
  - by destruct b.
  - done.
  - by destruct b.
  - by repeat case_match.
  - by destruct b.
  - destruct (ns !! idx) as [m|] eqn:Hm; [| done]. destruct (belongs_at _ _ _); [done |].
    destruct (last ns) eqn:Hlast; [| by apply last_None in Hlast; subst].
    unfold swap_remove in E. by rewrite Hm, Hlast in E.
  - destruct (belongs_at _ _ _) eqn:?; [done |]. destruct (has_next ch i) eqn:?; [done |]. eauto.
  - destruct b; [done |]. destruct (Hn n) as [Hnode Hp]; [done |].
    destruct (add_or_update_spec own k (Z.of_nat i) ns None n) as (ns' & E' & _); [done.. |].
    by rewrite E' in E.
  - done.
  - destruct b; [done |]. destruct (position _ _) as [j|] eqn:Hpos; [| done].
    destruct (nodes_remove own k _ ns x j Hc Hpos) as (m & ns' & E' & _). by rewrite E' in E.
Qed.

(** A step waits only for the bucket it is at, and never with that lock. *)
Lemma frame_waits ch f :
  step ch f = Blocked → locked ch (frame_index f) = true ∧ frame_lock f = None.
Proof using Type.
  intros E. destruct f; cbn [frame_step frame_index frame_lock] in *; unfold access in E;
    repeat case_match; try done; split; try done; by erewrite locked_at.
Qed.

(** Waiting goes down the chain: whoever holds the lock is further down, or
    can step. *)
Lemma progress_from s d t f st :
  system_ok s → stacks s !! t = Some (f :: st) → (length (chain s) - frame_index f ≤ d)%nat →
  ∃ t', task_step own k t' s ≠ Blocked.
Proof using Type.
  intros Hs. revert t f st. induction d as [|d IH]; intros t f st Ht Hd;
    pose proof (Forall_lookup_1 _ _ _ _ (ok_stacks _ Hs) Ht) as [_ Hf];
    apply Forall_cons in Hf as [Hf _]; pose proof (proj1 Hf); [lia |].
  destruct (step (chain s) f) as [| |ch' fs] eqn:E.
  - apply frame_waits in E as [Hl _].
    apply (proj1 (ok_locks _ Hs)) in Hl as (t' & [|f' st'] & Ht' & Hin); [by apply not_elem_of_nil in Hin |].
    pose proof (Forall_lookup_1 _ _ _ _ (ok_stacks _ Hs) Ht') as [Hst' _]. simpl in Hst'.
    rewrite held_cons, elem_of_app in Hin. destruct Hin as [Hin|Hin].
    + exists t'. unfold task_step. rewrite Ht'. intros [_ E]%frame_waits. simpl in Hin. rewrite E in Hin.
      by apply not_elem_of_nil in Hin.
    + apply (callers_held _ _ _ Hst') in Hin. apply (IH t' f' st'); [done | lia].
  - exists t. unfold task_step. by rewrite Ht, E.
  - exists t. unfold task_step. by rewrite Ht, E.
Qed.

(** *** Steps left *)

(** The steps an [add] has at most, [d] buckets above the last possible one *)
Fixpoint add_cost (d : nat) : nat :=
  let below := match d with O => O | S d => add_cost d end in
  (9 + below + Z.to_nat k * (below + 1))%nat.
Definition below_cost (i : nat) : nat :=
  match (159 - i)%nat with O => O | S d => add_cost d end.

Definition frame_cost (ch : list cell) (f : frame) : nat :=
  match f with
  | Enter i _ => 9 + below_cost i + Z.to_nat k * (below_cost i + 1)
  | ReadRoom i _ => 8 + below_cost i + Z.to_nat k * (below_cost i + 1)
  | CheckFull i _ => 7 + below_cost i + Z.to_nat k * (below_cost i + 1)
  | ReadFull i _ => 6 + below_cost i + Z.to_nat k * (below_cost i + 1)
  | Make i _ => 5 + below_cost i + Z.to_nat k * (below_cost i + 1)
  | Lock i _ => 4 + below_cost i + Z.to_nat k * (below_cost i + 1)
  | Split i _ index =>
      3 + below_cost i + (length (nodes_at ch i) - index) * (below_cost i + 1)
  | Choose i _ => 2 + below_cost i
  | Update _ _ | RemoveHere _ _ => 1
  | RemoveAt i _ => 2 + (160 - i)
  end%nat.
Definition stack_cost (ch : list cell) (st : stack) : nat := sum_list (frame_cost ch <$> st).
Definition system_cost (s : system) : nat := sum_list (stack_cost (chain s) <$> stacks s).

Lemma enter_cost ch i n :
  (S i ≤ 159)%nat → frame_cost ch (Enter (S i) n) = below_cost i.
Proof using Type.
  intros Hi. cbn [frame_cost]. unfold below_cost.
  replace (159 - i)%nat with (S (159 - S i)) by lia. by destruct (159 - S i)%nat.
Qed.

Lemma nodes_at_insert ch i c : (i < length ch)%nat → nodes_at (<[i := c]> ch) i = c_nodes c.
Proof using Type. intros. unfold nodes_at. by rewrite list_lookup_insert_eq. Qed.
Lemma nodes_at_insert_ne ch i j c : i ≠ j → nodes_at (<[i := c]> ch) j = nodes_at ch j.
Proof using Type. intros. unfold nodes_at. by rewrite list_lookup_insert_ne. Qed.
Lemma nodes_at_eq ch i c : ch !! i = Some c → nodes_at ch i = c_nodes c.
Proof using Type. unfold nodes_at. by intros ->. Qed.
Lemma nodes_at_snoc ch i c : (i < length ch)%nat → nodes_at (ch ++ [c]) i = nodes_at ch i.
Proof using Type. intros. unfold nodes_at. by rewrite lookup_app_l. Qed.

(** A locked bucket is left alone by whoever does not hold its lock. *)
Lemma step_others ch f ch' fs j :
  (j < length ch)%nat → step ch f = Next ch' fs → locked ch j = true → frame_lock f ≠ Some j →
  nodes_at ch' j = nodes_at ch j.
Proof using Type.
  intros Hj E Hl Hf.
  assert (Hacc : ∀ i ns c, ch !! i = Some (mkCell ns false) → nodes_at (<[i := c]> ch) j = nodes_at ch j).
  { intros i ns c Hi. apply nodes_at_insert_ne. intros <-. by rewrite (locked_at _ _ _ Hi) in Hl. }
  destruct f as [i n|i n|i n|i n|i n|i n|i n idx|i n|i n|i x|i x]; cbn [frame_step frame_lock] in *;
    try (apply access_Next in E as (ns & Hi & E)); repeat case_match; simplify_eq; try done;
    try (by eapply Hacc); try (by apply nodes_at_snoc); apply nodes_at_insert_ne; congruence.
Qed.

Lemma step_cost ch f ch' fs :
  cells_ok ch → frame_ok ch f → cells_ok ch' → frames_ok ch' fs → step ch f = Next ch' fs →
  (stack_cost ch' fs < frame_cost ch f)%nat.
Proof using Type.
  intros Hch (Hlt & _ & Hnext) Hch' Hfs E. pose proof (proj2 Hch) as Hc.
  destruct Hch as [Hlen _]. destruct Hch' as [Hlen' _].
  destruct f as [i n|i n|i n|i n|i n|i n|i n idx|i n|i n|i x|i x]; cbn [frame_step frame_index] in *;
    try (apply access_Next in E as (ns & Hi & E)); unfold stack_cost; simpl.
  - simplify_eq. case_match; simpl; lia.
  - simplify_eq. case_match; simpl; lia.
  - simplify_eq. case_match; simpl; lia.
  - simplify_eq. case_match; simpl; lia.
  - repeat case_match; simplify_eq; simpl; lia.
  - simplify_eq. simpl. rewrite nodes_at_insert by done. simpl.
    specialize (Hc _ _ Hi). pose proof (nodes_bound _ _ _ _ Hc) as Hb. simpl in Hb.
    assert (length ns ≤ Z.to_nat k)%nat by lia. rewrite Nat.sub_0_r.
    assert (length ns * (below_cost i + 1) ≤ Z.to_nat k * (below_cost i + 1))%nat by nia. lia.
  - destruct (ch !! i) as [c|] eqn:Hi; [| done].
    assert (Hat : nodes_at ch i = c_nodes c) by (unfold nodes_at; by rewrite Hi).
    destruct (c_nodes c !! idx) as [m|] eqn:Hm; [destruct (belongs_at own i (id m)) eqn:Hb |].
    + simplify_eq. simpl. rewrite Hat. apply lookup_lt_Some in Hm.
      replace (length (c_nodes c) - idx)%nat with (S (length (c_nodes c) - (idx + 1))) by lia. simpl. lia.
    + destruct (swap_remove idx (c_nodes c)) as [[m' ns]| |] eqn:Hs; simplify_eq.
      apply swap_remove_perm in Hs as [_ Hp%Permutation_length]. simpl in Hp. apply lookup_lt_Some in Hm.
      cbn [fmap list_fmap sum_list]. rewrite enter_cost by lia. cbn [frame_cost].
      rewrite nodes_at_insert, Hat, <- Hp by done. cbn [c_nodes].
      replace (S (length ns) - idx)%nat with (S (length ns - idx)) by lia. simpl. lia.
    + simplify_eq. simpl. generalize ((length (nodes_at ch i) - idx) * (below_cost i + 1))%nat. lia.
  - repeat case_match; simplify_eq; [simpl; lia |].
    apply Forall_cons in Hfs as [[Hs _] _]. cbn [frame_index] in Hs.
    cbn [fmap list_fmap sum_list]. rewrite enter_cost by lia. simpl. lia.
  - repeat case_match; simplify_eq; simpl; lia.
  - simplify_eq.
    apply Forall_cons in Hfs as [[Hs _] _]. case_match; simpl in *; lia.
  - repeat case_match; simplify_eq; simpl; lia.
Qed.

Lemma stack_cost_app ch s1 s2 : stack_cost ch (s1 ++ s2) = (stack_cost ch s1 + stack_cost ch s2)%nat.
Proof using Type. 
  unfold stack_cost. induction s1 as [|f s1 IH]; [done |].
  rewrite <- app_comm_cons, !fmap_cons. simpl. rewrite IH. lia.
Qed.

(** The cost of a stack depends on the buckets it holds only. *)
Lemma stack_cost_same ch ch' st :
  (∀ j, j ∈ held st → nodes_at ch' j = nodes_at ch j) → stack_cost ch' st = stack_cost ch st.
Proof using Type.
  unfold stack_cost. induction st as [|f st IH]; intros H; [done |].
  rewrite held_cons in H. rewrite !fmap_cons. simpl. rewrite IH by (intros; apply H, elem_of_app; by right).
  f_equal. destruct f; try done. simpl. by rewrite (H i) by set_solver.
Qed.

Lemma sum_list_lookup_lt (l l' : list nat) t :
  length l = length l' → (∀ t', t' ≠ t → l !! t' = l' !! t') →
  (∀ x y, l !! t = Some x → l' !! t = Some y → (x < y)%nat) → (t < length l)%nat →
  (sum_list l < sum_list l')%nat.
Proof using Type.
  revert l' t. induction l as [|x l IH]; intros [|y l'] t Hlen Hne Hlt Ht; simpl in *; try lia.
  destruct t as [|t].
  - assert (l = l') as -> by (apply list_eq; intros t; by apply (Hne (S t))).
    specialize (Hlt x y eq_refl eq_refl). lia.
  - assert (x = y) as -> by (by specialize (Hne O ltac:(lia)); simplify_eq/=).
    specialize (IH l' t). assert (sum_list l < sum_list l')%nat; [| lia].
    apply IH; [lia | | done | lia]. intros t' Ht'. by apply (Hne (S t') ltac:(lia)).
Qed.

Lemma system_cost_step s t ch' fs :
  0 ≤ k → system_ok s → task_step own k t s = Next ch' fs →
  (system_cost (after s t ch' fs) < system_cost s)%nat.
Proof using Type.
  intros Hk0 Hs E. pose proof (system_ok_step _ _ _ _ Hk0 Hs E) as Hs'.
  apply task_step_inv in E as (f & st & Ht & E). destruct Hs as [Hc Hst [Hl Hu]].
  pose proof (Forall_lookup_1 _ _ _ _ Hst Ht) as [Hbelow [Hf Hfs]%Forall_cons]. simpl in Hbelow.
  assert (Hother : ∀ t' st' j, stacks s !! t' = Some st' → j ∈ held st' → frame_lock f ≠ Some j →
    nodes_at ch' j = nodes_at (chain s) j).
  { intros t' st' j Ht' Hin Hne.
    assert (Hlj : locked (chain s) j = true) by (apply Hl; exists t', st'; done).
    eapply step_others; [| done..]. unfold locked in Hlj.
    destruct (chain s !! j) eqn:Hj; [by eapply lookup_lt_Some | done]. }
  apply (sum_list_lookup_lt _ _ t).
  - rewrite !length_fmap. simpl. by rewrite length_alter.
  - intros t' Hne. rewrite !list_lookup_fmap, (after_lookup s t f st), decide_False by done.
    destruct (stacks s !! t') as [st'|] eqn:Ht'; [simpl; f_equal | done].
    apply stack_cost_same. intros j Hin. apply (Hother t' st'); [done.. |]. intros Hfl.
    apply Hne. apply (Hu j); [by exists st' |]. exists (f :: st). split; [done |].
    simpl. rewrite Hfl. left.
  - intros x y. rewrite !list_lookup_fmap, (after_lookup s t f st), decide_True, Ht by done. simpl.
    intros [= <-] [= <-]. rewrite stack_cost_app.
    change (stack_cost (chain s) (f :: st)) with (frame_cost (chain s) f + stack_cost (chain s) st)%nat.
    rewrite (stack_cost_same (chain s) ch' st).
    + pose proof (step_cost _ _ _ _ Hc Hf (ok_cells _ Hs') (step_frames _ _ _ _ Hk0 Hc Hf E) E) as Hlt.
      simpl in Hlt. lia.
    + intros j Hin. apply (Hother t (f :: st)); [done | rewrite held_cons; set_solver |].
      intros Hfl. pose proof (callers_held _ _ _ Hbelow Hin). destruct f; simplify_eq/=. lia.
  - rewrite length_fmap. simpl. rewrite length_alter. by eapply lookup_lt_Some.
Qed.
End Invariant.

(** ** The calls of several tasks *)

Inductive call : Type := CallAdd (n : NodeInfo) | CallRemove (x : U160).
Definition call_stack (c : call) : stack :=
  match c with CallAdd n => [Enter 0 n] | CallRemove x => [RemoveAt 0 x] end.
Definition call_ok (c : call) : Prop :=
  match c with CallAdd n => node_ok n | CallRemove _ => True end.

(** The table [b] with one task per call *)
Definition start (b : Bucket) (cs : list call) : system := mkSystem (cells b) (call_stack <$> cs).
Definition all_done (s : system) : Prop := Forall (λ st, st = []) (stacks s).

Lemma cells_nonempty b : (0 < length (cells b))%nat.
Proof. destruct b; simpl; lia. Qed.

Lemma cells_lookup own k i b j c :
  chain_ok own k i b → cells b !! j = Some c →
  i + Z.of_nat j ≤ MAX_BUCKET_INDEX ∧ nodes_ok own k (i + Z.of_nat j) (c_nodes c) ∧ c_locked c = false.
Proof.
  intros Hb. revert j. induction Hb as [i ns Hi Hns | i ns next Hi Hns Hbel Hnext IH]; intros [|j] Hj;
    simpl in *; simplify_eq/=; rewrite ?Z.add_0_r.
  - split_and!; [lia | done..].
  - split_and!; [lia | done..].
  - apply IH in Hj. replace (i + Z.of_nat (S j)) with (i + 1 + Z.of_nat j) by lia. done.
Qed.

(** New tasks on a chain whose locks are free *)
Lemma fresh_ok own k ch cs :
  cells_ok own k ch → (0 < length ch)%nat → (∀ i, locked ch i = false) → Forall call_ok cs →
  system_ok own k (mkSystem ch (call_stack <$> cs)).
Proof.
  intros Hch Hlen Hfree Hcs. split; simpl; [done | |].
  - apply Forall_fmap. eapply Forall_impl; [done |].
    intros [n|x] Hc; simpl in *; (split; [done |]); constructor; try done; split_and!; try done.
    intros m [= <-]. split; [done | apply shares_prefix_0].
  - assert (Hno : ∀ t i, ¬ holds (mkSystem ch (call_stack <$> cs)) t i).
    { intros t i (st & Hst & Hin). simpl in Hst. rewrite list_lookup_fmap in Hst.
      destruct (cs !! t) as [[]|]; simplify_eq/=; by apply not_elem_of_nil in Hin. }
    split; [| naive_solver]. intros i. simpl. rewrite Hfree. split; [done | naive_solver].
Qed.

Section Runs.
Context (own : U160) (k : Z) (b : Bucket) (cs : list call).
Hypothesis Htable : table_ok own k b.
Hypothesis Hcalls : Forall call_ok cs.

Lemma table_cells : cells_ok own k (cells b) ∧ ∀ i, locked (cells b) i = false.
Proof using Htable.
  destruct Htable as (_ & _ & Hchain). split; [split |].
  - destruct (decide (length (cells b) ≤ 160)%nat) as [|Hlen]; [done | exfalso].
    destruct (lookup_lt_is_Some_2 (cells b) 160) as [c Hc]; [lia |].
    destruct (cells_lookup _ _ _ _ _ _ Hchain Hc) as [? _]. unfold MAX_BUCKET_INDEX in *. lia.
  - intros i c Hc. by destruct (cells_lookup _ _ _ _ _ _ Hchain Hc) as (_ & ? & _).
  - intros i. unfold locked. destruct (cells b !! i) as [c|] eqn:Hc; [| done]. simpl.
    destruct (cells_lookup _ _ _ _ _ _ Hchain Hc) as (_ & _ & ->). done.
Qed.

Lemma tasks_start_ok : system_ok own k (start b cs).
Proof using All. apply fresh_ok; [apply table_cells | apply cells_nonempty | apply table_cells | done]. Qed.

Lemma k_nonneg : 0 ≤ k.
Proof using Htable. destruct Htable as (_ & [? _] & _). done. Qed.

Lemma reachable_ok s : rtc (system_step own k) (start b cs) s → system_ok own k s.
Proof using All.
  intros Hr. pose proof k_nonneg. cut (system_ok own k (start b cs)); [| apply tasks_start_ok].
  induction Hr as [|s s' s'' Hstep _ IH]; [done |]. intros Hs. apply IH.
  inversion Hstep; subst. by apply system_ok_step.
Qed.

Lemma steps_bounded s n s' :
  system_ok own k s → nsteps (system_step own k) n s s' → (n + system_cost k s' ≤ system_cost k s)%nat.
Proof using Htable.
  intros Hs Hn. pose proof k_nonneg. induction Hn as [|n s s' s'' Hstep _ IH]; [lia |].
  inversion Hstep as [? t ch' fs E]; subst.
  specialize (IH (system_ok_step _ _ _ _ _ _ ltac:(done) Hs E)).
  pose proof (system_cost_step _ _ _ _ _ _ ltac:(done) Hs E). lia.
Qed.
End Runs.

Lemma busy_task s : all_done s ∨ ∃ t f st, stacks s !! t = Some (f :: st).
Proof.
  unfold all_done. induction (stacks s) as [|[|f st] sts IH]; [by left | |].
  - destruct IH as [IH|(t & f & st & Ht)]; [left; by constructor | right; by exists (S t), f, st].
  - right. by exists 0%nat, f, st.
Qed.

(** C18: however the tasks that add nodes to a table and remove identifiers from
    it are interleaved, every bucket keeps at most [k] nodes, no two of one
    identifier in a bucket, each of them on the path to that bucket, and no
    bucket past index 159 appears. *)
Theorem tasks_invariant own k b cs s :
  table_ok own k b → Forall call_ok cs → rtc (system_step own k) (start b cs) s →
  (length (chain s) ≤ 160)%nat ∧
  ∀ i c, chain s !! i = Some c → nodes_ok own k (Z.of_nat i) (c_nodes c).
Proof. intros Hb Hcs Hr. apply (reachable_ok _ _ b cs Hb Hcs s Hr). Qed.

(** C15: every interleaving is finite, with a bound that the calls alone give, and
    none of them is stuck: as long as a call has not returned, some task can
    step (or panics), since a task that holds a bucket's lock waits for buckets
    further down only. So the locks cannot deadlock, and a run that goes on as
    long as it can ends with every call returned, or in a panic. *)
Theorem tasks_finish own k b cs :
  table_ok own k b → Forall call_ok cs →
  ∃ bound, ∀ n s, nsteps (system_step own k) n (start b cs) s →
    (n ≤ bound)%nat ∧ (all_done s ∨ ∃ t, task_step own k t s ≠ Blocked).
Proof.
  intros Hb Hcs. exists (system_cost k (start b cs)). intros n s Hn. split.
  { pose proof (steps_bounded own k b Hb _ _ _ (tasks_start_ok _ _ _ _ Hb Hcs) Hn). lia. }
  pose proof (reachable_ok _ _ b cs Hb Hcs s (rtc_nsteps_2 _ _ _ Hn)) as Hs.
  destruct (busy_task s) as [|(t & f & st & Ht)]; [by left | right]. by eapply progress_from.
Qed.

(** ** Adding only *)

Section Adds.
Context (own : U160) (k : Z).

(** Without [remove], a bucket an [add] found full stays so until it has a
    successor, which it then keeps. *)
Definition full_or_next (ch : list cell) (i : nat) : Prop :=
  (S i < length ch)%nat ∨ Z.of_nat (length (nodes_at ch i)) = k.

Definition frame_adds (ch : list cell) (f : frame) : Prop :=
  match f with
  | CheckFull i _ | ReadFull i _ => full_or_next ch i
  | Choose i _ => (S i < length ch)%nat
  | RemoveAt _ _ | RemoveHere _ _ => False
  | _ => True
  end.
Definition system_adds (s : system) : Prop := Forall (Forall (frame_adds (chain s))) (stacks s).

Lemma full_step ch f ch' fs i :
  0 ≤ k → cells_ok own k ch → frame_ok own ch f → frame_adds ch f → frame_step own k ch f = Next ch' fs →
  (i < length ch)%nat → full_or_next ch i → full_or_next ch' i.
Proof using Type.
  intros Hk0 Hch Hf Ha E Hi [Hn|Hn].
  { left. pose proof (proj2 (step_cells _ _ _ _ _ _ Hk0 Hch Hf E)). lia. }
  pose proof (proj1 (step_cells _ _ _ _ _ _ Hk0 Hch Hf E)) as [_ Hch'].
  destruct Hf as (Hlt & Hnode & Hnext). pose proof (proj2 Hch) as Hc.
  destruct f as [j n|j n|j n|j n|j n|j n|j n idx|j n|j n|j x|j x]; cbn [frame_step frame_index] in *;
    try done; try (apply access_Next in E as (ns & Hj & E)).
  - simplify_eq. by right.
  - simplify_eq. by right.
  - simplify_eq. by right.
  - simplify_eq. by right.
  - repeat case_match; simplify_eq; [by right.. |]. right. by rewrite nodes_at_snoc.
  - simplify_eq. destruct (decide (i = j)) as [->|]; [left; by rewrite length_insert |].
    right. by rewrite nodes_at_insert_ne.
  - destruct (decide (i = j)) as [->|].
    + left. repeat case_match; simplify_eq; by rewrite ?length_insert.
    + right. repeat case_match; simplify_eq; by rewrite ?nodes_at_insert_ne.
  - repeat case_match; simplify_eq; by right.
  - destruct (add_or_update _ _) as [b| |] eqn:Hu; simplify_eq. right.
    destruct (decide (i = j)) as [->|]; [| by rewrite nodes_at_insert_ne].
    destruct (Hnode n) as [Hok Hp]; [done |]. specialize (Hc _ _ Hj).
    destruct (update_cell _ _ _ _ _ _ Hc Hok Hp Hu) as [[Hb _ _ _] Hpost].
    rewrite nodes_at_insert by done. rewrite (nodes_at_eq _ _ _ Hj) in Hn. simpl in *.
    destruct Hpost as [[_ ->]|[_ [[? ->]|[_ ->]]]]; [done | | done]. lia.
Qed.

Lemma frame_adds_mono ch f ch' fs g :
  0 ≤ k → cells_ok own k ch → frame_ok own ch f → frame_adds ch f → frame_step own k ch f = Next ch' fs →
  frame_ok own ch g → frame_adds ch g → frame_adds ch' g.
Proof using Type.
  intros Hk0 Hch Hf Ha E (Hg & _).
  pose proof (proj2 (step_cells _ _ _ _ _ _ Hk0 Hch Hf E)).
  destruct g; simpl in *; try done; [by eapply full_step.. | lia].
Qed.

Lemma step_adds ch f ch' fs :
  cells_ok own k ch → frame_ok own ch f → frame_adds ch f → frame_step own k ch f = Next ch' fs →
  Forall (frame_adds ch') fs.
Proof using Type.
  intros Hch (Hlt & Hnode & Hnext) Ha E. pose proof (proj2 Hch) as Hc.
  destruct f as [j n|j n|j n|j n|j n|j n|j n idx|j n|j n|j x|j x]; cbn [frame_step frame_index] in *;
    try done; try (apply access_Next in E as (ns & Hj & E)).
  - simplify_eq. constructor; [| done]. destruct (has_next ch' j) eqn:E; [by apply has_next_true | done].
  - simplify_eq. constructor; [| done]. case_match eqn:E; [done |]. right.
    specialize (Hc _ _ Hj). destruct Hc as [Hb _ _ _]. rewrite (nodes_at_eq _ _ _ Hj). simpl in *. lia.
  - simplify_eq. constructor; [| done]. destruct (has_next ch' j) eqn:E; [by apply has_next_true | done].
  - simplify_eq. constructor; [| done]. case_match eqn:E; [done |]. simpl.
    destruct Ha as [|Ha]; [done |]. rewrite (nodes_at_eq _ _ _ Hj) in Ha. simpl in Ha. lia.
  - destruct (_ =? _); [by simplify_eq |]. destruct (has_next ch j) eqn:Hn; simplify_eq.
    + constructor; [by apply has_next_true | done].
    + by constructor.
  - simplify_eq. by constructor.
  - destruct (ch !! j); [| done]. repeat case_match; simplify_eq; constructor; try done.
    + by constructor.
    + simpl. by rewrite length_insert.
  - repeat case_match; simplify_eq; by constructor.
  - destruct (add_or_update _ _); by simplify_eq.
Qed.

Lemma system_adds_step s t ch' fs :
  0 ≤ k → system_ok own k s → system_adds s → task_step own k t s = Next ch' fs →
  system_adds (mkSystem ch' (alter (λ st, fs ++ tail st) t (stacks s))).
Proof using Type.
  intros Hk0 [Hc Hst _] Ha (f & st & Ht & E)%task_step_inv.
  pose proof (Forall_lookup_1 _ _ _ _ Hst Ht) as [_ [Hf Hfs]%Forall_cons].
  pose proof (Forall_lookup_1 _ _ _ _ Ha Ht) as [Haf Has]%Forall_cons.
  assert (Hmono : ∀ st', frames_ok own (chain s) st' → Forall (frame_adds (chain s)) st' →
    Forall (frame_adds ch') st').
  { intros st' Hok Hst'. unfold frames_ok in Hok. rewrite Forall_forall in *. intros g Hg.
    eapply frame_adds_mono; [done | exact Hc | exact Hf | done | exact E | by apply Hok | by apply Hst']. }
  apply Forall_lookup_2. intros t' st' Hlook.
  rewrite (after_lookup s t f st ch' fs t' Ht) in Hlook. case_decide; simplify_eq.
  - simpl. apply Forall_app. split; [by eapply step_adds | by apply Hmono].
  - pose proof (Forall_lookup_1 _ _ _ _ Hst Hlook) as [_ ?]. apply Hmono; [done |].
    by apply (Forall_lookup_1 _ _ _ _ Ha Hlook).
Qed.

Lemma adds_no_panic s t : system_ok own k s → system_adds s → task_step own k t s ≠ Panicked.
Proof using Type.
  intros Hs Ha E. unfold task_step in E. destruct (stacks s !! t) as [[|f st]|] eqn:Ht; try done.
  pose proof (Forall_lookup_1 _ _ _ _ (ok_stacks _ _ _ Hs) Ht) as [_ [Hf _]%Forall_cons].
  pose proof (Forall_lookup_1 _ _ _ _ Ha Ht) as [Haf _]%Forall_cons.
  apply (frame_panics own k _ _ (ok_cells _ _ _ Hs) Hf) in E as (i & n & -> & Hn & _).
  simpl in Haf. apply has_next_true in Haf. congruence.
Qed.

(** Some task can step, until all have returned. *)
Lemma adds_progress s :
  system_ok own k s → system_adds s → all_done s ∨ ∃ t ch fs, task_step own k t s = Next ch fs.
Proof using Type.
  intros Hs Ha. destruct (busy_task s) as [|(t & f & st & Ht)]; [by left | right].
  destruct (progress_from own k s _ t f st Hs Ht (le_n _)) as [t' Ht'].
  destruct (task_step own k t' s) as [| |ch' fs] eqn:E; [done | | by exists t', ch', fs].
  by apply adds_no_panic in E.
Qed.

Lemma adds_start ch ns :
  system_adds (mkSystem ch (call_stack <$> (CallAdd <$> ns))).
Proof using Type. unfold system_adds. simpl. apply Forall_fmap, Forall_fmap, Forall_true. by repeat constructor. Qed.
End Adds.

(** C16: tasks that only add never panic, and never all wait: an [add] that
    reached [next_bucket.get().unwrap()] either found the bucket full, and then
    a successor was made, or found the successor. With [tasks_finish], every
    run of concurrent additions that is continued ends with all calls
    returned. *)
Theorem adds_complete own k b cs s :
  table_ok own k b → Forall call_ok cs → Forall (λ c, ∃ n, c = CallAdd n) cs →
  rtc (system_step own k) (start b cs) s →
  (∀ t, task_step own k t s ≠ Panicked) ∧ (all_done s ∨ ∃ s', system_step own k s s').
Proof.
  intros Hb Hcs Hadds Hr. pose proof (k_nonneg _ _ _ Hb) as Hk.
  assert (Hs : system_ok own k s ∧ system_adds k s).
  { cut (system_ok own k (start b cs) ∧ system_adds k (start b cs)).
    - clear Hadds. induction Hr as [|s s' s'' Hstep _ IH]; [done |]. intros [Hs Ha]. apply IH.
      inversion Hstep; subst. split; [by apply system_ok_step | by eapply system_adds_step].
    - split; [by apply tasks_start_ok |]. apply Forall_fmap. eapply Forall_impl; [exact Hadds |].
      intros c [n ->]. by repeat constructor. }
  destruct Hs as [Hs Ha]. split; [intros t; by apply adds_no_panic |].
  destruct (adds_progress own k s Hs Ha) as [|(t & ch & fs & E)]; [by left | right].
  eexists. by apply (step_task own k s t).
Qed.

(** ** One task alone *)

Section Alone.
Context (own : U160) (k : Z) (p : profile).

(** The steps of one task, as a relation on the chain and its stack *)
Inductive solo : list cell * stack → list cell * stack → Prop :=
  | solo_step ch f st ch' fs :
      frame_step own k ch f = Next ch' fs → solo (ch, f :: st) (ch', fs ++ st).

(** The buckets of a chain carry our identifier, the bucket size and
    consecutive indices. *)
Fixpoint placed (i : nat) (b : Bucket) : Prop :=
  own_id b = own ∧ k_size b = k ∧ bucket_index b = Z.of_nat i ∧ Z.of_nat i ≤ MAX_BUCKET_INDEX ∧
  match next_bucket b with Some next => placed (S i) next | None => True end.

Lemma chain_placed i b : chain_ok own k i b → placed (Z.to_nat i) b.
Proof using Type.
  induction 1 as [i ns Hi Hns | i ns next Hi Hns Hbel Hnext IH]; simpl; split_and!; try done; try lia.
  by replace (S (Z.to_nat i)) with (Z.to_nat (i + 1)) by lia.
Qed.

(** [add_or_update] looks at the bucket's own list only. *)
Lemma add_or_update_next self n b :
  add_or_update self n = Ret b →
  ∃ ns, b = set_nodes self ns ∧
    ∀ next, add_or_update (mkBucket (own_id self) (bucket_index self) (k_size self) (nodes self) next) n =
      Ret (mkBucket (own_id self) (bucket_index self) (k_size self) ns next).
Proof using Type.
  unfold add_or_update. simpl. destruct (position _ _) as [j|].
  - destruct (bump _ _ _) as [ns| |]; [| done..]. intros [= <-]. by exists ns.
  - case_match; intros [= <-]; [by eexists |]. exists (nodes self). split; [by destruct self | done].
Qed.

Lemma placed_unfold i b :
  placed i b ↔
  own_id b = own ∧ k_size b = k ∧ bucket_index b = Z.of_nat i ∧ Z.of_nat i ≤ MAX_BUCKET_INDEX ∧
  match next_bucket b with Some next => placed (S i) next | None => True end.
Proof using Type. by destruct b. Qed.

Lemma placed_set_nodes i b ns : placed i b → placed i (set_nodes b ns).
Proof using Type. by destruct b. Qed.

Notation rest b := (match next_bucket b with Some next => cells next | None => [] end).

Lemma cells_cons b : cells b = mkCell (nodes b) false :: rest b.
Proof using Type. by destruct b. Qed.

Lemma lookup_here (pre : list cell) c tl : (pre ++ c :: tl) !! length pre = Some c.
Proof using Type. by apply list_lookup_middle. Qed.
Lemma insert_here (pre : list cell) c d tl : <[length pre := d]> (pre ++ c :: tl) = pre ++ d :: tl.
Proof using Type. rewrite insert_app_r_alt, Nat.sub_diag by done. done. Qed.
Lemma has_next_here pre c tl : has_next (pre ++ c :: tl) (length pre) = negb (Nat.eqb (length tl) 0).
Proof using Type.
  unfold has_next. rewrite length_app. simpl.
  destruct (length tl); simpl; [apply Nat.ltb_ge | apply Nat.ltb_lt]; lia.
Qed.
Lemma has_next_rest pre ns l b :
  has_next (pre ++ mkCell ns l :: rest b) (length pre) = negb (is_none (next_bucket b)).
Proof using Type.
  rewrite has_next_here. destruct (next_bucket b) as [next|]; [| done].
  by rewrite cells_cons.
Qed.

Lemma solo_one ch f st ch' fs x :
  frame_step own k ch f = Next ch' fs → rtc solo (ch', fs ++ st) x → rtc solo (ch, f :: st) x.
Proof using Type. intros E Hr. eapply rtc_l; [by constructor | done]. Qed.

Lemma solo_update pre b n b' st :
  placed (length pre) b → add_or_update b n = Ret b' →
  rtc solo (pre ++ cells b, Update (length pre) n :: st) (pre ++ cells b', st) ∧ placed (length pre) b'.
Proof using Type.
  intros Hb (ns & -> & Hnone)%add_or_update_next. split; [| by apply placed_set_nodes].
  apply placed_unfold in Hb as (Ho & Hk & Hi & _). specialize (Hnone None). rewrite Ho, Hk, Hi in Hnone.
  rewrite cells_cons, (cells_cons (set_nodes b ns)). eapply (solo_one _ _ _ _ []); [| apply rtc_refl].
  cbn [frame_step]. unfold access. rewrite lookup_here. simpl. by rewrite Hnone, insert_here.
Qed.

(** What the recursive call has to do in the proofs of its callers *)
Definition add_runs (addf : Bucket → NodeInfo → run Bucket) : Prop :=
  ∀ pre b n b' st, placed (length pre) b → addf b n = Ret b' →
    rtc solo (pre ++ cells b, Enter (length pre) n :: st) (pre ++ cells b', st) ∧
    placed (length pre) b'.

Lemma solo_split addf belongs pre n st fuel idx ns next ns' next' :
  add_runs addf → (∀ m, belongs m = belongs_at own (length pre) (id m)) →
  placed (S (length pre)) next →
  split_nodes addf belongs fuel idx ns next = Ret (ns', next') →
  rtc solo (pre ++ mkCell ns true :: cells next, Split (length pre) n idx :: st)
           (pre ++ mkCell ns' false :: cells next', Choose (length pre) n :: st) ∧
  placed (S (length pre)) next'.
Proof using Type.
  intros Hadd Hbel. revert idx ns next. induction fuel as [|fuel IH]; intros idx ns next Hnext E;
    cbn [split_nodes] in E; case_decide as Hidx; try done.
  1,3: simplify_eq; split; [| done]; eapply (solo_one _ _ _ _ [_]); [| apply rtc_refl]; cbn [frame_step];
    rewrite lookup_here; cbn [c_nodes]; rewrite (lookup_ge_None_2 ns') by lia; by rewrite insert_here.
  destruct (ns !! idx) as [m|] eqn:Hm; [| done]. cbn [unwrap run_bind] in E. rewrite Hbel in E.
  destruct (belongs_at own (length pre) (id m)) eqn:Hb.
  - destruct (IH _ _ _ Hnext E) as [Hrun Hp]. split; [| done]. eapply (solo_one _ _ _ _ [_]); [| exact Hrun].
    cbn [frame_step]. rewrite lookup_here. cbn [c_nodes]. by rewrite Hm, Hb.
  - destruct (swap_remove idx ns) as [[m' ns1]| |] eqn:Hs; [| done..]. cbn [run_bind] in E.
    destruct (addf next m') as [next1| |] eqn:Ha; [| done..]. cbn [run_bind] in E.
    assert (Hl : length (pre ++ [mkCell ns1 true]) = S (length pre)) by (rewrite length_app; simpl; lia).
    destruct (Hadd (pre ++ [mkCell ns1 true]) next m' next1 (Split (length pre) n idx :: st))
      as [Hrun1 Hp1]; [by rewrite Hl | done |].
    rewrite Hl in Hrun1, Hp1. rewrite <- !app_assoc in Hrun1. simpl in Hrun1.
    destruct (IH _ _ _ Hp1 E) as [Hrun Hp]. split; [| done].
    eapply (solo_one _ _ _ _ [_; _]); [| etrans; [exact Hrun1 | exact Hrun]].
    cbn [frame_step]. rewrite lookup_here. cbn [c_nodes]. rewrite Hm, Hb, Hs. by rewrite insert_here.
Qed.

Lemma snoc_cell (pre : list cell) c : length (pre ++ [c]) = S (length pre).
Proof using Type. rewrite length_app. simpl. lia. Qed.

Lemma belongs_here_at b i m : placed i b → belongs_here b m = belongs_at own i (id m).
Proof using Type. intros (Ho & _ & Hi & _)%placed_unfold. unfold belongs_here, belongs_at. by rewrite Ho, Hi. Qed.

(** The end of [add]: on to the next bucket, or into this one *)
Lemma solo_choose addf pre b n b' st :
  add_runs addf → placed (length pre) b →
  (if negb (belongs_here b n) then
     let! next := unwrap (next_bucket b) in
     let! next := addf next n in
     Ret (set_next b next)
   else add_or_update b n) = Ret b' →
  rtc solo (pre ++ cells b, Choose (length pre) n :: st) (pre ++ cells b', st) ∧ placed (length pre) b'.
Proof using Type.
  intros Hadd Hb E. rewrite (belongs_here_at _ _ _ Hb) in E.
  destruct (belongs_at own (length pre) (id n)) eqn:Hbel; simpl in E.
  - destruct (solo_update pre b n b' st Hb E) as [Hrun Hp]. split; [| done].
    eapply (solo_one _ _ _ _ [_]); [| exact Hrun]. cbn [frame_step]. by rewrite Hbel.
  - destruct (next_bucket b) as [next|] eqn:Hn; [| done]. cbn [unwrap run_bind] in E.
    destruct (addf next n) as [next'| |] eqn:Ha; [| done..]. cbn [run_bind] in E.
    injection E as <-. pose proof Hb as Hb0. apply placed_unfold in Hb as (Ho & Hk & Hi & Hmax & Hnext).
    rewrite Hn in Hnext.
    destruct (Hadd (pre ++ [mkCell (nodes b) false]) next n next' st) as [Hrun Hp];
      [by rewrite snoc_cell | done |].
    rewrite snoc_cell in Hrun, Hp. rewrite <- !app_assoc in Hrun. simpl in Hrun. split.
    + rewrite (cells_cons b), Hn. eapply (solo_one _ _ _ _ [_]); [| exact Hrun].
      cbn [frame_step]. rewrite Hbel, has_next_here, cells_cons. done.
    + by apply placed_unfold.
Qed.

Lemma solo_make addf pre b n made b' st :
  add_runs addf → placed (length pre) b → next_bucket b = None →
  make_next_bucket p addf b = Ret (b', made) →
  placed (length pre) b' ∧
  rtc solo (pre ++ cells b, Make (length pre) n :: st)
           (pre ++ cells b', (if made then [Choose (length pre) n] else []) ++ st).
Proof using Type.
  intros Hadd Hb Hnone E. unfold make_next_bucket in E.
  pose proof Hb as (Ho & Hk & Hi & Hmax & _)%placed_unfold. unfold MAX_BUCKET_INDEX in *.
  rewrite Hi, Ho, Hk, Hnone in E. destruct (Z.eqb_spec (Z.of_nat (length pre)) 159) as [Hlast|Hlast].
  - simplify_eq. split; [done |]. eapply (solo_one _ _ _ _ []); [| apply rtc_refl].
    cbn [frame_step]. unfold MAX_BUCKET_INDEX. by rewrite (proj2 (Z.eqb_eq _ _) Hlast).
  - unfold add_u in E. rewrite checked_in in E by (unfold in_width; lia). cbn [run_bind] in E.
    set (new := mkBucket own (Z.of_nat (length pre) + 1) k [] None) in E.
    destruct (split_nodes _ _ _ _ _ _) as [[ns' next']| |] eqn:Hsplit; [| done..].
    cbn [run_bind] in E. injection E as <- <-.
    assert (Hnew : placed (S (length pre)) new).
    { apply placed_unfold. unfold new, MAX_BUCKET_INDEX. cbn [own_id k_size bucket_index next_bucket].
      split_and!; done || lia. }
    destruct (solo_split addf (belongs_here b) pre n st _ _ _ _ _ _ Hadd
      (λ m, belongs_here_at b _ m Hb) Hnew Hsplit) as [Hrun Hp].
    split; [by apply placed_unfold |].
    rewrite (cells_cons b), Hnone.
    eapply (solo_one _ _ _ _ [_]); [cbn [frame_step]; unfold MAX_BUCKET_INDEX;
      rewrite (proj2 (Z.eqb_neq _ _) Hlast), has_next_here; reflexivity |].
    rewrite <- app_assoc. simpl.
    eapply (solo_one _ _ _ _ [_]); [| exact Hrun].
    cbn [frame_step]. unfold access. rewrite lookup_here. simpl. by rewrite insert_here.
Qed.

Lemma solo_add fuel : add_runs (add p fuel).
Proof using Type.
  induction fuel as [|fuel IH]; intros pre b n b' st Hb E; [done |].
  rewrite add_unfold in E. pose proof Hb as (_ & Hk & _ & _ & _)%placed_unfold. rewrite Hk in E.
  destruct (next_bucket b) as [next|] eqn:Hn; cbn [is_none andb] in E.
  - cbn [run_bind negb] in E.
    destruct (solo_choose (add p fuel) pre b n b' st IH Hb E) as [Hrun Hp].
    split; [| done]. eapply (solo_one _ _ _ _ [_]); [| exact Hrun].
    cbn [frame_step]. rewrite cells_cons, has_next_rest, Hn. done.
  - assert (Hlast : has_next (pre ++ cells b) (length pre) = false)
      by (by rewrite cells_cons, has_next_rest, Hn).
    assert (Hat : (pre ++ cells b) !! length pre = Some (mkCell (nodes b) false))
      by (by rewrite cells_cons, lookup_here).
    assert (Henter : ∀ x, rtc solo (pre ++ cells b, ReadRoom (length pre) n :: st) x →
      rtc solo (pre ++ cells b, Enter (length pre) n :: st) x).
    { intros x. apply (solo_one _ _ _ _ [_]). cbn [frame_step]. by rewrite Hlast. }
    destruct (Z.of_nat (length (nodes b)) <? k) eqn:Hroom.
    { destruct (solo_update pre b n b' st Hb E) as [Hrun Hp]. split; [| done]. apply Henter.
      eapply (solo_one _ _ _ _ [_]); [| exact Hrun].
      cbn [frame_step]. unfold access. rewrite Hat. simpl. by rewrite Hroom. }
    assert (Hread : ∀ x,
      rtc solo (pre ++ cells b, (if Z.of_nat (length (nodes b)) =? k then Make (length pre) n
        else Choose (length pre) n) :: st) x →
      rtc solo (pre ++ cells b, Enter (length pre) n :: st) x).
    { intros x Hrun. apply Henter. eapply (solo_one _ _ _ _ [_]).
      { cbn [frame_step]. unfold access. rewrite Hat. simpl. by rewrite Hroom. }
      eapply (solo_one _ _ _ _ [_]); [cbn [frame_step]; by rewrite Hlast |].
      eapply (solo_one _ _ _ _ [_]); [| exact Hrun].
      cbn [frame_step]. unfold access. by rewrite Hat. }
    destruct (Z.of_nat (length (nodes b)) =? k).
    + destruct (make_next_bucket p (add p fuel) b) as [[b1 made]| |] eqn:Hmake; [| done..].
      destruct (solo_make _ pre b n made b1 st IH Hb Hn Hmake) as [Hb1 Hrun1].
      cbn [run_bind] in E. destruct made; simpl in E.
      * destruct (solo_choose (add p fuel) pre b1 n b' st IH Hb1 E) as [Hrun Hp]. split; [| done].
        apply Hread. by etrans.
      * injection E as <-. split; [| done]. by apply Hread.
    + cbn [run_bind negb] in E.
      destruct (solo_choose (add p fuel) pre b n b' st IH Hb E) as [Hrun Hp].
      split; [| done]. by apply Hread.
Qed.

Lemma solo_remove_here pre b x b' removed st :
  match position (λ n, u160_eqb (id n) x) (nodes b) with
  | Some j => let! (_, ns) := vec_remove j (nodes b) in Ret (set_nodes b ns, true)
  | None => Ret (b, false)
  end = Ret (b', removed) →
  rtc solo (pre ++ cells b, RemoveHere (length pre) x :: st) (pre ++ cells b', st).
Proof using Type.
  intros E. rewrite (cells_cons b).
  destruct (position _ _) as [j|] eqn:Hpos;
    [destruct (vec_remove j (nodes b)) as [[m ns]| |] eqn:Hv; [| done..] |];
    simplify_eq/=; rewrite (cells_cons b') || idtac;
    (eapply (solo_one _ _ _ _ []); [| apply rtc_refl]);
    cbn [frame_step]; unfold access; rewrite lookup_here; simpl; rewrite Hpos, ?Hv, ?insert_here; done.
Qed.

Lemma remove_unfold self x :
  remove self x =
  if is_none (next_bucket self) || id_belongs_here self x then
    match position (λ n, u160_eqb (id n) x) (nodes self) with
    | Some j => let! (_, ns) := vec_remove j (nodes self) in Ret (set_nodes self ns, true)
    | None => Ret (self, false)
    end
  else
    match next_bucket self with
    | Some next => let! (next, removed) := remove next x in Ret (set_next self next, removed)
    | None => Panic
    end.
Proof using Type. by destruct self. Qed.

Lemma solo_remove b : ∀ pre x b' removed st,
  placed (length pre) b → remove b x = Ret (b', removed) →
  rtc solo (pre ++ cells b, RemoveAt (length pre) x :: st) (pre ++ cells b', st).
Proof using Type.
  clear p. induction b as [o i k' ns | o i k' ns next IH] using Bucket_chain_ind;
    intros pre x b' removed st Hb E; rewrite remove_unfold in E;
    pose proof Hb as (Ho & _ & Hi & _ & Hnext)%placed_unfold.
  - cbn [next_bucket is_none orb] in E.
    eapply (solo_one _ _ _ _ [_]); [| by eapply solo_remove_here].
    cbn [frame_step]. by rewrite cells_cons, has_next_rest.
  - unfold id_belongs_here in E. rewrite Ho, Hi in E. cbn [next_bucket is_none orb] in E.
    fold (belongs_at own (length pre) x) in E. destruct (belongs_at own (length pre) x) eqn:Hbel.
    + eapply (solo_one _ _ _ _ [_]); [| by eapply solo_remove_here].
      cbn [frame_step]. by rewrite Hbel, orb_true_r.
    + destruct (remove next x) as [[next' r]| |] eqn:Hr; [| done..]. cbn [run_bind] in E. simplify_eq.
      pose proof (IH (pre ++ [mkCell ns false]) x next' removed st) as Hrun.
      rewrite snoc_cell, <- !app_assoc in Hrun. simpl in Hrun.
      eapply (solo_one _ _ _ _ [_]); [| by apply Hrun].
      cbn [frame_step]. rewrite Hbel, cells_cons, has_next_rest. done.
Qed.

Lemma solo_system ch st s :
  system_step own k (mkSystem ch [st]) s →
  ∃ x, s = mkSystem x.1 [x.2] ∧ solo (ch, st) x.
Proof using Type.
  intros Hs. inversion Hs as [? t ch' fs E Heq]. subst.
  apply task_step_inv in E as (f & st' & Ht & E). simpl in *.
  apply list_lookup_singleton_Some in Ht as [-> ->]. exists (ch', fs ++ st'). split; [done |].
  by constructor.
Qed.

Lemma system_solo x y :
  solo x y → system_step own k (mkSystem x.1 [x.2]) (mkSystem y.1 [y.2]).
Proof using Type.
  intros [ch f st ch' fs E]. simpl.
  by apply (step_task own k (mkSystem ch [f :: st]) 0 ch' fs).
Qed.

Lemma solo_det x y z : solo x y → solo x z → y = z.
Proof using Type. intros [ch f st ch' fs E] H. inversion H as [? ? ? ? ? E']; subst. rewrite E in E'. by simplify_eq. Qed.

(** A task alone has one end only. *)
Lemma solo_end x y s :
  rtc solo x y → y.2 = [] → rtc (system_step own k) (mkSystem x.1 [x.2]) s →
  (∀ s', ¬ system_step own k s s') → s = mkSystem y.1 [[]].
Proof using Type.
  intros Hr Hy. induction Hr as [[ch st]|x y z Hxy Hyz IH]; intros Hs Hend; simpl in *.
  - subst. inversion Hs as [|? s' ? Hstep]; subst; [done |].
    apply solo_system in Hstep as (w & _ & Hw). inversion Hw.
  - inversion Hs as [|? s' ? Hstep Hs']; subst.
    + destruct (Hend _ (system_solo _ _ Hxy)).
    + destruct x as [ch st]. apply solo_system in Hstep as (w & -> & Hw).
      rewrite (solo_det _ _ _ Hw Hxy) in Hs'. by apply IH.
Qed.
End Alone.

(** What a call does when no other task runs: the operations of [Bucket] *)
Definition call_alone (p : profile) (b : Bucket) (c : call) : run Bucket :=
  match c with
  | CallAdd n => add p FUEL b n
  | CallRemove x => let! (b, _) := remove b x in Ret b
  end.

(** A task that runs alone does what the operation computes. *)
Lemma call_alone_spec own k p b c :
  table_ok own k b → call_ok c →
  ∃ b', call_alone p b c = Ret b' ∧
    rtc (system_step own k) (start b [c]) (mkSystem (cells b') [[]]) ∧
    ∀ s, rtc (system_step own k) (start b [c]) s → (∀ s', ¬ system_step own k s s') →
      s = mkSystem (cells b') [[]].
Proof.
  intros (Ho & Hk & Hb) Hc. pose proof (chain_placed _ _ 0 b Hb) as Hp.
  assert (Hsolo : ∃ b', call_alone p b c = Ret b' ∧ rtc (solo own k) (cells b, call_stack c) (cells b', [])).
  { destruct c as [n|x]; simpl in *.
    - destruct (add_spec p FUEL own k 0 b n Hb Hc) as (b' & E & _);
        [apply shares_prefix_0 | by vm_compute |].
      exists b'. split; [done |]. by apply (solo_add own k p FUEL [] b n b' []).
    - destruct (remove_spec own k 0 b x Hb) as (b' & r & E & _). exists b'. rewrite E. split; [done |].
      by apply (solo_remove own k b [] x b' r []). }
  destruct Hsolo as (b' & E & Hrun). exists b'. split_and!; [done | |].
  - clear E. change (start b [c]) with (mkSystem (cells b) [call_stack c]).
    pose (f := λ x : list cell * stack, mkSystem x.1 [x.2]).
    change (rtc (system_step own k) (f (cells b, call_stack c)) (f (cells b', []))).
    eapply rtc_congruence; [| exact Hrun]. apply system_solo.
  - intros s Hr Hend. by apply (solo_end own k (cells b, call_stack c) (cells b', []) s).
Qed.

(** C17: a task that runs alone does what [Bucket.add] and [Bucket.remove] compute:
    its steps lead to the chain of their result, with the call returned and all
    locks free, and every run that cannot go on has ended there. *)
Theorem tasks_alone own k p b c :
  table_ok own k b → call_ok c →
  ∃ b', call_alone p b c = Ret b' ∧
    rtc (system_step own k) (start b [c]) (mkSystem (cells b') [[]]) ∧
    ∀ s, rtc (system_step own k) (start b [c]) s → (∀ s', ¬ system_step own k s s') →
      s = mkSystem (cells b') [[]].
Proof. apply call_alone_spec. Qed.

(** ** [lookup] while the table changes *)

Section Lookup.
Context (own : U160) (k : Z) (p : profile).
(** The chain as the [t]-th access finds it *)
Context (view : nat → list cell).

(** [Bucket::lookup] at bucket [i], its first access being the [t]-th; it also
    returns the number of the next one. *)
Fixpoint lookup_seen (fuel t i : nat) (x : U160) : run (nat * list NodeInfo) :=
  match fuel with
  | O => NoFuel
  | S fuel =>
      let! (t, k_nearest) :=
        (if has_next (view t) i && negb (belongs_at own i x) then lookup_seen fuel (S t) (S i) x
         else Ret (S t, [])) in
      let! gap := sub_u p 64 k (Z.of_nat (length k_nearest)) in
      let '(t, k_nearest) :=
        (if 0 <? gap then (S t, k_nearest ++ take (Z.to_nat gap) (nodes_at (view t) i))
         else (t, k_nearest)) in
      let! gap := sub_u p 64 k (Z.of_nat (length k_nearest)) in
      if 0 <? gap then
        if has_next (view t) i then
          let! (t, rest) := lookup_seen fuel (S t) (S i) x in
          Ret (t, k_nearest ++ take (Z.to_nat gap) rest)
        else Ret (S t, k_nearest)
      else Ret (t, k_nearest)
  end.

Definition stored_sometime (n : NodeInfo) : Prop := ∃ t i, n ∈ nodes_at (view t) i.

(** What every call of [lookup] gives its caller *)
Definition lookup_result (r : run (nat * list NodeInfo)) : Prop :=
  ∃ t l, r = Ret (t, l) ∧ Z.of_nat (length l) ≤ k ∧ Forall stored_sometime l.

Lemma gap_ok (l : list NodeInfo) :
  in_width 8 k → Z.of_nat (length l) ≤ k →
  sub_u p 64 k (Z.of_nat (length l)) = Ret (k - Z.of_nat (length l)).
Proof using Type. unfold in_width. intros. unfold sub_u. apply checked_in. unfold in_width. lia. Qed.

Lemma fill_length (l ns : list NodeInfo) :
  Z.of_nat (length l) ≤ k → Z.of_nat (length (l ++ take (Z.to_nat (k - Z.of_nat (length l))) ns)) ≤ k.
Proof using Type. intros. rewrite length_app, length_take. lia. Qed.

Lemma lookup_seen_spec fuel t i x :
  in_width 8 k → (∀ t, cells_ok own k (view t)) → (i < 160)%nat → (160 - i ≤ fuel)%nat →
  lookup_result (lookup_seen fuel t i x).
Proof using Type.
  intros Hk Hview. revert t i. induction fuel as [|fuel IH]; intros t i Hi Hfuel; [lia |].
  assert (Hdown : ∀ t t', has_next (view t) i = true → lookup_result (lookup_seen fuel t' (S i) x)).
  { intros t1 t2 Hn%has_next_true. pose proof (proj1 (Hview t1)). apply IH; lia. }
  cbn [lookup_seen]. pose proof Hk as [Hk0 _].
  assert (Hfirst : lookup_result (if has_next (view t) i && negb (belongs_at own i x)
    then lookup_seen fuel (S t) (S i) x else Ret (S t, []))).
  { destruct (has_next (view t) i) eqn:Hn; simpl; [case_match; [by eapply Hdown |] |];
      exists (S t), []; (split_and!; [done | simpl; lia | constructor]). }
  destruct Hfirst as (t1 & l1 & -> & Hlen1 & Hin1). cbn [run_bind]. rewrite gap_ok by done. cbn [run_bind].
  assert (Hmid : ∃ t2 l2, (if 0 <? k - Z.of_nat (length l1)
    then (S t1, l1 ++ take (Z.to_nat (k - Z.of_nat (length l1))) (nodes_at (view t1) i)) else (t1, l1)) =
      (t2, l2) ∧ Z.of_nat (length l2) ≤ k ∧ Forall stored_sometime l2).
  { case_match; do 2 eexists; (split; [done |]); [split | done].
    - by apply fill_length.
    - apply Forall_app_2; [done |]. apply Forall_take, Forall_forall. intros n Hn. by exists t1, i. }
  destruct Hmid as (t2 & l2 & -> & Hlen2 & Hin2). rewrite gap_ok by done. cbn [run_bind].
  destruct (0 <? _); [| by exists t2, l2].
  destruct (has_next (view t2) i) eqn:Hn; [| by exists (S t2), l2].
  destruct (Hdown t2 (S t2) Hn) as (t3 & l3 & -> & _ & Hin3). cbn [run_bind].
  do 2 eexists. split; [done |]. split; [by apply fill_length |].
  by apply Forall_app_2; [| apply Forall_take].
Qed.

(** When nothing changes it is [Bucket.lookup]. *)
Lemma lookup_unfold self x :
  lookup p self x =
  let! k_nearest :=
    match next_bucket self with
    | Some next => if negb (id_belongs_here self x) then lookup p next x else Ret []
    | None => Ret []
    end in
  let! gap := sub_u p 64 (k_size self) (Z.of_nat (length k_nearest)) in
  let k_nearest :=
    (if 0 <? gap then k_nearest ++ take (Z.to_nat gap) (nodes self) else k_nearest) in
  let! gap := sub_u p 64 (k_size self) (Z.of_nat (length k_nearest)) in
  match next_bucket self with
  | Some next =>
      if 0 <? gap then
        let! rest := lookup p next x in
        Ret (k_nearest ++ take (Z.to_nat gap) rest)
      else Ret k_nearest
  | None => Ret k_nearest
  end.
Proof using Type. by destruct self. Qed.

Lemma Bucket_next_ind (P : Bucket → Prop) :
  (∀ b, (∀ next, next_bucket b = Some next → P next) → P b) → ∀ b, P b.
Proof using Type.
  intros H b. induction b as [o i k' ns | o i k' ns next IH] using Bucket_chain_ind; apply H; simpl.
  - done.
  - by intros ? [= <-].
Qed.

Lemma lookup_seen_alone b x : ∀ pre fuel t l,
  (∀ t, view t = pre ++ cells b) → placed own k (length pre) b → (160 - length pre ≤ fuel)%nat →
  lookup p b x = Ret l → ∃ t', lookup_seen fuel t (length pre) x = Ret (t', l).
Proof using Type.
  induction b as [b IH] using Bucket_next_ind. intros pre fuel t l Hview Hb Hfuel E.
  pose proof Hb as (Ho & Hk & Hi & Hmax & Hnext)%placed_unfold. unfold MAX_BUCKET_INDEX in Hmax.
  destruct fuel as [|fuel]; [lia |]. rewrite lookup_unfold in E. cbn [lookup_seen].
  assert (Hhas : ∀ t, has_next (view t) (length pre) = negb (is_none (next_bucket b)))
    by (intros; rewrite Hview, cells_cons; apply has_next_rest).
  assert (Hat : ∀ t, nodes_at (view t) (length pre) = nodes b)
    by (intros; rewrite Hview, cells_cons; unfold nodes_at; by rewrite lookup_here).
  assert (Hbel : id_belongs_here b x = belongs_at own (length pre) x)
    by (unfold id_belongs_here, belongs_at; by rewrite Ho, Hi).
  assert (Hdown : ∀ next t l, next_bucket b = Some next → lookup p next x = Ret l →
    ∃ t', lookup_seen fuel t (S (length pre)) x = Ret (t', l)).
  { intros next t1 l1 Hn El. rewrite Hn in Hnext. pose proof Hnext as (_ & _ & _ & Hmax' & _)%placed_unfold.
    unfold MAX_BUCKET_INDEX in Hmax'.
    pose proof (IH next Hn (pre ++ [mkCell (nodes b) false]) fuel t1 l1) as IH'. rewrite snoc_cell in IH'.
    apply IH'; [| done | lia | done]. intros t2. rewrite Hview, cells_cons, Hn, <- app_assoc. done. }
  rewrite Hhas, <- Hbel. rewrite Hk in E. apply run_bind_Ret in E as (k1 & E1 & E).
  assert (Hfirst : ∃ t1, (if negb (is_none (next_bucket b)) && negb (id_belongs_here b x)
    then lookup_seen fuel (S t) (S (length pre)) x else Ret (S t, [])) = Ret (t1, k1)).
  { destruct (next_bucket b) as [next|] eqn:Hn; simpl; [case_match; [by eapply Hdown |] |];
      injection E1 as <-; by eexists. }
  destruct Hfirst as (t1 & ->). cbn [run_bind]. apply run_bind_Ret in E as (g1 & Eg1 & E).
  rewrite Eg1. cbn [run_bind]. rewrite Hat.
  destruct (0 <? g1); apply run_bind_Ret in E as (g2 & Eg2 & E); rewrite Eg2; cbn [run_bind];
    rewrite Hhas; (destruct (next_bucket b) as [next|] eqn:Hn; simpl;
      [| injection E as <-; case_match; by eexists]);
    (destruct (0 <? g2); [| injection E as <-; by eexists]);
    apply run_bind_Ret in E as (rest & Er & E); injection E as <-.
  - destruct (Hdown next (S (S t1)) rest eq_refl Er) as (t2 & ->). by eexists.
  - destruct (Hdown next (S t1) rest eq_refl Er) as (t2 & ->). by eexists.
Qed.
End Lookup.

(** A [lookup] that runs while other tasks add and remove, each of its
    accesses finding the table in some state those tasks can reach, never
    underflows a gap or panics and returns at most [k] nodes, each of them
    stored at the moment of one of its accesses or another; while nothing
    changes it returns what [Bucket.lookup] computes. *)
Theorem lookup_under_tasks own k p b cs (s : nat → system) x :
  table_ok own k b → Forall call_ok cs → (∀ t, rtc (system_step own k) (start b cs) (s t)) →
  let view := λ t, chain (s t) in
  ∃ t l, lookup_seen own k p view FUEL 0 0 x = Ret (t, l) ∧
    Z.of_nat (length l) ≤ k ∧ Forall (stored_sometime view) l ∧
    ((∀ t, s t = start b cs) → lookup p b x = Ret l).
Proof.
  intros Hb Hcs Hs view. pose proof Hb as (_ & Hk & Hchain).
  destruct (lookup_seen_spec own k p view FUEL 0 0 x Hk) as (t & l & E & Hl & Hin);
    [| lia | unfold FUEL; lia |].
  { intros t. apply (reachable_ok own k b cs Hb Hcs (s t) (Hs t)). }
  exists t, l. split_and!; [done.. |]. intros Hsame.
  destruct (lookup_spec p own k 0 b x Hk Hchain) as [El _].
  destruct (lookup_seen_alone own k p view b x [] FUEL 0 _ (λ t, f_equal chain (Hsame t))
    (chain_placed _ _ 0 b Hchain) ltac:(unfold FUEL; simpl; lia) El) as (t' & E').
  cbn [length] in E'. rewrite E in E'. by injection E' as _ ->.
Qed.

(** ** Schedules *)

Lemma tasks_run_steps own k ts s s' :
  tasks_run own k ts s = Ret (Some s') → rtc (system_step own k) s s'.
Proof.
  revert s. induction ts as [|t ts IH]; intros s E; simpl in E; [by simplify_eq |].
  destruct (task_step own k t s) as [| |ch fs] eqn:Ht; [done.. |].
  eapply rtc_l; [by constructor | by apply IH].
Qed.

(** Two tasks that add and one that removes, half way *)
Definition ex_calls : list call := [CallAdd (ex_node 1 2); CallAdd (ex_node 3 4); CallRemove (new 1 2)].
Definition ex_schedule : list nat := [0; 1; 0; 2; 1; 0]%nat.
Definition ex_half : system :=
  mkSystem [mkCell [ex_node 1 2] false] [[]; [Update 0 (ex_node 3 4)]; [RemoveHere 0 (new 1 2)]].

Lemma ex_table : table_ok min 8 (root min 8).
Proof. by apply root_ok. Qed.
Lemma ex_calls_ok : Forall call_ok ex_calls.
Proof. do 2 (constructor; [by apply ex_node_ok |]). by constructor. Qed.
Lemma ex_half_reachable : rtc (system_step min 8) (start (root min 8) ex_calls) ex_half.
Proof. apply (tasks_run_steps min 8 ex_schedule). by vm_compute. Qed.

Lemma tasks_invariant_witness :
  (length (chain ex_half) ≤ 160)%nat ∧
  ∀ i c, chain ex_half !! i = Some c → nodes_ok min 8 (Z.of_nat i) (c_nodes c).
Proof.
  apply (tasks_invariant min 8 (root min 8) ex_calls);
    [apply ex_table | apply ex_calls_ok | apply ex_half_reachable].
Defined.

Lemma tasks_finish_witness :
  ∃ bound, ∀ n s, nsteps (system_step min 8) n (start (root min 8) ex_calls) s →
    (n ≤ bound)%nat ∧ (all_done s ∨ ∃ t, task_step min 8 t s ≠ Blocked).
Proof. apply (tasks_finish min 8 (root min 8) ex_calls); [apply ex_table | apply ex_calls_ok]. Defined.

Lemma adds_complete_witness :
  (∀ t, task_step min 8 t (start (root min 8) [CallAdd (ex_node 1 2)]) ≠ Panicked) ∧
  (all_done (start (root min 8) [CallAdd (ex_node 1 2)]) ∨
   ∃ s', system_step min 8 (start (root min 8) [CallAdd (ex_node 1 2)]) s').
Proof.
  apply (adds_complete min 8 (root min 8) [CallAdd (ex_node 1 2)]).
  - apply ex_table.
  - constructor; [by apply ex_node_ok | done].
  - repeat econstructor.
  - apply rtc_refl.
Defined.

Lemma tasks_alone_witness :
  ∃ b', call_alone Debug (root min 8) (CallAdd (ex_node 1 2)) = Ret b' ∧
    rtc (system_step min 8) (start (root min 8) [CallAdd (ex_node 1 2)]) (mkSystem (cells b') [[]]) ∧
    ∀ s, rtc (system_step min 8) (start (root min 8) [CallAdd (ex_node 1 2)]) s →
      (∀ s', ¬ system_step min 8 s s') → s = mkSystem (cells b') [[]].
Proof.
  apply (tasks_alone min 8 Debug (root min 8) (CallAdd (ex_node 1 2)));
    [apply ex_table | by apply ex_node_ok].
Defined.

(** ** Interleavings that go wrong *)

(** C39: a removal between the two size checks of [add] makes it panic: for every
    full root bucket without a successor, adding a node that does not belong
    there, while another task removes one of its nodes, has a schedule in which
    [add] reaches [next_bucket.get().unwrap()] with no next bucket. *)
Theorem race_panics own k ns n x :
  Z.of_nat (length ns) = k → x ∈ ids ns → belongs_at own 0 (id n) = false →
  tasks_run own k [0; 0; 0; 1; 1; 0; 0]%nat
    (start (mkBucket own 0 k ns None) [CallAdd n; CallRemove x]) = Panic.
Proof.
  intros Hfull Hx Hn.
  destruct (position (λ m, u160_eqb (id m) x) ns) as [j|] eqn:Hpos;
    [| by apply position_id_None in Hpos].
  assert (Hrem : ∃ m ns', vec_remove j ns = Ret (m, ns') ∧ S (length ns') = length ns).
  { apply position_id_Some in Hpos as (m & l1 & l2 & -> & <- & _). exists m, (l1 ++ l2).
    unfold vec_remove. rewrite list_lookup_middle, delete_middle by done. split; [done |].
    rewrite !length_app. simpl. lia. }
  destruct Hrem as (m & ns' & Hrem & Hlen).
  assert (Hlt : (Z.of_nat (length ns) <? k) = false) by lia.
  assert (Hne : (Z.of_nat (length ns') =? k) = false) by lia.
  unfold start. cbn. rewrite Hlt. cbn. rewrite Hpos, Hrem. cbn. rewrite Hne. cbn. by rewrite Hn.
Qed.

Lemma race_panics_witness :
  tasks_run min 1 [0; 0; 0; 1; 1; 0; 0]%nat
    (start (mkBucket min 0 1 [ex_far] None) [CallAdd (ex_node 1 2); CallRemove (id ex_far)]) = Panic.
Proof.
  apply (race_panics min 1 [ex_far] (ex_node 1 2) (id ex_far)); [done | left | done].
Defined.

(** Lookups that see the table before and after the first steps of [ex_calls] *)
Definition ex_views (t : nat) : system :=
  if (t <? 2)%nat then start (root min 8) ex_calls else ex_half.

Lemma lookup_under_tasks_witness :
  ∃ t l, lookup_seen min 8 Debug (λ t, chain (ex_views t)) FUEL 0 0 (new 1 2) = Ret (t, l) ∧
    Z.of_nat (length l) ≤ 8 ∧ Forall (stored_sometime (λ t, chain (ex_views t))) l ∧
    ((∀ t, ex_views t = start (root min 8) ex_calls) → lookup Debug (root min 8) (new 1 2) = Ret l).
Proof.
  apply (lookup_under_tasks min 8 Debug (root min 8) ex_calls ex_views (new 1 2));
    [apply ex_table | apply ex_calls_ok |].
  intros t. unfold ex_views. case_match; [apply rtc_refl | apply ex_half_reachable].
Defined.

(** Three nodes that differ from our own identifier at bit 1, 2 and 0 first *)
Definition ex_second : NodeInfo := ex_node (2 ^ 126) 0.
Definition ex_third : NodeInfo := ex_node (2 ^ 125) 0.

Definition ex_race : list call :=
  [CallAdd ex_second; CallAdd ex_third; CallAdd ex_far; CallAdd ex_second; CallRemove (id ex_second)].

(** The first task has seen room in the root bucket when the others fill and
    split it; it then stores its node there. *)
Definition ex_race_adds : list nat :=
  ([0; 0] ++ [1; 1; 1] ++ replicate 12 2 ++ [0; 2] ++ replicate 15 3)%nat.

