(* ===== verification/Wire.v ===== *)
(** * The serialized form of the program's types

    The hand-written serde implementations of [src/messenger/message/kmsg/]
    ([serde_extra.rs], [wrappers.rs], [error.rs]) and of [src/node_info.rs].
    A [Serializer] receives, and a [Deserializer] hands to the visitors, a value
    of the serde data model; the byte format of that value is the business of
    the [bt_bencode] crate. *)

From S2P Require Import Prelude Text Externals Net U160 NodeInfo.

(** ** Values of the data model *)

(** [serialize_bytes] and [serialize_str] are one kind of value in bencode, the
    byte string; strings are their UTF-8 bytes. *)
Inductive sval : Type :=
  | SBytes (l : list Z)
  | SInt (z : Z)
  | SSeq (l : list sval)
  | SMap (l : list (string * sval)).

(** What makes a deserializer fail; the program only distinguishes failure. *)
Inductive serde_error : Type :=
  | WrongType
  | WrongLength (n : nat)
  | WrongValue (z : Z)
  | Missing (field : string).

(** Induction on values, through sequences and dictionaries *)
Lemma sval_nested_ind (P : sval → Prop) :
  (∀ l, P (SBytes l)) → (∀ z, P (SInt z)) → (∀ l, Forall P l → P (SSeq l)) →
  (∀ l, Forall (λ p, P p.2) l → P (SMap l)) → ∀ v, P v.
Proof.
  intros Hb Hi Hs Hm. fix IH 1. intros [l|z|l|l]; [apply Hb | apply Hi | apply Hs | apply Hm].
  - induction l as [|v l IHl]; constructor; [apply IH | exact IHl].
  - induction l as [|[k v] l IHl]; constructor; [apply IH | exact IHl].
Qed.

(** *** Dictionaries have no order *)

(** A format may write the entries of a dictionary in an order of its own:
    bencode sorts them by key. Two values are equivalent when they differ in
    such orders only. *)
Inductive sval_eqv : sval → sval → Prop :=
  | eqv_bytes l : sval_eqv (SBytes l) (SBytes l)
  | eqv_int z : sval_eqv (SInt z) (SInt z)
  | eqv_seq l l' : Forall2 sval_eqv l l' → sval_eqv (SSeq l) (SSeq l')
  | eqv_map l m l' :
      l ≡ₚ m → Forall2 (λ p q, p.1 = q.1 ∧ sval_eqv p.2 q.2) m l' → sval_eqv (SMap l) (SMap l').

#[export] Instance sval_equiv : Equiv sval := sval_eqv.

(** Entries with the same key and equivalent values *)
Definition entry_eqv (p q : string * sval) : Prop := p.1 = q.1 ∧ p.2 ≡ q.2.

Lemma Forall2_perm_r {A} (R : A → A → Prop) l k k' :
  Forall2 R l k → k ≡ₚ k' → ∃ l', l ≡ₚ l' ∧ Forall2 R l' k'.
Proof.
  intros Hl Hk. revert l Hl. induction Hk as [|x k k' _ IH|x y k|k k' k'' _ IH1 _ IH2]; intros l Hl.
  - by exists l.
  - apply Forall2_cons_inv_r in Hl as (a & l0 & Ha & Hl & ->). destruct (IH _ Hl) as (l' & Hp & ?).
    exists (a :: l'). split; [by rewrite Hp | by constructor].
  - apply Forall2_cons_inv_r in Hl as (a & l0 & Ha & Hl & ->).
    apply Forall2_cons_inv_r in Hl as (b & l1 & Hb & Hl & ->).
    exists (b :: a :: l1). split; [apply Permutation_swap | by repeat constructor].
  - destruct (IH1 _ Hl) as (l1 & Hp1 & Hl1). destruct (IH2 _ Hl1) as (l2 & Hp2 & Hl2).
    exists l2. split; [by rewrite Hp1 | done].
Qed.

#[export] Instance sval_equivalence : Equivalence (≡@{sval}).
Proof.
  split.
  - intros v. induction v as [l|z|l IH|l IH] using sval_nested_ind; [by constructor.. | |].
    + constructor. by induction IH; constructor.
    + apply (eqv_map l l); [done |]. by induction IH; constructor.
  - intros v. induction v as [l|z|l IH|l IH] using sval_nested_ind;
      intros v' H; inv H as [| |? l' Hl|? m l' Hp Hl].
    + constructor.
    + constructor.
    + constructor. revert l' Hl. induction IH as [|v l Hv Hl IHl]; intros l' Hl'.
      * by apply Forall2_nil_inv_l in Hl' as ->.
      * apply Forall2_cons_inv_l in Hl' as (w & l2 & Hw & Hl' & ->).
        constructor; [by apply Hv | by apply IHl].
    + rewrite Hp in IH. apply Forall2_flip in Hl.
      assert (Hl' : Forall2 entry_eqv l' m).
      { clear Hp. revert l' Hl. induction IH as [|p m Hp Hm IHm]; intros l' Hl.
        - apply Forall2_nil_inv_r in Hl as ->. constructor.
        - apply Forall2_cons_inv_r in Hl as (q & l0 & [Hk Hv] & Hl & ->).
          constructor; [split; [done | by apply Hp] | by apply IHm]. }
      destruct (Forall2_perm_r _ _ _ _ Hl' (symmetry Hp)) as (m' & Hp' & Hm'). by eapply eqv_map.
  - intros v. induction v as [l|z|l IH|l IH] using sval_nested_ind; intros v2 v3.
    + intros H1 H. inv H1. inv H. constructor.
    + intros H1 H. inv H1. inv H. constructor.
    + intros H1 H. inv H1 as [| |? l2 H2|]. inv H as [| |? l3 H3|]. constructor.
      revert l2 l3 H2 H3. induction IH as [|v l Hv Hl IHl]; intros l2 l3 H2 H3.
      * by apply Forall2_nil_inv_l in H2 as ->.
      * apply Forall2_cons_inv_l in H2 as (w & l2' & Hw & H2 & ->).
        apply Forall2_cons_inv_l in H3 as (u & l3' & Hu & H3 & ->).
        constructor; [by apply (Hv w) | by apply (IHl l2')].
    + intros H1 H. inv H1 as [| | |? m l2 Hp H2]. inv H as [| | |? m2 l3 Hp2 H3].
      destruct (Forall2_perm_r _ _ _ _ H2 Hp2) as (m' & Hp' & H2'). rewrite Hp, Hp' in IH.
      apply (eqv_map l m'); [by rewrite Hp |]. clear Hp Hp' Hp2 H2.
      revert m2 l3 H2' H3. induction IH as [|p m' Hq Hm IHm]; intros m2 l3 H2 H3.
      * by apply Forall2_nil_inv_l in H2 as ->.
      * apply Forall2_cons_inv_l in H2 as (w & l2' & [Hk Hw] & H2 & ->).
        apply Forall2_cons_inv_l in H3 as (u & l3' & [Hk' Hu] & H3 & ->).
        constructor; [split; [congruence | by apply (Hq w.2)] | by apply (IHm l2')].
Qed.

(** *** What a format has to do *)

(** The values bencode can write: integers are those of [i64] and [u64], and a
    dictionary has each key once. *)
Inductive sval_wf : sval → Prop :=
  | wf_bytes l : sval_wf (SBytes l)
  | wf_int z : - 2 ^ 63 ≤ z < 2 ^ 64 → sval_wf (SInt z)
  | wf_seq l : Forall sval_wf l → sval_wf (SSeq l)
  | wf_map l : NoDup l.*1 → Forall (λ p, sval_wf p.2) l → sval_wf (SMap l).

Lemma in_width_i64 w z : in_width w z → w ≤ 64 → - 2 ^ 63 ≤ z < 2 ^ 64.
Proof. intros [? Hz] Hw. assert (2 ^ w ≤ 2 ^ 64) by (apply Z.pow_le_mono_r; lia). lia. Qed.

(** The values whose strings consist of bytes *)
Inductive sval_bytes : sval → Prop :=
  | byt_bytes l : bytes_ok l → sval_bytes (SBytes l)
  | byt_int z : sval_bytes (SInt z)
  | byt_seq l : Forall sval_bytes l → sval_bytes (SSeq l)
  | byt_map l : Forall (λ p, sval_bytes p.2) l → sval_bytes (SMap l).

(** What the program relies on in [bt_bencode]: [from_slice] reads what [to_vec]
    wrote, up to the order of dictionaries, and makes strings of the bytes of
    its input. *)
Class ByteFormat (to_vec : sval → list Z) (from_slice : list Z → option sval) : Prop := {
  reads_back v : sval_wf v → ∃ v', from_slice (to_vec v) = Some v' ∧ v ≡ v';
  reads_bytes text v : bytes_ok text → from_slice text = Some v → sval_bytes v;
}.

(** ** Reading a value *)

Definition as_bytes (v : sval) : result (list Z) serde_error :=
  match v with SBytes l => Ok l | _ => Err WrongType end.
Definition as_seq (v : sval) : result (list sval) serde_error :=
  match v with SSeq l => Ok l | _ => Err WrongType end.

(** Integers are checked against the range of the target type. *)
Definition as_uint (w : Z) (v : sval) : result Z serde_error :=
  match v with
  | SInt z => if (0 <=? z) && (z <? 2 ^ w) then Ok z else Err (WrongValue z)
  | _ => Err WrongType
  end.

Lemma as_uint_ok w z : in_width w z → as_uint w (SInt z) = Ok z.
Proof.
  intros [??]. simpl. by rewrite (proj2 (Z.leb_le _ _)), (proj2 (Z.ltb_lt _ _)).
Qed.

(** ** The interface of a serializable type *)

(** [ser] is what [Serialize::serialize] hands to the serializer, [de] what
    [Deserialize::deserialize] makes of a value. *)
Class Serde (A : Type) : Type := {
  ser : A → run sval;
  de : sval → result A serde_error;
}.

(** The promise to the code that stores or sends values: those in [ok] serialize
    without panic to a value a format can write, and come back unchanged. *)
Class SerdeLaw (A : Type) `{Serde A} (ok : A → Prop) : Prop := {
  de_ser : ∀ a, ok a → ∃ v, ser a = Ret v ∧ sval_wf v ∧ de v = Ok a;
}.

(** Reading depends on no order of dictionaries. *)
Class SerdeProper (A : Type) `{Serde A} : Prop := {
  de_proper :: Proper ((≡) ==> (=)) (de (A:=A));
}.

(** What is written through a format is read back. *)
Lemma read_written `{ByteFormat to_vec from_slice} `{SerdeLaw A ok, !SerdeProper A} a :
  ok a → ∃ v v', ser a = Ret v ∧ from_slice (to_vec v) = Some v' ∧ de v' = Ok a.
Proof.
  intros Ha. destruct (de_ser a Ha) as (v & Hs & Hwf & Hd).
  destruct (reads_back v Hwf) as (v' & Hr & Heq). exists v, v'. rewrite <- Hd.
  split_and!; [done | done | by apply de_proper].
Qed.

(** A reader of strings sees no order. *)
#[export] Instance as_bytes_proper : Proper ((≡) ==> (=)) as_bytes.
Proof. by intros ? ? []. Qed.
#[export] Instance as_uint_proper w : Proper ((≡) ==> (=)) (as_uint w).
Proof. by intros ? ? []. Qed.

(** The elements of a sequence, and the readings of related elements *)
Definition related {A} (R : A → A → Prop) (r r' : result A serde_error) : Prop :=
  match r, r' with
  | Ok a, Ok a' => R a a'
  | Err e, Err e' => e = e'
  | _, _ => False
  end.

Lemma as_seq_proper v v' : v ≡ v' → related (Forall2 (≡)) (as_seq v) (as_seq v').
Proof. by intros []. Qed.

Lemma collect_proper {A} (dec : sval → result A serde_error) l l' :
  Proper ((≡) ==> (=)) dec → Forall2 (≡) l l' → collect dec l = collect dec l'.
Proof.
  intros Hdec. induction 1 as [|v v' l l' Hv Hl IH]; [done |]. cbn [collect]. by rewrite (Hdec _ _ Hv), IH.
Qed.

(** [Vec<A>] *)
#[export] Instance vec_serde {A} `{Serde A} : Serde (list A) := {
  ser := λ l, let! vs := run_collect ser l in Ret (SSeq vs);
  de := λ v, let? vs := as_seq v in collect de vs;
}.

#[export] Instance vec_serde_law {A} `{SerdeLaw A ok} : SerdeLaw (list A) (Forall ok).
Proof.
  split. intros l Hl.
  assert (∃ vs, run_collect ser l = Ret vs ∧ Forall sval_wf vs ∧ collect de vs = Ok l)
    as (vs & E1 & Hwf & E2).
  { induction Hl as [|a l Ha Hl (vs & E1 & Hwf & E2)]; [by exists [] |].
    destruct (de_ser a Ha) as (v & Hs & Hv & Hd). exists (v :: vs). simpl.
    rewrite Hs, E1, Hd, E2. auto. }
  exists (SSeq vs). simpl. rewrite E1. split_and!; [done | by constructor | done].
Qed.

#[export] Instance vec_serde_proper {A} `{SerdeProper A} : SerdeProper (list A).
Proof.
  split. intros ? ? [| |l l' Hl|]; [done | done | | done].
  apply (collect_proper de l l' _ Hl).
Qed.

(** ** [U160] ([serde_extra.rs]) *)

Definition u160_ser (u : U160) : run sval := Ret (SBytes (to_be_bytes u)).

(** [visit_bytes]: short strings are padded on the left, long ones refused. *)
Definition u160_visit_bytes (v : list Z) : result U160 serde_error :=
  if decide (20 < length v)%nat then Err (WrongLength (length v))
  else if decide (length v < 20)%nat then
    Ok (from_be_bytes (replicate (20 - length v) 0 ++ v))
  else Ok (from_be_bytes v).

#[export] Instance u160_serde : Serde U160 := {
  ser := u160_ser;
  de := λ v, let? v := as_bytes v in u160_visit_bytes v;
}.

#[export] Instance u160_serde_law : SerdeLaw U160 u160_ok.
Proof.
  split. intros u Hu. exists (SBytes (to_be_bytes u)). split; [done |]. split; [constructor |].
  cbn [de u160_serde as_bytes result_bind]. unfold u160_visit_bytes.
  rewrite !decide_False by (rewrite length_to_be_bytes; lia).
  by rewrite from_be_to_be_bytes.
Qed.

#[export] Instance u160_serde_proper : SerdeProper U160.
Proof. split. by intros ? ? []. Qed.

(** ** [NodeInfo] *)

Definition node_ser (n : NodeInfo) : run sval := Ret (SBytes (serialize n)).
Definition node_de (v : sval) : result NodeInfo serde_error :=
  let? v := as_bytes v in
  match visit_bytes v with
  | Ok n => Ok n
  | Err (InvalidLength n) => Err (WrongLength n)
  end.

#[export] Instance node_serde : Serde NodeInfo := { ser := node_ser; de := node_de }.

(** The nodes that survive serialization unchanged. *)
Definition node_plain (n : NodeInfo) : Prop := node_ok n ∧ sock_plain (addr n).

#[export] Instance node_serde_law : SerdeLaw NodeInfo node_plain.
Proof.
  split. intros n [Hn Hp]. exists (SBytes (serialize n)). split; [done |].
  split; [constructor |].
  cbn [de node_serde]. unfold node_de. cbn [as_bytes result_bind].
  rewrite visit_serialize, Hp by done. by destruct n.
Qed.

#[export] Instance node_serde_proper : SerdeProper NodeInfo.
Proof. split. by intros ? ? []. Qed.

(** ** [SocketAddrWrapper] ([wrappers.rs]) *)

Record SocketAddrWrapper : Type := mkWrapper { socket_addr_of : option SocketAddr }.

#[export] Instance SocketAddrWrapper_eq_dec : EqDecision SocketAddrWrapper.
Proof. solve_decision. Defined.

Definition wrapper_ser (w : SocketAddrWrapper) : run sval :=
  match socket_addr_of w with
  | Some addr => Ret (SBytes (ip_octets (sock_ip addr) ++ to_be 2 (sock_port addr)))
  | None => Ret (SBytes [])
  end.

(** [visit_bytes]: a length other than 6 and 18 is accepted as no address. *)
Definition wrapper_visit_bytes (v : list Z) : SocketAddrWrapper :=
  let ip :=
    match length v with
    | 6%nat => Some (V4 (take 4 v))
    | 18%nat => Some (V6 (take 16 v))
    | _ => None
    end in
  match ip with
  | Some ip => mkWrapper (Some (socket_addr ip (from_be (drop (length v - 2) v))))
  | None => mkWrapper None
  end.

#[export] Instance wrapper_serde : Serde SocketAddrWrapper := {
  ser := wrapper_ser;
  de := λ v, let? v := as_bytes v in Ok (wrapper_visit_bytes v);
}.

Definition wrapper_plain (w : SocketAddrWrapper) : Prop :=
  match socket_addr_of w with
  | Some a => sock_ok a ∧ sock_plain a
  | None => True
  end.

Lemma wrapper_visit_ser a :
  sock_ok a → sock_plain a →
  wrapper_visit_bytes (ip_octets (sock_ip a) ++ to_be 2 (sock_port a)) = mkWrapper (Some a).
Proof.
  intros [Hip Hport] Hp. unfold wrapper_visit_bytes.
  rewrite length_app, length_to_be, Nat.add_sub, drop_app_length, from_be_to_be by done.
  unfold sock_plain in Hp.
  destruct a as [o p|o p f s]; cbn [sock_ip sock_port ip_octets ip_ok] in *;
    destruct Hip as [_ Hlen]; rewrite Hlen; cbn [Nat.add];
    rewrite take_app_length' by done; by rewrite Hp.
Qed.

#[export] Instance wrapper_serde_law : SerdeLaw SocketAddrWrapper wrapper_plain.
Proof.
  split. intros [[a|]] Ha.
  - destruct Ha as [Ha Hp]. eexists. split; [done |]. split; [constructor |].
    cbn [de wrapper_serde as_bytes result_bind]. by rewrite wrapper_visit_ser.
  - exists (SBytes []). split_and!; [done | constructor | done].
Qed.

#[export] Instance wrapper_serde_proper : SerdeProper SocketAddrWrapper.
Proof. split. by intros ? ? []. Qed.

(** ** Compact lists ([wrappers.rs]) *)

Record CompactIPv4NodeInfo : Type := mkCompactNodes { dht_nodes : list NodeInfo }.
Record CompactInfoHashes : Type := mkCompactHashes { info_hashes : list U160 }.

Definition compact_nodes_ser (c : CompactIPv4NodeInfo) : run sval :=
  let! bytes := run_collect ip4_to_bytes (dht_nodes c) in
  Ret (SBytes (concat bytes)).
Definition compact_nodes_visit_bytes (v : list Z) : CompactIPv4NodeInfo :=
  mkCompactNodes (ip4_from_bytes <$> chunks_exact IPV4_DHT_NODE_BYTES_LEN v).

Definition compact_hashes_ser (c : CompactInfoHashes) : run sval :=
  Ret (SBytes (concat (to_be_bytes <$> info_hashes c))).
Definition compact_hashes_visit_bytes (v : list Z) : CompactInfoHashes :=
  mkCompactHashes (from_be_bytes <$> chunks_exact 20 v).

#[export] Instance compact_nodes_serde : Serde CompactIPv4NodeInfo := {
  ser := compact_nodes_ser;
  de := λ v, let? v := as_bytes v in Ok (compact_nodes_visit_bytes v);
}.
#[export] Instance compact_hashes_serde : Serde CompactInfoHashes := {
  ser := compact_hashes_ser;
  de := λ v, let? v := as_bytes v in Ok (compact_hashes_visit_bytes v);
}.

Definition is_v4 (a : SocketAddr) : Prop :=
  match a with SocketV4 _ _ => True | SocketV6 _ _ _ _ => False end.
Definition node_v4 (n : NodeInfo) : Prop := node_ok n ∧ is_v4 (addr n).

Lemma node_v4_bytes n :
  node_v4 n → ip4_to_bytes n = Ret (serialize n) ∧ length (serialize n) = 26%nat ∧
    ip4_from_bytes (serialize n) = n.
Proof.
  intros [Hn Ha]. pose proof (visit_serialize n Hn) as Hv.
  pose proof (length_serialize n Hn) as Hlen.
  destruct n as [i [o p|]]; simpl in Ha; [| done]. cbn [addr sock_ip] in Hlen.
  split; [by apply (ip4_to_bytes_serialize _ o) |]. split; [done |].
  rewrite ip4_from_bytes_visit in Hv by done. by apply Ok_inj in Hv.
Qed.

Lemma compact_nodes_bytes ns :
  Forall node_v4 ns → run_collect ip4_to_bytes ns = Ret (serialize <$> ns).
Proof.
  intros Hns. apply run_collect_Ret. rewrite Forall_forall in Hns.
  intros n Hn. by apply node_v4_bytes, Hns.
Qed.

(** A trailing partial entry is ignored. *)
Lemma compact_nodes_visit ns rest :
  Forall node_v4 ns → (length rest < 26)%nat →
  compact_nodes_visit_bytes (concat (serialize <$> ns) ++ rest) = mkCompactNodes ns.
Proof.
  intros Hns Hrest. unfold compact_nodes_visit_bytes, IPV4_DHT_NODE_BYTES_LEN.
  rewrite chunks_exact_concat; [| lia | | done].
  - f_equal. rewrite <- list_fmap_compose. rewrite <- (list_fmap_id ns) at 2.
    apply list_fmap_ext. intros i n Hi. eapply Forall_lookup in Hns; [| done].
    by apply node_v4_bytes.
  - apply Forall_fmap. eapply Forall_impl; [exact Hns |]. intros n Hn. by apply node_v4_bytes.
Qed.

Lemma compact_hashes_visit hs rest :
  Forall u160_ok hs → (length rest < 20)%nat →
  compact_hashes_visit_bytes (concat (to_be_bytes <$> hs) ++ rest) = mkCompactHashes hs.
Proof.
  intros Hhs Hrest. unfold compact_hashes_visit_bytes.
  rewrite chunks_exact_concat; [| lia | | done].
  - f_equal. rewrite <- list_fmap_compose. rewrite <- (list_fmap_id hs) at 2.
    apply list_fmap_ext. intros i h Hi. eapply Forall_lookup in Hhs; [| done].
    by apply from_be_to_be_bytes.
  - apply Forall_fmap, Forall_true. intros h. apply length_to_be_bytes.
Qed.

#[export] Instance compact_nodes_law :
  SerdeLaw CompactIPv4NodeInfo (λ c, Forall node_v4 (dht_nodes c)).
Proof.
  split. intros [ns] Hns. simpl in Hns. exists (SBytes (concat (serialize <$> ns))).
  cbn [ser de compact_nodes_serde as_bytes result_bind]. unfold compact_nodes_ser. simpl.
  rewrite compact_nodes_bytes by done. split; [done |]. split; [constructor |].
  rewrite <- (app_nil_r (concat _)). by rewrite compact_nodes_visit by (done || simpl; lia).
Qed.

#[export] Instance compact_nodes_proper : SerdeProper CompactIPv4NodeInfo.
Proof. split. by intros ? ? []. Qed.
#[export] Instance compact_hashes_law :
  SerdeLaw CompactInfoHashes (λ c, Forall u160_ok (info_hashes c)).
Proof.
  split. intros [hs] Hhs. simpl in Hhs. exists (SBytes (concat (to_be_bytes <$> hs))).
  split; [done |]. split; [constructor |]. cbn [ser de compact_hashes_serde as_bytes result_bind].
  rewrite <- (app_nil_r (concat _)). by rewrite compact_hashes_visit by (done || simpl; lia).
Qed.

#[export] Instance compact_hashes_proper : SerdeProper CompactInfoHashes.
Proof. split. by intros ? ? []. Qed.

(** ** Strings and booleans *)

(** [std::str::from_utf8] accepts a byte string *)
Fixpoint utf8_valid (l : list Z) : bool :=
  match l with
  | [] => true
  | b :: l =>
      if in_range 0 0x7f b then utf8_valid l
      else match l with
      | [] => false
      | b1 :: l =>
          if in_range 0xc2 0xdf b then in_range 0x80 0xbf b1 && utf8_valid l
          else match l with
          | [] => false
          | b2 :: l =>
              if in_range 0xe0 0xef b then
                in_range (if b =? 0xe0 then 0xa0 else 0x80) (if b =? 0xed then 0x9f else 0xbf) b1
                && in_range 0x80 0xbf b2 && utf8_valid l
              else match l with
              | [] => false
              | b3 :: l =>
                  in_range 0xf0 0xf4 b
                  && in_range (if b =? 0xf0 then 0x90 else 0x80) (if b =? 0xf4 then 0x8f else 0xbf) b1
                  && in_range 0x80 0xbf b2 && in_range 0x80 0xbf b3 && utf8_valid l
              end
          end
      end
  end.

Definition string_ok (s : string) : Prop := utf8_valid (string_bytes s) = true.

#[export] Instance string_serde : Serde string := {
  ser := λ s, Ret (SBytes (string_bytes s));
  de := λ v,
    let? l := as_bytes v in
    if utf8_valid l then Ok (bytes_string l) else Err WrongType;
}.

#[export] Instance string_serde_law : SerdeLaw string string_ok.
Proof.
  split. intros s Hs. exists (SBytes (string_bytes s)). split; [done |].
  split; [constructor |].
  cbn [de string_serde as_bytes result_bind]. by rewrite Hs, bytes_string_bytes.
Qed.

#[export] Instance string_serde_proper : SerdeProper string.
Proof. split. by intros ? ? []. Qed.

(** [int_from_bool] and [bool_from_int] ([serde_extra.rs]) *)
Definition int_from_bool (value : option bool) : sval :=
  match value with
  | Some true => SInt 1
  | _ => SInt 0
  end.
Definition bool_from_int (v : sval) : result (option bool) serde_error :=
  let? n := as_uint 8 v in
  match n with
  | 0 => Ok (Some false)
  | 1 => Ok (Some true)
  | other => Err (WrongValue other)
  end.

Lemma bool_from_int_from_bool b : bool_from_int (int_from_bool (Some b)) = Ok (Some b).
Proof. by destruct b. Qed.

(** ** The error value ([error.rs]) *)

Record KError : Type := mkKError { error_code : Z; error_text : string }.

#[export] Instance KError_eq_dec : EqDecision KError.
Proof. solve_decision. Defined.

(** [SeqAccess::next_element]: the next element, if any, decoded. *)
Definition next_element {A} (dec : sval → result A serde_error) (seq : list sval)
    : result (option A * list sval) serde_error :=
  match seq with
  | [] => Ok (None, [])
  | v :: seq => let? a := dec v in Ok (Some a, seq)
  end.

Definition kerror_ser (e : KError) : run sval :=
  let! text := ser (error_text e) in
  Ret (SSeq [SInt (error_code e); text]).
Definition kerror_visit_seq (seq : list sval) : result KError serde_error :=
  let? (zero, seq) := next_element (as_uint 16) seq in
  let? (one, seq) := next_element (de (A:=string)) seq in
  Ok (mkKError (default 0 zero) (default EmptyString one)).

#[export] Instance kerror_serde : Serde KError := {
  ser := kerror_ser;
  de := λ v, let? seq := as_seq v in kerror_visit_seq seq;
}.

Definition kerror_ok (e : KError) : Prop := in_width 16 (error_code e) ∧ string_ok (error_text e).

#[export] Instance kerror_serde_law : SerdeLaw KError kerror_ok.
Proof.
  split. intros [c t] [Hc Ht]. simpl in *. destruct (de_ser t Ht) as (v & Hs & Hv & Hd).
  exists (SSeq [SInt c; v]). cbn [ser de kerror_serde as_seq result_bind]. unfold kerror_ser.
  simpl error_text. rewrite Hs. split; [done |].
  split; [apply wf_seq; repeat constructor; [by apply (in_width_i64 16).. | done] |]. unfold kerror_visit_seq. cbn [next_element].
  rewrite (as_uint_ok 16) by done. cbn [result_bind next_element]. by rewrite Hd.
Qed.

Lemma next_element_proper {A} (dec : sval → result A serde_error) l l' :
  Proper ((≡) ==> (=)) dec → Forall2 (≡) l l' →
  related (λ r r', r.1 = r'.1 ∧ Forall2 (≡) r.2 r'.2) (next_element dec l) (next_element dec l').
Proof.
  intros Hdec [|v v' l0 l1 Hv Hl]; [by split |]. cbn [next_element]. rewrite (Hdec _ _ Hv).
  by destruct (dec v').
Qed.

#[export] Instance kerror_serde_proper : SerdeProper KError.
Proof.
  split. intros ? ? [| |l l' Hl|]; [done | done | | done].
  cbn [de kerror_serde as_seq result_bind]. unfold kerror_visit_seq.
  pose proof (next_element_proper (as_uint 16) l l' _ Hl) as H.
  destruct (next_element _ l) as [[o k]|], (next_element _ l') as [[o' k']|];
    [| done | done | by destruct H].
  destruct H as [Ho Hk]. cbn in Ho, Hk |- *. subst o'.
  pose proof (next_element_proper (de (A:=string)) k k' _ Hk) as H.
  destruct (next_element _ k) as [[o2 k2]|], (next_element _ k') as [[o2' k2']|];
    [| done | done | by destruct H].
  destruct H as [Ho2 _]. cbn in Ho2 |- *. by subst o2'.
Qed.

(** ** Properties *)

Lemma from_be_zeros n l : from_be (replicate n 0 ++ l) = from_be l.
Proof. induction n as [|n IH]; [done |]. cbn [replicate app]. by rewrite from_be_cons, IH. Qed.

(** An identifier is read from any string of at most twenty bytes as the
    big-endian number it holds, and from no longer string. *)
Theorem u160_visit_bytes_correct v :
  bytes_ok v →
  if decide (length v ≤ 20)%nat
  then ∃ u, u160_visit_bytes v = Ok u ∧ u160_ok u ∧ value u = from_be v
  else u160_visit_bytes v = Err (WrongLength (length v)).
Proof.
  intros Hv. unfold u160_visit_bytes. destruct (decide (length v ≤ 20)%nat).
  - rewrite decide_False by lia.
    assert (Hpad : ∀ n, bytes_ok (replicate n 0 ++ v)).
    { intros n. apply bytes_ok_app. split; [by apply Forall_replicate | done]. }
    destruct (decide (length v < 20)%nat).
    + assert (Hlen : length (replicate (20 - length v) 0 ++ v) = 20%nat).
      { rewrite length_app, length_replicate. lia. }
      eexists. split; [done |]. rewrite value_from_be_bytes, from_be_zeros by done.
      split; [by apply from_be_bytes_ok | done].
    + eexists. split; [done |]. rewrite value_from_be_bytes by (done || lia).
      split; [apply from_be_bytes_ok; [done | lia] | done].
  - by rewrite decide_True by lia.
Qed.

Lemma u160_visit_bytes_correct_witness :
  (∃ u, u160_visit_bytes [1; 2] = Ok u ∧ u160_ok u ∧ value u = 258) ∧
  u160_visit_bytes (replicate 21 0) = Err (WrongLength 21).
Proof.
  split.
  - apply (u160_visit_bytes_correct [1; 2]). by repeat (constructor; [by split |]).
  - apply (u160_visit_bytes_correct (replicate 21 0)). by apply Forall_replicate.
Defined.

(** A compact node list whose nodes are all IPv4 serializes to 26 bytes each
    and is read back node for node, whatever incomplete entry follows it; a
    list with an IPv6 node makes the serializer panic. *)
Theorem compact_nodes_correct ns :
  (Forall node_v4 ns →
     ∃ v, compact_nodes_ser (mkCompactNodes ns) = Ret (SBytes v) ∧
       length v = (26 * length ns)%nat ∧
       ∀ rest, (length rest < 26)%nat →
         compact_nodes_visit_bytes (v ++ rest) = mkCompactNodes ns) ∧
  ((∃ n o, n ∈ ns ∧ sock_ip (addr n) = V6 o) → compact_nodes_ser (mkCompactNodes ns) = Panic).
Proof.
  split.
  - intros Hns. exists (concat (serialize <$> ns)).
    unfold compact_nodes_ser. simpl. rewrite compact_nodes_bytes by done.
    split_and!; [done | | intros; by apply compact_nodes_visit].
    induction Hns as [|n ns Hn Hns IH]; [done |]. rewrite fmap_cons. cbn [concat length].
    rewrite length_app, IH. destruct (node_v4_bytes n Hn) as (_ & -> & _). lia.
  - intros (n & o & Hin & Ho). unfold compact_nodes_ser. cbn [dht_nodes].
    enough (run_collect ip4_to_bytes ns = Panic) as -> by done.
    induction ns as [|m ns IH]; [by apply not_elem_of_nil in Hin |]. cbn [run_collect].
    unfold ip4_to_bytes at 1. destruct (sock_ip (addr m)) eqn:Hm; [| done].
    apply elem_of_cons in Hin as [->|Hin]; [congruence |]. by rewrite IH.
Qed.
