(* ===== verification/Format.v ===== *)
(** * A concrete byte format

    [bt_bencode]'s encoder and decoder are parameters of the components that use
    them, with the class [ByteFormat] as what is relied on. This file is an
    instance, bencode as BEP 3 describes it, which witnesses and examples use:
    it shows that the class can be met by the format the network speaks, and
    lets the definitions be run on literal packets. *)

From S2P Require Import Prelude Text Externals Net U160 NodeInfo Wire.

(** ** Writing *)

Definition encode_bytes (l : list Z) : list Z := digits (Z.of_nat (length l)) ++ 58 :: l.

Fixpoint encode_value (v : sval) : list Z :=
  match v with
  | SBytes l => encode_bytes l
  | SInt z => 105 :: (if z <? 0 then 45 :: digits (- z) else digits z) ++ [101]
  | SSeq l => 108 :: concat (encode_value <$> l) ++ [101]
  | SMap l =>
      100 :: concat ((λ p, encode_bytes (string_bytes p.1) ++ encode_value p.2) <$> l) ++ [101]
  end.

(** Dictionaries are sorted by key. *)
Definition by_key (p q : string * sval) : Prop := String.le p.1 q.1.
#[export] Instance by_key_dec : RelDecision by_key.
Proof. intros p q. apply String.le_dec. Defined.

Fixpoint canon (v : sval) : sval :=
  match v with
  | SBytes l => SBytes l
  | SInt z => SInt z
  | SSeq l => SSeq (canon <$> l)
  | SMap l => SMap (merge_sort by_key ((λ p, (p.1, canon p.2)) <$> l))
  end.

Definition bencode (v : sval) : list Z := encode_value (canon v).

(** ** Reading *)

Fixpoint read_digits (acc : Z) (l : list Z) : Z * list Z :=
  match l with
  | b :: l' => if is_digit b then read_digits (acc * 10 + (b - 48)) l' else (acc, l)
  | [] => (acc, [])
  end.

(** A number, which has a digit at least *)
Definition parse_number (l : list Z) : option (Z * list Z) :=
  match l with
  | b :: _ => if is_digit b then Some (read_digits 0 l) else None
  | [] => None
  end.

(** The rest of the text after the byte [b] *)
Definition skip (b : Z) (l : list Z) : option (list Z) :=
  match l with
  | b' :: l => if b' =? b then Some l else None
  | [] => None
  end.

Definition parse_bytes (l : list Z) : option (list Z * list Z) :=
  '(n, l) ← parse_number l;
  l ← skip 58 l;
  if Z.of_nat (length l) <? n then None else Some (take (Z.to_nat n) l, drop (Z.to_nat n) l).

(** [i64] or [u64] *)
Definition parse_int (l : list Z) : option (sval * list Z) :=
  '(z, l) ← match skip 45 l with
            | Some l => '(n, l) ← parse_number l; Some (- n, l)
            | None => parse_number l
            end;
  l ← skip 101 l;
  if (- 2 ^ 63 <=? z) && (z <? 2 ^ 64) then Some (SInt z, l) else None.

Fixpoint parse_value (fuel : nat) (l : list Z) : option (sval * list Z) :=
  match fuel with
  | O => None
  | S fuel =>
      match l with
      | [] => None
      | b :: l' =>
          if b =? 105 then parse_int l'
          else if b =? 108 then '(vs, l) ← parse_elements fuel l'; Some (SSeq vs, l)
          else if b =? 100 then '(es, l) ← parse_entries fuel l'; Some (SMap es, l)
          else '(s, l) ← parse_bytes l; Some (SBytes s, l)
      end
  end
with parse_elements (fuel : nat) (l : list Z) : option (list sval * list Z) :=
  match fuel with
  | O => None
  | S fuel =>
      match skip 101 l with
      | Some l => Some ([], l)
      | None =>
          '(v, l) ← parse_value fuel l;
          '(vs, l) ← parse_elements fuel l;
          Some (v :: vs, l)
      end
  end
with parse_entries (fuel : nat) (l : list Z) : option (list (string * sval) * list Z) :=
  match fuel with
  | O => None
  | S fuel =>
      match skip 101 l with
      | Some l => Some ([], l)
      | None =>
          '(k, l) ← parse_bytes l;
          '(v, l) ← parse_value fuel l;
          '(es, l) ← parse_entries fuel l;
          Some ((bytes_string k, v) :: es, l)
      end
  end.

(** A text is one value and nothing more. *)
Definition bdecode (text : list Z) : option sval :=
  match parse_value (length text) text with
  | Some (v, []) => Some v
  | _ => None
  end.

(** ** Numbers *)

Lemma read_digits_app acc l rest :
  all_digits l → read_digits acc (l ++ rest) = read_digits (fold_left (λ a b, a * 10 + (b - 48)) l acc) rest.
Proof.
  intros Hl. revert acc. induction Hl as [|b l Hb Hl IH]; intros acc; [done |].
  cbn [app read_digits fold_left]. by rewrite Hb.
Qed.

Lemma parse_digits n b rest :
  0 ≤ n → is_digit b = false → parse_number (digits n ++ b :: rest) = Some (n, b :: rest).
Proof.
  intros Hn Hb. destruct (digits_spec n Hn) as (Hd & Hv & Hne). unfold parse_number.
  destruct (digits n) as [|d l] eqn:E; [done |]. cbn [app].
  pose proof Hd as [Hd0 _]%Forall_cons. rewrite Hd0, app_comm_cons, read_digits_app by done.
  change (fold_left _ (d :: l) 0) with (number (d :: l)). rewrite Hv.
  cbn [read_digits]. by rewrite Hb.
Qed.

Lemma skip_here b l : skip b (b :: l) = Some l.
Proof. simpl. by rewrite Z.eqb_refl. Qed.
Lemma skip_other b b' l : b' ≠ b → skip b (b' :: l) = None.
Proof. intros. simpl. by rewrite (proj2 (Z.eqb_neq _ _)). Qed.

Lemma parse_encoded_bytes l rest : parse_bytes (encode_bytes l ++ rest) = Some (l, rest).
Proof.
  unfold parse_bytes, encode_bytes. rewrite <- app_assoc. cbn [app].
  rewrite parse_digits by (done || lia). cbn [mbind option_bind]. rewrite skip_here. cbn [mbind option_bind].
  rewrite (proj2 (Z.ltb_ge _ _)) by (rewrite length_app; lia).
  by rewrite Nat2Z.id, take_app_length, drop_app_length.
Qed.

Lemma parse_encoded_int z rest :
  - 2 ^ 63 ≤ z < 2 ^ 64 →
  parse_int (((if z <? 0 then 45 :: digits (- z) else digits z) ++ [101]) ++ rest) = Some (SInt z, rest).
Proof.
  intros Hz. assert (Hend : ∀ l : list Z, (l ++ [101]) ++ rest = l ++ 101 :: rest).
  { intros l. by rewrite <- app_assoc. }
  rewrite Hend. unfold parse_int. destruct (Z.ltb_spec z 0).
  - cbn [app]. rewrite skip_here, parse_digits by (done || lia). cbn [mbind option_bind].
    rewrite skip_here. cbn [mbind option_bind]. rewrite Z.opp_involutive.
    by rewrite (proj2 (Z.leb_le _ _)), (proj2 (Z.ltb_lt _ _)) by lia.
  - destruct (digits_head z) as (d & l & E & Hd); [done |].
    assert (skip 45 (digits z ++ 101 :: rest) = None) as ->.
    { rewrite E. apply skip_other. lia. }
    rewrite parse_digits by done. cbn [mbind option_bind]. rewrite skip_here. cbn [mbind option_bind].
    by rewrite (proj2 (Z.leb_le _ _)), (proj2 (Z.ltb_lt _ _)) by lia.
Qed.

(** ** Values *)

(** How an encoded value starts: not like the end of a list. *)
Lemma encode_head v : ∃ b l, encode_value v = b :: l ∧ b ≠ 101.
Proof.
  destruct v as [l|z|l|l]; cbn [encode_value]; [| by eexists _, _..].
  unfold encode_bytes. destruct (digits_head (Z.of_nat (length l))) as (d & k & -> & ?); [lia |].
  exists d, (k ++ 58 :: l). split; [done | lia].
Qed.

Lemma encode_nonempty v : ¬ (length (encode_value v) ≤ 0)%nat.
Proof. destruct (encode_head v) as (? & ? & -> & _). simpl. lia. Qed.

Lemma encode_bytes_head l : ∃ b k, encode_bytes l = b :: k ∧ 48 ≤ b ≤ 57.
Proof.
  unfold encode_bytes. destruct (digits_head (Z.of_nat (length l))) as (d & k & -> & ?); [lia |].
  by exists d, (k ++ 58 :: l).
Qed.

(** Ranges of integers, inside a value *)
Inductive ints_ok : sval → Prop :=
  | iok_bytes l : ints_ok (SBytes l)
  | iok_int z : - 2 ^ 63 ≤ z < 2 ^ 64 → ints_ok (SInt z)
  | iok_seq l : Forall ints_ok l → ints_ok (SSeq l)
  | iok_map l : Forall (λ p, ints_ok p.2) l → ints_ok (SMap l).

Definition parses (v : sval) : Prop :=
  ∀ fuel rest, (length (encode_value v) ≤ fuel)%nat → parse_value fuel (encode_value v ++ rest) = Some (v, rest).

Lemma parse_encoded_elements vs fuel rest :
  Forall parses vs → (length (concat (encode_value <$> vs)) < fuel)%nat →
  parse_elements fuel (concat (encode_value <$> vs) ++ 101 :: rest) = Some (vs, rest).
Proof.
  intros Hvs. revert fuel. induction Hvs as [|v vs Hv Hvs IH]; intros fuel Hf.
  { destruct fuel; [simpl in Hf; lia |]. simpl. done. }
  destruct fuel as [|fuel]; [lia |]. rewrite fmap_cons in *. cbn [concat] in *. rewrite length_app in Hf.
  destruct (encode_head v) as (b & l & E & Hb). rewrite <- app_assoc. cbn [parse_elements].
  assert (skip 101 (encode_value v ++ concat (encode_value <$> vs) ++ 101 :: rest) = None) as ->.
  { rewrite E. by apply skip_other. }
  assert (Hlen : (0 < length (encode_value v))%nat) by (rewrite E; simpl; lia).
  rewrite Hv by lia. cbn [mbind option_bind]. by rewrite IH by lia.
Qed.

Lemma parse_encoded_entries es fuel rest :
  Forall (λ p, parses p.2) es →
  (length (concat ((λ p, encode_bytes (string_bytes p.1) ++ encode_value p.2) <$> es)) < fuel)%nat →
  parse_entries fuel (concat ((λ p, encode_bytes (string_bytes p.1) ++ encode_value p.2) <$> es) ++ 101 :: rest)
    = Some (es, rest).
Proof.
  intros Hes. revert fuel. induction Hes as [|[k v] es Hv Hes IH]; intros fuel Hf.
  { destruct fuel; [simpl in Hf; lia |]. simpl. done. }
  destruct fuel as [|fuel]; [lia |]. rewrite fmap_cons in *. cbn [concat fst snd] in *.
  rewrite !length_app in Hf. destruct (encode_bytes_head (string_bytes k)) as (b & l & E & Hb).
  assert (Hlen : (0 < length (encode_bytes (string_bytes k)))%nat) by (rewrite E; simpl; lia).
  rewrite <- !app_assoc. cbn [parse_entries].
  assert (∀ l', skip 101 (encode_bytes (string_bytes k) ++ l') = None) as ->.
  { intros l'. rewrite E. apply skip_other. lia. }
  rewrite parse_encoded_bytes. cbn [mbind option_bind]. rewrite Hv by (simpl; lia). cbn [mbind option_bind].
  rewrite IH by lia. cbn [mbind option_bind]. by rewrite bytes_string_bytes.
Qed.

Lemma parse_encoded v : ints_ok v → parses v.
Proof.
  induction v as [l|z|l IH|l IH] using sval_nested_ind; intros Hv [|fuel] rest Hf;
    try by apply encode_nonempty in Hf.
  - cbn [encode_value]. destruct (encode_bytes_head l) as (b & k & E & Hb). cbn [parse_value].
    pose proof (parse_encoded_bytes l rest) as Hp. rewrite E in Hp |- *. cbn [app] in *.
    rewrite !(proj2 (Z.eqb_neq _ _)) by lia. by rewrite Hp.
  - inv Hv. cbn [encode_value app parse_value]. rewrite Z.eqb_refl. by apply parse_encoded_int.
  - inv Hv as [| |? Hl|]. cbn [encode_value app parse_value] in *. cbn [length] in Hf.
    rewrite length_app in Hf. simpl length in Hf.
    rewrite (proj2 (Z.eqb_neq _ _)), Z.eqb_refl, <- app_assoc by done. cbn [app].
    rewrite parse_encoded_elements; [done | | lia].
    rewrite Forall_forall in *. auto.
  - inv Hv as [| | |? Hl]. cbn [encode_value app parse_value] in *. cbn [length] in Hf.
    rewrite length_app in Hf. simpl length in Hf.
    rewrite !(proj2 (Z.eqb_neq _ _)), Z.eqb_refl, <- app_assoc by done. cbn [app].
    rewrite parse_encoded_entries; [done | | lia].
    rewrite Forall_forall in *. auto.
Qed.

Lemma canon_eqv v : v ≡ canon v.
Proof.
  induction v as [l|z|l IH|l IH] using sval_nested_ind; cbn [canon]; [constructor.. | |].
  - constructor. by induction IH; constructor.
  - set (m := (λ p, (p.1, canon p.2)) <$> l).
    assert (Hm : Forall2 entry_eqv l m) by (subst m; by induction IH; constructor).
    destruct (Forall2_perm_r _ _ _ _ Hm (symmetry (merge_sort_Permutation by_key m))) as (l' & Hp & Hl).
    by apply (eqv_map l l').
Qed.

Lemma canon_ints v : sval_wf v → ints_ok (canon v).
Proof.
  induction v as [l|z|l IH|l IH] using sval_nested_ind; intros Hv; inv Hv as [| ? Hz | ? Hl | ? _ Hl];
    cbn [canon]; constructor; try done.
  - apply Forall_fmap. rewrite Forall_forall in *. auto.
  - rewrite merge_sort_Permutation. apply Forall_fmap. rewrite Forall_forall in *. intros p Hp. simpl. auto.
Qed.

(** ** Strings of bytes *)

Lemma bytes_ok_skip b l l' : bytes_ok l → skip b l = Some l' → bytes_ok l'.
Proof.
  intros Hl. destruct Hl as [|b' l Hb Hl]; simpl; [done |]. destruct (b' =? b); [| done]. by intros [= <-].
Qed.

Lemma read_digits_suffix acc l : ∃ k, l = k ++ (read_digits acc l).2.
Proof.
  revert acc. induction l as [|b l IH]; intros acc; [by exists [] |]. simpl.
  destruct (is_digit b); [| by exists []]. destruct (IH (acc * 10 + (b - 48))) as [k E].
  exists (b :: k). simpl. by rewrite <- E.
Qed.

Lemma bytes_ok_number l n l' : bytes_ok l → parse_number l = Some (n, l') → bytes_ok l'.
Proof.
  intros Hl. unfold parse_number. destruct l as [|b l]; [done |]. destruct (is_digit b); [| done].
  intros E%(inj Some). destruct (read_digits_suffix 0 (b :: l)) as [k Hk]. rewrite E in Hk. cbn [snd] in Hk.
  rewrite Hk in Hl. by apply bytes_ok_app in Hl as [_ ?].
Qed.

Lemma bytes_ok_parse_bytes l s l' : bytes_ok l → parse_bytes l = Some (s, l') → bytes_ok s ∧ bytes_ok l'.
Proof.
  intros Hl H. unfold parse_bytes in H. apply bind_Some in H as ([n l1] & E1 & H).
  apply bind_Some in H as (l2 & E2 & H). case_match; [done |]. injection H as <- <-.
  assert (bytes_ok l2) by (eapply bytes_ok_skip; [| done]; by eapply bytes_ok_number).
  auto with bytes.
Qed.

Lemma bytes_ok_int l v l' : bytes_ok l → parse_int l = Some (v, l') → sval_bytes v ∧ bytes_ok l'.
Proof.
  intros Hl H. unfold parse_int in H. apply bind_Some in H as ([n l1] & E1 & H).
  apply bind_Some in H as (l2 & E2 & H). case_match; [| done]. injection H as <- <-.
  split; [constructor |]. eapply bytes_ok_skip; [| done].
  destruct (skip 45 l) as [l0|] eqn:E0; [| by eapply bytes_ok_number].
  apply bind_Some in E1 as ([m l3] & E1 & [= _ ->]).
  eapply bytes_ok_number; [| done]. by eapply bytes_ok_skip.
Qed.

Lemma parse_bytes_typed fuel l :
  bytes_ok l →
  (∀ v l', parse_value fuel l = Some (v, l') → sval_bytes v ∧ bytes_ok l') ∧
  (∀ vs l', parse_elements fuel l = Some (vs, l') → Forall sval_bytes vs ∧ bytes_ok l') ∧
  (∀ es l', parse_entries fuel l = Some (es, l') → Forall (λ p, sval_bytes p.2) es ∧ bytes_ok l').
Proof.
  revert l. induction fuel as [|fuel IH]; intros l Hl; [done |]. split_and!.
  - intros v l' H. cbn [parse_value] in H. destruct l as [|b l0]; [done |].
    pose proof Hl as [_ Hl0]%Forall_cons. destruct (b =? 105); [by eapply bytes_ok_int |].
    destruct (b =? 108); [| destruct (b =? 100)]; apply bind_Some in H as ([x l1] & E & [= <- <-]).
    + destruct (IH l0 Hl0) as (_ & Hs & _). destruct (Hs _ _ E). by split; [constructor |].
    + destruct (IH l0 Hl0) as (_ & _ & Hs). destruct (Hs _ _ E). by split; [constructor |].
    + destruct (bytes_ok_parse_bytes _ _ _ Hl E). by split; [constructor |].
  - intros vs l' H. cbn [parse_elements] in H. destruct (skip 101 l) as [l0|] eqn:E0.
    { injection H as <- <-. split; [constructor |]. by eapply bytes_ok_skip. }
    apply bind_Some in H as ([v l1] & E1 & H). apply bind_Some in H as ([vs' l2] & E2 & [= <- <-]).
    destruct (proj1 (IH l Hl) _ _ E1) as [Hv Hl1].
    destruct (proj1 (proj2 (IH l1 Hl1)) _ _ E2). by split; [constructor |].
  - intros es l' H. cbn [parse_entries] in H. destruct (skip 101 l) as [l0|] eqn:E0.
    { injection H as <- <-. split; [constructor |]. by eapply bytes_ok_skip. }
    apply bind_Some in H as ([k l1] & E1 & H). apply bind_Some in H as ([v l2] & E2 & H).
    apply bind_Some in H as ([es' l3] & E3 & [= <- <-]).
    destruct (bytes_ok_parse_bytes _ _ _ Hl E1) as [_ Hl1]. destruct (proj1 (IH l1 Hl1) _ _ E2) as [Hv Hl2].
    destruct (proj2 (proj2 (IH l2 Hl2)) _ _ E3). by split; [constructor |].
Qed.

(** Bencode is a format the program can use. *)
Lemma bencode_format : ByteFormat bencode bdecode.
Proof.
  split.
  - intros v Hv. exists (canon v). split; [| apply canon_eqv]. unfold bdecode, bencode.
    pose proof (parse_encoded (canon v) (canon_ints v Hv) (length (encode_value (canon v))) [] (le_n _)) as H.
    rewrite app_nil_r in H. by rewrite H.
  - intros text v Ht H. unfold bdecode in H.
    destruct (parse_value _ text) as [[w [|]]|] eqn:E; [| done..]. injection H as <-.
    by apply (parse_bytes_typed _ text Ht) in E as [? _].
Qed.
