(* ===== verification/BucketSerde.v ===== *)
(** * The saved routing table

    The [Serialize] and [Deserialize] implementations of [Bucket] and the file
    operations of [src/router/bucket.rs]. The chain is written deepest bucket
    first, after our identifier, the bucket size and the depth; reading counts
    the indices down and links each bucket under the following one. *)

From S2P Require Import Prelude Text Externals Net U160 NodeInfo Bucket Wire Format.

(** [ser_df]: the elements below [b], then [b]'s own node list. *)
Fixpoint ser_df (p : profile) (b : Bucket) (depth : Z) : run (list sval) :=
  let! below :=
    match next_bucket b with
    | Some next => let! depth := add_u p 16 depth 1 in ser_df p next depth
    | None => Ret [SInt depth]
    end in
  let! ns := ser (nodes b) in
  Ret (below ++ [ns]).

Definition bucket_ser (p : profile) (self : Bucket) : run sval :=
  let! own := ser (own_id self) in
  let! elements := ser_df p self 1 in
  Ret (SSeq ([own; SInt (k_size self)] ++ elements)).

(** The [while let] loop of [visit_seq]; [bucket_index -= 1] underflows when
    there are more node lists than the depth announced. *)
Fixpoint read_buckets (p : profile) (own : U160) (k index : Z) (seq : list sval)
    : run (result (list Bucket) serde_error) :=
  match seq with
  | [] => Ret (Ok [])
  | v :: seq =>
      let!? ns := Ret (de (A:=list NodeInfo) v) in
      let! index := sub_u p 8 index 1 in
      let!? deser := read_buckets p own k index seq in
      Ret (Ok (mkBucket own index k ns None :: deser))
  end.

(** [deser.drain(..).reduce(..).unwrap()] *)
Definition link_buckets (deser : list Bucket) : run Bucket :=
  match deser with
  | [] => Panic
  | child :: parents => Ret (fold_left (λ child parent, set_next parent child) parents child)
  end.

Definition bucket_visit_seq (p : profile) (seq : list sval) : run (result Bucket serde_error) :=
  let!? (own, seq) := Ret (next_element (de (A:=U160)) seq) in
  let! own := unwrap own in
  let!? (k, seq) := Ret (next_element (as_uint 8) seq) in
  let! k := unwrap k in
  let!? (index, seq) := Ret (next_element (as_uint 8) seq) in
  let! index := unwrap index in
  let!? deser := read_buckets p own k index seq in
  let! b := link_buckets deser in
  Ret (Ok b).

Definition bucket_de (p : profile) (v : sval) : run (result Bucket serde_error) :=
  let!? seq := Ret (as_seq v) in bucket_visit_seq p seq.

(** [save_to_file] and [load_from_file], over the byte format of [bt_bencode].
    A file that cannot be opened is [None]; every failure is one error. *)
Section File.
Context (to_vec : sval → list Z) (from_slice : list Z → option sval).

Inductive file_error := CannotOpen | CannotDecode.

Definition save_to_file (p : profile) (b : Bucket) : run (list Z) :=
  let! v := bucket_ser p b in Ret (to_vec v).

Definition load_from_file (p : profile) (file : option (list Z)) : run (result Bucket file_error) :=
  match file with
  | None => Ret (Err CannotOpen)
  | Some bytes =>
      match from_slice bytes with
      | None => Ret (Err CannotDecode)
      | Some v =>
          let! r := bucket_de p v in
          match r with
          | Ok b => Ret (Ok b)
          | Err _ => Ret (Err CannotDecode)
          end
      end
  end.
End File.

(** ** Lemmas *)

(** The addresses that survive the node encoding. *)
Definition table_plain (b : Bucket) : Prop := Forall (λ n, sock_plain (addr n)) (all_nodes b).

(** What a saved table needs: indices that count up and nodes that survive their
    encoding. Where its nodes are stored does not matter, so the tables that
    concurrent additions leave behind have it too. *)
Inductive chain_plain (own : U160) (k : Z) : Z → Bucket → Prop :=
  | plain_last i ns :
      0 ≤ i ≤ MAX_BUCKET_INDEX → Forall node_plain ns → chain_plain own k i (mkBucket own i k ns None)
  | plain_link i ns next :
      0 ≤ i < MAX_BUCKET_INDEX → Forall node_plain ns → chain_plain own k (i + 1) next →
      chain_plain own k i (mkBucket own i k ns (Some next)).

Lemma chain_ok_plain own k i b : chain_ok own k i b → table_plain b → chain_plain own k i b.
Proof.
  unfold table_plain. induction 1 as [i ns Hi Hns | i ns next Hi Hns Hbel Hnext IH]; intros Hp.
  - rewrite all_nodes_last in Hp. constructor; [done |]. apply Forall_and. split; [apply Hns | done].
  - apply Forall_app in Hp as [Hp Hp']. constructor; [done | | by apply IH].
    apply Forall_and. split; [apply Hns | done].
Qed.

(** The buckets of a chain, deepest first, each without its successor. *)
Fixpoint unlinked (b : Bucket) : list Bucket :=
  match next_bucket b with Some next => unlinked next | None => [] end ++
  [mkBucket (own_id b) (bucket_index b) (k_size b) (nodes b) None].

Lemma unlinked_nonempty b : ∃ c cs, unlinked b = c :: cs.
Proof.
  destruct b as [o i k ns [next|]]; simpl; [| eauto].
  destruct (unlinked next) as [|c cs]; simpl; eauto.
Qed.

Lemma link_app c cs o i k ns b :
  link_buckets (c :: cs) = Ret b →
  link_buckets ((c :: cs) ++ [mkBucket o i k ns None]) = Ret (mkBucket o i k ns (Some b)).
Proof.
  simpl. intros [= E]. rewrite fold_left_app. simpl. by rewrite E.
Qed.

Lemma link_unlinked own k i b : chain_plain own k i b → link_buckets (unlinked b) = Ret b.
Proof.
  induction 1 as [i ns Hi Hns | i ns next Hi Hns Hnext IH]; [done |].
  simpl. destruct (unlinked_nonempty next) as (c & cs & E). rewrite E in *. by apply link_app.
Qed.

Lemma read_buckets_app p own k index l1 l2 :
  read_buckets p own k index (l1 ++ l2) =
  let!? d1 := read_buckets p own k index l1 in
  let! index := Ret (match last d1 with Some b => bucket_index b | None => index end) in
  let!? d2 := read_buckets p own k index l2 in
  Ret (Ok (d1 ++ d2)).
Proof.
  revert index. induction l1 as [|v l1 IH]; intros index.
  - simpl. by destruct (read_buckets _ _ _ _ l2) as [[]| |].
  - cbn [app read_buckets]. destruct (de v); cbn [try_bind run_bind]; [| done].
    destruct (sub_u p 8 index 1) as [j| |]; cbn [run_bind]; [| done..]. rewrite IH.
    destruct (read_buckets p own k j l1) as [[d1|]| |]; cbn [try_bind run_bind]; [| done..].
    rewrite last_cons. destruct (last d1); simpl;
      by destruct (read_buckets _ _ _ _ l2) as [[]| |].
Qed.

Fixpoint last_index (b : Bucket) : Z :=
  match next_bucket b with Some next => last_index next | None => bucket_index b end.

Lemma last_index_bound own k i b :
  chain_plain own k i b → i ≤ last_index b ≤ MAX_BUCKET_INDEX ∧ bucket_index b = i.
Proof.
  induction 1 as [i ns Hi Hns | i ns next Hi Hns Hnext IH]; simpl; [lia |].
  destruct IH. lia.
Qed.

Lemma ser_df_spec p own k i b :
  chain_plain own k i b →
  ∃ vs, ser_df p b (i + 1) = Ret (SInt (last_index b + 1) :: vs) ∧ Forall sval_wf vs ∧
    read_buckets p own k (last_index b + 1) vs = Ret (Ok (unlinked b)).
Proof.
  induction 1 as [i ns Hi Hns | i ns next Hi Hns Hnext IH].
  - destruct (de_ser (ok:=Forall node_plain) ns Hns) as (v & Hs & Hw & Hd).
    exists [v]. cbn [ser_df next_bucket run_bind nodes]. rewrite Hs.
    split; [done |]. split; [by apply Forall_singleton |].
    cbn [read_buckets]. rewrite Hd. cbn [try_bind run_bind]. unfold sub_u.
    unfold MAX_BUCKET_INDEX in Hi. cbn [last_index next_bucket bucket_index].
    rewrite checked_in by (unfold in_width; lia). cbn [run_bind try_bind].
    cbn [last_index next_bucket bucket_index unlinked app own_id k_size nodes].
    by rewrite Z.add_simpl_r.
  - destruct IH as (vs & Hser & Hws & Hread).
    destruct (de_ser (ok:=Forall node_plain) ns Hns) as (v & Hs & Hw & Hd).
    exists (vs ++ [v]). cbn [ser_df next_bucket run_bind nodes last_index].
    unfold MAX_BUCKET_INDEX in Hi. unfold add_u. rewrite checked_in by (unfold in_width; lia).
    cbn [run_bind]. rewrite Hser. cbn [run_bind]. rewrite Hs. split; [done |].
    split; [by apply Forall_app_2, Forall_singleton |].
    rewrite read_buckets_app, Hread. cbn [try_bind run_bind].
    assert (Hlast : last (unlinked next) = Some
      (mkBucket (own_id next) (bucket_index next) (k_size next) (nodes next) None)).
    { destruct next. simpl. apply last_snoc. }
    rewrite Hlast. cbn [bucket_index].
    rewrite (proj2 (last_index_bound _ _ _ _ Hnext)).
    cbn [read_buckets]. rewrite Hd. cbn [try_bind run_bind]. unfold sub_u.
    rewrite checked_in by (unfold in_width; lia). cbn [run_bind try_bind].
    cbn [unlinked next_bucket own_id bucket_index k_size nodes]. by rewrite Z.add_simpl_r.
Qed.

Lemma bucket_de_ser p own k b :
  u160_ok own → in_width 8 k → chain_plain own k 0 b →
  ∃ v, bucket_ser p b = Ret v ∧ sval_wf v ∧ bucket_de p v = Ret (Ok b).
Proof.
  intros Hown Hk Hb.
  destruct (ser_df_spec p own k 0 b Hb) as (vs & Hser & Hws & Hread).
  change (0 + 1) with 1 in Hser.
  pose proof (last_index_bound _ _ _ _ Hb) as [Hlast _]. unfold MAX_BUCKET_INDEX in Hlast.
  assert (own_id b = own ∧ k_size b = k) as [Ho Hks] by (by inversion Hb).
  destruct (de_ser own Hown) as (w & Hw & Hww & Hdw).
  exists (SSeq (w :: SInt k :: SInt (last_index b + 1) :: vs)).
  unfold bucket_ser. rewrite Ho, Hw, Hser, Hks. split; [done |].
  split.
  { apply wf_seq. repeat apply Forall_cons_2; [done | | | done]; apply wf_int, (in_width_i64 8);
      try done; unfold in_width; lia. }
  unfold bucket_de, bucket_visit_seq. cbn [as_seq try_bind run_bind next_element].
  rewrite Hdw. cbn [result_bind try_bind run_bind unwrap next_element].
  rewrite (as_uint_ok 8 k Hk). cbn [result_bind try_bind run_bind unwrap next_element].
  rewrite (as_uint_ok 8) by (unfold in_width; lia).
  cbn [result_bind try_bind run_bind unwrap]. rewrite Hread. cbn [try_bind run_bind].
  by rewrite (link_unlinked _ _ _ _ Hb).
Qed.

(** Reading a table sees no order of dictionaries. *)
Lemma read_buckets_proper p own k index l l' :
  Forall2 (≡) l l' → read_buckets p own k index l = read_buckets p own k index l'.
Proof.
  intros Hl. revert index. induction Hl as [|v v' l l' Hv Hl IH]; intros index; [done |].
  cbn [read_buckets]. rewrite (de_proper _ _ Hv). destruct (de v'); [| done]. cbn [try_bind run_bind].
  destruct (sub_u p 8 index 1); cbn [run_bind]; [| done..]. by rewrite IH.
Qed.

Lemma bucket_de_proper p v v' : v ≡ v' → bucket_de p v = bucket_de p v'.
Proof.
  intros [| |l l' Hl|]; [done | done | | done]. unfold bucket_de. cbn [as_seq try_bind run_bind].
  unfold bucket_visit_seq.
  destruct Hl as [|u u' l l' Hu Hl]; [done |]. cbn [next_element]. rewrite (de_proper _ _ Hu).
  destruct (de u'); cbn [result_bind try_bind run_bind unwrap]; [| done].
  destruct Hl as [|k k' l l' Hk Hl]; [done |]. cbn [next_element]. rewrite Hk.
  destruct (as_uint 8 k'); cbn [result_bind try_bind run_bind unwrap]; [| done].
  destruct Hl as [|i i' l l' Hi Hl]; [done |]. cbn [next_element]. rewrite Hi.
  destruct (as_uint 8 i'); cbn [result_bind try_bind run_bind unwrap]; [| done].
  by rewrite (read_buckets_proper p _ _ _ l l' Hl).
Qed.

(** What was saved is loaded. *)
Lemma load_saved_chain `{ByteFormat to_vec from_slice} p own k b :
  u160_ok own → in_width 8 k → chain_plain own k 0 b →
  ∃ file, save_to_file to_vec p b = Ret file ∧ load_from_file from_slice p (Some file) = Ret (Ok b).
Proof.
  intros Hown Hk Hb. destruct (bucket_de_ser p own k b Hown Hk Hb) as (v & Hs & Hw & Hd).
  destruct (reads_back v Hw) as (v' & Hr & Heq).
  exists (to_vec v). unfold save_to_file, load_from_file. rewrite Hs. split; [done |].
  by rewrite Hr, <- (bucket_de_proper p v v' Heq), Hd.
Qed.

Lemma load_saved `{ByteFormat to_vec from_slice} p own k b :
  table_ok own k b → table_plain b →
  ∃ file, save_to_file to_vec p b = Ret file ∧ load_from_file from_slice p (Some file) = Ret (Ok b).
Proof. intros (Hown & Hk & Hb) Hp. by apply (load_saved_chain p own k), chain_ok_plain. Qed.

(** ** Properties *)

(** C25: a well-formed table whose addresses carry no flow label or scope id is
    read back from its file exactly as it was saved, buckets, indices and node
    order included, if the byte format reads back the values it wrote. *)
Theorem save_load_roundtrip (to_vec : sval → list Z) (from_slice : list Z → option sval) p own k b :
  ByteFormat to_vec from_slice →
  table_ok own k b → table_plain b →
  ∃ file, save_to_file to_vec p b = Ret file ∧ load_from_file from_slice p (Some file) = Ret (Ok b).
Proof.
  intros Hfmt Hb Hp. by apply (load_saved p own k).
Qed.

Lemma save_load_roundtrip_witness :
  ∃ file, save_to_file bencode Debug (root min 8) = Ret file ∧
    load_from_file bdecode Debug (Some file) = Ret (Ok (root min 8)).
Proof.
  apply (save_load_roundtrip bencode bdecode Debug min 8 (root min 8)).
  - exact bencode_format.
  - by apply root_ok.
  - constructor.
Defined.

Lemma u160_de_bytes u : u160_ok u → de (A:=U160) (SBytes (to_be_bytes u)) = Ok u.
Proof. intros Hu. by destruct (de_ser u Hu) as (v & [= <-] & _ & Hd). Qed.

Lemma read_buckets_depth own k d lists :
  Forall (λ v, ∃ ns, de (A:=list NodeInfo) v = Ok ns) lists → in_width 8 d →
  if decide (d < Z.of_nat (length lists))
  then read_buckets Debug own k d lists = Panic
  else ∃ bs, read_buckets Debug own k d lists = Ret (Ok bs) ∧
    (lists ≠ [] → ∃ b, last bs = Some b ∧ bucket_index b = d - Z.of_nat (length lists)) ∧
    (lists = [] → bs = []).
Proof.
  intros Hl. revert d. induction Hl as [|v l [ns Hv] Hl IH]; intros d Hd.
  { rewrite decide_False by (destruct Hd; simpl; lia). by exists []. }
  cbn [read_buckets length]. rewrite Hv. cbn [try_bind run_bind]. unfold sub_u.
  destruct (decide (d = 0)) as [->|Hd0]; [by rewrite decide_True by lia |].
  assert (Hd' : in_width 8 (d - 1)) by (unfold in_width in *; lia).
  rewrite checked_in by done. cbn [run_bind]. specialize (IH (d - 1) Hd').
  destruct (decide (d < Z.of_nat (S (length l)))).
  - rewrite decide_True in IH by lia. by rewrite IH.
  - rewrite decide_False in IH by lia. destruct IH as (bs & -> & Hlast & Hnil).
    cbn [try_bind run_bind]. eexists. split; [done |]. split; [| done]. intros _.
    destruct l as [|v' l].
    + rewrite Hnil by done. eexists. split; [done |]. simpl. lia.
    + destruct Hlast as (b & Hb & Hi); [done |]. exists b. rewrite last_cons, Hb.
      split; [done |]. rewrite Hi. simpl length. lia.
Qed.

Lemma link_buckets_last bs b :
  last bs = Some b → ∃ b', link_buckets bs = Ret b' ∧ bucket_index b' = bucket_index b.
Proof.
  destruct bs as [|c cs]; [done |]. intros Hlast. simpl. eexists. split; [done |].
  revert c Hlast. induction cs as [|c' cs IH]; intros c Hlast; simpl in *.
  - by injection Hlast as ->.
  - destruct cs as [|c'' cs]; [by injection Hlast as -> |]. by apply IH.
Qed.

(** A file that opens and decodes to a list is not always an error or a table:
    the loader panics when the list ends before the first node list, and, under
    overflow checks, when there are more node lists than the announced depth;
    when there are fewer, it accepts a table whose root does not start at
    index 0. *)
Theorem load_malformed own k depth lists :
  u160_ok own → in_width 8 k → in_width 8 depth →
  Forall (λ v, ∃ ns, de (A:=list NodeInfo) v = Ok ns) lists →
  let header := [SBytes (to_be_bytes own); SInt k; SInt depth] in
  bucket_de Debug (SSeq (take 0 header)) = Panic ∧
  bucket_de Debug (SSeq (take 1 header)) = Panic ∧
  bucket_de Debug (SSeq (take 2 header)) = Panic ∧
  (if decide (lists = []) then bucket_de Debug (SSeq (header ++ lists)) = Panic
   else if decide (depth < Z.of_nat (length lists))
   then bucket_de Debug (SSeq (header ++ lists)) = Panic
   else ∃ b, bucket_de Debug (SSeq (header ++ lists)) = Ret (Ok b) ∧
        bucket_index b = depth - Z.of_nat (length lists)).
Proof.
  intros Hown Hk Hd Hlists header. split_and!; [done | | |].
  - unfold bucket_de, bucket_visit_seq. subst header. cbn [take as_seq try_bind run_bind next_element].
    by rewrite (u160_de_bytes own Hown).
  - unfold bucket_de, bucket_visit_seq. subst header. cbn [take as_seq try_bind run_bind next_element].
    rewrite (u160_de_bytes own Hown).
    cbn [result_bind try_bind run_bind unwrap next_element]. by rewrite (as_uint_ok 8 k Hk).
  - assert (Hread : bucket_de Debug (SSeq (header ++ lists)) =
      let!? bs := read_buckets Debug own k depth lists in let! b := link_buckets bs in Ret (Ok b)).
    { unfold bucket_de, bucket_visit_seq. subst header.
      cbn [app as_seq try_bind run_bind next_element]. rewrite (u160_de_bytes own Hown).
      cbn [result_bind try_bind run_bind unwrap next_element]. rewrite (as_uint_ok 8 k Hk).
      cbn [result_bind try_bind run_bind unwrap next_element]. by rewrite (as_uint_ok 8 depth Hd). }
    rewrite !Hread. clear Hread. pose proof (read_buckets_depth own k depth lists Hlists Hd) as Hr.
    destruct (decide (depth < Z.of_nat (length lists))); [by rewrite Hr; case_decide |].
    destruct Hr as (bs & -> & Hlast & Hnil). cbn [try_bind run_bind]. case_decide.
    + by rewrite Hnil.
    + destruct Hlast as (b & Hb & Hi); [done |].
      destruct (link_buckets_last bs b Hb) as (b' & -> & Hi').
      exists b'. split; [done | congruence].
Qed.

Lemma load_malformed_witness :
  bucket_de Debug (SSeq []) = Panic ∧
  ∃ b, bucket_de Debug (SSeq [SBytes (to_be_bytes min); SInt 8; SInt 3; SSeq []]) = Ret (Ok b) ∧
    bucket_index b = 2.
Proof.
  destruct (load_malformed min 8 3 [SSeq []]) as (H0 & _ & _ & H3); [by split.. | |].
  - constructor; [by exists [] | constructor].
  - split; [exact H0 | exact H3].
Defined.
