(* ===== verification/Router.v ===== *)
(** * The router

    [src/router.rs]: the routing table behind a bounded list of banned
    identifiers. Banning removes the identifier from the table and keeps it out
    while it is remembered. *)

From S2P Require Import Prelude Text Externals Net U160 NodeInfo Bucket Wire Format BucketSerde.

Definition K_SIZE : Z := 8.
Definition BAN_COUNT : nat := 100.

(** [struct Router] *)
Record Router : Type := mkRouter { buckets : Bucket; banned_ids : list U160 }.

(** [Router::new]: any failure to load falls back on an empty table for the
    node's identifier; a loaded table keeps the identifier it was saved with. *)
Definition router_new (from_slice : list Z → option sval) (p : profile)
    (file : option (list Z)) (node : NodeInfo) : run Router :=
  let! loaded := load_from_file from_slice p file in
  let buckets := match loaded with Ok b => b | Err _ => root (id node) K_SIZE end in
  Ret (mkRouter buckets []).

Definition router_own_id (self : Router) : U160 := bucket_id (buckets self).

(** [VecDeque::contains] *)
Definition contains (l : list U160) (x : U160) : bool := existsb (u160_eqb x) l.

Definition router_add (p : profile) (self : Router) (node : NodeInfo) : run Router :=
  if negb (contains (banned_ids self) (id node)) then
    let! b := Bucket.add p FUEL (buckets self) node in
    Ret (mkRouter b (banned_ids self))
  else Ret self.

Definition router_lookup (p : profile) (self : Router) (x : U160) : run (list NodeInfo) :=
  Bucket.lookup p (buckets self) x.

Definition push_banned (bnd : list U160) (x : U160) : list U160 :=
  let bnd := bnd ++ [x] in
  if decide (length bnd = BAN_COUNT) then tail bnd else bnd.

Definition ban_id (self : Router) (x : U160) : run Router :=
  let bnd := push_banned (banned_ids self) x in
  let! (b, _) := Bucket.remove (buckets self) x in
  Ret (mkRouter b bnd).

Definition router_stats (self : Router) : nat * nat := stats (buckets self).

(** ** Runs of the router *)

(** The operations that change the router. *)
Inductive router_op : Type :=
  | OpAdd (node : NodeInfo)
  | OpBan (x : U160).

Definition router_step (p : profile) (r : Router) (op : router_op) : run Router :=
  match op with
  | OpAdd node => router_add p r node
  | OpBan x => ban_id r x
  end.

Fixpoint router_run (p : profile) (r : Router) (ops : list router_op) : run Router :=
  match ops with
  | [] => Ret r
  | op :: ops => let! r := router_step p r op in router_run p r ops
  end.

Definition op_ok (op : router_op) : Prop :=
  match op with OpAdd node => node_ok node | OpBan _ => True end.

(** The abstract state: the table and the whole history of bans; the router
    remembers its last 99 entries. *)
Definition remembered (history : list U160) : list U160 :=
  drop (length history - (BAN_COUNT - 1)) history.

Record router_ok (own : U160) (k : Z) (history : list U160) (r : Router) : Prop := {
  router_table : table_ok own k (buckets r);
  router_banned : banned_ids r = remembered history;
  router_absent : ∀ x, x ∈ banned_ids r → x ∉ ids (all_nodes (buckets r));
}.

(** ** Lemmas *)

Lemma contains_elem l x : contains l x = true ↔ x ∈ l.
Proof.
  unfold contains. rewrite existsb_exists. split.
  - intros (y & Hy & <-%u160_eqb_eq). by apply list_elem_of_In.
  - intros Hx. exists x. split; [by apply list_elem_of_In | by apply u160_eqb_eq].
Qed.

Lemma length_remembered h : (length (remembered h) ≤ BAN_COUNT - 1)%nat.
Proof. unfold remembered. rewrite length_drop. lia. Qed.

Lemma push_remembered h x : push_banned (remembered h) x = remembered (h ++ [x]).
Proof.
  unfold push_banned, remembered, BAN_COUNT. rewrite !length_app, length_drop. simpl length.
  destruct (decide (length h < 99)%nat).
  - rewrite decide_False by lia.
    replace (length h - (100 - 1))%nat with 0%nat by lia.
    by replace (length h + 1 - (100 - 1))%nat with 0%nat by lia.
  - rewrite decide_True by lia.
    replace (length h + 1 - (100 - 1))%nat with (length h - (100 - 1) + 1)%nat by lia.
    rewrite <- drop_drop, drop_app_le by lia. by destruct (drop _ h ++ [x]).
Qed.

Lemma push_banned_incl l x y : y ∈ push_banned l x → y ∈ l ∨ y = x.
Proof.
  unfold push_banned. case_decide; [| set_solver].
  intros Hy. assert (Hy' : y ∈ l ++ [x]).
  { destruct (l ++ [x]); [by apply not_elem_of_nil in Hy | by right]. }
  set_solver.
Qed.

Lemma router_add_ok p own k h r node :
  router_ok own k h r → node_ok node →
  ∃ r', router_add p r node = Ret r' ∧ router_ok own k h r'.
Proof.
  intros [Ht Hb Ha] Hn. unfold router_add.
  destruct (contains (banned_ids r) (id node)) eqn:Hc; simpl; [by exists r |].
  destruct (add_table p own k (buckets r) node Ht Hn) as (b & -> & Ht' & Hpost & _).
  eexists. split; [done |]. split; [done | done |]. simpl. intros x Hx.
  assert (Hne : x ≠ id node).
  { intros ->. apply contains_elem in Hx. congruence. }
  specialize (Ha x Hx). unfold add_post in Hpost.
  destruct Hpost as [[_ Hp] | [[_ Hp] | [_ [Hp _]]]]; rewrite (ids_perm _ _ Hp); [done | | done].
  change (x ∉ id node :: ids (all_nodes (buckets r))). set_solver.
Qed.

Lemma router_lookup_ok p own k h r x :
  router_ok own k h r →
  ∃ ns, router_lookup p r x = Ret ns ∧ (∀ n, n ∈ ns → n ∈ all_nodes (buckets r)).
Proof.
  intros [(_ & Hk & Hb) _ _]. destruct (lookup_spec p own k 0 (buckets r) x Hk Hb) as [Hl _].
  eexists. split; [exact Hl |]. intros n. apply lookup_list_incl.
Qed.

Lemma router_add_incl p own k h r node r' n :
  router_ok own k h r → node_ok node → router_add p r node = Ret r' →
  n ∈ all_nodes (buckets r') → n ∈ all_nodes (buckets r) ∨ n = node.
Proof.
  intros Hr Hn. unfold router_add. destruct (negb _); [| intros [= <-]; auto].
  destruct (add_table p own k (buckets r) node (router_table _ _ _ _ Hr) Hn) as (b & -> & _ & Hpost & _).
  intros [= <-]. cbn [buckets]. destruct Hpost as [[_ ->]|[[_ ->]|[_ [-> _]]]]; set_solver.
Qed.

Lemma ban_id_ok own k h r x :
  router_ok own k h r →
  ∃ r', ban_id r x = Ret r' ∧ router_ok own k (h ++ [x]) r'.
Proof.
  intros [Ht Hb Ha]. unfold ban_id.
  destruct (remove_table own k (buckets r) x Ht) as (b & removed & -> & Ht' & Hpost & Hx).
  eexists. split; [done |]. split; [done | |].
  - simpl. by rewrite Hb, push_remembered.
  - simpl. intros y [Hy| ->]%push_banned_incl; [| done]. specialize (Ha y Hy).
    destruct removed; simpl in Hpost; [| by destruct Hpost as [_ ->]].
    destruct Hpost as (n & _ & Hp). rewrite (ids_perm _ _ Hp) in Ha.
    change (y ∉ id n :: ids (all_nodes b)) in Ha. set_solver.
Qed.

Definition bans (ops : list router_op) : list U160 :=
  omap (λ op, match op with OpBan x => Some x | OpAdd _ => None end) ops.

Lemma router_run_ok p own k h r ops :
  router_ok own k h r → Forall op_ok ops →
  ∃ r', router_run p r ops = Ret r' ∧ router_ok own k (h ++ bans ops) r'.
Proof.
  intros Hr Hops. revert h r Hr. induction Hops as [|op ops Hop Hops IH]; intros h r Hr.
  - exists r. by rewrite app_nil_r.
  - simpl. destruct op as [node|x]; simpl.
    + destruct (router_add_ok p own k h r node Hr Hop) as (r1 & -> & Hr1). by apply IH.
    + destruct (ban_id_ok own k h r x Hr) as (r1 & -> & Hr1). simpl.
      replace (h ++ x :: bans ops) with ((h ++ [x]) ++ bans ops) by by rewrite <- app_assoc.
      by apply IH.
Qed.

(** ** Properties *)



(** A router started on a file that [save_to_file] wrote has the saved table,
    and with it the saved identifier instead of the one of the node it is
    created for; without a readable file it starts empty under the node's
    identifier. *)
Theorem router_new_loads (to_vec : sval → list Z) (from_slice : list Z → option sval) p own k b node :
  ByteFormat to_vec from_slice →
  table_ok own k b → table_plain b → node_ok node →
  (∃ file r, save_to_file to_vec p b = Ret file ∧
     router_new from_slice p (Some file) node = Ret r ∧ buckets r = b ∧ router_own_id r = own) ∧
  (∃ r, router_new from_slice p None node = Ret r ∧ table_ok (id node) 8 (buckets r) ∧
     router_own_id r = id node ∧ all_nodes (buckets r) = []).
Proof.
  intros Hfmt Hb Hp Hn. split.
  - destruct (load_saved p own k b Hb Hp) as (file & Hs & Hl).
    exists file, (mkRouter b []). unfold router_new. rewrite Hs, Hl. split_and!; [done.. |].
    destruct Hb as (_ & _ & Hb). by inversion Hb.
  - eexists. split; [done |]. split_and!; [| done..]. by apply root_ok; [apply Hn |].
Qed.

Lemma router_new_loads_witness :
  ∃ r, router_new bdecode Debug None (ex_node 1 2) = Ret r ∧ table_ok (new 1 2) 8 (buckets r) ∧
    router_own_id r = new 1 2 ∧ all_nodes (buckets r) = [].
Proof.
  apply (router_new_loads bencode bdecode Debug min 8 (root min 8) (ex_node 1 2)).
  - exact bencode_format.
  - by apply root_ok.
  - constructor.
  - by apply ex_node_ok.
Defined.
