(* ===== verification/Token.v ===== *)
(** * Announce tokens

    [src/node/token.rs]: a token is the checksum of address, time and eight
    random bytes, those random bytes, and the time encrypted under the node's
    key with the first two as nonce. *)

From S2P Require Import Prelude Externals Net.

Definition TOKEN_VALID_SECONDS : Z := 120.

(** [struct TokenGenerator] *)
Record TokenGenerator : Type := mkTokenGenerator { key : list Z }.

Section Token.
(** The checksum of the [crc32c] crate, and the first [n] bytes of the ChaCha20
    stream for a key and a nonce; [apply_keystream] xors the data with it. *)
Context (crc32c : list Z → Z) (keystream : list Z → list Z → nat → list Z).

Definition apply_keystream (key nonce data : list Z) : list Z :=
  zip_with Z.lxor data (keystream key nonce (length data)).

(** [generate]: the random bytes and the clock are arguments. *)
Definition generate (self : TokenGenerator) (ip : IpAddr) (rand_bytes : list Z) (now : Z) : list Z :=
  let timestamp := to_be 8 now in
  let ipbytes := ip_octets ip ++ timestamp ++ rand_bytes in
  let iphash := to_be 4 (crc32c ipbytes) in
  let nonce := iphash ++ rand_bytes in
  let timestamp := apply_keystream (key self) nonce timestamp in
  nonce ++ timestamp.

(** [validate]: the sum in the last comparison is a checked [u64] addition. *)
Definition validate_token (p : profile) (self : TokenGenerator) (token : list Z) (ip : IpAddr)
    (now : Z) : run bool :=
  if negb (Nat.eqb (length token) 20) then Ret false
  else
    let nonce := take 12 token in
    let timestamp := apply_keystream (key self) nonce (drop 12 token) in
    let token_timestamp := from_be timestamp in
    let rand_bytes := drop 4 nonce in
    let ipbytes := ip_octets ip ++ timestamp ++ rand_bytes in
    let iphash_test := take 4 nonce in
    let iphash := to_be 4 (crc32c ipbytes) in
    if bool_decide (iphash = iphash_test) && (token_timestamp <=? now) then
      let! expiry := add_u p 64 token_timestamp TOKEN_VALID_SECONDS in
      Ret (now <? expiry)
    else Ret false.
End Token.

(** ** Lemmas *)

#[local] Arguments to_be : simpl never.

Section Token_facts.
Context (crc32c : list Z → Z) (keystream : list Z → list Z → nat → list Z).
Context (keystream_length : ∀ key nonce n, length (keystream key nonce n) = n).
Context (keystream_ok : ∀ key nonce n, bytes_ok (keystream key nonce n)).
#[local] Abbreviation generate := (generate crc32c keystream).
#[local] Abbreviation validate_token := (validate_token crc32c keystream).
#[local] Abbreviation apply_keystream := (apply_keystream keystream).

Lemma length_apply key nonce data : length (apply_keystream key nonce data) = length data.
Proof. unfold Token.apply_keystream. rewrite length_zip_with, keystream_length. lia. Qed.

Lemma zip_lxor_twice (data ks : list Z) :
  length ks = length data → zip_with Z.lxor (zip_with Z.lxor data ks) ks = data.
Proof.
  revert ks. induction data as [|d data IH]; intros [|k ks] Hlen; simplify_eq/=; [done |].
  rewrite IH by done. by rewrite Z.lxor_assoc, Z.lxor_nilpotent, Z.lxor_0_r.
Qed.

Lemma apply_twice key nonce data :
  apply_keystream key nonce (apply_keystream key nonce data) = data.
Proof.
  unfold Token.apply_keystream at 1. rewrite length_apply. unfold Token.apply_keystream.
  by rewrite zip_lxor_twice.
Qed.

Lemma apply_ok key nonce data : bytes_ok data → bytes_ok (apply_keystream key nonce data).
Proof.
  unfold Token.apply_keystream. intros Hd. specialize (keystream_ok key nonce (length data)).
  revert Hd keystream_ok. generalize (keystream key nonce (length data)) as ks.
  intros ks Hd. revert ks. unfold bytes_ok.
  induction Hd as [|d data Hd Hdata IH]; intros ks Hks; [constructor |].
  destruct Hks; constructor; [by apply in_width_lxor | by apply IH].
Qed.

Lemma length_generate g ip rand now : length rand = 8%nat → length (generate g ip rand now) = 20%nat.
Proof.
  intros Hr. unfold Token.generate. rewrite !length_app, length_apply, !length_to_be, Hr. done.
Qed.

(** Taking a token apart gives what [generate] put in. *)
Lemma validate_generate p g ip ip' rand t now :
  length rand = 8%nat → in_width 64 t → in_width 64 (now + 120) → 0 ≤ now →
  validate_token p g (generate g ip rand t) ip' now =
  Ret (bool_decide (to_be 4 (crc32c (ip_octets ip' ++ to_be 8 t ++ rand)) =
                    to_be 4 (crc32c (ip_octets ip ++ to_be 8 t ++ rand)))
       && (t <=? now) && (now <? t + 120)).
Proof.
  intros Hr Ht Hnow Hnow0. unfold Token.validate_token. rewrite length_generate by done. simpl negb.
  cbv iota. unfold Token.generate.
  set (h := to_be 4 (crc32c (ip_octets ip ++ to_be 8 t ++ rand))).
  assert (Hh : length h = 4%nat) by apply length_to_be.
  rewrite take_app_length', drop_app_length' by (rewrite length_app, Hh, Hr; done).
  rewrite take_app_length', drop_app_length' by done.
  rewrite apply_twice, from_be_to_be by done.
  case_bool_decide; simpl; [| done]. destruct (Z.leb_spec t now); simpl; [| done].
  unfold add_u, TOKEN_VALID_SECONDS. rewrite checked_in; [done |]. unfold in_width in *. lia.
Qed.

(** A token that passes is one [generate] makes. *)
Lemma validate_true p g token ip now :
  bytes_ok token → 0 ≤ now → in_width 64 (now + 120) →
  validate_token p g token ip now = Ret true →
  ∃ rand t, length rand = 8%nat ∧ bytes_ok rand ∧ in_width 64 t ∧ t ≤ now < t + 120 ∧
    token = generate g ip rand t.
Proof.
  intros Htok Hnow0 Hnow. unfold Token.validate_token.
  destruct (Nat.eqb_spec (length token) 20) as [Hlen|]; simpl; [| done].
  set (nonce := take 12 token). set (ts := apply_keystream (key g) nonce (drop 12 token)).
  assert (Hts : length ts = 8%nat) by (unfold ts; rewrite length_apply, length_drop; lia).
  assert (Hok : bytes_ok ts) by (by apply apply_ok, bytes_ok_drop).
  assert (Ht : in_width 64 (from_be ts)).
  { change 64 with (8 * Z.of_nat 8). rewrite <- Hts. by apply from_be_in_width. }
  case_bool_decide as Hhash; simpl; [| done].
  destruct (Z.leb_spec (from_be ts) now); simpl; [| done].
  unfold add_u, TOKEN_VALID_SECONDS. rewrite checked_in by (unfold in_width in *; lia). simpl.
  intros [= Hlt%Z.ltb_lt]. exists (drop 4 nonce), (from_be ts).
  split_and!; [| | done | lia | lia |].
  - unfold nonce. rewrite length_drop, length_take. lia.
  - by apply bytes_ok_drop, bytes_ok_take.
  - unfold Token.generate. rewrite to_be_from_be by done. rewrite Hhash, take_drop.
    unfold ts. rewrite apply_twice. unfold nonce. by rewrite take_drop.
Qed.
Lemma validate_total p g token ip now :
  bytes_ok token → 0 ≤ now → in_width 64 (now + 120) →
  ∃ r, validate_token p g token ip now = Ret r.
Proof.
  intros Htok Hnow0 Hnow. unfold Token.validate_token. case_match; [eauto |].
  case_match eqn:Hc; [| eauto].
  apply andb_true_iff in Hc as [_ Hle%Z.leb_le]. unfold add_u, TOKEN_VALID_SECONDS.
  rewrite checked_in; [eauto |]. unfold in_width in *. split; [| lia].
  apply Z.add_nonneg_nonneg; [| done].
  apply (from_be_in_width _ (apply_ok _ _ _ (bytes_ok_drop 12 token Htok))).
Qed.
End Token_facts.

(** CRC-32C tells IPv4 addresses apart. *)
Lemma validate_other (keystream : list Z → list Z → nat → list Z) p g ip ip' rand t now :
  (∀ key nonce n, length (keystream key nonce n) = n) →
  ip_ok (V4 ip) → ip_ok (V4 ip') → ip ≠ ip' →
  length rand = 8%nat → bytes_ok rand → in_width 64 t → 0 ≤ now → in_width 64 (now + 120) →
  validate_token crc32c_table_free keystream p g
    (generate crc32c_table_free keystream g (V4 ip) rand t) (V4 ip') now = Ret false.
Proof.
  intros Hlen [Hip Hl] [Hip' Hl'] Hne Hr Hrok Ht Hnow0 Hnow. rewrite validate_generate by done.
  rewrite bool_decide_eq_false_2; [done |]. intros E. apply (f_equal from_be) in E.
  rewrite !from_be_to_be in E by apply crc32c_table_free_u32. apply Hne. symmetry.
  apply (crc32c_prefix_inj _ _ (to_be 8 t ++ rand)); auto with bytes.
  apply Forall_app_2; [apply to_be_ok | done].
Qed.

(** ** Properties *)

(** C28: a token is accepted for an address exactly when it is one the generator
    would have issued to that address with the same key at a time at most 119
    seconds ago and not in the future; the check never overflows before the
    last two minutes a [u64] clock can show. *)
Theorem token_valid_iff (crc32c : list Z → Z) (keystream : list Z → list Z → nat → list Z)
    p g token ip now :
  (∀ key nonce n, length (keystream key nonce n) = n) →
  (∀ key nonce n, bytes_ok (keystream key nonce n)) →
  bytes_ok token → 0 ≤ now → in_width 64 (now + 120) →
  (∃ r, validate_token crc32c keystream p g token ip now = Ret r) ∧
  (validate_token crc32c keystream p g token ip now = Ret true ↔
   ∃ rand t, length rand = 8%nat ∧ bytes_ok rand ∧ in_width 64 t ∧ t ≤ now < t + 120 ∧
     token = generate crc32c keystream g ip rand t).
Proof.
  intros Hlen Hok Htok Hnow0 Hnow. split.
  - by apply validate_total.
  - split; [by apply validate_true |]. intros (rand & t & Hr & Hrok & Ht & Hnow' & ->).
    rewrite validate_generate by done. rewrite bool_decide_eq_true_2 by done.
    by rewrite (proj2 (Z.leb_le _ _)), (proj2 (Z.ltb_lt _ _)) by lia.
Qed.

Definition constant_stream (key nonce : list Z) (n : nat) : list Z := replicate n 0x5a.

Lemma token_valid_iff_witness :
  validate_token crc32c_table_free constant_stream Debug (mkTokenGenerator [1])
    (generate crc32c_table_free constant_stream (mkTokenGenerator [1]) (V4 [127; 0; 0; 1])
       [1; 2; 3; 4; 5; 6; 7; 8] 1000) (V4 [127; 0; 0; 1]) 1119 = Ret true.
Proof.
  apply (token_valid_iff crc32c_table_free constant_stream Debug (mkTokenGenerator [1])
    (generate crc32c_table_free constant_stream (mkTokenGenerator [1]) (V4 [127; 0; 0; 1])
       [1; 2; 3; 4; 5; 6; 7; 8] 1000) (V4 [127; 0; 0; 1]) 1119).
  - intros. apply length_replicate.
  - intros. by apply Forall_replicate.
  - cbv -[bytes_ok]. by repeat (constructor; [by split |]).
  - done.
  - by split.
  - exists [1; 2; 3; 4; 5; 6; 7; 8], 1000. split_and!; try done.
    by repeat (constructor; [by split |]).
Defined.

(** C29: with CRC-32C as the checksum a token issued to one IPv4 address is refused
    for every other IPv4 address, whatever the key, the random bytes and the
    times of issue and of use: checksums of texts that differ in their first four
    bytes only differ. *)
Theorem token_bound (keystream : list Z → list Z → nat → list Z) p g ip ip' rand t now :
  (∀ key nonce n, length (keystream key nonce n) = n) →
  ip_ok (V4 ip) → ip_ok (V4 ip') → ip ≠ ip' →
  length rand = 8%nat → bytes_ok rand → in_width 64 t → 0 ≤ now → in_width 64 (now + 120) →
  validate_token crc32c_table_free keystream p g
    (generate crc32c_table_free keystream g (V4 ip) rand t) (V4 ip') now = Ret false.
Proof. apply validate_other. Qed.

Lemma token_bound_witness :
  validate_token crc32c_table_free constant_stream Debug (mkTokenGenerator [1])
    (generate crc32c_table_free constant_stream (mkTokenGenerator [1]) (V4 [127; 0; 0; 1])
       [1; 2; 3; 4; 5; 6; 7; 8] 1000) (V4 [127; 0; 0; 2]) 1000 = Ret false.
Proof.
  apply (token_bound constant_stream Debug (mkTokenGenerator [1]) [127; 0; 0; 1] [127; 0; 0; 2]
    [1; 2; 3; 4; 5; 6; 7; 8] 1000 1000); try by repeat split; repeat constructor.
  intros. apply length_replicate.
Defined.

(** A token issued to one address is refused for another unless the two
    checksums collide, and refused from its own address after 120 seconds. *)
Theorem token_refused (crc32c : list Z → Z) (keystream : list Z → list Z → nat → list Z)
    p g ip ip' rand t now :
  (∀ key nonce n, length (keystream key nonce n) = n) →
  (∀ l, in_width 32 (crc32c l)) →
  length rand = 8%nat → in_width 64 t → 0 ≤ now → in_width 64 (now + 120) →
  let token := generate crc32c keystream g ip rand t in
  (crc32c (ip_octets ip' ++ to_be 8 t ++ rand) ≠ crc32c (ip_octets ip ++ to_be 8 t ++ rand) →
   validate_token crc32c keystream p g token ip' now = Ret false) ∧
  (now < t ∨ t + 120 ≤ now → validate_token crc32c keystream p g token ip' now = Ret false).
Proof.
  intros Hlen Hcrc Hr Ht Hnow0 Hnow token. unfold token. rewrite validate_generate by done.
  split.
  - intros Hne. rewrite bool_decide_eq_false_2; [done |]. intros E. apply Hne.
    apply (f_equal from_be) in E. by rewrite !from_be_to_be in E by apply Hcrc.
  - intros Hout. f_equal. destruct (Z.leb_spec t now), (Z.ltb_spec now (t + 120)); try lia.
    all: by rewrite ?andb_false_r.
Qed.

Lemma token_refused_witness :
  validate_token crc32c_table_free constant_stream Debug (mkTokenGenerator [1])
    (generate crc32c_table_free constant_stream (mkTokenGenerator [1]) (V4 [127; 0; 0; 1])
       [1; 2; 3; 4; 5; 6; 7; 8] 1000) (V4 [127; 0; 0; 2]) 1000 = Ret false.
Proof.
  refine (proj1 (token_refused crc32c_table_free constant_stream Debug (mkTokenGenerator [1])
    (V4 [127; 0; 0; 1]) (V4 [127; 0; 0; 2]) [1; 2; 3; 4; 5; 6; 7; 8] 1000 1000 _ _ _ _ _ _) _);
    try by split.
  - intros. apply length_replicate.
  - exact crc32c_table_free_u32.
  - by vm_compute.
  - by vm_compute.
Defined.
