(* ===== verification/Kmsg.v ===== *)
(** * The KRPC message dictionary

    [src/messenger/message/kmsg.rs] and [kresponse.rs]: the records of a KRPC
    message and the dictionaries their derived serde implementations read and
    write, as the field attributes say: the key of each field, the optional
    fields left out when absent, the flattened records. *)

From S2P Require Import Prelude Text Externals Net U160 NodeInfo Wire Format.

Definition Q_ANNOUNCE_PEER : string := "announce_peer".
Definition Q_PING : string := "ping".
Definition Q_FIND_NODE : string := "find_node".
Definition Q_GET_PEERS : string := "get_peers".
Definition Q_PUT : string := "put".
Definition Q_GET : string := "get".
Definition Q_SAMPLE_INFOHASHES : string := "sample_infohashes".
Definition Y_QUERY : string := "q".
Definition Y_RESPONSE : string := "r".
Definition Y_ERROR : string := "e".

(** ** Records *)

Record MessageArgsBep44 : Type := mkArgs44 {
  a_v : option (list Z);
  a_seq : option Z;
  a_cas : option Z;
  a_k : option (list Z);
  a_salt : option string;
  a_sig : option (list Z);
}.

Record MessageArgs : Type := mkArgs {
  a_id : U160;
  a_target : option U160;
  a_port : option Z;
  a_implied_port : option bool;
  a_token : option (list Z);
  a_info_hash : option U160;
  a_bep44 : MessageArgsBep44;
}.

Record KResponseBep44 : Type := mkResponse44 {
  r_v : option (list Z);
  r_seq : option Z;
  r_k : option (list Z);
  r_sig : option (list Z);
}.

Record ResponseBep51 : Type := mkResponse51 {
  r_interval : option Z;
  r_samples : option CompactInfoHashes;
  r_num : option Z;
}.

Record KResponse : Type := mkResponse {
  r_id : U160;
  r_nodes : option CompactIPv4NodeInfo;
  r_token : option (list Z);
  r_values : option (list SocketAddrWrapper);
  r_bep44 : KResponseBep44;
  r_bep51 : ResponseBep51;
}.

Record KMessage : Type := mkKMessage {
  k_transaction_id : list Z;
  k_message_type : string;
  k_query_method : option string;
  k_arguments : option MessageArgs;
  k_response : option KResponse;
  k_error : option KError;
  k_requestor_ip : option SocketAddrWrapper;
  k_read_only : option bool;
  k_version : option (list Z);
}.

Definition no_args44 : MessageArgsBep44 := mkArgs44 None None None None None None.
Definition no_response44 : KResponseBep44 := mkResponse44 None None None None.
Definition no_response51 : ResponseBep51 := mkResponse51 None None None.

(** ** Dictionaries *)

(** The fields of a record: key and value, [None] for a skipped one. *)
Definition fields : Type := list (string * option sval).

Definition present (fs : fields) : list (string * sval) :=
  omap (λ f, (λ v, (f.1, v)) <$> f.2) fs.
Definition emit (fs : fields) : sval := SMap (present fs).

Definition as_map (v : sval) : result (list (string * sval)) serde_error :=
  match v with SMap l => Ok l | _ => Err WrongType end.

(** The value of a key: a key that occurs twice is refused. *)
Definition get_field (name : string) (l : list (string * sval)) : result (option sval) serde_error :=
  match filter (λ p, p.1 = name) l with
  | [] => Ok None
  | [p] => Ok (Some p.2)
  | _ => Err (Missing name)
  end.

(** A field with [#[serde(default)]] of type [Option<A>]. *)
Definition optional {A} (dec : sval → result A serde_error) (name : string)
    (l : list (string * sval)) : result (option A) serde_error :=
  let? v := get_field name l in
  match v with
  | None => Ok None
  | Some v => let? a := dec v in Ok (Some a)
  end.
Definition required {A} (dec : sval → result A serde_error) (name : string)
    (l : list (string * sval)) : result A serde_error :=
  let? v := optional dec name l in ok_or v (Missing name).

(** The encoder of an optional field that is skipped when [None]. *)
Definition skip_none {A} (enc : A → run sval) (o : option A) : run (option sval) :=
  match o with
  | Some a => let! v := enc a in Ret (Some v)
  | None => Ret None
  end.

Definition ser_bytes (l : list Z) : run sval := Ret (SBytes l).
Definition ser_int (z : Z) : run sval := Ret (SInt z).
Definition as_sint (w : Z) (v : sval) : result Z serde_error :=
  match v with
  | SInt z => if (- 2 ^ (w - 1) <=? z) && (z <? 2 ^ (w - 1)) then Ok z else Err (WrongValue z)
  | _ => Err WrongType
  end.

(** [bool_from_int] under an [Option<bool>] field with a default. *)
Definition optional_bool (name : string) (l : list (string * sval))
    : result (option bool) serde_error :=
  let? v := get_field name l in
  match v with
  | None => Ok None
  | Some v => bool_from_int v
  end.
Definition skip_none_bool (o : option bool) : run (option sval) :=
  match o with
  | Some b => Ret (Some (int_from_bool (Some b)))
  | None => Ret None
  end.

(** ** The derived implementations *)

Definition args44_fields (a : MessageArgsBep44) : run fields :=
  let! v := skip_none ser_bytes (a_v a) in
  let! seq := skip_none ser_int (a_seq a) in
  let! cas := skip_none ser_int (a_cas a) in
  let! k := skip_none ser_bytes (a_k a) in
  let! salt := skip_none ser (a_salt a) in
  let! sig := skip_none ser_bytes (a_sig a) in
  Ret [("v", v); ("seq", seq); ("cas", cas); ("k", k); ("salt", salt); ("sig", sig)]%string.

Definition args44_de (l : list (string * sval)) : result MessageArgsBep44 serde_error :=
  let? v := optional as_bytes "v" l in
  let? seq := optional (as_sint 64) "seq" l in
  let? cas := optional (as_sint 64) "cas" l in
  let? k := optional as_bytes "k" l in
  let? salt := optional de "salt" l in
  let? sig := optional as_bytes "sig" l in
  Ok (mkArgs44 v seq cas k salt sig).

Definition args_ser (a : MessageArgs) : run sval :=
  let! id := ser (a_id a) in
  let! target := skip_none ser (a_target a) in
  let! port := skip_none ser_int (a_port a) in
  let! implied_port := skip_none_bool (a_implied_port a) in
  let! token := skip_none ser_bytes (a_token a) in
  let! info_hash := skip_none ser (a_info_hash a) in
  let! bep44 := args44_fields (a_bep44 a) in
  Ret (emit ([("id", Some id); ("target", target); ("port", port);
              ("implied_port", implied_port); ("token", token); ("info_hash", info_hash)]%string
             ++ bep44)).

Definition args_de (v : sval) : result MessageArgs serde_error :=
  let? l := as_map v in
  let? id := required de "id" l in
  let? target := optional de "target" l in
  let? port := optional (as_uint 16) "port" l in
  let? implied_port := optional_bool "implied_port" l in
  let? token := optional as_bytes "token" l in
  let? info_hash := optional de "info_hash" l in
  let? bep44 := args44_de l in
  Ok (mkArgs id target port implied_port token info_hash bep44).

Definition response44_fields (r : KResponseBep44) : run fields :=
  let! v := skip_none ser_bytes (r_v r) in
  let! seq := skip_none ser_int (r_seq r) in
  let! k := skip_none ser_bytes (r_k r) in
  let! sig := skip_none ser_bytes (r_sig r) in
  Ret [("v", v); ("seq", seq); ("k", k); ("sig", sig)]%string.

Definition response44_de (l : list (string * sval)) : result KResponseBep44 serde_error :=
  let? v := optional as_bytes "v" l in
  let? seq := optional (as_sint 64) "seq" l in
  let? k := optional as_bytes "k" l in
  let? sig := optional as_bytes "sig" l in
  Ok (mkResponse44 v seq k sig).

Definition response51_fields (r : ResponseBep51) : run fields :=
  let! interval := skip_none ser_int (r_interval r) in
  let! samples := skip_none ser (r_samples r) in
  let! num := skip_none ser_int (r_num r) in
  Ret [("interval", interval); ("samples", samples); ("num", num)]%string.

Definition response51_de (l : list (string * sval)) : result ResponseBep51 serde_error :=
  let? interval := optional (as_uint 16) "interval" l in
  let? samples := optional de "samples" l in
  let? num := optional (as_uint 64) "num" l in
  Ok (mkResponse51 interval samples num).

Definition response_ser (r : KResponse) : run sval :=
  let! id := ser (r_id r) in
  let! nodes := skip_none ser (r_nodes r) in
  let! token := skip_none ser_bytes (r_token r) in
  let! values := skip_none ser (r_values r) in
  let! bep44 := response44_fields (r_bep44 r) in
  let! bep51 := response51_fields (r_bep51 r) in
  Ret (emit ([("id", Some id); ("nodes", nodes); ("token", token); ("values", values)]%string
             ++ bep44 ++ bep51)).

Definition response_de (v : sval) : result KResponse serde_error :=
  let? l := as_map v in
  let? id := required de "id" l in
  let? nodes := optional de "nodes" l in
  let? token := optional as_bytes "token" l in
  let? values := optional de "values" l in
  let? bep44 := response44_de l in
  let? bep51 := response51_de l in
  Ok (mkResponse id nodes token values bep44 bep51).

#[export] Instance args_serde : Serde MessageArgs := { ser := args_ser; de := args_de }.
#[export] Instance response_serde : Serde KResponse := { ser := response_ser; de := response_de }.

Definition kmessage_ser (k : KMessage) : run sval :=
  let! t := ser_bytes (k_transaction_id k) in
  let! y := ser (k_message_type k) in
  let! q := skip_none ser (k_query_method k) in
  let! a := skip_none ser (k_arguments k) in
  let! r := skip_none ser (k_response k) in
  let! e := skip_none ser (k_error k) in
  let! ip := skip_none ser (k_requestor_ip k) in
  let! ro := skip_none_bool (k_read_only k) in
  let! v := skip_none ser_bytes (k_version k) in
  Ret (emit [("t", Some t); ("y", Some y); ("q", q); ("a", a); ("r", r); ("e", e);
             ("ip", ip); ("ro", ro); ("v", v)]%string).

Definition kmessage_de (v : sval) : result KMessage serde_error :=
  let? l := as_map v in
  let? t := optional as_bytes "t" l in
  let? y := required de "y" l in
  let? q := optional de "q" l in
  let? a := optional de "a" l in
  let? r := optional de "r" l in
  let? e := optional de "e" l in
  let? ip := optional de "ip" l in
  let? ro := optional_bool "ro" l in
  let? v := optional as_bytes "v" l in
  Ok (mkKMessage (default [] t) y q a r e ip ro v).

#[export] Instance kmessage_serde : Serde KMessage := { ser := kmessage_ser; de := kmessage_de }.

(** ** Reading back what was written *)

Lemma present_names fs n : n ∈ (present fs).*1 → n ∈ fs.*1.
Proof.
  induction fs as [|[m [v|]] fs IH]; simpl; [done | |]; set_solver.
Qed.

Lemma filter_absent name (l : list (string * sval)) :
  name ∉ l.*1 → filter (λ p, p.1 = name) l = [].
Proof.
  induction l as [|[m v] l IH]; intros Hn; [done |]. rewrite filter_cons. simpl in *.
  rewrite decide_False by set_solver. apply IH. set_solver.
Qed.

Lemma get_field_present fs name o :
  NoDup fs.*1 → (name, o) ∈ fs → get_field name (present fs) = Ok o.
Proof.
  intros Hnd Hin.
  assert (E : filter (λ p, p.1 = name) (present fs) =
    match o with Some v => [(name, v)] | None => [] end).
  { induction fs as [|[m w] fs IH]; [by apply not_elem_of_nil in Hin |].
    simpl in Hnd. apply NoDup_cons in Hnd as [Hm Hnd].
    apply elem_of_cons in Hin as [[= <- <-]|Hin].
    - assert (Habs : filter (λ p, p.1 = name) (present fs) = []).
      { apply filter_absent. by intros ?%present_names. }
      destruct o as [v|]; simpl; [| done]. rewrite filter_cons_True by done. by rewrite Habs.
    - assert (Hne : m ≠ name).
      { intros ->. apply Hm. apply list_elem_of_fmap. by exists (name, o). }
      destruct w as [w|]; simpl; [rewrite filter_cons_False by done |]; by apply IH. }
  unfold get_field. rewrite E. by destruct o.
Qed.

Definition opt_ok {A} (ok : A → Prop) (o : option A) : Prop :=
  match o with Some a => ok a | None => True end.

(** A field encoder whose result a format can write and the field decoder reads
    back. *)
Definition field_law {A} (enc : run (option sval))
    (dec : string → list (string * sval) → result A serde_error) (a : A) : Prop :=
  ∃ v, enc = Ret v ∧ opt_ok sval_wf v ∧ ∀ name l, get_field name l = Ok v → dec name l = Ok a.

(** A dictionary of distinct names, of values that a format can write *)
Lemma emit_wf fs : NoDup fs.*1 → Forall (λ f, opt_ok sval_wf f.2) fs → sval_wf (emit fs).
Proof.
  intros Hnd Hfs. apply wf_map.
  - induction fs as [|[n [v|]] fs IH]; [constructor | |];
      cbn [fmap list_fmap] in Hnd; apply NoDup_cons in Hnd as [Hn Hnd]; apply Forall_cons in Hfs as [_ Hfs];
      [| by apply IH].
    cbn. apply NoDup_cons. split; [by intros ?%present_names | by apply IH].
  - induction Hfs as [|[n [v|]] fs Hv Hfs IH]; [constructor | |];
      cbn [fmap list_fmap] in Hnd; apply NoDup_cons in Hnd as [_ Hnd]; [| by apply IH].
    constructor; [done | by apply IH].
Qed.

Lemma skip_none_law {A} (enc : A → run sval) (dec : sval → result A serde_error) ok o :
  (∀ a, ok a → ∃ v, enc a = Ret v ∧ sval_wf v ∧ dec v = Ok a) → opt_ok ok o →
  field_law (skip_none enc o) (optional dec) o.
Proof.
  intros Hlaw. destruct o as [a|]; intros Ho; simpl.
  - destruct (Hlaw a Ho) as (v & Hv & Hwf & Hd). exists (Some v). rewrite Hv.
    split_and!; [done | done |]. intros name l Hl. unfold optional. rewrite Hl. simpl. by rewrite Hd.
  - exists None. split_and!; [done | done |]. intros name l Hl. unfold optional. by rewrite Hl.
Qed.

Lemma skip_serde_law {A} `{SerdeLaw A ok} o :
  opt_ok ok o → field_law (skip_none ser o) (optional de) o.
Proof. apply skip_none_law, de_ser. Qed.

Lemma skip_bytes_law o : field_law (skip_none ser_bytes o) (optional as_bytes) o.
Proof. apply (skip_none_law _ _ (λ _, True)); [eauto using wf_bytes | by destruct o]. Qed.

Lemma skip_uint_law w o :
  w ≤ 64 → opt_ok (in_width w) o → field_law (skip_none ser_int o) (optional (as_uint w)) o.
Proof.
  intros Hw. apply skip_none_law. intros z Hz. exists (SInt z).
  split_and!; [done | by apply wf_int, (in_width_i64 w) | by apply as_uint_ok].
Qed.

Definition in_signed (w z : Z) : Prop := - 2 ^ (w - 1) ≤ z < 2 ^ (w - 1).

Lemma skip_sint_law o : opt_ok (in_signed 64) o → field_law (skip_none ser_int o) (optional (as_sint 64)) o.
Proof.
  apply skip_none_law. intros z [??]. exists (SInt z). split; [done |].
  split; [apply wf_int; simpl in *; lia |]. unfold as_sint.
  by rewrite (proj2 (Z.leb_le _ _)), (proj2 (Z.ltb_lt _ _)).
Qed.

Lemma skip_bool_law o : field_law (skip_none_bool o) optional_bool o.
Proof.
  destruct o as [b|]; simpl.
  - eexists. split; [done |]. split; [by destruct b; apply wf_int |].
    intros name l Hl. unfold optional_bool. rewrite Hl. simpl. by apply bool_from_int_from_bool.
  - eexists. split_and!; [done | done |]. intros name l Hl. unfold optional_bool. by rewrite Hl.
Qed.

Lemma required_law {A} (dec : sval → result A serde_error) a v name l :
  dec v = Ok a → get_field name l = Ok (Some v) → required dec name l = Ok a.
Proof. intros Hd Hl. unfold required, optional. rewrite Hl. simpl. by rewrite Hd. Qed.

(** Run the encoders of a record's fields, naming what each wrote. *)
Ltac run_fields :=
  repeat match goal with
    | H : field_law ?enc _ _ |- context [?enc] =>
        let v := fresh "fv" in let E := fresh "E" in let W := fresh "W" in let D := fresh "D" in
        destruct H as (v & E & W & D); rewrite E; cbn [run_bind]
    end.

Ltac names_distinct := by refine (bool_decide_unpack _ _); vm_compute.
Ltac written_wf := apply emit_wf; [names_distinct | by repeat constructor].

(** Read every field of a dictionary that [emit] wrote. *)
Ltac field_present :=
  apply get_field_present;
  [names_distinct
  | by repeat (first [apply list_elem_of_here | apply list_elem_of_further])].
Ltac read_fields :=
  repeat match goal with
    | D : ∀ name l, get_field name l = Ok ?v → ?dec name l = Ok _ |- context [?dec ?name ?l] =>
        rewrite (D name l) by field_present; cbn [result_bind]
    end.

(** ** Well-formed messages *)

Definition args44_ok (a : MessageArgsBep44) : Prop :=
  opt_ok (in_signed 64) (a_seq a) ∧ opt_ok (in_signed 64) (a_cas a) ∧ opt_ok string_ok (a_salt a).
Definition args_ok (a : MessageArgs) : Prop :=
  u160_ok (a_id a) ∧ opt_ok u160_ok (a_target a) ∧ opt_ok (in_width 16) (a_port a) ∧
  opt_ok u160_ok (a_info_hash a) ∧ args44_ok (a_bep44 a).
Definition compact_nodes_ok (c : CompactIPv4NodeInfo) : Prop := Forall node_v4 (dht_nodes c).
Definition compact_hashes_ok (c : CompactInfoHashes) : Prop := Forall u160_ok (info_hashes c).
Definition response44_ok (r : KResponseBep44) : Prop := opt_ok (in_signed 64) (r_seq r).
Definition response51_ok (r : ResponseBep51) : Prop :=
  opt_ok (in_width 16) (r_interval r) ∧ opt_ok compact_hashes_ok (r_samples r) ∧
  opt_ok (in_width 64) (r_num r).
Definition response_ok (r : KResponse) : Prop :=
  u160_ok (r_id r) ∧ opt_ok compact_nodes_ok (r_nodes r) ∧
  opt_ok (Forall wrapper_plain) (r_values r) ∧ response44_ok (r_bep44 r) ∧ response51_ok (r_bep51 r).
Definition kmessage_ok (k : KMessage) : Prop :=
  string_ok (k_message_type k) ∧ opt_ok string_ok (k_query_method k) ∧
  opt_ok args_ok (k_arguments k) ∧ opt_ok response_ok (k_response k) ∧
  opt_ok kerror_ok (k_error k) ∧ opt_ok wrapper_plain (k_requestor_ip k).

#[local] Arguments present : simpl never.

#[export] Instance args_law : SerdeLaw MessageArgs args_ok.
Proof.
  split. intros [id t p ip tok ih [v sq cas k salt sig]] (Hid & Ht & Hp & Hih & Hsq & Hcas & Hsalt).
  cbn [a_id a_target a_port a_info_hash a_bep44 a_seq a_cas a_salt] in *.
  destruct (de_ser id Hid) as (vid & Hsid & Hwid & Hdid).
  apply skip_serde_law in Ht, Hih, Hsalt. apply (skip_uint_law 16 _ ltac:(done)) in Hp.
  apply skip_sint_law in Hsq, Hcas.
  pose proof (skip_bool_law ip). pose proof (skip_bytes_law tok). pose proof (skip_bytes_law v).
  pose proof (skip_bytes_law k). pose proof (skip_bytes_law sig).
  cbn [ser de args_serde]. unfold args_ser, args44_fields. cbn [a_id a_target a_port
    a_implied_port a_token a_info_hash a_bep44 a_v a_seq a_cas a_k a_salt a_sig].
  rewrite Hsid. cbn [run_bind]. run_fields. eexists. split; [done |].
  split; [written_wf |].
  unfold args_de, args44_de. cbn [as_map emit result_bind app].
  rewrite (required_law de id vid "id" _ Hdid) by field_present. cbn [result_bind].
  by read_fields.
Qed.

#[export] Instance response_law : SerdeLaw KResponse response_ok.
Proof.
  split. intros [id ns tok vals [v sq k sig] [iv sm num]] (Hid & Hns & Hvals & Hsq & Hiv & Hsm & Hnum).
  unfold response44_ok in Hsq.
  cbn [r_id r_nodes r_values r_bep44 r_bep51 r_seq r_interval r_samples r_num] in *.
  destruct (de_ser id Hid) as (vid & Hsid & Hwid & Hdid).
  apply (skip_serde_law (ok:=λ c, Forall node_v4 (dht_nodes c))) in Hns.
  apply (skip_serde_law (ok:=Forall wrapper_plain)) in Hvals.
  apply (skip_serde_law (ok:=λ c, Forall u160_ok (info_hashes c))) in Hsm.
  apply (skip_uint_law 16 _ ltac:(done)) in Hiv. apply (skip_uint_law 64 _ ltac:(done)) in Hnum.
  apply skip_sint_law in Hsq.
  pose proof (skip_bytes_law tok). pose proof (skip_bytes_law v).
  pose proof (skip_bytes_law k). pose proof (skip_bytes_law sig).
  cbn [ser de response_serde]. unfold response_ser, response44_fields, response51_fields.
  cbn [r_id r_nodes r_token r_values r_bep44 r_bep51 r_v r_seq r_k r_sig r_interval r_samples r_num].
  rewrite Hsid. cbn [run_bind]. run_fields. eexists. split; [done |].
  split; [written_wf |].
  unfold response_de, response44_de, response51_de. cbn [as_map emit result_bind app].
  rewrite (required_law de id vid "id" _ Hdid) by field_present. cbn [result_bind].
  by read_fields.
Qed.

#[export] Instance kmessage_law : SerdeLaw KMessage kmessage_ok.
Proof.
  split. intros [t y q a r e ip ro v] (Hy & Hq & Ha & Hr & He & Hip).
  cbn [k_message_type k_query_method k_arguments k_response k_error k_requestor_ip] in *.
  destruct (de_ser y Hy) as (vy & Hsy & Hwy & Hdy).
  apply (skip_serde_law (ok:=string_ok)) in Hq. apply (skip_serde_law (ok:=args_ok)) in Ha.
  apply (skip_serde_law (ok:=response_ok)) in Hr. apply (skip_serde_law (ok:=kerror_ok)) in He.
  apply (skip_serde_law (ok:=wrapper_plain)) in Hip.
  pose proof (skip_bool_law ro). pose proof (skip_bytes_law v).
  pose proof (skip_bytes_law (Some t)) as Ht. destruct Ht as (vt & Et & Wt & Ht).
  apply Ret_inj in Et. subst vt.
  cbn [ser de kmessage_serde]. unfold kmessage_ser. cbn [k_transaction_id k_message_type
    k_query_method k_arguments k_response k_error k_requestor_ip k_read_only k_version].
  unfold ser_bytes at 1. cbn [run_bind]. rewrite Hsy. cbn [run_bind].
  run_fields. eexists. split; [done |].
  split; [written_wf |].
  unfold kmessage_de. cbn [as_map emit result_bind].
  rewrite (Ht "t"%string) by field_present. cbn [result_bind].
  rewrite (required_law de y vy "y" _ Hdy) by field_present. cbn [result_bind].
  by read_fields.
Qed.

(** *** No order of dictionaries is seen *)

Lemma filter_entries name l l' :
  Forall2 entry_eqv l l' →
  Forall2 entry_eqv (filter (λ p, p.1 = name) l) (filter (λ p, p.1 = name) l').
Proof.
  induction 1 as [|p q l l' [Hk Hv] Hl IH]; [constructor |]. rewrite !filter_cons, Hk.
  case_decide; [| done]. by constructor.
Qed.

Definition dict_eqv (l l' : list (string * sval)) : Prop :=
  ∃ m, l ≡ₚ m ∧ Forall2 entry_eqv m l'.

Lemma get_field_eqv name l l' :
  dict_eqv l l' → related (option_Forall2 (≡)) (get_field name l) (get_field name l').
Proof.
  intros (m & Hp & Hl). apply (filter_entries name) in Hl. unfold get_field.
  apply (filter_Permutation (λ p, p.1 = name)) in Hp.
  revert Hp Hl. generalize (filter (λ p, p.1 = name) l) (filter (λ p, p.1 = name) m)
    (filter (λ p, p.1 = name) l'). intros a b c Hp Hl.
  destruct Hl as [|p q b c [_ Hv] [|p' q' b' c' _ _]].
  - apply Permutation_nil_r in Hp as ->. constructor.
  - apply Permutation_singleton_r in Hp as ->. by constructor.
  - apply Permutation_length in Hp. by destruct a as [|? [|? ?]].
Qed.

Section DictProper.
Context {A : Type} (dec : sval → result A serde_error) `{!Proper ((≡) ==> (=)) dec}.

Lemma optional_proper name l l' : dict_eqv l l' → optional dec name l = optional dec name l'.
Proof using Type*.
  intros Hl%(get_field_eqv name). unfold optional.
  destruct (get_field name l), (get_field name l'); [| done.. | by rewrite Hl].
  destruct Hl as [v v' Hv|]; [| done]. cbn [result_bind]. by rewrite Hv.
Qed.

Lemma required_proper name l l' : dict_eqv l l' → required dec name l = required dec name l'.
Proof using Type*. intros Hl. unfold required. by rewrite (optional_proper name l l'). Qed.
End DictProper.

Lemma optional_bool_proper name l l' : dict_eqv l l' → optional_bool name l = optional_bool name l'.
Proof.
  intros Hl%(get_field_eqv name). unfold optional_bool.
  destruct (get_field name l), (get_field name l'); [| done.. | by rewrite Hl].
  destruct Hl as [v v' Hv|]; [| done]. cbn [result_bind]. unfold bool_from_int. by rewrite Hv.
Qed.

#[export] Instance as_sint_proper w : Proper ((≡) ==> (=)) (as_sint w).
Proof. by intros ? ? []. Qed.

Ltac fields_proper Hl :=
  repeat first [rewrite (required_proper _ _ _ _ Hl) | rewrite (optional_proper _ _ _ _ Hl)
               | rewrite (optional_bool_proper _ _ _ Hl)].

Lemma args44_proper l l' : dict_eqv l l' → args44_de l = args44_de l'.
Proof. intros Hl. unfold args44_de. by fields_proper Hl. Qed.
Lemma response44_proper l l' : dict_eqv l l' → response44_de l = response44_de l'.
Proof. intros Hl. unfold response44_de. by fields_proper Hl. Qed.
Lemma response51_proper l l' : dict_eqv l l' → response51_de l = response51_de l'.
Proof. intros Hl. unfold response51_de. by fields_proper Hl. Qed.

#[export] Instance args_proper : SerdeProper MessageArgs.
Proof.
  split. intros ? ? [| | |l m l' Hp Hl]; [done.. |]. assert (H : dict_eqv l l') by by exists m.
  cbn [de args_serde]. unfold args_de. cbn [as_map result_bind]. rewrite (args44_proper _ _ H).
  by fields_proper H.
Qed.

#[export] Instance response_proper : SerdeProper KResponse.
Proof.
  split. intros ? ? [| | |l m l' Hp Hl]; [done.. |]. assert (H : dict_eqv l l') by by exists m.
  cbn [de response_serde]. unfold response_de. cbn [as_map result_bind].
  rewrite (response44_proper _ _ H), (response51_proper _ _ H). by fields_proper H.
Qed.

#[export] Instance kmessage_proper : SerdeProper KMessage.
Proof.
  split. intros ? ? [| | |l m l' Hp Hl]; [done.. |]. assert (H : dict_eqv l l') by by exists m.
  cbn [de kmessage_serde]. unfold kmessage_de. cbn [as_map result_bind]. by fields_proper H.
Qed.

(** ** Properties *)

(** Every well-formed KRPC message (strings in UTF-8, integers in their ranges,
    IPv4 nodes, addresses without flow label or scope id) serializes without
    panic to a dictionary that deserializes to the same message. *)
Theorem kmessage_roundtrip k :
  kmessage_ok k → ∃ v, kmessage_ser k = Ret v ∧ kmessage_de v = Ok k.
Proof. intros Hk. destruct (de_ser k Hk) as (v & ? & _ & ?). by exists v. Qed.

Lemma kmessage_roundtrip_witness :
  ∃ v, kmessage_ser (mkKMessage [97; 97] Y_QUERY (Some Q_PING)
         (Some (mkArgs min None (Some 6881) (Some true) None None no_args44)) None None
         None (Some false) None) = Ret v ∧
       kmessage_de v = Ok (mkKMessage [97; 97] Y_QUERY (Some Q_PING)
         (Some (mkArgs min None (Some 6881) (Some true) None None no_args44)) None None
         None (Some false) None).
Proof. apply kmessage_roundtrip. by repeat split. Defined.

(** A message is refused when its type or the identifier of its arguments or
    response is missing, while a missing transaction identifier is read as the
    empty one and unknown keys are ignored. *)
Theorem kmessage_required l :
  (get_field "y" l = Ok None → ∃ e, kmessage_de (SMap l) = Err e) ∧
  (get_field "id" l = Ok None →
     (∃ e, args_de (SMap l) = Err e) ∧ (∃ e, response_de (SMap l) = Err e)) ∧
  (∀ k, get_field "t" l = Ok None → kmessage_de (SMap l) = Ok k → k_transaction_id k = []) ∧
  (∀ name v, name ∉ ["t"; "y"; "q"; "a"; "r"; "e"; "ip"; "ro"; "v"]%string →
     kmessage_de (SMap ((name, v) :: l)) = kmessage_de (SMap l)).
Proof.
  split_and!.
  - intros Hy. unfold kmessage_de. cbn [as_map result_bind].
    destruct (optional as_bytes "t" l); cbn [result_bind]; [| eauto].
    unfold required, optional at 1. rewrite Hy. cbn. eauto.
  - intros Hid.
    assert (Hreq : ∀ A (dec : sval → result A serde_error), required dec "id" l = Err (Missing "id")).
    { intros A dec. unfold required, optional. by rewrite Hid. }
    unfold args_de, response_de. cbn [as_map result_bind]. rewrite !Hreq. cbn. eauto.
  - intros k Ht. unfold kmessage_de. cbn [as_map result_bind]. unfold optional at 1. rewrite Ht.
    cbn [result_bind]. intros H.
    repeat match type of H with
      | result_bind ?x _ = _ => destruct x; cbn [result_bind] in H; [| done]
      end. by injection H as <-.
  - intros name v Hn.
    assert (Hget : ∀ n, n ≠ name → get_field n ((name, v) :: l) = get_field n l).
    { intros n Hne. unfold get_field. by rewrite filter_cons_False by (simpl; congruence). }
    unfold kmessage_de, required, optional_bool, optional. cbn [as_map result_bind].
    by rewrite !Hget by set_solver.
Qed.

(** ** The packets of [kmsg_tests.rs] *)

Definition decode_kmessage (text : string) : option KMessage :=
  v ← bdecode (string_bytes text);
  match kmessage_de v with Ok k => Some k | Err _ => None end.
Definition encode_kmessage (k : KMessage) : option string :=
  match kmessage_ser k with Ret v => Some (bytes_string (bencode v)) | _ => None end.
Definition id_of (text : string) : U160 := from_be_bytes (string_bytes text).

(** [find_node] *)
Definition find_node_packet : string :=
  "d1:ad2:id20:abcdefghij01234567896:target20:mnopqrstuvwxyz123456e1:q9:find_node1:t2:aa1:y1:qe".
Definition find_node_message : KMessage :=
  mkKMessage (string_bytes "aa") Y_QUERY (Some Q_FIND_NODE)
    (Some (mkArgs (id_of "abcdefghij0123456789") (Some (id_of "mnopqrstuvwxyz123456"))
       None None None None no_args44)) None None None None None.

Example find_node_decodes : decode_kmessage find_node_packet = Some find_node_message.
Proof. vm_compute. reflexivity. Qed.
(** Written again, with the fields in the order of the record, it is the packet. *)
Example find_node_encodes : encode_kmessage find_node_message = Some find_node_packet.
Proof. vm_compute. reflexivity. Qed.

(** [response]: the nine bytes are no whole node. *)
Example response_decodes :
  decode_kmessage "d1:rd2:id20:0123456789abcdefghij5:nodes9:def456...e1:t2:aa1:y1:re" =
  Some (mkKMessage (string_bytes "aa") Y_RESPONSE None None
    (Some (mkResponse (id_of "0123456789abcdefghij") (Some (mkCompactNodes [])) None None
       no_response44 no_response51)) None None None None).
Proof. vm_compute. reflexivity. Qed.

(** [error] *)
Example error_encodes :
  encode_kmessage (mkKMessage (string_bytes "aa") Y_ERROR None None None
    (Some (mkKError 201 "A Generic Error Ocurred")) None None None) =
  Some "d1:eli201e23:A Generic Error Ocurrede1:t2:aa1:y1:ee"%string.
Proof. vm_compute. reflexivity. Qed.
