(* ===== verification/Message.v ===== *)
(** * Messages

    [src/messenger/message.rs] and [message/message_impl.rs]: queries, responses
    and errors, their translation to and from the KRPC dictionary, and the
    client version code. *)

From S2P Require Import Prelude Text Externals Net U160 NodeInfo Wire Format Kmsg.

(** ** Client versions *)

(** [struct Client]; the code's two [char]s are code points below 256. *)
Record Client : Type := mkClient { c_name : string; c_code : Z * Z; c_version : Z }.

(** The table of [Client::from_bytes] *)
Definition client_names : list (string * string) :=
  [("AG", "Ares");
   ("A~", "Ares");
   ("AR", "Arctic");
   ("AV", "Avicora");
   ("AX", "BitPump");
   ("AZ", "Azureus");
   ("BB", "BitBuddy");
   ("BC", "BitComet");
   ("BF", "Bitflu");
   ("BG", "BTG (uses Rasterbar libtorrent)");
   ("BR", "BitRocket");
   ("BS", "BTSlave");
   ("BX", "~Bittorrent X");
   ("CD", "Enhanced CTorrent");
   ("CT", "CTorrent");
   ("DE", "DelugeTorrent");
   ("DP", "Propagate Data Client");
   ("EB", "EBit");
   ("ES", "electric sheep");
   ("FT", "FoxTorrent");
   ("FW", "FrostWire");
   ("FX", "Freebox BitTorrent");
   ("GS", "GSTorrent");
   ("HL", "Halite");
   ("HN", "Hydranode");
   ("KG", "KGet");
   ("KT", "KTorrent");
   ("LH", "LH-ABC");
   ("LP", "Lphant");
   ("LT", "libtorrent");
   ("lt", "libTorrent");
   ("LW", "LimeWire");
   ("MO", "MonoTorrent");
   ("MP", "MooPolice");
   ("MR", "Miro");
   ("MT", "MoonlightTorrent");
   ("NX", "Net Transport");
   ("PD", "Pando");
   ("qB", "qBittorrent");
   ("QD", "QQDownload");
   ("QT", "Qt 4 Torrent example");
   ("RT", "Retriever");
   ("S~", "Shareaza alpha/beta");
   ("SB", "~Swiftbit");
   ("SS", "SwarmScope");
   ("ST", "SymTorrent");
   ("st", "sharktorrent");
   ("SZ", "Shareaza");
   ("TN", "TorrentDotNET");
   ("TR", "Transmission");
   ("TS", "Torrentstorm");
   ("TT", "TuoTu");
   ("UL", "uLeecher!");
   ("UT", "uTorrent");
   ("UW", "uTorrent Web");
   ("VG", "Vagaa");
   ("WD", "WebTorrent Desktop");
   ("WT", "BitLet");
   ("WW", "WebTorrent");
   ("WY", "FireTorrent");
   ("XL", "Xunlei");
   ("XT", "XanTorrent");
   ("XX", "Xtorrent");
   ("ZT", "ZipTorrent")]%string.

Definition client_name (code : list Z) : string :=
  match List.find (λ p, bool_decide (string_bytes p.1 = code)) client_names with
  | Some p => p.2
  | None => "Unknown"
  end.

Definition client_to_bytes (self : Client) : list Z :=
  [wrap 8 (c_code self).1; wrap 8 (c_code self).2;
   wrap 8 (Z.shiftr (c_version self) 8); wrap 8 (Z.land (c_version self) 0xff)].

(** [from_bytes], on an array of four bytes *)
Definition client_from_bytes (b0 b1 b2 b3 : Z) : Client :=
  mkClient (client_name [b0; b1]) (b0, b1) (Z.lor (wrap 16 (Z.shiftl b2 8)) b3).

(** ** Types *)

Inductive Sender : Type :=
  | SenderRemote (n : NodeInfo)
  | SenderMe (n : NodeInfo).

Inductive Receiver : Type :=
  | ReceiverNode (n : NodeInfo)
  | ReceiverAddr (a : SocketAddr)
  | ReceiverMe.

Record MessageBase : Type := mkBase {
  origin : Sender;
  destination : Receiver;
  requestor_addr : option SocketAddr;
  transaction_id : list Z;
  read_only : bool;
  client : option Client;
}.

Inductive QueryMethod : Type :=
  | Ping
  | FindNode (target : U160)
  | GetPeers (info_hash : U160)
  | AnnouncePeer (info_hash : U160) (port : Z) (token : list Z)
  | Put (bep44 : MessageArgsBep44)
  | Get
  | SampleInfohashes (target : U160).

Record Query : Type := mkQuery { method : QueryMethod; q_base : MessageBase }.

Inductive ResponseKind : Type :=
  | KindOk
  | KNearest (nodes : list NodeInfo) (token : option (list Z))
  | Peers (peers : list SocketAddr) (token : list Z) (nodes : option (list NodeInfo))
  | Data (bep44 : KResponseBep44)
  | Samples (nodes : list NodeInfo) (samples : list U160) (available interval : Z).

Record Response : Type := mkResponseMsg { kind : ResponseKind; resp_base : MessageBase }.
Record Error : Type := mkError { error : KError; err_base : MessageBase }.

Inductive Message : Type :=
  | MQuery (q : Query)
  | MResponse (r : Response)
  | MError (e : Error).

Definition QueryResult : Type := result Response Error.

(** [enum KnownError], its discriminants and descriptions *)
Inductive KnownError : Type :=
  | Generic | Server | Protocol | MethodUnknown | InvalidV | InvalidSig | SaltTooLong
  | CasMismatch | SeqLessThanCurrent | InvalidNodeId | Internal.

Definition error_number (e : KnownError) : Z :=
  match e with
  | Generic => 201 | Server => 202 | Protocol => 203 | MethodUnknown => 204 | InvalidV => 205
  | InvalidSig => 206 | SaltTooLong => 207 | CasMismatch => 301 | SeqLessThanCurrent => 302
  | InvalidNodeId => 305 | Internal => 501
  end.

Definition description (e : KnownError) : string :=
  match e with
  | Generic => "A Generic Error Occurred"
  | Server => "The Server Encountered an Error"
  | Protocol => "Protocol Error, such as a malformed packet, invalid arguments, or bad token"
  | MethodUnknown => "Method Unknown"
  | InvalidV => "V missing or too long (>999)."
  | InvalidSig => "Invalid signature"
  | SaltTooLong => "Salt too long (>64)"
  | CasMismatch => "the CAS hash didn't match, re-read value and try again"
  | SeqLessThanCurrent => "sequence number less than current"
  | Internal => "An internal error occurred"
  | InvalidNodeId => "Invalid node id"
  end.

(** ** Accessors and conversions *)

Definition base (m : Message) : MessageBase :=
  match m with
  | MQuery q => q_base q
  | MResponse r => resp_base r
  | MError e => err_base e
  end.
Definition result_base (r : QueryResult) : MessageBase :=
  match r with Ok r => resp_base r | Err e => err_base e end.

Definition sender_node (s : Sender) : NodeInfo :=
  match s with SenderRemote n => n | SenderMe n => n end.
Definition sender_addr (s : Sender) : SocketAddr :=
  match s with SenderRemote r => addr r | SenderMe m => addr m end.
Definition sender_id (s : Sender) : U160 :=
  match s with SenderRemote r => id r | SenderMe m => id m end.
Definition sender_receiver (s : Sender) : Receiver :=
  match s with SenderRemote n => ReceiverNode n | SenderMe n => ReceiverNode n end.
Definition node_receiver (n : NodeInfo) : Receiver := ReceiverNode n.
Definition receiver_addr (r : Receiver) : option SocketAddr :=
  match r with
  | ReceiverNode n => Some (addr n)
  | ReceiverAddr a => Some a
  | ReceiverMe => None
  end.
Definition result_message (r : QueryResult) : Message :=
  match r with Ok r => MResponse r | Err e => MError e end.

Definition into_error_generic (b : MessageBase) (text : string) : Error :=
  mkError (mkKError (error_number Generic) text) b.
Definition into_error (b : MessageBase) (e : KnownError) : Error :=
  mkError (mkKError (error_number e) (description e)) b.
Definition into_query (b : MessageBase) (m : QueryMethod) : Query := mkQuery m b.
Definition into_response (b : MessageBase) (k : ResponseKind) : Response := mkResponseMsg k b.

(** ** To and from the dictionary *)

Definition query_args (q : Query) : string * MessageArgs :=
  let args target port token info_hash bep44 :=
    mkArgs (sender_id (origin (q_base q))) target port None token info_hash bep44 in
  match method q with
  | Ping => (Q_PING, args None None None None no_args44)
  | FindNode target => (Q_FIND_NODE, args (Some target) None None None no_args44)
  | GetPeers info_hash => (Q_GET_PEERS, args None None None (Some info_hash) no_args44)
  | AnnouncePeer info_hash port token =>
      (Q_ANNOUNCE_PEER, args None (Some port) (Some token) (Some info_hash) no_args44)
  | Put bep44 => (Q_PUT, args None None None None bep44)
  | Get => (Q_GET, args None None None None no_args44)
  | SampleInfohashes target => (Q_SAMPLE_INFOHASHES, args (Some target) None None None no_args44)
  end.

Definition response_body (r : Response) : KResponse :=
  let body := mkResponse (sender_id (origin (resp_base r))) in
  match kind r with
  | KindOk => body None None None no_response44 no_response51
  | KNearest nodes token =>
      body (Some (mkCompactNodes nodes)) token None no_response44 no_response51
  | Peers peers token nodes =>
      body (mkCompactNodes <$> nodes) (Some token)
        (Some ((λ p, mkWrapper (Some p)) <$> peers)) no_response44 no_response51
  | Data bep44 => body None None None bep44 no_response51
  | Samples nodes samples available interval =>
      body (Some (mkCompactNodes nodes)) None None no_response44
        (mkResponse51 (Some interval) (Some (mkCompactHashes samples)) (Some available))
  end.

Definition to_kmsg (self : Message) : KMessage :=
  let b := base self in
  let requestor_ip :=
    mkWrapper (match self with
               | MQuery _ => Some (sender_addr (origin b))
               | MResponse _ => requestor_addr b
               | MError _ => None
               end) in
  let build message_type query_method arguments response error :=
    mkKMessage (transaction_id b) message_type query_method arguments response error
      (Some requestor_ip) (Some (read_only b)) None in
  match self with
  | MQuery q => build Y_QUERY (Some (query_args q).1) (Some (query_args q).2) None None
  | MResponse r => build Y_RESPONSE None None (Some (response_body r)) None
  | MError e => build Y_ERROR None None None (Some (error e))
  end.

Definition args_method (origin_addr : SocketAddr) (name : string) (args : MessageArgs)
    : result QueryMethod KnownError :=
  let err := Protocol in
  if bool_decide (name = Q_PING) then Ok Ping
  else if bool_decide (name = Q_FIND_NODE) then
    let? target := ok_or (a_target args) err in Ok (FindNode target)
  else if bool_decide (name = Q_ANNOUNCE_PEER) then
    let? info_hash := ok_or (a_info_hash args) err in
    let? token := ok_or (a_token args) err in
    Ok (AnnouncePeer info_hash
          (match a_implied_port args, a_port args with
           | Some true, _ => sock_port origin_addr
           | _, None => sock_port origin_addr
           | _, Some port => port
           end) token)
  else if bool_decide (name = Q_GET_PEERS) then
    let? info_hash := ok_or (a_info_hash args) err in Ok (GetPeers info_hash)
  else if bool_decide (name = Q_PUT) then Ok (Put (a_bep44 args))
  else if bool_decide (name = Q_GET) then Ok Get
  else if bool_decide (name = Q_SAMPLE_INFOHASHES) then
    let? target := ok_or (a_target args) err in Ok (SampleInfohashes target)
  else
    match (match a_info_hash args with Some h => Some h | None => a_target args end) with
    | Some target => Ok (FindNode target)
    | None => Err MethodUnknown
    end.

Definition response_kind (response : KResponse) : result ResponseKind KnownError :=
  let err := Protocol in
  match r_values response with
  | Some peers =>
      let? token := ok_or (r_token response) err in
      Ok (Peers (omap socket_addr_of peers) token (dht_nodes <$> r_nodes response))
  | None =>
      match r_v (r_bep44 response) with
      | Some _ => Ok (Data (r_bep44 response))
      | None =>
          match r_samples (r_bep51 response) with
          | Some hashes =>
              let? nodes := ok_or (r_nodes response) err in
              Ok (Samples (dht_nodes nodes) (info_hashes hashes)
                    (default 0 (r_num (r_bep51 response)))
                    (default 0 (r_interval (r_bep51 response))))
          | None =>
              match r_nodes response with
              | Some nodes => Ok (KNearest (dht_nodes nodes) (r_token response))
              | None => Ok KindOk
              end
          end
      end
  end.

Definition from_kmsg (origin_addr : SocketAddr) (kmsg : KMessage) : result Message KnownError :=
  let base id :=
    mkBase (SenderRemote (mkNodeInfo id origin_addr)) ReceiverMe
      (match k_requestor_ip kmsg with Some w => socket_addr_of w | None => None end)
      (k_transaction_id kmsg)
      (default false (k_read_only kmsg))
      (match k_version kmsg with
       | Some [b0; b1; b2; b3] => Some (client_from_bytes b0 b1 b2 b3)
       | _ => None
       end) in
  if bool_decide (k_message_type kmsg = Y_ERROR) then
    let? error := ok_or (k_error kmsg) Protocol in
    Ok (MError (mkError error (base min)))
  else if bool_decide (k_message_type kmsg = Y_QUERY) then
    let? args := ok_or (k_arguments kmsg) Protocol in
    let? name := ok_or (k_query_method kmsg) Protocol in
    let? method := args_method origin_addr name args in
    Ok (MQuery (mkQuery method (base (a_id args))))
  else if bool_decide (k_message_type kmsg = Y_RESPONSE) then
    let? response := ok_or (k_response kmsg) Protocol in
    let? kind := response_kind response in
    Ok (MResponse (mkResponseMsg kind (base (r_id response))))
  else Err Protocol.

(** [Message::to_bytes] and [Message::receive], over the byte format of
    [bt_bencode] *)
Section Format.
Context (to_vec : sval → list Z) (from_slice : list Z → option sval).

Definition to_bytes (self : Message) : run (list Z) :=
  let! v := ser (to_kmsg self) in Ret (to_vec v).

Definition receive (bytes : list Z) (from : SocketAddr)
    : result Message (option KMessage * KnownError) :=
  let decoded := match from_slice bytes with
                 | Some v => match de v with Ok k => Some k | Err _ => None end
                 | None => None
                 end in
  match decoded with
  | None => Err (None, Server)
  | Some k =>
      match from_kmsg from k with
      | Ok m => Ok m
      | Err e => Err (Some k, e)
      end
  end.
End Format.

(** ** Well-formed messages and what their receiver sees *)

Definition method_ok (m : QueryMethod) : Prop :=
  match m with
  | Ping | Get => True
  | FindNode t | GetPeers t | SampleInfohashes t => u160_ok t
  | AnnouncePeer h port _ => u160_ok h ∧ in_width 16 port
  | Put bep44 => args44_ok bep44
  end.

Definition peer_plain (a : SocketAddr) : Prop := wrapper_plain (mkWrapper (Some a)).
Definition kind_ok (k : ResponseKind) : Prop :=
  match k with
  | KindOk => True
  | KNearest nodes _ => Forall node_v4 nodes
  | Peers peers _ nodes => Forall peer_plain peers ∧ opt_ok (Forall node_v4) nodes
  | Data bep44 => r_v bep44 ≠ None ∧ response44_ok bep44
  | Samples nodes samples available interval =>
      Forall node_v4 nodes ∧ Forall u160_ok samples ∧ in_width 64 available ∧ in_width 16 interval
  end.

Definition message_ok (m : Message) : Prop :=
  u160_ok (sender_id (origin (base m))) ∧
  match m with
  | MQuery q => method_ok (method q) ∧ peer_plain (sender_addr (origin (q_base q)))
  | MResponse r => kind_ok (kind r) ∧ wrapper_plain (mkWrapper (requestor_addr (resp_base r)))
  | MError e => kerror_ok (error e)
  end.

(** The message [m], sent from the address [from], as [receive] presents it: the
    origin is the remote sender, the address field is the sender's own one in
    a query, the requestor's in a response and absent in an error, and an
    error carries no identifier. *)
Definition delivered (from : SocketAddr) (m : Message) : Message :=
  let b id requestor :=
    mkBase (SenderRemote (mkNodeInfo id from)) ReceiverMe requestor
      (transaction_id (base m)) (read_only (base m)) None in
  let me := sender_id (origin (base m)) in
  match m with
  | MQuery q => MQuery (mkQuery (method q) (b me (Some (sender_addr (origin (q_base q))))))
  | MResponse r => MResponse (mkResponseMsg (kind r) (b me (requestor_addr (resp_base r))))
  | MError e => MError (mkError (error e) (b min None))
  end.

Lemma to_kmsg_ok m : message_ok m → kmessage_ok (to_kmsg m).
Proof.
  destruct m as [[mt b]|[kd b]|[er b]]; intros [Hid Hm].
  - destruct Hm as [Hm Ha].
    destruct mt; cbn in Hm; repeat split; cbn; try done; try apply Hid; try apply Hm; try apply Ha.
  - destruct Hm as [Hk Ha].
    assert (Hp : ∀ ps, Forall peer_plain ps → Forall wrapper_plain ((λ p, mkWrapper (Some p)) <$> ps)).
    { intros ps Hps. by apply Forall_fmap. }
    destruct kd as [|ns tk|ps tk [ns|]|d|ns sm av iv]; cbn in Hk; repeat split; cbn; try done;
      try apply Hid; try apply Hk; try apply Hp, Hk; try apply Ha.
  - repeat split; try done; try apply Hid; apply Hm.
Qed.

Lemma omap_wrapped (ps : list SocketAddr) : omap socket_addr_of ((λ p, mkWrapper (Some p)) <$> ps) = ps.
Proof. induction ps as [|p ps IH]; [done |]. rewrite fmap_cons. cbn. by f_equal. Qed.

Lemma from_to_kmsg from m : message_ok m → from_kmsg from (to_kmsg m) = Ok (delivered from m).
Proof.
  destruct m as [[mt b]|[kd b]|[er b]]; intros [_ Hm].
  - by destruct mt.
  - destruct Hm as [Hk _]. destruct kd as [|ns tk|ps tk ns|d|ns sm av iv]; try done.
    + transitivity (Ok (E:=KnownError) (MResponse (mkResponseMsg
        (Peers (omap socket_addr_of ((λ p, mkWrapper (Some p)) <$> ps)) tk
           (dht_nodes <$> (mkCompactNodes <$> ns)))
        (mkBase (SenderRemote (mkNodeInfo (sender_id (origin b)) from)) ReceiverMe
           (requestor_addr b) (transaction_id b) (read_only b) None)))); [done |].
      rewrite omap_wrapped. by destruct ns.
    + destruct Hk as [Hv _], d as [[v|] sq pk sig]; [done | by destruct Hv].
  - done.
Qed.

(** What is sent is received. *)
Lemma to_bytes_receive `{ByteFormat to_vec from_slice} from m :
  message_ok m →
  ∃ bytes, to_bytes to_vec m = Ret bytes ∧ receive from_slice bytes from = Ok (delivered from m).
Proof.
  intros Hm. destruct (read_written (to_kmsg m) (to_kmsg_ok m Hm)) as (v & v' & Hs & Hr & Hd).
  exists (to_vec v). unfold to_bytes, receive. rewrite Hs. split; [done |].
  by rewrite Hr, Hd, (from_to_kmsg from m Hm).
Qed.

Definition methods : list string :=
  [Q_PING; Q_FIND_NODE; Q_ANNOUNCE_PEER; Q_GET_PEERS; Q_PUT; Q_GET; Q_SAMPLE_INFOHASHES].

Lemma args_method_error from name args e :
  args_method from name args = Err e →
  e = Protocol ∨
  e = MethodUnknown ∧ name ∉ methods ∧ a_info_hash args = None ∧ a_target args = None.
Proof.
  unfold args_method, methods.
  destruct (a_info_hash args), (a_target args), (a_token args); cbn [ok_or result_bind];
    repeat (case_bool_decide; [intros; simplify_eq; by left |]); intros He; simplify_eq.
  all: right; rewrite !not_elem_of_cons; split_and!; try done; apply not_elem_of_nil.
Qed.

Lemma args_method_unknown from name args :
  name ∉ methods →
  args_method from name args =
    match (match a_info_hash args with Some h => Some h | None => a_target args end) with
    | Some t => Ok (FindNode t)
    | None => Err MethodUnknown
    end.
Proof.
  unfold args_method, methods. rewrite !not_elem_of_cons. intros (?&?&?&?&?&?&?&_).
  by rewrite !bool_decide_eq_false_2.
Qed.

Lemma response_kind_error r e : response_kind r = Err e → e = Protocol.
Proof.
  unfold response_kind. repeat case_match; cbn; intros; simplify_eq; try done;
  by destruct (r_token r), (r_nodes r); simplify_eq/=.
Qed.

(** ** Properties *)

(** C23: a well-formed message (IPv4 nodes, addresses without flow label or scope, an
    error text in UTF-8, a data response that has a value) is written without
    panic, and its receiver reads back the same method, kind or error with the
    same transaction identifier and flags, from a remote origin made of the
    sender's identifier and the address the packet came from; the byte format
    is only assumed to read what it writes, up to the order of dictionaries. *)
Theorem message_roundtrip to_vec from_slice from m :
  ByteFormat to_vec from_slice → message_ok m →
  ∃ bytes, to_bytes to_vec m = Ret bytes ∧
           receive from_slice bytes from = Ok (delivered from m).
Proof.
  intros Hf Hm. by apply to_bytes_receive.
Qed.

Definition ex_sender : Sender := SenderMe (mkNodeInfo (new 1 2) (SocketV4 [127; 0; 0; 1] 1337)).
Definition ex_query (m : QueryMethod) : Message :=
  MQuery (mkQuery m (mkBase ex_sender (ReceiverAddr (SocketV4 [10; 0; 0; 1] 6881)) None
    [54; 53; 52] true None)).

Lemma message_roundtrip_witness :
  ∃ bytes, to_bytes bencode (ex_query (AnnouncePeer (new 3 4) 6881 [9])) = Ret bytes ∧
    receive bdecode bytes (SocketV4 [127; 127; 127; 127] 127) =
      Ok (delivered (SocketV4 [127; 127; 127; 127] 127) (ex_query (AnnouncePeer (new 3 4) 6881 [9]))).
Proof.
  apply message_roundtrip; [exact bencode_format |].
  by repeat split; cbn; try lia; repeat constructor.
Defined.

(** C37: when a decoded dictionary is no message the error is [Protocol], but for a
    query with arguments and an unknown method that names neither an info hash
    nor a target, where it is [MethodUnknown]; an unknown method that names one
    of them is read as a [find_node] for it, the info hash first. *)
Theorem from_kmsg_errors from k :
  (∀ e, from_kmsg from k = Err e →
     e = Protocol ∨
     e = MethodUnknown ∧ k_message_type k = Y_QUERY ∧
       ∃ args name, k_arguments k = Some args ∧ k_query_method k = Some name ∧
         name ∉ methods ∧ a_info_hash args = None ∧ a_target args = None) ∧
  (∀ args name, k_message_type k = Y_QUERY → k_arguments k = Some args →
     k_query_method k = Some name → name ∉ methods →
     match (match a_info_hash args with Some h => Some h | None => a_target args end) with
     | Some t => ∃ b, from_kmsg from k = Ok (MQuery (mkQuery (FindNode t) b)) ∧
                      origin b = SenderRemote (mkNodeInfo (a_id args) from)
     | None => from_kmsg from k = Err MethodUnknown
     end).
Proof.
  split.
  - intros e. unfold from_kmsg. case_bool_decide.
    { destruct (k_error k); cbn; intros; simplify_eq. by left. }
    case_bool_decide.
    + destruct (k_arguments k) as [args|]; cbn; [| intros [= <-]; by left].
      destruct (k_query_method k) as [name|]; cbn; [| intros [= <-]; by left].
      destruct (args_method from name args) as [|e'] eqn:E; cbn; intros [= <-].
      apply args_method_error in E as [->|(-> & ?)]; [by left | right]. naive_solver.
    + case_bool_decide; [| intros [= <-]; by left].
      destruct (k_response k) as [r|]; cbn; [| intros [= <-]; by left].
      destruct (response_kind r) as [|e'] eqn:E; cbn; intros [= <-].
      left. by apply response_kind_error in E.
  - intros args name Hy Ha Hq Hn. unfold from_kmsg. rewrite Hy, Ha, Hq. cbn [ok_or result_bind].
    rewrite bool_decide_eq_false_2, bool_decide_eq_true_2 by done.
    rewrite args_method_unknown by done.
    destruct (a_info_hash args); [cbn; eauto |]. destruct (a_target args); cbn; eauto.
Qed.

(** The four bytes of a client version are read and written back unchanged;
    the version is the big-endian number of the last two, and the name depends
    on the first two only. *)
Theorem client_bytes_roundtrip b0 b1 b2 b3 :
  bytes_ok [b0; b1; b2; b3] →
  client_to_bytes (client_from_bytes b0 b1 b2 b3) = [b0; b1; b2; b3] ∧
  c_version (client_from_bytes b0 b1 b2 b3) = b2 * 256 + b3 ∧
  c_name (client_from_bytes b0 b1 b2 b3) = client_name [b0; b1].
Proof.
  intros Hb. unfold bytes_ok, is_byte in Hb. rewrite !Forall_cons in Hb.
  destruct Hb as (H0 & H1 & H2 & H3 & _).
  assert (Hw : wrap 16 (Z.shiftl b2 8) = Z.shiftl b2 8).
  { apply wrap_id. unfold in_width in *. rewrite Z.shiftl_mul_pow2 by lia. lia. }
  unfold client_to_bytes, client_from_bytes. cbn [c_name c_code c_version fst snd]. rewrite Hw.
  rewrite lor_shiftl_add by (done || lia). unfold in_width in *.
  split_and!; [| done | done]. unfold wrap. rewrite Z.shiftr_div_pow2 by lia.
  change 0xff with (Z.ones 8). rewrite Z.land_ones by lia.
  change (2 ^ 8) with 256 in *. repeat (f_equal; try (Z.to_euclidean_division_equations; lia)).
Qed.

Lemma client_bytes_roundtrip_witness :
  c_name (client_from_bytes 76 84 1 2) = client_name [76; 84] ∧
  client_name [76; 84] = "libtorrent"%string.
Proof.
  split; [| reflexivity]. apply (client_bytes_roundtrip 76 84 1 2).
  by repeat constructor.
Defined.
