(* ===== verification/Display.v ===== *)
(** * What the log shows

    The [Display] and [Debug] implementations of the program: identifiers
    ([src/u160.rs]), contacts ([src/node_info.rs]), clients
    ([src/messenger/message.rs]) and messages
    ([src/messenger/message/message_impl.rs]). *)

From S2P Require Import Prelude Text Externals Net U160 NodeInfo Wire Kmsg Message.
From Stdlib Require Import Ascii.

#[local] Open Scope string_scope.

(** [char] as UTF-8, for the code points below 256 that a client's code has *)
Definition char_text (c : Z) : string :=
  bytes_string (if (c <? 128)%Z then [c] else [Z.lor 0xc0 (Z.shiftr c 6); Z.lor 0x80 (Z.land c 0x3f)]).

(** [impl Display for Client] *)
Definition display_client (self : Client) : string :=
  let disp :=
    if bool_decide (c_name self = "Unknown") then char_text (c_code self).1 +:+ char_text (c_code self).2
    else c_name self in
  "(" +:+ disp +:+ ")".

(** [Display] of [Ipv4Addr] in [std::net] *)
Definition display_octets (o : list Z) : string := String.concat "." (dec <$> o).

Definition quote : string := String (Ascii.ascii_of_nat 34) "".

Section Display.
(** The encoders of the [base64] and [hex] crates, [Display] of a [SocketAddrV6],
    which differs between versions of Rust, and that of a [chrono::Duration] *)
Context (base64_encode hex_encode : list Z → string).
Context (display_v6 : list Z → Z → Z → Z → string) (display_duration : Z → string).

(** [Display] of [SocketAddr] in [std::net] *)
Definition display_sock (a : SocketAddr) : string :=
  match a with
  | SocketV4 o port => display_octets o +:+ ":" +:+ dec port
  | SocketV6 o port flowinfo scope_id => display_v6 o port flowinfo scope_id
  end.

(** [impl Display for U160], [impl Debug for U160] *)
Definition display_u160 (self : U160) : string := base64_encode (to_be_bytes self).
Definition debug_u160 (self : U160) : string := base64_encode (to_be_bytes self).

(** The octets of an address, each with three digits *)
Definition padded_octets (o : list Z) : string := String.concat "." (padded 3 <$> o).

(** [impl Display for NodeInfo] *)
Definition display_node (self : NodeInfo) : string :=
  "[" +:+ display_u160 (id self) +:+ "@" +:+
  match addr self with
  | SocketV6 _ _ _ _ => display_sock (addr self) +:+ "]"
  | SocketV4 b port => padded_octets b +:+ ":" +:+ padded 5 port +:+ "]"
  end.

(** [impl Debug for NodeInfo] *)
Definition debug_node (self : NodeInfo) : string :=
  "[" +:+ display_u160 (id self) +:+ "@" +:+ display_sock (addr self) +:+ "]".

(** [impl Display for Receiver], [impl Display for Sender] *)
Definition display_receiver (self : Receiver) : string :=
  match self with
  | ReceiverNode n => display_node n
  | ReceiverAddr a => "[" +:+ display_sock a +:+ "]"
  | ReceiverMe => "[Me]"
  end.
Definition display_sender (self : Sender) : string :=
  match self with
  | SenderRemote n => display_node n
  | SenderMe _ => "[Me]"
  end.

(** The other side of a message, as the three implementations below begin *)
Definition display_remote (b : MessageBase) : string :=
  match origin b with
  | SenderRemote n => display_node n +:+ from_option display_client "" (client b)
  | SenderMe _ => display_receiver (destination b)
  end.

(** [impl Display for Query] *)
Definition display_query (q : Query) : string :=
  display_remote (q_base q) +:+ " " +:+
  match method q with
  | Ping => "PING"
  | FindNode n => "FIND " +:+ display_u160 n
  | GetPeers i => "GET PEERS " +:+ display_u160 i
  | AnnouncePeer info_hash _ token => "ANNOUNCES " +:+ display_u160 info_hash +:+ " with token " +:+ base64_encode token
  | Put _ => "PUTs data"
  | Get => "GETs data"
  | SampleInfohashes _ => "GET SAMPLES"
  end.

Definition count {A} (l : list A) : string := dec (Z.of_nat (length l)).

(** [impl Display for Response] *)
Definition display_response (r : Response) : string :=
  display_remote (resp_base r) +:+ " " +:+
  match kind r with
  | KindOk => "OK"
  | KNearest k t =>
      "NEAREST " +:+ count k +:+ " nodes" +:+ from_option (λ t, " and token " +:+ base64_encode t) "" t
  | Peers p t n =>
      count p +:+ " PEERS, " +:+ count (default [] n) +:+ " NODES, and token " +:+ base64_encode t
  | Data _ => "some data"
  | Samples _ samples available interval =>
      count samples +:+ " of " +:+ dec available +:+ " hashes (refresh in " +:+ display_duration interval +:+ ")"
  end.

(** [impl Display for Error] *)
Definition display_error (e : Error) : string :=
  display_remote (err_base e) +:+ " (" +:+ dec (error_code (error e)) +:+ ") " +:+ quote +:+ error_text (error e) +:+ quote.

(** [impl Display for Message] *)
Definition display_message (self : Message) : string :=
  let out_in := match origin (base self) with SenderRemote _ => "<<<<" | SenderMe _ => ">>>>" end in
  "[T:" +:+ hex_encode (transaction_id (base self)) +:+
  match self with
  | MQuery q => " Q" +:+ out_in +:+ "]" +:+ display_query q
  | MResponse r => " R" +:+ out_in +:+ "]" +:+ display_response r
  | MError e => " E" +:+ out_in +:+ "]" +:+ display_error e
  end.
End Display.

(** ** Facts *)

(** What is used of the encoders: base64 makes four characters of three bytes, the
    last group filled up, and hex never makes a space. *)
Class TextCodes (base64_encode hex_encode : list Z → string) : Prop := {
  base64_length l : bytes_ok l → String.length (base64_encode l) = (4 * ((length l + 2) / 3))%nat;
  base64_inj l l' : bytes_ok l → bytes_ok l' → length l = length l' → base64_encode l = base64_encode l' → l = l';
  hex_inj l l' : bytes_ok l → bytes_ok l' → hex_encode l = hex_encode l' → l = l';
  hex_plain l : bytes_ok l → Forall (λ c, c ≠ " "%char) (String.list_ascii_of_string (hex_encode l));
}.

(** The text before the first space *)
Lemma before_space (a a' b b' : string) :
  Forall (λ c, c ≠ " "%char) (String.list_ascii_of_string a) →
  Forall (λ c, c ≠ " "%char) (String.list_ascii_of_string a') →
  a +:+ String " " b = a' +:+ String " " b' → a = a' ∧ b = b'.
Proof.
  revert a'. induction a as [|c a IH]; intros [|c' a'] Ha Ha' E.
  - by injection E.
  - injection E as <- _. by apply Forall_cons in Ha' as [? _].
  - injection E as -> _. by apply Forall_cons in Ha as [? _].
  - apply Forall_cons in Ha as [_ Ha]. apply Forall_cons in Ha' as [_ Ha'].
    injection E as -> E. by destruct (IH a' Ha Ha' E) as [-> ->].
Qed.

Lemma padded_octets_spec o :
  bytes_ok o → length o = 4%nat →
  String.length (padded_octets o) = 15%nat ∧
  ∀ o', bytes_ok o' → length o' = 4%nat → padded_octets o = padded_octets o' → o = o'.
Proof.
  assert (Hlen : ∀ b, is_byte b → String.length (padded 3 b) = 3%nat).
  { intros b Hb. apply padded_length; [| lia]. unfold is_byte, in_width in Hb. simpl in *. lia. }
  assert (Hinj : ∀ b b' s s', is_byte b → is_byte b' → padded 3 b +:+ s = padded 3 b' +:+ s' → b = b' ∧ s = s').
  { intros b b' s s' Hb Hb' E. apply string_app_inj in E as [E ->]; [| by rewrite !Hlen].
    split; [| done]. unfold is_byte, in_width in *. apply (padded_inj 3); [lia.. | done]. }
  intros Ho Hl. destruct o as [|a [|b [|c [|d [|]]]]]; try done.
  repeat (apply Forall_cons in Ho as [? Ho]).
  split.
  { unfold padded_octets. cbn [String.concat fmap list_fmap]. by rewrite !string_length_app, !Hlen by done. }
  intros o' Ho' Hl'. destruct o' as [|a' [|b' [|c' [|d' [|]]]]]; try done.
  repeat (apply Forall_cons in Ho' as [? Ho']). unfold padded_octets. cbn [String.concat fmap list_fmap].
  intros E. apply Hinj in E as [-> E]; [| done..]. injection E as E. apply Hinj in E as [-> E]; [| done..].
  injection E as E. apply Hinj in E as [-> E]; [| done..]. injection E as E.
  rewrite <- (string_app_nil_r (padded 3 d)), <- (string_app_nil_r (padded 3 d')) in E.
  by apply Hinj in E as [-> _].
Qed.

#[export] Instance text_codes : TextCodes base64_text hex_text.
Proof.
  split; unfold base64_text.
  - intros l Hl. by rewrite length_bytes_string, length_base64_chars.
  - intros l l' Hl Hl' Hn E%bytes_string_inj; [| by apply base64_chars_ok..]. by apply base64_chars_inj.
  - exact hex_text_inj.
  - exact hex_text_plain.
Qed.

Section Facts.
Context (base64_encode hex_encode : list Z → string) `{Hcodes : TextCodes base64_encode hex_encode}.
Context (display_v6 : list Z → Z → Z → Z → string) (display_duration : Z → string).
#[local] Abbreviation node_text := (display_node base64_encode display_v6).
#[local] Abbreviation line := (display_message base64_encode hex_encode display_v6 display_duration).

(** The text of an IPv4 contact: 52 characters, and no other contact has it, even
    when more text follows. *)
Lemma node_text_spec n n' s s' :
  node_v4 n → node_v4 n' →
  String.length (node_text n) = 52%nat ∧ (node_text n +:+ s = node_text n' +:+ s' → n = n' ∧ s = s').
Proof using Hcodes.
  assert (Hu : ∀ u, String.length (display_u160 base64_encode u) = 28%nat).
  { intros u. unfold display_u160. rewrite base64_length by apply to_be_bytes_ok. by rewrite length_to_be_bytes. }
  assert (Hp : ∀ q, in_width 16 q → String.length (padded 5 q) = 5%nat).
  { intros q Hq. apply padded_length; [| lia]. unfold in_width in Hq. simpl in *. lia. }
  intros Hn Hn'. destruct n as [i [o q|]], n' as [i' [o' q'|]]; try (by destruct Hn, Hn').
  destruct Hn as [[Hi [[Ho Hol] Hport]] _], Hn' as [[Hi' [[Ho' Hol'] Hport']] _]. cbn [id addr sock_ip sock_port] in *.
  destruct (padded_octets_spec o Ho Hol) as [Hlen Hinj]. destruct (padded_octets_spec o' Ho' Hol') as [Hlen' _].
  unfold node_text. cbn [id addr]. split.
  - rewrite !string_length_app, Hu, Hlen, Hp by done. done.
  - rewrite !string_app_assoc. intros E%string_app_cancel.
    apply string_app_inj in E as [Eu E%string_app_cancel]; [| by rewrite !Hu].
    apply string_app_inj in E as [Eo E%string_app_cancel]; [| by rewrite Hlen, Hlen'].
    apply string_app_inj in E as [Ep E%string_app_cancel]; [| by rewrite !Hp]. split; [| done].
    unfold display_u160 in Eu. apply base64_inj in Eu; [| apply to_be_bytes_ok.. | by rewrite !length_to_be_bytes].
    apply (f_equal from_be_bytes) in Eu. rewrite !from_be_to_be_bytes in Eu by done.
    apply padded_inj in Ep; [| apply Hport | apply Hport']. by rewrite Eu, (Hinj o'), Ep.
Qed.

(** What kind of message it is, and whether it came in *)
Definition kind_of (m : Message) : string :=
  match m with MQuery _ => "Q" | MResponse _ => "R" | MError _ => "E" end.
Definition came_in (m : Message) : bool :=
  match origin (base m) with SenderRemote _ => true | SenderMe _ => false end.

(** The parts of a line *)
Lemma line_parts m :
  ∃ rest, line m = "[T:" +:+ hex_encode (transaction_id (base m)) +:+
    String " " (kind_of m +:+ (if came_in m then "<<<<" else ">>>>") +:+ "]" +:+
      display_remote base64_encode display_v6 (base m) +:+ rest).
Proof using Type.
  unfold display_message, display_query, display_response, display_error, came_in.
  destruct m as [q|r|e]; cbn [base kind_of];
    (eexists; destruct (origin _); rewrite ?string_app_assoc; reflexivity).
Qed.

(** A line of the log tells messages apart: two messages that are shown by the
    same text have the same transaction identifier, are both queries, both
    responses or both errors, both came in or both go out, and if they came in
    from IPv4 addresses, then from the same contact; its text always takes 52
    characters, so that the columns of the log are aligned. *)
Theorem log_line_tells m m' :
  bytes_ok (transaction_id (base m)) → bytes_ok (transaction_id (base m')) →
  line m = line m' →
  transaction_id (base m) = transaction_id (base m') ∧ kind_of m = kind_of m' ∧ came_in m = came_in m' ∧
  ∀ n n', origin (base m) = SenderRemote n → origin (base m') = SenderRemote n' →
    node_v4 n → node_v4 n' → n = n' ∧ String.length (node_text n) = 52%nat.
Proof using Hcodes.
  intros Ht Ht' E. destruct (line_parts m) as [r Hr], (line_parts m') as [r' Hr']. rewrite Hr, Hr' in E.
  apply string_app_cancel, before_space in E as [Eh E]; [| by apply hex_plain..].
  apply string_app_inj in E as [Ek E]; [| by destruct m, m'].
  apply string_app_inj in E as [Ed E%string_app_cancel]; [| by destruct (came_in m), (came_in m')].
  split_and!.
  - by apply (hex_inj (base64_encode:=base64_encode)).
  - done.
  - by destruct (came_in m), (came_in m').
  - intros n n' Ho Ho' Hn Hn'. unfold display_remote in E. rewrite Ho, Ho', !string_app_assoc in E.
    destruct (node_text_spec n n' (from_option display_client "" (client (base m)) +:+ r)
      (from_option display_client "" (client (base m')) +:+ r') Hn Hn') as [Hl Hi].
    split; [by apply Hi | done].
Qed.
End Facts.

(** ** Examples *)

Definition ex_contact : NodeInfo := mkNodeInfo (new 5 6) (SocketV4 [10; 0; 0; 7] 6881).
Definition ex_announce (port : Z) : Message :=
  MQuery (mkQuery (AnnouncePeer (new 1 2) port [104; 105])
    (mkBase (SenderRemote ex_contact) ReceiverMe None [171; 1] false (Some (client_from_bytes 76 84 1 2)))).

Definition ex_line : Message → string :=
  display_message base64_text hex_text (λ _ _ _ _, "") dec.

Example ex_announce_line :
  ex_line (ex_announce 99) =
  "[T:ab01 Q<<<<][AAAAAAAAAAAAAAAAAAAABQAAAAY=@010.000.000.007:06881](libtorrent) ANNOUNCES AAAAAAAAAAAAAAAAAAAAAQAAAAI= with token aGk=".
Proof. vm_compute. reflexivity. Qed.

(** The announced port is not shown, so two announcements can share their text. *)
Lemma log_line_tells_witness :
  ex_line (ex_announce 1) = ex_line (ex_announce 2) ∧
  kind_of (ex_announce 1) = kind_of (ex_announce 2) ∧
  String.length (display_node base64_text (λ _ _ _ _, "") ex_contact) = 52%nat.
Proof.
  assert (E : ex_line (ex_announce 1) = ex_line (ex_announce 2)) by reflexivity.
  destruct (log_line_tells base64_text hex_text (λ _ _ _ _, "") dec (ex_announce 1) (ex_announce 2))
    as (_ & Hk & _ & Hn); [by repeat constructor.. | exact E |].
  split_and!; [exact E | exact Hk |].
  apply (Hn ex_contact ex_contact); try reflexivity; by repeat split; repeat constructor.
Defined.
