(* ===== verification/Received.v ===== *)
(** * What is received is well typed

    The ranges and shapes that the types of the program give to the data of a
    message, as they come out of arbitrary bytes: the class [SerdeTyped] says of a
    type that whatever its [de] accepts is a value of it, [args_ok], [kind_ok]
    and the like are these values, and [receive] yields messages of them only. *)

From S2P Require Import Prelude Text Externals Net U160 NodeInfo Wire Format Kmsg Message.

(** ** The interface *)

(** A reader makes values in [ok] from any value made of bytes. *)
Definition reads_typed {A} (dec : sval → result A serde_error) (ok : A → Prop) : Prop :=
  ∀ v a, sval_bytes v → dec v = Ok a → ok a.

Class SerdeTyped (A : Type) `{Serde A} (ok : A → Prop) : Prop := {
  de_typed : reads_typed (de (A:=A)) ok;
}.

Lemma result_bind_Ok {A B E} (m : result A E) (k : A → result B E) b :
  result_bind m k = Ok b ↔ ∃ a, m = Ok a ∧ k a = Ok b.
Proof. destruct m; naive_solver. Qed.

(** Invert the steps of a decoder that succeeded. *)
Ltac inv_result :=
  repeat match goal with
    | H : result_bind _ _ = Ok _ |- _ =>
        apply result_bind_Ok in H;
        let a := fresh "a" in let E := fresh "E" in destruct H as (a & E & H)
    | H : Ok _ = Ok _ |- _ => apply Ok_inj in H; subst
    | H : Err _ = Ok _ |- _ => discriminate H
    end.

(** ** Atoms *)

Lemma as_bytes_typed : reads_typed as_bytes bytes_ok.
Proof. intros v a Hv H. by inv Hv; simplify_eq/=. Qed.

Lemma as_uint_typed w : reads_typed (as_uint w) (in_width w).
Proof.
  intros [|z| |] a Hv; try done. unfold as_uint, in_width.
  destruct (Z.leb_spec 0 z), (Z.ltb_spec z (2 ^ w)); try done. by intros [= <-].
Qed.

Lemma as_sint_typed w : reads_typed (as_sint w) (in_signed w).
Proof.
  intros [|z| |] a Hv; try done. unfold as_sint, in_signed.
  destruct (Z.leb_spec (- 2 ^ (w - 1)) z), (Z.ltb_spec z (2 ^ (w - 1))); try done. by intros [= <-].
Qed.

Lemma collect_typed {A} (dec : sval → result A serde_error) ok vs l :
  reads_typed dec ok → Forall sval_bytes vs → collect dec vs = Ok l → Forall ok l.
Proof.
  intros Hdec Hvs. revert l. induction Hvs as [|v vs Hv Hvs IH]; intros l H; cbn [collect] in H; inv_result.
  - constructor.
  - constructor; [by eapply Hdec | by apply IH].
Qed.

#[export] Instance vec_typed {A} `{SerdeTyped A ok} : SerdeTyped (list A) (Forall ok).
Proof.
  split. intros v l Hv Hd. cbn [de vec_serde] in Hd. inv_result. inv Hv; simplify_eq/=.
  by eapply collect_typed; [apply de_typed | |].
Qed.

(** ** Types with byte codecs *)

Lemma bytes_ok_chunks n l : bytes_ok l → Forall bytes_ok (chunks_exact n l).
Proof.
  intros Hl. unfold chunks_exact. generalize (length l) as fuel. intros fuel. revert l Hl.
  induction fuel as [|fuel IH]; intros l Hl; simpl; [constructor |]. case_decide; constructor; auto with bytes.
Qed.

Lemma length_chunks {A} n (l : list A) : Forall (λ c, length c = n) (chunks_exact n l).
Proof.
  unfold chunks_exact. generalize (length l) as fuel. intros fuel. revert l.
  induction fuel as [|fuel IH]; intros l; simpl; [constructor |]. case_decide; constructor; [| done].
  rewrite length_take. lia.
Qed.

#[export] Instance u160_typed : SerdeTyped U160 u160_ok.
Proof.
  split. intros v u Hv Hd. cbn [de u160_serde] in Hd. inv_result. apply as_bytes_typed in E; [| done].
  pose proof (u160_visit_bytes_correct a E) as Hc. case_decide; [| congruence].
  destruct Hc as (u' & Hu & Hok & _). congruence.
Qed.

#[export] Instance node_typed : SerdeTyped NodeInfo node_plain.
Proof.
  split. intros v n Hv Hd. cbn [de node_serde] in Hd. unfold node_de in Hd. inv_result.
  apply as_bytes_typed in E; [| done]. unfold visit_bytes in Hd.
  assert (Hnode : ∀ m ip, (26 ≤ length a)%nat → ip_ok ip →
    m = mkNodeInfo (from_be_bytes (take 20 a)) (socket_addr ip (from_be (drop (length a - 2) a))) →
    node_plain m).
  { intros m ip Hlen Hip ->. split; [split |]; cbn [id addr].
    - apply from_be_bytes_ok; auto with bytes. rewrite length_take. lia.
    - unfold sock_ok. rewrite socket_addr_ip, socket_addr_port. split; [done |].
      replace 16 with (8 * Z.of_nat (length (drop (length a - 2) a))) by (rewrite length_drop; lia).
      auto with bytes.
    - apply socket_addr_plain. }
  destruct (decide (length a = 26%nat)) as [E26|N26]; [| destruct (decide (length a = 38%nat)) as [E38|N38]].
  - apply (Hnode n (V4 (take 4 (drop 20 a)))); [lia | | rewrite E26 in Hd |- *; cbn [result_bind] in Hd; by inv_result].
    split; [auto with bytes |]. rewrite length_take, length_drop. lia.
  - apply (Hnode n (V6 (take 16 (drop 20 a)))); [lia | | rewrite E38 in Hd |- *; cbn [result_bind] in Hd; by inv_result].
    split; [auto with bytes |]. rewrite length_take, length_drop. lia.
  - exfalso. destruct (proj2 (proj2 (proj2 node_serde_roundtrip) a) (conj N26 N38)) as [e He].
    unfold visit_bytes in He. rewrite He in Hd. by destruct e.
Qed.

Lemma wrapper_visit_typed a : bytes_ok a → wrapper_plain (wrapper_visit_bytes a).
Proof.
  intros Ha. unfold wrapper_visit_bytes.
  assert (Hport : (2 ≤ length a)%nat → in_width 16 (from_be (drop (length a - 2) a))).
  { intros Hl. replace 16 with (8 * Z.of_nat (length (drop (length a - 2) a))) by (rewrite length_drop; lia).
    auto with bytes. }
  assert (Hplain : ∀ ip, (2 ≤ length a)%nat → ip_ok ip →
    wrapper_plain (mkWrapper (Some (socket_addr ip (from_be (drop (length a - 2) a)))))).
  { intros ip Hl Hip. split; [| apply socket_addr_plain]. unfold sock_ok.
    rewrite socket_addr_ip, socket_addr_port. auto. }
  destruct (decide (length a = 6%nat)) as [E|N6]; [| destruct (decide (length a = 18%nat)) as [E|N18]].
  - pose proof Hplain as H. rewrite E in *. apply H; [lia |]. split; [auto with bytes |]. rewrite length_take. lia.
  - pose proof Hplain as H. rewrite E in *. apply H; [lia |]. split; [auto with bytes |]. rewrite length_take. lia.
  - do 19 (destruct a as [|? a]; [done |]). done.
Qed.

#[export] Instance wrapper_typed : SerdeTyped SocketAddrWrapper wrapper_plain.
Proof.
  split. intros v w Hv Hd. cbn [de wrapper_serde] in Hd. inv_result.
  by apply wrapper_visit_typed, (as_bytes_typed v).
Qed.

#[export] Instance compact_nodes_typed : SerdeTyped CompactIPv4NodeInfo compact_nodes_ok.
Proof.
  split. intros v c Hv Hd. cbn [de compact_nodes_serde] in Hd. inv_result.
  apply as_bytes_typed in E; [| done]. unfold compact_nodes_ok, compact_nodes_visit_bytes. cbn [dht_nodes].
  apply Forall_fmap. pose proof (bytes_ok_chunks IPV4_DHT_NODE_BYTES_LEN a E) as Hb.
  pose proof (length_chunks IPV4_DHT_NODE_BYTES_LEN a) as Hl. rewrite Forall_forall in *.
  intros c Hc. split; [by apply ip4_from_bytes_ok; [apply Hb | apply Hl] | done].
Qed.

#[export] Instance compact_hashes_typed : SerdeTyped CompactInfoHashes compact_hashes_ok.
Proof.
  split. intros v c Hv Hd. cbn [de compact_hashes_serde] in Hd. inv_result.
  apply as_bytes_typed in E; [| done]. unfold compact_hashes_ok, compact_hashes_visit_bytes. cbn [info_hashes].
  apply Forall_fmap. pose proof (bytes_ok_chunks 20 a E) as Hb. pose proof (length_chunks 20 a) as Hl.
  rewrite Forall_forall in *. intros c Hc. by apply from_be_bytes_ok; [apply Hb | apply Hl].
Qed.

#[export] Instance string_typed : SerdeTyped string string_ok.
Proof.
  split. intros v s Hv Hd. cbn [de string_serde] in Hd. inv_result. apply as_bytes_typed in E; [| done].
  destruct (utf8_valid a) eqn:Hu; inv_result. unfold string_ok. by rewrite string_bytes_string.
Qed.

#[export] Instance kerror_typed : SerdeTyped KError kerror_ok.
Proof.
  split. intros v e Hv Hd. cbn [de kerror_serde] in Hd. inv_result.
  assert (Ha : Forall sval_bytes a) by (by inv Hv; simplify_eq/=).
  unfold kerror_visit_seq in Hd. inv_result. destruct a0 as [zero seq]. inv_result. destruct a0 as [one rest].
  inv_result. assert (Hz : opt_ok (in_width 16) zero ∧ Forall sval_bytes seq).
  { destruct Ha as [|w ws Hw Hws]; cbn [next_element] in E0; inv_result;
      [injection E0 as <- <-; split; [done | constructor] |].
    injection E0 as <- <-. split; [by apply (as_uint_typed 16 w) | done]. }
  destruct Hz as [Hz Hseq]. assert (Ho : opt_ok string_ok one).
  { destruct Hseq as [|w ws Hw Hws]; cbn [next_element] in E1; inv_result; [by injection E1 as <- <- |].
    injection E1 as <- <-. by apply (de_typed (ok:=string_ok) w). }
  split; [destruct zero | destruct one]; done.
Qed.

(** ** Dictionaries *)

Definition entries_bytes (l : list (string * sval)) : Prop := Forall (λ p, sval_bytes p.2) l.

Lemma as_map_typed v l : sval_bytes v → as_map v = Ok l → entries_bytes l.
Proof. intros Hv H. by inv Hv; simplify_eq/=. Qed.

Lemma get_field_typed name l o : entries_bytes l → get_field name l = Ok o → opt_ok sval_bytes o.
Proof.
  unfold entries_bytes. intros Hl. unfold get_field. destruct (filter (λ p, p.1 = name) l) as [|p [|]] eqn:E; intros [= <-]; [done |].
  rewrite Forall_forall in Hl. apply Hl.
  assert (Hp : p ∈ filter (λ p, p.1 = name) l) by (rewrite E; apply list_elem_of_here).
  by apply list_elem_of_filter in Hp as [_ ?].
Qed.

Lemma optional_typed {A} (dec : sval → result A serde_error) ok name l o :
  reads_typed dec ok → entries_bytes l → optional dec name l = Ok o → opt_ok ok o.
Proof.
  intros Hdec Hl H. unfold optional in H. inv_result. apply get_field_typed in E; [| done].
  destruct a as [v|]; inv_result; [by apply (Hdec v) | done].
Qed.

Lemma required_typed {A} (dec : sval → result A serde_error) ok name l a :
  reads_typed dec ok → entries_bytes l → required dec name l = Ok a → ok a.
Proof.
  intros Hdec Hl H. unfold required in H. inv_result. apply (optional_typed dec ok) in E; [| done..].
  destruct a0; cbn [ok_or] in H; by inv_result.
Qed.

#[export] Hint Resolve as_bytes_typed as_uint_typed as_sint_typed : typed.

(** Type every field that was read from the dictionary. *)
Ltac read_typed :=
  repeat match goal with
    | E : as_map ?v = Ok ?l, Hv : sval_bytes ?v |- _ => apply (as_map_typed v l Hv) in E
    | E : required _ _ _ = Ok _ |- _ =>
        eapply required_typed in E; [| solve [apply de_typed | eauto with typed] | done]
    | E : optional _ _ _ = Ok _ |- _ =>
        eapply optional_typed in E; [| solve [apply de_typed | eauto with typed] | done]
    end.

(** The decoded arguments: as [args_ok], and the token is a string of bytes. *)
Definition args_typed (a : MessageArgs) : Prop := args_ok a ∧ opt_ok bytes_ok (a_token a).

#[export] Instance args_serde_typed : SerdeTyped MessageArgs args_typed.
Proof.
  split. intros v a Hv H. cbn [de args_serde] in H. unfold args_de, args44_de in H. inv_result.
  read_typed. unfold args_typed, args_ok, args44_ok. by split_and!.
Qed.

#[export] Instance response_serde_typed : SerdeTyped KResponse response_ok.
Proof.
  split. intros v r Hv H. cbn [de response_serde] in H. unfold response_de, response44_de, response51_de in H.
  inv_result. read_typed. unfold response_ok, response44_ok, response51_ok. by split_and!.
Qed.

(** The decoded message: as [kmessage_ok], with tokens of bytes. *)
Definition kmessage_typed (k : KMessage) : Prop :=
  kmessage_ok k ∧ opt_ok args_typed (k_arguments k).

#[export] Instance kmessage_serde_typed : SerdeTyped KMessage kmessage_typed.
Proof.
  split. intros v k Hv H. cbn [de kmessage_serde] in H. unfold kmessage_de in H. inv_result. read_typed.
  assert (Hargs : ∀ o, opt_ok args_typed o → opt_ok args_ok o) by (by intros [?|]; [intros [] |]).
  unfold kmessage_typed, kmessage_ok. split_and!; try done. by apply Hargs.
Qed.

(** ** Messages *)

(** The method of a decoded query, the port of an announcement being that of the
    sender when it names none *)
Lemma args_method_typed from name args m :
  args_typed args → sock_ok from → args_method from name args = Ok m →
  method_ok m ∧ match m with AnnouncePeer _ _ token => bytes_ok token | _ => True end.
Proof.
  intros [(Hid & Ht & Hp & Hh & H44) Htok] [_ Hport] H. unfold args_method in H.
  repeat (case_bool_decide; [inv_result |]); inv_result; try done.
  all: repeat match goal with
    | E : ok_or ?o _ = Ok _ |- _ => destruct o eqn:?; cbn [ok_or] in E; inv_result
    end; try done.
  - split; [| done]. split; [done |]. by destruct (a_implied_port args) as [[]|], (a_port args).
  - destruct (a_info_hash args), (a_target args); inv_result; done.
Qed.

Lemma response_kind_typed r k : response_ok r → response_kind r = Ok k → kind_ok k.
Proof.
  intros (_ & Hns & Hvals & H44 & Hiv & Hsm & Hnum) H. unfold response_kind in H.
  destruct (r_values r) as [peers|].
  { inv_result. split; [| by destruct (r_nodes r)]. cbn in Hvals. clear -Hvals.
    induction Hvals as [|[[a|]] ps Ha Hps IH]; cbn; [constructor | by constructor | done]. }
  destruct (r_v (r_bep44 r)) eqn:Hv.
  { inv_result. split; [congruence | done]. }
  destruct (r_samples (r_bep51 r)) as [hs|].
  { inv_result. destruct (r_nodes r); cbn [ok_or] in E; inv_result. split_and!; [done | done | |].
    - by destruct (r_num (r_bep51 r)).
    - by destruct (r_interval (r_bep51 r)). }
  destruct (r_nodes r); by inv_result.
Qed.

(** What a decoded message is: well formed, from a remote node at the address it
    came from, addressed to us, and with a token made of bytes if it announces *)
Record message_typed (from : SocketAddr) (m : Message) : Prop := {
  mt_ok : message_ok m;
  mt_origin : origin (base m) = SenderRemote (mkNodeInfo (sender_id (origin (base m))) from);
  mt_destination : destination (base m) = ReceiverMe;
  mt_token : match m with
    | MQuery q => match method q with AnnouncePeer _ _ token => bytes_ok token | _ => True end
    | _ => True
    end;
}.

Lemma from_kmsg_typed from k m :
  kmessage_typed k → sock_ok from → sock_plain from → from_kmsg from k = Ok m → message_typed from m.
Proof.
  intros [(Hy & Hq & _ & Hr & He & Hip) Ha] Ho Hp H. unfold from_kmsg in H.
  assert (Hreq : wrapper_plain (mkWrapper
    (match k_requestor_ip k with Some w => socket_addr_of w | None => None end))).
  { destruct (k_requestor_ip k) as [[o]|]; [exact Hip | done]. }
  case_bool_decide; [| case_bool_decide; [| case_bool_decide; [| done]]]; inv_result.
  - destruct (k_error k) as [e|]; cbn [ok_or] in E; inv_result. by split; [split | | |].
  - destruct (k_arguments k) as [args|]; cbn [ok_or] in E; inv_result. cbn in Ha.
    apply args_method_typed in E1 as [Hm Htok]; [| done..]. split; [| done | done | exact Htok].
    split; [apply Ha |]. by split.
  - destruct (k_response k) as [r|]; cbn [ok_or] in E; inv_result. cbn in Hr.
    apply response_kind_typed in E0; [| done]. split; [| done | done | done].
    split; [apply Hr |]. by split.
Qed.

Section Received.
Context (to_vec : sval → list Z) (from_slice : list Z → option sval).
Context (Hformat : ByteFormat to_vec from_slice).

Lemma received_typed bytes from m :
  bytes_ok bytes → sock_ok from → sock_plain from →
  receive from_slice bytes from = Ok m → message_typed from m.
Proof using Type*.
  intros Hb Ho Hp H. unfold receive in H. destruct (from_slice bytes) as [v|] eqn:Ev; [| done].
  destruct (de v) as [k|] eqn:Ek; [| done]. destruct (from_kmsg from k) as [m'|] eqn:Em; [| done].
  injection H as ->. apply reads_bytes in Ev; [| done].
  assert (Hk : kmessage_typed k) by by apply (de_typed v). by eapply from_kmsg_typed.
Qed.
End Received.

(** ** Properties *)

(** C6: whatever bytes a packet consists of, what is decoded from it is a value of
    its type, with the ranges that Rust's types promise and the encoders rely
    on: identifiers of 160 bits, ports and error codes of 16, UTF-8 texts,
    contacts with IPv4 addresses, announced tokens made of bytes; it comes from
    a remote node at the packet's address and is addressed to us. So every
    decoded message can be written again, and is then read as the same
    message. *)
Theorem receive_typed to_vec from_slice bytes from m :
  ByteFormat to_vec from_slice → bytes_ok bytes → sock_ok from → sock_plain from →
  receive from_slice bytes from = Ok m →
  message_typed from m ∧
  ∃ text, to_bytes to_vec m = Ret text ∧
    ∀ from', receive from_slice text from' = Ok (delivered from' m).
Proof.
  intros Hf Hb Ho Hp H. pose proof (received_typed to_vec from_slice Hf bytes from m Hb Ho Hp H) as Hm.
  split; [done |]. destruct (to_bytes_receive from m (mt_ok _ _ Hm)) as (text & Ht & _).
  exists text. split; [done |]. intros from'.
  destruct (to_bytes_receive from' m (mt_ok _ _ Hm)) as (text' & Ht' & Hr). congruence.
Qed.

Lemma receive_typed_witness :
  ∃ m, receive bdecode (string_bytes find_node_packet) (SocketV4 [10; 0; 0; 1] 6881) = Ok m ∧
    message_typed (SocketV4 [10; 0; 0; 1] 6881) m.
Proof.
  destruct (receive bdecode (string_bytes find_node_packet) (SocketV4 [10; 0; 0; 1] 6881)) as [m|e] eqn:E.
  - exists m. split; [reflexivity |]. refine (proj1 (receive_typed bencode bdecode
      (string_bytes find_node_packet) (SocketV4 [10; 0; 0; 1] 6881) m bencode_format _ _ _ E)).
    + refine (bool_decide_unpack _ _). vm_compute. exact I.
    + by repeat split; repeat constructor.
    + done.
  - exfalso. vm_compute in E. discriminate E.
Defined.
