(* ===== verification/Service.v ===== *)
(** * The messenger service

    [src/messenger/service.rs]: the queue of outstanding queries and the tasks
    that wait on it. A task is one call of [query] or [query_unbounded]; the
    tasks and the receive loop interleave at their [await] points, which are the
    events of the model. The two halves of a [oneshot] channel are the entry of
    the queue, which owns the sender, and the task, which owns the receiver; a
    channel is named by the index of its task. *)

From S2P Require Import Prelude Text Externals Net U160 NodeInfo Wire Format Kmsg Message.

(** ** State *)

(** [struct OutstandingQuery], but for the time stamp, which is only logged *)
Record OutstandingQuery : Type := mkOutstanding {
  o_transaction_id : list Z;
  destination_addr : SocketAddr;
  return_value : nat;
}.

(** What the receiver of a [oneshot] channel finds: nothing yet, the value sent,
    or that the sender was dropped. *)
Inductive channel : Type :=
  | Empty
  | Value (r : QueryResult)
  | Closed.

Inductive phase : Type :=
  | Sending
  | Waiting
  | Returned (r : QueryResult).

Record task : Type := mkTask {
  t_query : Query;
  t_permit : bool;
  t_phase : phase;
  t_chan : channel;
}.

(** [struct ServiceState]: [handler] says whether [queries_inbound] is there,
    [permits] counts what is left of [max_q]. *)
Record ServiceState : Type := mkService {
  handler : bool;
  queries_outbound : list OutstandingQuery;
  tasks : list task;
  permits : nat;
}.

Definition service_new (has_handler : bool) (max_q : nat) : ServiceState :=
  mkService has_handler [] [] max_q.

Definition q_tid (q : Query) : list Z := transaction_id (q_base q).
Definition q_addr (q : Query) : SocketAddr := sender_addr (origin (q_base q)).

(** ** Sending *)

(** [send_message]; [io] is what the socket's [send_to] returns. *)
Definition send_message (to_vec : sval → list Z) (has_handler : bool) (message : Message)
    (io : result unit string) : run (result (list Z * SocketAddr) string) :=
  if negb (read_only (base message)) && negb has_handler then
    Ret (Err "read only false but no query handler available"%string)
  else
    let! slice := to_bytes to_vec message in
    match receiver_addr (destination (base message)) with
    | Some addr => Ret (match io with Ok _ => Ok (slice, addr) | Err e => Err e end)
    | None => Ret (Err "You probably didn't mean to message yourself like this"%string)
    end.

(** ** The queue *)

Definition take_first (f : OutstandingQuery → bool) (queue : list OutstandingQuery)
    : option OutstandingQuery * list OutstandingQuery :=
  match position f queue with
  | Some i => (queue !! i, delete i queue)
  | None => (None, queue)
  end.

Definition remove_from_queue (id : list Z) (queried_addr : SocketAddr)
    (queue : list OutstandingQuery) : option OutstandingQuery * list OutstandingQuery :=
  match take_first (λ q, bool_decide (o_transaction_id q = id)) queue with
  | (Some q, queue) => (Some q, queue)
  | (None, queue) => take_first (λ q, bool_decide (destination_addr q = queried_addr)) queue
  end.

(** [oneshot::Sender::send]: without effect when the receiver is gone *)
Definition send_value (r : QueryResult) (t : task) : task :=
  match t_phase t with
  | Returned _ => t
  | _ => mkTask (t_query t) (t_permit t) (t_phase t) (Value r)
  end.

(** A dropped sender closes the channel. *)
Definition drop_sender (t : task) : task :=
  match t_chan t with
  | Empty => mkTask (t_query t) (t_permit t) (t_phase t) Closed
  | _ => t
  end.

Definition return_result (st : ServiceState) (result : QueryResult) : ServiceState :=
  match remove_from_queue (transaction_id (result_base result))
          (sender_addr (origin (result_base result))) (queries_outbound st) with
  | (Some waiting, queue) =>
      mkService (handler st) queue (alter (send_value result) (return_value waiting) (tasks st))
        (permits st)
  | (None, queue) => mkService (handler st) queue (tasks st) (permits st)
  end.

(** ** Queries *)

(** [query_unbounded] up to its first [send_message]; [query] holds a permit. *)
Definition start (permit : bool) (q : Query) (st : ServiceState) : ServiceState :=
  mkService (handler st)
    (queries_outbound st ++ [mkOutstanding (q_tid q) (q_addr q) (length (tasks st))])
    (tasks st ++ [mkTask q permit Sending Empty])
    (permits st - (if permit then 1 else 0))%nat.

Definition set_phase (p : phase) (t : task) : task :=
  mkTask (t_query t) (t_permit t) p (t_chan t).

(** The task [c] returns, giving back its permit. *)
Definition finish (c : nat) (t : task) (r : QueryResult) (st : ServiceState) : ServiceState :=
  mkService (handler st) (queries_outbound st) (alter (set_phase (Returned r)) c (tasks st))
    (permits st + (if t_permit t then 1 else 0))%nat.

Definition generic (q : Query) (text : string) : QueryResult :=
  Err (into_error_generic (q_base q) text).

(** The timeout branch of the [select!] *)
Definition time_out (c : nat) (t : task) (st : ServiceState) : ServiceState :=
  let q := t_query t in
  let '(removed, queue) := remove_from_queue (q_tid q) (q_addr q) (queries_outbound st) in
  let ts := match removed with
            | Some o => alter drop_sender (return_value o) (tasks st)
            | None => tasks st
            end in
  finish c t (generic q "Timeout") (mkService (handler st) queue ts (permits st)).

Inductive event : Type :=
  | EQuery (q : Query)
  | EQueryUnbounded (q : Query)
  | ESent (c : nat) (io : result unit string)
  | EReceive (r : QueryResult)
  | EWake (c : nat)
  | ETimeout (c : nat).

(** One event, [None] where it cannot occur. [closed] is the text of the
    channel's receive error. When both branches of the [select!] are ready
    either may be taken. *)
Definition exec (to_vec : sval → list Z) (closed : string) (st : ServiceState) (e : event)
    : option ServiceState :=
  match e with
  | EQuery q => if (0 <? permits st)%nat then Some (start true q st) else None
  | EQueryUnbounded q => Some (start false q st)
  | EReceive r => Some (return_result st r)
  | ESent c io =>
      match tasks st !! c with
      | Some t =>
          match t_phase t, send_message to_vec (handler st) (MQuery (t_query t)) io with
          | Sending, Ret (Ok _) =>
              Some (mkService (handler st) (queries_outbound st)
                      (alter (set_phase Waiting) c (tasks st)) (permits st))
          | Sending, Ret (Err e) => Some (finish c t (generic (t_query t) e) st)
          | _, _ => None
          end
      | None => None
      end
  | EWake c =>
      match tasks st !! c with
      | Some t =>
          match t_phase t, t_chan t with
          | Waiting, Value r => Some (finish c t r st)
          | Waiting, Closed => Some (finish c t (generic (t_query t) closed) st)
          | _, _ => None
          end
      | None => None
      end
  | ETimeout c =>
      match tasks st !! c with
      | Some t =>
          match t_phase t with
          | Waiting => Some (time_out c t st)
          | _ => None
          end
      | None => None
      end
  end.

Fixpoint exec_all (to_vec : sval → list Z) (closed : string) (es : list event) (st : ServiceState)
    : option ServiceState :=
  match es with
  | [] => Some st
  | e :: es => st' ← exec to_vec closed st e; exec_all to_vec closed es st'
  end.

(** ** Removing from the queue *)

Lemma take_first_spec f queue w queue' :
  take_first f queue = (w, queue') →
  match w with
  | Some o => ∃ l1 l2, queue = l1 ++ o :: l2 ∧ queue' = l1 ++ l2 ∧ f o = true ∧
                       Forall (λ o, f o = false) l1
  | None => queue' = queue ∧ Forall (λ o, f o = false) queue
  end.
Proof.
  unfold take_first. destruct (position f queue) as [i|] eqn:E; intros [= <- <-].
  - apply position_Some in E as (o & l1 & l2 & -> & <- & Ho & Hl).
    rewrite list_lookup_middle by done. exists l1, l2. split_and!; [done | | done | done].
    by rewrite delete_middle.
  - by apply position_None in E.
Qed.

(** The entry removed has the identifier, or else, when none has it, the address. *)
Lemma queue_remove_spec id a queue w queue' :
  remove_from_queue id a queue = (w, queue') →
  match w with
  | Some o => ∃ l1 l2, queue = l1 ++ o :: l2 ∧ queue' = l1 ++ l2 ∧
      (o_transaction_id o = id ∧ Forall (λ o, o_transaction_id o ≠ id) l1 ∨
       destination_addr o = a ∧ Forall (λ o, o_transaction_id o ≠ id) queue)
  | None => queue' = queue ∧ Forall (λ o, o_transaction_id o ≠ id ∧ destination_addr o ≠ a) queue
  end.
Proof.
  assert (Hb : ∀ (P : OutstandingQuery → Prop) `{∀ o, Decision (P o)} l,
    Forall (λ o, bool_decide (P o) = false) l → Forall (λ o, ¬ P o) l).
  { intros P ? l Hl. eapply Forall_impl; [exact Hl |]. intros o. by rewrite bool_decide_eq_false. }
  unfold remove_from_queue.
  destruct (take_first _ queue) as [[o|] l] eqn:E1; apply take_first_spec in E1.
  - intros [= <- <-]. destruct E1 as (l1 & l2 & Hq & -> & Ho%bool_decide_eq_true & Hl%Hb).
    eauto 10.
  - destruct E1 as [-> Hl%Hb]. intros E2. apply take_first_spec in E2. destruct w as [o|].
    + destruct E2 as (l1 & l2 & Hq & -> & Ho%bool_decide_eq_true & _). eauto 10.
    + destruct E2 as [-> Ha%Hb]. split; [done |]. by apply Forall_and.
Qed.

(** ** The invariant *)

Definition pending (t : task) : bool :=
  match t_phase t with Returned _ => false | _ => true end.
Definition holds (t : task) : bool := t_permit t && pending t.
Definition count (b : bool) : nat := if b then 1 else 0.
Definition holders : list task → nat := sum_list_with (λ t, count (holds t)).

Definition entry_ok (ts : list task) (o : OutstandingQuery) : Prop :=
  ∃ t, ts !! return_value o = Some t ∧ t_chan t = Empty ∧
       o_transaction_id o = q_tid (t_query t) ∧ destination_addr o = q_addr (t_query t).

(** Every entry belongs to a task that was not answered, every unanswered
    pending task has its entry, no two entries share a channel, and the permits
    held and free add up. *)
Record service_ok (max_q : nat) (st : ServiceState) : Prop := {
  ok_entries : Forall (entry_ok (tasks st)) (queries_outbound st);
  ok_channels : NoDup (return_value <$> queries_outbound st);
  ok_pending : ∀ c t, tasks st !! c = Some t → pending t = true → t_chan t = Empty →
    c ∈ return_value <$> queries_outbound st;
  ok_permits : (permits st + holders (tasks st))%nat = max_q;
}.

Lemma holders_alter f c t ts :
  ts !! c = Some t →
  (holders (alter f c ts) + count (holds t) = holders ts + count (holds (f t)))%nat.
Proof.
  unfold holders. revert c. induction ts as [|u ts IH]; intros [|c] Hc; [done | done | |].
  - injection Hc as ->. cbn. lia.
  - specialize (IH c Hc). cbn in *. lia.
Qed.

Lemma service_new_ok h max_q : service_ok max_q (service_new h max_q).
Proof.
  split; simpl; [constructor | constructor | done | unfold holders; simpl; lia].
Qed.

Lemma entry_ok_app ts t o : entry_ok ts o → entry_ok (ts ++ [t]) o.
Proof. intros (u & Hu & ?). exists u. split; [by apply lookup_app_l_Some | done]. Qed.

Lemma start_ok max_q permit q st :
  (permit = true → 0 < permits st)%nat → service_ok max_q st → service_ok max_q (start permit q st).
Proof.
  intros Hp [He Hn Hc Hm]. split; cbn [start queries_outbound tasks permits].
  - apply Forall_app. split.
    + eapply Forall_impl; [exact He |]. intros o. apply entry_ok_app.
    + repeat constructor. exists (mkTask q permit Sending Empty). split_and!; try done.
      apply list_lookup_middle. done.
  - rewrite fmap_app. apply NoDup_app. split_and!; [done | | apply NoDup_singleton].
    intros c (o & -> & Ho)%list_elem_of_fmap Hc'%list_elem_of_singleton.
    rewrite Forall_forall in He. destruct (He o Ho) as (t & Ht & _).
    apply lookup_lt_Some in Ht. simpl in Hc'. lia.
  - intros c t Ht Hpd Hch. rewrite fmap_app, elem_of_app.
    apply lookup_app_Some in Ht as [Ht|[? Ht]]; [left; by eapply Hc |].
    right. apply list_elem_of_singleton. simpl. apply lookup_lt_Some in Ht. simpl in Ht. lia.
  - unfold holders in *. rewrite sum_list_with_app. simpl. destruct permit; simpl; lia.
Qed.

(** A function on tasks that settles a channel: it keeps the query, the permit
    and the phase, and a pending task's channel is no longer empty. *)
Definition settles (f : task → task) : Prop :=
  ∀ t, t_query (f t) = t_query t ∧ t_permit (f t) = t_permit t ∧ t_phase (f t) = t_phase t ∧
       (pending t = true → t_chan (f t) ≠ Empty).

Lemma send_value_settles r : settles (send_value r).
Proof. intros [q p [| |] c]; by split_and!. Qed.
Lemma drop_sender_settles : settles drop_sender.
Proof. intros [q p ph [| |]]; by split_and!. Qed.

Lemma settle_ok max_q h f o l1 l2 ts n :
  settles f → service_ok max_q (mkService h (l1 ++ o :: l2) ts n) →
  service_ok max_q (mkService h (l1 ++ l2) (alter f (return_value o) ts) n).
Proof.
  intros Hf [He Hn Hc Hm]. cbn [queries_outbound tasks permits] in *.
  rewrite <- Permutation_middle, fmap_cons in Hn. apply NoDup_cons in Hn as [Hno Hn].
  assert (Hne : ∀ c, c ∈ return_value <$> (l1 ++ l2) → c ≠ return_value o) by congruence.
  split; cbn [queries_outbound tasks permits].
  - rewrite Forall_forall in He |- *. intros o' Ho'. destruct (He o') as (t & Ht & ?); [set_solver |].
    exists t. rewrite list_lookup_alter_ne; [done |]. apply not_eq_sym, Hne.
    apply list_elem_of_fmap. by exists o'.
  - done.
  - intros c t Ht Hp Hch. destruct (decide (c = return_value o)) as [->|Hne'].
    + rewrite list_lookup_alter_eq in Ht. apply fmap_Some in Ht as (u & Hu & ->).
      destruct (Hf u) as (_ & _ & Hph & Hset). unfold pending in Hp. rewrite Hph in Hp.
      by destruct (Hset Hp).
    + rewrite list_lookup_alter_ne in Ht by done. specialize (Hc c t Ht Hp Hch). set_solver.
  - rewrite Forall_app, Forall_cons in He. destruct He as (_ & (t & Ht & _) & _).
    pose proof (holders_alter f _ _ _ Ht) as Hh. destruct (Hf t) as (_ & Hpm & Hph & _).
    assert (holds (f t) = holds t) as E by (unfold holds, pending; by rewrite Hpm, Hph).
    rewrite E in Hh. lia.
Qed.

Lemma set_phase_ok max_q p c t st :
  tasks st !! c = Some t → service_ok max_q st →
  (∀ t', pending (set_phase p t') = true → pending t = true) →
  let permits' := (permits st + count (holds t) - count (holds (set_phase p t)))%nat in
  service_ok max_q (mkService (handler st) (queries_outbound st)
    (alter (set_phase p) c (tasks st)) permits').
Proof.
  intros Hct [He Hn Hc Hm] Hp. split; cbn [queries_outbound tasks permits].
  - eapply Forall_impl; [exact He |]. intros o (u & Hu & Hch & ?).
    destruct (decide (return_value o = c)) as [E|].
    + exists (set_phase p u). rewrite E, list_lookup_alter_eq, <- E, Hu. done.
    + exists u. by rewrite list_lookup_alter_ne.
  - done.
  - intros c' u Hu Hpd Hch. destruct (decide (c' = c)) as [->|].
    + rewrite list_lookup_alter_eq, Hct in Hu. injection Hu as <-. exact (Hc c t Hct (Hp t Hpd) Hch).
    + rewrite list_lookup_alter_ne in Hu by done. by eapply Hc.
  - pose proof (holders_alter (set_phase p) _ _ _ Hct) as Hh.
    assert (count (holds (set_phase p t)) ≤ count (holds t))%nat.
    { unfold holds. cbn [t_permit set_phase]. specialize (Hp t).
      destruct (t_permit t); [| simpl; lia]. simpl.
      destruct (pending (set_phase p t)); [rewrite Hp by done; done | simpl; lia]. }
    lia.
Qed.

Lemma finish_ok max_q c t t' r st :
  tasks st !! c = Some t' → t_permit t' = t_permit t → pending t' = true →
  service_ok max_q st → service_ok max_q (finish c t r st).
Proof.
  intros Hc Hpm Hpd Hok.
  pose proof (set_phase_ok max_q (Returned r) c t' st Hc Hok) as H. cbv zeta in H.
  unfold holds in H. rewrite Hpd, Hpm, andb_true_r in H. cbn [set_phase t_permit pending t_phase] in H.
  rewrite andb_false_r, Nat.sub_0_r in H. by apply H.
Qed.

(** ** Events *)

Lemma return_result_ok max_q r st : service_ok max_q st → service_ok max_q (return_result st r).
Proof.
  intros Hok. unfold return_result. destruct (remove_from_queue _ _ _) as [w queue] eqn:E.
  apply queue_remove_spec in E. destruct st as [h q ts n]. cbn [queries_outbound] in *.
  destruct w as [o|].
  - destruct E as (l1 & l2 & -> & -> & _). eapply settle_ok; [apply send_value_settles | done].
  - destruct E as [-> _]. done.
Qed.

Lemma time_out_ok max_q c t st :
  tasks st !! c = Some t → t_phase t = Waiting → service_ok max_q st →
  service_ok max_q (time_out c t st).
Proof.
  intros Hc Hw Hok. assert (Hp : pending t = true) by (unfold pending; by rewrite Hw).
  unfold time_out. destruct (remove_from_queue _ _ _) as [w queue] eqn:E.
  apply queue_remove_spec in E. destruct st as [h q ts n]. cbn [queries_outbound tasks handler permits] in *.
  destruct w as [o|].
  - destruct E as (l1 & l2 & -> & -> & _).
    pose proof (settle_ok _ _ _ _ _ _ _ _ drop_sender_settles Hok) as Hok'.
    destruct (decide (c = return_value o)) as [->|].
    + eapply (finish_ok _ _ _ (drop_sender t)); [| | | exact Hok'].
      * cbn [tasks]. by rewrite list_lookup_alter_eq, Hc.
      * apply drop_sender_settles.
      * unfold pending. destruct (drop_sender_settles t) as (_ & _ & -> & _). by rewrite Hw.
    + eapply finish_ok; [| done | exact Hp | exact Hok']. cbn [tasks].
      by rewrite list_lookup_alter_ne.
  - destruct E as [-> _]. by eapply finish_ok.
Qed.

Lemma exec_ok max_q tv cl st e st' :
  exec tv cl st e = Some st' → service_ok max_q st → service_ok max_q st'.
Proof.
  intros He Hok. destruct e as [q|q|c io|r|c|c]; simpl in He.
  - destruct (Nat.ltb_spec 0 (permits st)); [| done]. injection He as <-. by apply start_ok.
  - injection He as <-. by apply start_ok.
  - destruct (tasks st !! c) as [t|] eqn:Hc; [| done].
    destruct (t_phase t) eqn:Hp; try done.
    assert (Hpd : pending t = true) by (unfold pending; by rewrite Hp).
    destruct (send_message _ _ _ _) as [[a|text]| |]; simplify_eq/=; [| by eapply finish_ok].
    pose proof (set_phase_ok max_q Waiting c t st Hc Hok) as H. cbv zeta in H.
    unfold holds in H. rewrite Hpd in H. cbn [set_phase t_permit pending t_phase] in H.
    rewrite Nat.add_sub in H. by apply H.
  - injection He as <-. by apply return_result_ok.
  - destruct (tasks st !! c) as [t|] eqn:Hc; [| done].
    destruct (t_phase t) eqn:Hp; try done.
    assert (Hpd : pending t = true) by (unfold pending; by rewrite Hp).
    destruct (t_chan t); simplify_eq; by eapply finish_ok.
  - destruct (tasks st !! c) as [t|] eqn:Hc; [| done].
    destruct (t_phase t) eqn:Hp; simplify_eq. by apply time_out_ok.
Qed.

Lemma exec_all_ind (P : ServiceState → Prop) (Q : event → Prop) tv cl es st st' :
  (∀ st e st', Q e → exec tv cl st e = Some st' → P st → P st') →
  Forall Q es → exec_all tv cl es st = Some st' → P st → P st'.
Proof.
  intros Hstep Hes. revert st. induction Hes as [|e es He Hes IH]; intros st Hrun HP; simpl in Hrun.
  - by injection Hrun as <-.
  - apply bind_Some in Hrun as (st1 & H1 & H2). eapply IH; [done |]. by eapply Hstep.
Qed.

Lemma exec_all_ok max_q tv cl es st st' :
  exec_all tv cl es st = Some st' → service_ok max_q st → service_ok max_q st'.
Proof.
  intros Hrun Hok. eapply (exec_all_ind _ (λ _, True)); [| | exact Hrun | exact Hok].
  - intros ??? _. apply exec_ok.
  - by apply Forall_forall.
Qed.

(** *** What an event does to one task *)

(** The task [t] after an event as [t']: the query and the permit stay; a
    returned task stays as it is; what arrives in the channel or is returned
    comes from [src], or is an error of the service on the task's own base. *)
Definition moves (src : QueryResult → Prop) (t t' : task) : Prop :=
  t_query t' = t_query t ∧ t_permit t' = t_permit t ∧
  (pending t = false → t_phase t' = t_phase t) ∧
  (∀ r, t_chan t' = Value r → t_chan t = Value r ∨ src r) ∧
  (∀ r, t_phase t' = Returned r →
     t_phase t = Returned r ∨ t_chan t = Value r ∨ ∃ text, r = generic (t_query t) text).

Lemma moves_refl src t : moves src t t.
Proof. split_and!; auto. Qed.

Lemma alter_moves src f (c : nat) (ts : list task) (c' : nat) t :
  (∀ u, ts !! c = Some u → moves src u (f u)) → ts !! c' = Some t →
  ∃ t', alter f c ts !! c' = Some t' ∧ moves src t t'.
Proof.
  intros Hf Ht. destruct (decide (c' = c)) as [->|].
  - exists (f t). rewrite list_lookup_alter_eq, Ht. split; [done | by apply Hf].
  - exists t. rewrite list_lookup_alter_ne by done. split; [done | apply moves_refl].
Qed.

Lemma set_phase_moves src t p :
  pending t = true →
  (∀ r, p = Returned r → t_chan t = Value r ∨ ∃ text, r = generic (t_query t) text) →
  moves src t (set_phase p t).
Proof. intros Hp Hr. split_and!; simpl; [done | done | congruence | auto | auto]. Qed.

Lemma drop_sender_moves src t : moves src t (drop_sender t).
Proof. destruct t as [q p ph [| |]]; split_and!; simpl; auto; discriminate. Qed.

Lemma moves_trans src t1 t2 t3 : moves (λ _, False) t1 t2 → moves src t2 t3 → moves src t1 t3.
Proof.
  intros (Hq & Hp & Hf & Hc & Hr) (Hq' & Hp' & Hf' & Hc' & Hr').
  split_and!; [congruence | congruence | | |].
  - intros H. rewrite Hf'; [by apply Hf |]. unfold pending in *. by rewrite Hf.
  - intros r [H|H]%Hc'; [| by right]. apply Hc in H as [H|[]]. by left.
  - intros r [H|[H|H]]%Hr'; [by apply Hr | | by rewrite Hq in H; eauto].
    apply Hc in H as [H|[]]. eauto.
Qed.

Lemma finish_moves src c t r st c' u :
  tasks st !! c = Some t → pending t = true →
  (t_chan t = Value r ∨ ∃ text, r = generic (t_query t) text) →
  tasks st !! c' = Some u →
  ∃ u', tasks (finish c t r st) !! c' = Some u' ∧ moves src u u'.
Proof.
  intros Hc Hp Hr Hu. eapply alter_moves; [| exact Hu].
  intros u' Hu'. rewrite Hc in Hu'. injection Hu' as <-.
  apply set_phase_moves; [done |]. by intros ? [= <-].
Qed.

(** What a packet may bring to a task: its transaction identifier is the query's
    or it comes from the address the query was sent from. *)
Definition brings (e : event) (t : task) (r : QueryResult) : Prop :=
  e = EReceive r ∧ (transaction_id (result_base r) = q_tid (t_query t) ∨
                    sender_addr (origin (result_base r)) = q_addr (t_query t)).

Lemma return_result_moves max_q r st c t :
  service_ok max_q st → tasks st !! c = Some t →
  ∃ t', tasks (return_result st r) !! c = Some t' ∧ moves (brings (EReceive r) t) t t'.
Proof.
  intros Hok Ht. unfold return_result. destruct (remove_from_queue _ _ _) as [[o|] queue] eqn:E;
    apply queue_remove_spec in E; cbn [tasks]; [| exists t; split; [done | apply moves_refl]].
  destruct E as (l1 & l2 & Hq & _ & Ho). apply ok_entries in Hok. rewrite Hq in Hok.
  apply Forall_app in Hok as [_ [(u & Hu & _ & Htid & Haddr) _]%Forall_cons].
  destruct (decide (c = return_value o)) as [->|].
  - rewrite list_lookup_alter_eq, Ht. eexists. split; [done |].
    rewrite Hu in Ht. injection Ht as ->. unfold send_value.
    destruct (t_phase t) eqn:Hp; [| | apply moves_refl]; split_and!; cbn; try done; try congruence.
    all: first [intros r' [= <-]; right; split; [done |]; intuition congruence | intros; left; congruence].
  - rewrite list_lookup_alter_ne by done. exists t. split; [done | apply moves_refl].
Qed.

Lemma time_out_moves src c t st c' u :
  tasks st !! c = Some t → t_phase t = Waiting → tasks st !! c' = Some u →
  ∃ u', tasks (time_out c t st) !! c' = Some u' ∧ moves src u u'.
Proof.
  intros Hc Hw Hu. unfold time_out. destruct (remove_from_queue _ _ _) as [w queue].
  set (ts := match w with Some o => _ | None => _ end).
  assert (Hts : ∀ k v, tasks st !! k = Some v →
    ∃ v', ts !! k = Some v' ∧ moves (λ _, False) v v' ∧ t_phase v' = t_phase v).
  { intros k v Hv. unfold ts. destruct w as [o|]; [| exists v; auto using moves_refl].
    destruct (decide (k = return_value o)) as [->|].
    - rewrite list_lookup_alter_eq, Hv. exists (drop_sender v). split; [done |].
      split; [apply drop_sender_moves | apply drop_sender_settles].
    - rewrite list_lookup_alter_ne by done. exists v. auto using moves_refl. }
  destruct (Hts c t Hc) as (t' & Ht' & Hmt & Hpt).
  destruct (Hts c' u Hu) as (u1 & Hu1 & Hm1 & _).
  destruct (alter_moves src (set_phase (Returned (generic (t_query t) "Timeout"))) c ts c' u1)
    as (u2 & Hu2 & Hm2); [| done |].
  - intros v Hv. rewrite Ht' in Hv. injection Hv as <-. apply set_phase_moves.
    + unfold pending. by rewrite Hpt, Hw.
    + intros r [= <-]. right. exists "Timeout"%string. by rewrite (proj1 Hmt).
  - exists u2. split; [done |]. by eapply moves_trans.
Qed.

Lemma exec_moves max_q tv cl st e st' c t :
  service_ok max_q st → exec tv cl st e = Some st' → tasks st !! c = Some t →
  ∃ t', tasks st' !! c = Some t' ∧ moves (brings e t) t t'.
Proof.
  intros Hok He Ht. destruct e as [q|q|k io|r|k|k]; simpl in He.
  - destruct (Nat.ltb_spec 0 (permits st)); [| done]. injection He as <-. exists t.
    split; [by apply lookup_app_l_Some | apply moves_refl].
  - injection He as <-. exists t. split; [by apply lookup_app_l_Some | apply moves_refl].
  - destruct (tasks st !! k) as [u|] eqn:Hk; [| done]. destruct (t_phase u) eqn:Hp; try done.
    assert (Hpd : pending u = true) by (unfold pending; by rewrite Hp).
    destruct (send_message _ _ _ _) as [[a|text]| |]; simplify_eq.
    + eapply alter_moves; [| exact Ht]. intros v Hv. rewrite Hk in Hv. injection Hv as <-.
      by apply set_phase_moves.
    + eapply finish_moves; eauto.
  - injection He as <-. by eapply return_result_moves.
  - destruct (tasks st !! k) as [u|] eqn:Hk; [| done]. destruct (t_phase u) eqn:Hp; try done.
    assert (Hpd : pending u = true) by (unfold pending; by rewrite Hp).
    destruct (t_chan u) eqn:Hch; simplify_eq; eapply finish_moves; eauto.
  - destruct (tasks st !! k) as [u|] eqn:Hk; [| done]. destruct (t_phase u) eqn:Hp; simplify_eq.
    by eapply time_out_moves.
Qed.

Lemma alter_none f (c : nat) (ts : list task) (c' : nat) : ts !! c' = None → alter f c ts !! c' = None.
Proof. rewrite !lookup_ge_None, length_alter. done. Qed.

(** Only a query makes a task. *)
Lemma exec_new tv cl st e st' c t :
  exec tv cl st e = Some st' → tasks st !! c = None → tasks st' !! c = Some t →
  t_chan t = Empty ∧ t_phase t = Sending ∧
  (e = EQuery (t_query t) ∨ e = EQueryUnbounded (t_query t)).
Proof.
  assert (Hnew : ∀ q p, tasks st !! c = None →
    (tasks st ++ [mkTask q p Sending Empty]) !! c = Some t → t = mkTask q p Sending Empty).
  { intros q p Hc Ht. apply lookup_app_Some in Ht as [Ht|[_ Ht]]; [congruence |].
    apply list_elem_of_lookup_2 in Ht. set_solver. }
  intros He Hc Ht. destruct e as [q|q|k io|r|k|k]; simpl in He.
  - destruct (Nat.ltb_spec 0 (permits st)); [| done]. injection He as <-.
    apply Hnew in Ht as ->; [| done]. by auto.
  - injection He as <-. apply Hnew in Ht as ->; [| done]. by auto.
  - exfalso. repeat case_match; simplify_eq/=; by rewrite (alter_none _ _ _ _ Hc) in Ht.
  - exfalso. injection He as <-. unfold return_result in Ht.
    destruct (remove_from_queue _ _ _) as [[o|] queue]; cbn [tasks] in Ht; [| congruence].
    by rewrite (alter_none _ _ _ _ Hc) in Ht.
  - exfalso. repeat case_match; simplify_eq/=; by rewrite (alter_none _ _ _ _ Hc) in Ht.
  - exfalso. repeat case_match; simplify_eq/=. revert Ht. unfold time_out.
    destruct (remove_from_queue _ _ _) as [[o|] queue]; cbn [finish tasks];
      rewrite alter_none; try done. by apply alter_none.
Qed.

(** ** Properties *)

(** Queries are sent from the service's address [me], and no packet comes from it. *)
Definition honest (me : SocketAddr) (e : event) : Prop :=
  match e with
  | EQuery q | EQueryUnbounded q => q_addr q = me
  | EReceive r => sender_addr (origin (result_base r)) ≠ me
  | _ => True
  end.

(** C8: whatever the interleaving of queries, packets, wake-ups and timeouts, a
    query returns either a packet that was received and carries the query's
    transaction identifier, or an error of the service on the query's own
    base; the packets must not come from the service's own address, which the
    fallback on addresses would match with any query. *)
Theorem answers_match tv cl has_handler max_q me es st :
  Forall (honest me) es → exec_all tv cl es (service_new has_handler max_q) = Some st →
  ∀ c t r, tasks st !! c = Some t → t_phase t = Returned r →
    EReceive r ∈ es ∧ transaction_id (result_base r) = q_tid (t_query t) ∨
    ∃ text, r = generic (t_query t) text.
Proof.
  intros Hes Hrun.
  set (good := λ t r, EReceive r ∈ es ∧ transaction_id (result_base r) = q_tid (t_query t)).
  set (P := λ st, service_ok max_q st ∧ ∀ c t, tasks st !! c = Some t →
    q_addr (t_query t) = me ∧ (∀ r, t_chan t = Value r → good t r) ∧
    (∀ r, t_phase t = Returned r → good t r ∨ ∃ text, r = generic (t_query t) text)).
  assert (HP : P st); [| intros c t r Ht; destruct HP as [_ HP]; by apply (HP c t Ht)].
  apply (exec_all_ind P (λ e, honest me e ∧ e ∈ es) tv cl es (service_new has_handler max_q));
    [| | exact Hrun | split; [apply service_new_ok | done]].
  - intros st1 e st2 [Hh Hin] He [Hok Hts]. split; [by eapply exec_ok |]. intros c t' Ht'.
    destruct (tasks st1 !! c) as [t|] eqn:Ht.
    + destruct (exec_moves _ _ _ _ _ _ _ _ Hok He Ht) as (u & Hu & Hq & _ & _ & Hc & Hr).
      rewrite Ht' in Hu. injection Hu as <-. destruct (Hts c t Ht) as (Hme & Hgc & Hgr).
      unfold good. rewrite Hq. split_and!; [done | |].
      * intros r [Hv|[-> [Hb|Hb]]]%Hc; [by apply Hgc | by split |]. simpl in Hh. congruence.
      * intros r [Hv|[Hv|Hv]]%Hr; [by apply Hgr | left; by apply Hgc | by right].
    + destruct (exec_new _ _ _ _ _ _ _ He Ht Ht') as (Hc & Hp & He').
      rewrite Hc, Hp. split_and!; [| done | done]. by destruct He' as [->| ->].
  - apply Forall_forall. intros e Hin. split; [by eapply Forall_forall in Hes | done].
Qed.

Definition ex_me : SocketAddr := SocketV4 [10; 0; 0; 1] 6881.
Definition ex_remote (n : Z) : SocketAddr := SocketV4 [10; 0; 0; n] 6881.
Definition ex_service_query (tid n : Z) : Query :=
  mkQuery Ping (mkBase (SenderMe (mkNodeInfo (new 1 2) ex_me)) (ReceiverAddr (ex_remote n)) (Some ex_me)
    [tid] true None).
Definition ex_pong (tid n : Z) : QueryResult :=
  Ok (mkResponseMsg KindOk (mkBase (SenderRemote (mkNodeInfo (new 3 n) (ex_remote n))) ReceiverMe
    (Some ex_me) [tid] false None)).

Lemma answers_match_witness :
  EReceive (ex_pong 7 2) ∈ [EQuery (ex_service_query 7 2); ESent 0 (Ok ()); EReceive (ex_pong 7 2); EWake 0] ∧
    [7] = [7] ∨ ∃ text, ex_pong 7 2 = generic (ex_service_query 7 2) text.
Proof.
  apply (answers_match bencode "channel closed" false 1 ex_me
    [EQuery (ex_service_query 7 2); ESent 0 (Ok ()); EReceive (ex_pong 7 2); EWake 0]
    (mkService false [] [mkTask (ex_service_query 7 2) true (Returned (ex_pong 7 2)) (Value (ex_pong 7 2))] 1)
    ltac:(by repeat constructor) ltac:(vm_compute; reflexivity) 0%nat
    (mkTask (ex_service_query 7 2) true (Returned (ex_pong 7 2)) (Value (ex_pong 7 2))) (ex_pong 7 2));
    reflexivity.
Defined.

(** C22: in every reachable state each outstanding entry belongs to one task that was
    not answered, each unanswered pending task has its entry, and permits are
    neither lost nor made: at most [max_q] bounded queries are pending. *)
Theorem service_invariant tv cl has_handler max_q es st :
  exec_all tv cl es (service_new has_handler max_q) = Some st →
  service_ok max_q st ∧ (length (filter (λ t, holds t = true) (tasks st)) ≤ max_q)%nat.
Proof.
  intros Hrun. assert (Hok : service_ok max_q st).
  { eapply exec_all_ok; [exact Hrun |]. apply service_new_ok. }
  split; [done |]. rewrite <- (ok_permits _ _ Hok).
  assert (length (filter (λ t, holds t = true) (tasks st)) = holders (tasks st)) as ->; [| lia].
  unfold holders. induction (tasks st) as [|t ts IH]; [done |]. rewrite filter_cons. cbn [sum_list_with].
  destruct (holds t); simpl; by rewrite IH.
Qed.

Lemma service_invariant_witness :
  service_ok 1 (mkService false [] [mkTask (ex_service_query 7 2) true
      (Returned (generic (ex_service_query 7 2) "Timeout")) Closed] 1) ∧
  (length (filter (λ t, holds t = true) [mkTask (ex_service_query 7 2) true
      (Returned (generic (ex_service_query 7 2) "Timeout")) Closed]) ≤ 1)%nat.
Proof.
  apply (service_invariant bencode "channel closed" false 1
    [EQuery (ex_service_query 7 2); ESent 0 (Ok ()); ETimeout 0]). vm_compute. reflexivity.
Defined.

(** A query is always serialized. *)
Lemma query_to_bytes tv q : ∃ bytes, to_bytes tv (MQuery q) = Ret bytes.
Proof.
  unfold to_bytes. assert (Ht : ∃ v, ser (to_kmsg (MQuery q)) = Ret v); [| destruct Ht as [v ->]; by eexists].
  destruct q as [[| | | |[v sq cas k salt sig]| |] b]; try by eexists.
  destruct v, sq, cas, k, salt, sig; by eexists.
Qed.

Lemma send_query_total tv h q io : ∃ res, send_message tv h (MQuery q) io = Ret res.
Proof.
  unfold send_message. destruct (_ && _); [by eexists |].
  destruct (query_to_bytes tv q) as [bytes ->]. cbn [run_bind].
  destruct (receiver_addr _); by eexists.
Qed.

(** The phases a task goes through, for the bound on its steps. *)
Definition steps_left (t : task) : nat :=
  match t_phase t with Sending => 2 | Waiting => 1 | Returned _ => 0 end.

(** C21: a query never hangs: in every reachable state a pending query has an event
    of its own that can occur whatever the network does (its send completes, its
    timer fires); each such event takes it one phase on, so that it returns
    after at most two; and what it returned is never changed by any event. *)
Theorem query_returns tv cl has_handler max_q es st c t :
  exec_all tv cl es (service_new has_handler max_q) = Some st → tasks st !! c = Some t →
  (pending t = true → ∀ io, ∃ st' t',
     exec tv cl st (match t_phase t with Sending => ESent c io | _ => ETimeout c end) = Some st' ∧
     tasks st' !! c = Some t' ∧ (steps_left t' < steps_left t)%nat) ∧
  (∀ e st' r, exec tv cl st e = Some st' → t_phase t = Returned r →
     ∃ t', tasks st' !! c = Some t' ∧ t_phase t' = Returned r).
Proof.
  intros Hrun Ht. assert (Hok : service_ok max_q st).
  { eapply exec_all_ok; [exact Hrun |]. apply service_new_ok. }
  split.
  - intros Hp io. destruct (t_phase t) eqn:Hph; [| | unfold pending in Hp; by rewrite Hph in Hp].
    + unfold exec. rewrite Ht, Hph. destruct (send_query_total tv (handler st) (t_query t) io) as [res ->].
      unfold steps_left. rewrite Hph. destruct res as [a|text].
      * do 2 eexists. split; [done |]. cbn [tasks]. rewrite list_lookup_alter_eq, Ht.
        split; [done |]. simpl. lia.
      * do 2 eexists. split; [done |]. cbn [tasks finish]. rewrite list_lookup_alter_eq, Ht.
        split; [done |]. simpl. lia.
    + unfold exec. rewrite Ht, Hph. exists (time_out c t st). unfold time_out.
      destruct (remove_from_queue _ _ _) as [w queue].
      assert (∃ u, (match w with Some o => alter drop_sender (return_value o) (tasks st)
                    | None => tasks st end) !! c = Some u) as [u Hu].
      { destruct w as [o|]; [| eauto].
        destruct (alter_moves (λ _, False) drop_sender (return_value o) (tasks st) c t) as (u & Hu & _);
          eauto using drop_sender_moves. }
      eexists. split; [done |]. cbn [tasks finish]. rewrite list_lookup_alter_eq, Hu.
      split; [done |]. unfold steps_left. rewrite Hph. simpl. lia.
  - intros e st' r He Hr. destruct (exec_moves _ _ _ _ _ _ _ _ Hok He Ht) as (t' & Ht' & _ & _ & Hf & _).
    exists t'. split; [done |]. rewrite Hf; [done |]. unfold pending. by rewrite Hr.
Qed.

Lemma query_returns_witness :
  ∃ st' t', exec bencode "channel closed"
      (mkService false [mkOutstanding [7] ex_me 0] [mkTask (ex_service_query 7 2) true Waiting Empty] 0)
      (ETimeout 0) = Some st' ∧
    tasks st' !! 0%nat = Some t' ∧ (steps_left t' < 1)%nat.
Proof.
  exact (proj1 (query_returns bencode "channel closed" false 1
    [EQuery (ex_service_query 7 2); ESent 0 (Ok ())]
    (mkService false [mkOutstanding [7] ex_me 0] [mkTask (ex_service_query 7 2) true Waiting Empty] 0)
    0 (mkTask (ex_service_query 7 2) true Waiting Empty) ltac:(vm_compute; reflexivity)
    ltac:(reflexivity)) ltac:(reflexivity) (Ok ())).
Defined.

Lemma split_first {A} (P : A → Prop) l1 x l2 k1 y k2 :
  l1 ++ x :: l2 = k1 ++ y :: k2 → P x → P y → Forall (λ z, ¬ P z) l1 → Forall (λ z, ¬ P z) k1 →
  l1 = k1 ∧ x = y ∧ l2 = k2.
Proof.
  intros E Hx Hy Hl. revert k1 E. induction Hl as [|a l1 Ha Hl IH]; intros k1 E Hk;
    destruct Hk as [|b k1 Hb Hk]; simplify_eq/=; try done.
  destruct (IH k1) as (-> & -> & ->); done.
Qed.

(** A packet whose transaction identifier is that of exactly one entry is handed
    to that entry's task, and to no other: the entry goes, the task's channel
    holds the packet, and every other task and entry stays as it is; a packet
    that matches neither identifier nor address changes nothing. *)
Theorem return_result_delivers st r l1 o l2 t :
  let tid := transaction_id (result_base r) in
  queries_outbound st = l1 ++ o :: l2 → o_transaction_id o = tid →
  Forall (λ o', o_transaction_id o' ≠ tid) l1 →
  tasks st !! return_value o = Some t → pending t = true →
  return_result st r =
    mkService (handler st) (l1 ++ l2)
      (<[return_value o := mkTask (t_query t) (t_permit t) (t_phase t) (Value r)]> (tasks st))
      (permits st) ∧
  ∀ st' r', Forall (λ o', o_transaction_id o' ≠ transaction_id (result_base r') ∧
                   destination_addr o' ≠ sender_addr (origin (result_base r'))) (queries_outbound st') →
    return_result st' r' = st'.
Proof.
  intros tid Hq Ho Hl Ht Hp. split.
  - unfold return_result. destruct (remove_from_queue _ _ _) as [w queue] eqn:E.
    apply queue_remove_spec in E. rewrite Hq in E. fold tid in E. destruct w as [o'|].
    + destruct E as (k1 & k2 & Hk & -> & [[Ho' Hk1]|[_ HF]]).
      * assert (l1 = k1 ∧ o = o' ∧ l2 = k2) as (-> & -> & ->).
        { by eapply (split_first (λ o, o_transaction_id o = tid)). }
        f_equal. rewrite list_insert_alter. apply list_eq. intros i. rewrite !list_lookup_alter.
        case_decide; [subst i | done]. rewrite Ht. cbn. f_equal.
        unfold send_value, pending in *. by destruct (t_phase t).
      * exfalso. rewrite Forall_app, Forall_cons in HF. by destruct HF as (_ & ? & _).
    + exfalso. destruct E as [_ HF]. rewrite Forall_app, Forall_cons in HF. by destruct HF as (_ & [? _] & _).
  - intros [h q ts n] r' HF. unfold return_result. cbn [queries_outbound] in *.
    destruct (remove_from_queue _ _ _) as [w queue] eqn:E. apply queue_remove_spec in E. destruct w as [o'|].
    + exfalso. destruct E as (k1 & k2 & -> & _ & Hor). rewrite Forall_app, Forall_cons in HF.
      destruct HF as (_ & [??] & _). by destruct Hor as [[? _]|[? _]].
    + by destruct E as [-> _].
Qed.

Lemma return_result_delivers_witness :
  let st := mkService false [mkOutstanding [7] ex_me 0; mkOutstanding [8] ex_me 1]
    [mkTask (ex_service_query 7 2) true Waiting Empty; mkTask (ex_service_query 8 3) false Waiting Empty] 0 in
  return_result st (ex_pong 8 3) =
    mkService false [mkOutstanding [7] ex_me 0]
      [mkTask (ex_service_query 7 2) true Waiting Empty;
       mkTask (ex_service_query 8 3) false Waiting (Value (ex_pong 8 3))] 0 ∧
  return_result st (ex_pong 9 3) = st.
Proof.
  intros st. split.
  - exact (proj1 (return_result_delivers st (ex_pong 8 3) [mkOutstanding [7] ex_me 0]
      (mkOutstanding [8] ex_me 1) [] (mkTask (ex_service_query 8 3) false Waiting Empty)
      ltac:(reflexivity) ltac:(reflexivity) ltac:(by repeat constructor) ltac:(reflexivity)
      ltac:(reflexivity))).
  - apply (return_result_delivers st (ex_pong 8 3) [mkOutstanding [7] ex_me 0]
      (mkOutstanding [8] ex_me 1) [] (mkTask (ex_service_query 8 3) false Waiting Empty));
      by repeat constructor.
Defined.

(** The fallback on addresses can end another query. [destination_addr] is the
    address the query was sent from, the same for all queries: when a query
    times out just after its answer took its entry away, the entry of another
    query is removed instead; that query then fails with a closed channel, and
    its answer, when it comes, is dropped. *)
Theorem timeout_ends_other_query closed :
  ∃ es st q0 q1,
    Forall (honest ex_me) es ∧ q_tid q0 ≠ q_tid q1 ∧
    exec_all bencode closed es (service_new false 2) = Some st ∧
    t_phase <$> tasks st = [Returned (generic q0 "Timeout"); Returned (generic q1 closed)] ∧
    ¬ ETimeout 1 ∈ es ∧ return_result st (ex_pong 8 3) = st.
Proof.
  exists [EQuery (ex_service_query 7 2); EQuery (ex_service_query 8 3); ESent 0 (Ok ()); ESent 1 (Ok ());
     EReceive (ex_pong 7 2); ETimeout 0; EWake 1].
  eexists. exists (ex_service_query 7 2), (ex_service_query 8 3).
  split; [by repeat constructor |]. split; [done |].
  split; [vm_compute; reflexivity |]. split; [reflexivity |]. split; [set_solver | reflexivity].
Qed.

(** The queries of a service whose socket refuses every packet *)
Fixpoint refused (q : Query) (from n : nat) : list event :=
  match n with
  | O => []
  | S n => EQueryUnbounded q :: ESent from (Err "Send failed"%string) :: refused q (S from) n
  end.

Lemma refused_run tv cl q n st :
  handler st = true → Forall (λ t, pending t = false) (tasks st) →
  ∃ st', exec_all tv cl (refused q (length (tasks st)) n) st = Some st' ∧
    Forall (λ t, pending t = false) (tasks st') ∧
    length (queries_outbound st') = (length (queries_outbound st) + n)%nat.
Proof.
  revert st. induction n as [|n IH]; intros st Hh Hts; [exists st; split; [done | split; [done | lia]] |].
  cbn [refused exec_all exec mbind option_bind]. cbn [start tasks handler].
  rewrite lookup_app_r, Nat.sub_diag by done. cbn [lookup list_lookup t_phase t_query].
  unfold send_message. rewrite Hh, andb_false_r. destruct (query_to_bytes tv q) as [bytes ->].
  cbn [run_bind].
  set (res := match receiver_addr _ with Some _ => _ | None => _ end).
  assert (∃ text, res = Ret (Err text)) as [text ->].
  { unfold res. destruct (receiver_addr _); by eexists. }
  cbn [mbind option_bind].
  destruct (IH (finish (length (tasks st)) (mkTask q false Sending Empty) (generic q text) (start false q st)))
    as (st' & Hrun & Hst' & Hlen).
  - done.
  - cbn [finish start tasks]. rewrite alter_app_r_alt, Nat.sub_diag by done.
    apply Forall_app. split; [done | by repeat constructor].
  - exists st'. split; [|split; [done |]].
    + rewrite <- Hrun. f_equal. cbn [finish start tasks]. rewrite length_alter, length_app. simpl.
      by rewrite Nat.add_1_r.
    + rewrite Hlen. cbn [finish start queries_outbound]. rewrite length_app. simpl. lia.
Qed.

(** A query whose send fails returns without removing its entry: the queue of a
    service with no query in progress can be of any length. *)
Theorem failed_sends_leak tv closed (q : Query) n :
  ∃ es st, exec_all tv closed es (service_new true 1) = Some st ∧
    Forall (λ t, pending t = false) (tasks st) ∧ length (queries_outbound st) = n.
Proof.
  destruct (refused_run tv closed q n (service_new true 1)) as (st & Hrun & ? & ?); [done | done |]; eauto.
Qed.
