(* ===== verification/Messenger.v ===== *)
(** * The messenger

    [src/messenger.rs] and the receiving half of [messenger/service.rs]: the
    interface [QueryHandler] that a node's server implements, what the service
    does with a packet, and a query's whole way from one service to another and
    back, proved against the interface. *)

From S2P Require Import Prelude Text Externals Net U160 NodeInfo Wire Format Kmsg Message Service.

(** ** [trait QueryHandler] *)

Class QueryHandler (S : Type) : Type := {
  handle_query : S → Query → run (QueryResult * S);
  handle_error : S → list Z → SocketAddr → KnownError → Error;
}.

(** The base of an answer: it names the transaction, goes where it came from and
    does not claim to be read only. *)
Record answers (tid : list Z) (to : Receiver) (b : MessageBase) : Prop := {
  ans_tid : transaction_id b = tid;
  ans_destination : destination b = to;
  ans_read_only : read_only b = false;
}.

(** What a handler promises to the service, for the states of [inv] and the
    queries it [accepts]: it answers every query, with a message that can be
    sent. *)
Class QueryHandlerLaw S `{QueryHandler S} (inv : S → Prop) (accepts : Query → Prop) : Prop := {
  handle_query_answers s q : inv s → accepts q → ∃ r s',
    handle_query s q = Ret (r, s') ∧ inv s' ∧
    answers (q_tid q) (sender_receiver (origin (q_base q))) (result_base r) ∧
    message_ok (result_message r);
  handle_error_answers s tid from e : inv s → sock_ok from → sock_plain from →
    answers tid (ReceiverAddr from) (err_base (handle_error s tid from e)) ∧
    message_ok (MError (handle_error s tid from e));
}.

(** ** Receiving *)

(** What a packet leads to: nothing, an answer that [send_message] was given (its
    error is only logged), or a result for the queue. *)
Inductive received (S : Type) : Type :=
  | Dropped
  | Answered (sent : result (list Z * SocketAddr) string) (s : S)
  | ToQueue (r : QueryResult).
Arguments Dropped {S}.
Arguments Answered {S} sent s.
Arguments ToQueue {S} r.

Section Receiving.
Context {S : Type} `{QueryHandler S}.
Context (to_vec : sval → list Z) (from_slice : list Z → option sval).

Definition handle_received (handler : option S) (message : Message) (io : result unit string)
    : run (received S) :=
  match message with
  | MQuery q =>
      match handler with
      | Some s =>
          let! (r, s') := handle_query s q in
          let! sent := send_message to_vec true (result_message r) io in
          Ret (Answered sent s')
      | None => Ret Dropped
      end
  | MResponse r => Ret (ToQueue (Ok r))
  | MError e => Ret (ToQueue (Err e))
  end.

(** The body of the loop of [recv], for one packet *)
Definition recv (handler : option S) (slice : list Z) (from : SocketAddr) (io : result unit string)
    : run (received S) :=
  match receive from_slice slice from with
  | Ok message => handle_received handler message io
  | Err (Some raw, err) =>
      match handler with
      | Some s =>
          let! sent := send_message to_vec true
            (MError (handle_error s (k_transaction_id raw) from err)) io in
          Ret (Answered sent s)
      | None => Ret Dropped
      end
  | Err (None, _) => Ret Dropped
  end.

(** *** Against the interface *)

Context {inv : S → Prop} {accepts : Query → Prop} {Hlaw : QueryHandlerLaw S inv accepts}.
Context (Hformat : ByteFormat to_vec from_slice).

Lemma send_answer m tid to a from :
  message_ok m → answers tid to (base m) → receiver_addr to = Some a →
  ∃ bytes, send_message to_vec true m (Ok ()) = Ret (Ok (bytes, a)) ∧
           receive from_slice bytes from = Ok (delivered from m).
Proof.
  intros Hm [Ht Hd Hr] Ha. destruct (to_bytes_receive from m Hm) as (bytes & Hb & Hrecv).
  exists bytes. split; [| done]. unfold send_message.
  by rewrite andb_false_r, Hb, Hd, Ha.
Qed.

Lemma result_message_base r : base (result_message r) = result_base r.
Proof. by destruct r. Qed.

(** A query that arrives is answered to where it came from. *)
Lemma recv_query q q' from a s :
  message_ok (MQuery q) → delivered from (MQuery q) = MQuery q' → inv s → accepts q' →
  ∃ bytes reply r s',
    to_bytes to_vec (MQuery q) = Ret bytes ∧
    recv (Some s) bytes from (Ok ()) = Ret (Answered (Ok (reply, from)) s') ∧ inv s' ∧
    receive from_slice reply a = Ok (delivered a (result_message r)) ∧
    transaction_id (result_base r) = q_tid q.
Proof.
  intros Hm Hd Hs Ha. destruct (to_bytes_receive from _ Hm) as (bytes & Hb & Hr).
  rewrite Hd in Hr. destruct (handle_query_answers s q' Hs Ha) as (r & s' & Hq & Hs' & Hans & Hok).
  rewrite <- result_message_base in Hans.
  cbn [delivered] in Hd. injection Hd as Hd. rewrite <- Hd in Hans. cbn [q_tid q_base origin sender_receiver transaction_id] in Hans.
  destruct (send_answer _ _ _ from a Hok Hans eq_refl) as (reply & Hsend & Hrecv).
  exists bytes, reply, r, s'. split_and!; [done | | done | done |].
  - unfold recv. rewrite Hr. cbn [handle_received]. rewrite Hq. cbn [run_bind]. by rewrite Hsend.
  - by rewrite <- result_message_base, (ans_tid _ _ _ Hans).
Qed.

(** A result as its receiver sees it *)
Definition seen (a : SocketAddr) (r : QueryResult) : QueryResult :=
  match delivered a (result_message r) with
  | MResponse r' => Ok r'
  | MError e => Err e
  | MQuery _ => r
  end.

Lemma handle_received_result s a r io :
  handle_received s (delivered a (result_message r)) io = Ret (ToQueue (seen a r)).
Proof. by destruct r. Qed.

(** C31: a packet that is no message is never acted on: bytes that do not decode are
    dropped; a dictionary that is no message is answered, where there is a
    handler, with one error, sent to the address the packet came from, that
    names the packet's transaction; queries to a service without a handler are
    dropped; answers go to the queue and never to the handler. *)
Theorem recv_branches s slice from :
  (∀ e, receive from_slice slice from = Err (None, e) →
     ∀ h io, recv h slice from io = Ret Dropped) ∧
  (∀ raw e, receive from_slice slice from = Err (Some raw, e) → inv s → sock_ok from → sock_plain from →
     recv None slice from (Ok ()) = Ret Dropped ∧
     ∃ reply err, recv (Some s) slice from (Ok ()) = Ret (Answered (Ok (reply, from)) s) ∧
       receive from_slice reply from = Ok (MError err) ∧
       transaction_id (err_base err) = k_transaction_id raw) ∧
  (∀ q, receive from_slice slice from = Ok (MQuery q) → ∀ io, recv None slice from io = Ret Dropped) ∧
  (∀ r, receive from_slice slice from = Ok (result_message r) →
     ∀ h io, recv h slice from io = Ret (ToQueue r)).
Proof.
  unfold recv. split_and!.
  - intros e -> h io. done.
  - intros raw e -> Hs Ho Hp. split; [done |].
    destruct (handle_error_answers s (k_transaction_id raw) from e Hs Ho Hp) as [Hans Hok].
    destruct (send_answer (MError (handle_error s (k_transaction_id raw) from e)) _ _ from from Hok Hans eq_refl)
      as (reply & Hsend & Hrecv).
    rewrite Hsend. cbn [run_bind]. do 2 eexists. split; [done |]. split; [exact Hrecv |].
    exact (ans_tid _ _ _ Hans).
  - intros q -> io. done.
  - intros [r|e] -> h io; done.
Qed.
End Receiving.

(** ** From one service to another and back *)

Lemma answered_run (permit : bool) to_vec closed h max_q q r packet a :
  send_message to_vec h (MQuery q) (Ok ()) = Ret (Ok (packet, a)) →
  transaction_id (result_base r) = q_tid q → (permit = true → 0 < max_q)%nat →
  exec_all to_vec closed [if permit then EQuery q else EQueryUnbounded q; ESent 0 (Ok ()); EReceive r; EWake 0]
    (service_new h max_q) =
  Some (mkService h [] [mkTask q permit (Returned r) (Value r)] max_q).
Proof.
  intros Hsend Htid Hmax.
  assert (Hstart : exec to_vec closed (service_new h max_q) (if permit then EQuery q else EQueryUnbounded q) =
    Some (start permit q (service_new h max_q))).
  { destruct permit; [| done]. cbn [exec service_new permits].
    by rewrite (proj2 (Nat.ltb_lt 0 max_q)) by auto. }
  cbn [exec_all]. rewrite Hstart. unfold service_new. cbn [exec_all exec mbind option_bind].
  unfold start. cbn [tasks queries_outbound app length handler permits].
  change ([mkTask q permit Sending Empty] !! 0%nat) with (Some (mkTask q permit Sending Empty)).
  cbn [t_phase t_query]. rewrite Hsend. cbn [mbind option_bind].
  unfold return_result, remove_from_queue, take_first.
  cbn [queries_outbound position o_transaction_id]. rewrite Htid, bool_decide_eq_true_2 by done.
  cbn. unfold finish. cbn. destruct permit; [| by rewrite Nat.sub_0_r, Nat.add_0_r].
  by rewrite Nat.sub_add by by apply Hmax.
Qed.

Section RoundTrip.
Context {S : Type} `{Hlaw : QueryHandlerLaw S inv accepts}.
Context (to_vec : sval → list Z) (from_slice : list Z → option sval).

(** C9: a query that a service sends to a service with a handler is answered: its
    packet is decoded there, the handler's answer goes back to the address the
    packet came from, is decoded, matched by its transaction identifier and
    returned to the task that asked. The byte format is only assumed to read
    what it writes, up to the order of dictionaries. *)
Theorem query_answered has_handler max_q closed s q q' me a :
  ByteFormat to_vec from_slice →
  message_ok (MQuery q) → receiver_addr (destination (q_base q)) = Some a →
  read_only (q_base q) || has_handler = true →
  delivered me (MQuery q) = MQuery q' → inv s → accepts q' →
  ∃ packet reply s' r st t,
    send_message to_vec has_handler (MQuery q) (Ok ()) = Ret (Ok (packet, a)) ∧
    recv to_vec from_slice (Some s) packet me (Ok ()) = Ret (Answered (Ok (reply, me)) s') ∧ inv s' ∧
    recv to_vec from_slice (S:=S) None reply a (Ok ()) = Ret (ToQueue r) ∧
    transaction_id (result_base r) = q_tid q ∧
    exec_all to_vec closed [EQueryUnbounded q; ESent 0 (Ok ()); EReceive r; EWake 0]
      (service_new has_handler max_q) = Some st ∧
    tasks st = [t] ∧ t_phase t = Returned r ∧ queries_outbound st = [].
Proof.
  intros Hf Hm Ha Hro Hd Hs Hacc.
  destruct (recv_query to_vec from_slice Hf q q' me a s Hm Hd Hs Hacc)
    as (packet & reply & r & s' & Hb & Hrecv & Hs' & Hreply & Htid).
  assert (Hsend : send_message to_vec has_handler (MQuery q) (Ok ()) = Ret (Ok (packet, a))).
  { unfold send_message. rewrite Hb. cbn [base run_bind]. rewrite Ha.
    destruct (read_only (q_base q)), has_handler; done. }
  assert (Htid' : transaction_id (result_base (seen a r)) = q_tid q).
  { rewrite <- Htid. by destruct r. }
  exists packet, reply, s', (seen a r),
    (mkService has_handler [] [mkTask q false (Returned (seen a r)) (Value (seen a r))] max_q),
    (mkTask q false (Returned (seen a r)) (Value (seen a r))).
  split_and!; try done.
  - unfold recv. rewrite Hreply. apply handle_received_result.
  - by eapply (answered_run false).
Qed.
End RoundTrip.

(** ** A handler that accepts everything *)

(** The handler of [messenger_tests.rs] *)
Record TestHandler : Type := mkTestHandler { info : NodeInfo }.

Definition test_handle_query (self : TestHandler) (query : Query) : run (QueryResult * TestHandler) :=
  let returnbase := mkBase (SenderMe (info self)) (sender_receiver (origin (q_base query)))
    (Some (sender_addr (origin (q_base query)))) (q_tid query) false None in
  Ret (Ok (into_response returnbase KindOk), self).

Definition test_handle_error (self : TestHandler) (tid : list Z) (to : SocketAddr) (error : KnownError)
    : Error :=
  into_error (mkBase (SenderMe (info self)) (ReceiverAddr to) (Some to) tid false None) error.

#[export] Instance test_handler : QueryHandler TestHandler := {
  handle_query := test_handle_query;
  handle_error := test_handle_error;
}.

Lemma into_error_ok b e : u160_ok (sender_id (origin b)) → message_ok (MError (into_error b e)).
Proof. intros Hid. split; [exact Hid |]. by destruct e. Qed.

Definition plain_origin (q : Query) : Prop := sock_ok (q_addr q) ∧ sock_plain (q_addr q).

#[export] Instance test_handler_law :
  QueryHandlerLaw TestHandler (λ h, node_ok (info h)) plain_origin.
Proof.
  split.
  - intros s q Hs [Ho Hp]. do 2 eexists. split; [done |]. split; [done |].
    split; [done |]. split; [apply Hs |]. by split.
  - intros s tid from e Hs Ho Hp. split; [done |]. apply into_error_ok, Hs.
Qed.

Definition ex_handler : TestHandler := mkTestHandler (mkNodeInfo (new 5 6) (ex_remote 2)).

Lemma query_answered_witness :
  ∃ packet reply s' r st t,
    send_message bencode false (MQuery (ex_service_query 7 2)) (Ok ()) = Ret (Ok (packet, ex_remote 2)) ∧
    recv bencode bdecode (Some ex_handler) packet ex_me (Ok ()) =
      Ret (Answered (Ok (reply, ex_me)) s') ∧ node_ok (info s') ∧
    recv bencode bdecode (S:=TestHandler) None reply (ex_remote 2) (Ok ()) = Ret (ToQueue r) ∧
    transaction_id (result_base r) = q_tid (ex_service_query 7 2) ∧
    exec_all bencode "channel closed"
      [EQueryUnbounded (ex_service_query 7 2); ESent 0 (Ok ()); EReceive r; EWake 0]
      (service_new false 1) = Some st ∧
    tasks st = [t] ∧ t_phase t = Returned r ∧ queries_outbound st = [].
Proof.
  eapply (query_answered (S:=TestHandler)); [exact bencode_format | | done | done | done | |];
    by repeat split; repeat constructor.
Defined.

Lemma recv_branches_witness :
  ∃ reply err, recv bencode bdecode (Some ex_handler)
      (bencode (SMap [("t", SBytes [7]); ("y", SBytes [120])]%string)) ex_me (Ok ()) =
      Ret (Answered (Ok (reply, ex_me)) ex_handler) ∧
    receive bdecode reply ex_me = Ok (MError err) ∧ transaction_id (err_base err) = [7].
Proof.
  pose proof (recv_branches (S:=TestHandler) bencode bdecode bencode_format ex_handler
    (bencode (SMap [("t", SBytes [7]); ("y", SBytes [120])]%string)) ex_me) as (_ & H & _ & _).
  destruct (H (mkKMessage [7] "x" None None None None None None None) Protocol) as [_ Herr].
  - vm_compute. reflexivity.
  - by repeat split; repeat constructor.
  - by repeat split; repeat constructor.
  - done.
  - exact Herr.
Defined.
