(* ===== verification/UnitTests.v ===== *)
(** * The unit tests

    The [#[test]] functions of the program, as computations that panic where an
    assertion fails: [src/u160.rs], [src/node_info.rs], [src/node/token.rs],
    [src/messenger/message/kmsg/kmsg_tests.rs],
    [src/messenger/message/message_impl.rs] and [src/messenger/messenger_tests.rs]
    (those of [src/router/bucket.rs] are in [BucketTests]). Where a test draws at
    random, or reads the clock, the draw or the time is an argument. The texts of the crates are those of
    [Externals] and [Format], so each test can be run. *)

From S2P Require Import Prelude Text Externals Net U160 NodeInfo Wire Format Token Kmsg Message Service Messenger.

(** [assert!], [assert_eq!] *)
Definition assert (b : bool) : run unit := if b then Ret () else Panic.
Definition assert_eq {A} `{EqDecision A} (a b : A) : run unit := assert (bool_decide (a = b)).

(** The derived [PartialEq]s of the values that are compared *)
#[export] Instance compact_nodes_eq_dec : EqDecision CompactIPv4NodeInfo.
Proof. solve_decision. Defined.
#[export] Instance compact_hashes_eq_dec : EqDecision CompactInfoHashes.
Proof. solve_decision. Defined.
#[export] Instance args44_eq_dec : EqDecision MessageArgsBep44.
Proof. solve_decision. Defined.
#[export] Instance args_eq_dec : EqDecision MessageArgs.
Proof. solve_decision. Defined.
#[export] Instance response44_eq_dec : EqDecision KResponseBep44.
Proof. solve_decision. Defined.
#[export] Instance response51_eq_dec : EqDecision ResponseBep51.
Proof. solve_decision. Defined.
#[export] Instance response_eq_dec : EqDecision KResponse.
Proof. solve_decision. Defined.
#[export] Instance kmessage_eq_dec : EqDecision KMessage.
Proof. solve_decision. Defined.

#[local] Abbreviation hex := (from_hex hex_decode_text).

(** ** [u160.rs] *)

Definition test_new (ms ls : Z) : run unit :=
  let id := rand ms ls in
  let! _ := assert (negb (msbytes id =? 0)) in
  assert (negb (lsbytes id =? 0)).

Definition test_distance (one two : U160) : run unit :=
  let d := distance one one in
  let! _ := assert_eq (lsbytes d) 0 in
  let! _ := assert_eq (msbytes d) 0 in
  assert_eq (distance one two) (bitxor one two).

Definition test_ords : run unit :=
  let one := new 0 1 in
  let two := new 0 2 in
  let bigone := new 1 0 in
  let! _ := assert (u160_ltb two bigone) in
  let! _ := assert (u160_ltb one two) in
  assert (u160_ltb min one).

Definition test_bytes (id : U160) : run unit := assert_eq id (from_be_bytes (to_be_bytes id)).

Definition test_bits : run unit :=
  let id := new 0x80000000000000000000000000000000 0x80000000 in
  let! _ := assert (get_bit id 0) in
  let! _ := assert (get_bit id 128) in
  let id := new 1 1 in
  let! _ := assert (get_bit id 127) in
  let! _ := assert (get_bit id 159) in
  let id := new 0xfffffffeffffffff0000000000000001 1 in
  assert (negb (get_bit id 31)).

Definition test_hex : run unit :=
  let! id1 := hex "5b19e3ca091fd1105b5ad3e7f1b8bd61e80ccd0c" in
  let! id2 := hex "5b19e3ca091fd1105b5ad3e7f1b8bd61e80ccd1c" in
  let! dis := hex "0000000000000000000000000000000000000010" in
  let! _ := assert_eq dis (bitxor id1 id2) in
  let! id1_copy := hex (to_hex hex_text id1) in
  assert_eq id1 id1_copy.

Definition test_shifts (p : profile) (rand1 rand2 : U160) : run unit :=
  let shr_is a s b := let! c := shr p a s in assert_eq c b in
  let shl_is a s b := let! c := shl p a s in assert_eq c b in
  let! one := hex "0000000000000000000000000000000000000001" in
  let! two := hex "0000000000000000000000000000000000000002" in
  let! _ := shr_is two 1 one in
  let! _ := shl_is one 1 two in
  let! one := hex "4000000000000000100000000000000080000000" in
  let! two := hex "8000000000000000200000000000000100000001" in
  let! _ := shr_is two 1 one in
  let! c := shl p one 1 in
  let! _ := assert_eq (bitor c (new 0 1)) two in
  let! one := hex "5b19e3ca091fd1105b5ad3e7f1b8bd61e80ccd1c" in
  let! two := hex "05b19e3ca091fd1105b5ad3e7f1b8bd61e80ccd1" in
  let! thr := hex "b19e3ca091fd1105b5ad3e7f1b8bd61e80ccd1c0" in
  let! _ := shr_is one 4 two in
  let! _ := shr_is one 0 one in
  let! _ := shl_is one 4 thr in
  let! _ := shl_is one 0 one in
  let! one := hex "fb19e3ca091fd1105b5ad3e7f1b8bd61e80ccd1c" in
  let! two := hex "00000000000000000000000000000000fb19e3ca" in
  let! thr := hex "fb19e3ca00000000000000000000000000000000" in
  let! _ := shr_is one 128 two in
  let! _ := shl_is two 128 thr in
  let! _ := shr_is rand1 160 min in
  shl_is rand2 160 min.

(** The draws of one call of [from_ip] and of one of [validate] *)
Definition drawn_id (addr : IpAddr) (d : Z * Z * Z) : U160 :=
  let '(r, ms, ls) := d in from_ip crc32c_table_free addr r ms ls.
Definition drawn_validate (id : U160) (addr : IpAddr) (d : Z * Z) : bool :=
  validate crc32c_table_free id addr d.1 d.2.

Definition test_bep42 (d6 d4 : Z * Z * Z) (v : nat → Z * Z) (random : U160) : run unit :=
  let addr := V6 [0x20; 0x01; 0x0d; 0xb8; 0x85; 0xa3; 0; 0; 0; 0; 0x8a; 0x2e; 0x03; 0x70; 0x73; 0x34] in
  let! _ := assert (drawn_validate (drawn_id addr d6) addr (v 0%nat)) in
  let addr := V4 [124; 31; 75; 21] in
  let! _ := assert (drawn_validate (drawn_id addr d4) addr (v 1%nat)) in
  let! id := hex "5fbfbff10c5d6a4ec8a88e4c6ab4c28b95eee401" in
  let! _ := assert (drawn_validate id (V4 [124; 31; 75; 21]) (v 2%nat)) in
  let! id := hex "5a3ce9c14e7a08645677bbd1cfe7d8f956d53256" in
  let! _ := assert (drawn_validate id (V4 [21; 75; 31; 124]) (v 3%nat)) in
  let! id := hex "a5d43220bc8f112a3d426c84764f8c2a1150e616" in
  let! _ := assert (drawn_validate id (V4 [65; 23; 51; 170]) (v 4%nat)) in
  let! id := hex "1b0321dd1bb1fe518101ceef99462b947a01ff41" in
  let! _ := assert (drawn_validate id (V4 [84; 124; 73; 14]) (v 5%nat)) in
  let! id := hex "e56f6cbf5b7c4be0237986d5243b87aa6d51305a" in
  let! _ := assert (drawn_validate id (V4 [43; 213; 53; 83]) (v 6%nat)) in
  assert (negb (drawn_validate random (V4 [43; 213; 53; 83]) (v 7%nat))).

(** ** [node_info.rs] *)

Definition localhost : SocketAddr := SocketV4 [127; 0; 0; 1] 1337.

Definition test_node_new (id : U160) : run unit :=
  let host := mkNodeInfo id localhost in
  let! bytes := ip4_to_bytes host in
  assert_eq host (ip4_from_bytes bytes).

(** [bt_bencode::to_vec(&a).unwrap()], [bt_bencode::from_slice(&bytes).unwrap()] *)
Definition bt_to_vec {A} `{Serde A} (a : A) : run (list Z) := let! v := ser a in Ret (bencode v).
Definition bt_from_slice {A} `{Serde A} (bytes : list Z) : run A :=
  let! v := unwrap (bdecode bytes) in
  match de v with Ok a => Ret a | Err _ => Panic end.
Definition written_is_read {A} `{Serde A, EqDecision A} (a : A) : run unit :=
  let! bytes := bt_to_vec a in
  let! b := bt_from_slice bytes in
  assert_eq a b.

Definition test_node_serde (id1 id2 : U160) : run unit :=
  let! _ := written_is_read (mkNodeInfo id1 localhost) in
  written_is_read (mkNodeInfo id2
    (SocketV6 [0x20; 0x01; 0x0d; 0xb8; 0x85; 0xa3; 0; 0; 0; 0; 0x8a; 0x2e; 0x03; 0x70; 0x73; 0x34] 1337 0 0)).

(** ** [token.rs] *)

Definition foreign_token : list Z :=
  [103; 189; 190; 188; 134; 237; 102; 193; 221; 182; 236; 244; 250; 150; 229; 211; 218; 235; 192; 176].

(** The key stream of ChaCha20 is a parameter; [now 0] is when the token is made. *)
Section Gen.
Context (keystream : list Z → list Z → nat → list Z) (p : profile).
#[local] Abbreviation validates := (validate_token crc32c_table_free keystream p).

Definition test_gen (key rand_bytes : list Z) (now : nat → Z) : run unit :=
  let ip := V4 [127; 0; 0; 1] in
  let g := mkTokenGenerator key in
  let t := generate crc32c_table_free keystream g ip rand_bytes (now 0%nat) in
  let! v := validates g foreign_token ip (now 1%nat) in
  let! _ := assert (negb v) in
  let ip2 := V4 [127; 0; 0; 2] in
  let! v := validates g t ip2 (now 2%nat) in
  let! _ := assert (negb v) in
  let! v := validates g t ip (now 3%nat) in
  assert v.
End Gen.

(** ** [kmsg_tests.rs] *)

Definition base64_bytes (s : string) : run (list Z) := unwrap (base64_decode s).

Definition test_find_node : run unit :=
  let! msg := bt_from_slice (A:=KMessage) (string_bytes find_node_packet) in
  let! _ := assert_eq (k_message_type msg) Y_QUERY in
  let! _ := assert_eq (k_transaction_id msg) (string_bytes "aa") in
  let! q := unwrap (k_query_method msg) in
  let! _ := assert_eq q Q_FIND_NODE in
  let! a := unwrap (k_arguments msg) in
  let! _ := assert_eq (a_id a) (id_of "abcdefghij0123456789") in
  let! target := unwrap (a_target a) in
  assert_eq target (id_of "mnopqrstuvwxyz123456").

Definition test_response : run unit :=
  let! msg := bt_from_slice (A:=KMessage)
    (string_bytes "d1:rd2:id20:0123456789abcdefghij5:nodes9:def456...e1:t2:aa1:y1:re") in
  let! _ := assert_eq (k_message_type msg) Y_RESPONSE in
  let! _ := assert_eq (k_transaction_id msg) (string_bytes "aa") in
  let! r := unwrap (k_response msg) in
  assert_eq (r_id r) (id_of "0123456789abcdefghij").

Definition test_ser_nodes (id1 id2 : U160) : run unit :=
  written_is_read (mkCompactNodes [mkNodeInfo id1 localhost; mkNodeInfo id2 localhost]).

Definition test_error : run unit :=
  let! _ := written_is_read (mkKError 201 "Generic") in
  let test_msg := mkKMessage (string_bytes "aa") Y_ERROR None None None
    (Some (mkKError 201 "A Generic Error Ocurred")) None None None in
  let! bytes := bt_to_vec test_msg in
  let! err_message := bt_from_slice (A:=KMessage) bytes in
  let! _ := assert_eq err_message test_msg in
  let! _ := assert_eq (k_message_type err_message) Y_ERROR in
  assert_eq (k_transaction_id err_message) (string_bytes "aa").

Definition test_addr_wrap : run unit :=
  let! _ := written_is_read (mkWrapper (Some localhost)) in
  written_is_read (mkWrapper (Some (SocketV6
    [0x20; 0x01; 0x0d; 0xb8; 0x85; 0xa3; 0x08; 0xd3; 0x13; 0x19; 0x8a; 0x2e; 0x03; 0x70; 0x73; 0x48] 1337 0 0))).

(** Packets that were captured; what they decode to is printed. *)
Definition captured (text : string) : run KMessage :=
  let! buf := base64_bytes text in bt_from_slice buf.

Definition test_find_nodes_response : run KMessage :=
  captured "ZDE6cmQyOmlkMjA6es6LsAHqL6S93sAyV+y8t2mzqLc1Om5vZGVzMjA4Ohxv57KlTw7ylJm/nb9dlzxDiGb4Xhec08jVHHzKfICCRyerOHPZ5RFX4l8ZVS8Fh7SuyNUt0T6IPmnhch1HBIiumvC3UEJwikgVERrB2C4aUVB3Ct3idsofBy76tWEIvANLwRf6yMfYPMf1EUymrcebpxptH/y4+oL2pppV5GYISj8Ap1bzrrZLAN16RBnANuNDBmZk67mdoUT3cSXUhlwwWTbCY1v+OeOzxg8Ukr35w9ElOsjVHXRLocGoVFTZAfvTeZ5szKs2kjBOUfyP2P9lMTp0Nzp0ZXN0aW5nMTp2NDpsdA2AMTp5MTpyZQ==".

Definition test_ping_response_plus_data : run KMessage :=
  let! msg := captured "ZDE6cmQyOmlkMjA6es6LsAHqL6S93sAyV+y8t2mzqLdlMTp0Nzp0ZXN0aW5nMTp2NDpsdA2AMTp5MTpyZQ==" in
  let! r := unwrap (k_response msg) in
  let r44 := r_bep44 r in
  let r := mkResponse (r_id r) (r_nodes r) (r_token r) (r_values r)
    (mkResponse44 (Some (string_bytes "HELLOWORLD")) (r_seq r44) (r_k r44) (r_sig r44)) (r_bep51 r) in
  let msg := mkKMessage (k_transaction_id msg) (k_message_type msg) (k_query_method msg) (k_arguments msg) (Some r)
    (k_error msg) (k_requestor_ip msg) (k_read_only msg) (k_version msg) in
  let! buf := bt_to_vec msg in
  bt_from_slice buf.

Definition anyone : SocketAddr := SocketV4 [0; 0; 0; 0] 1234.

(** The last three print the message too. *)
Definition printed (msg : KMessage) : KMessage * result Message KnownError :=
  (msg, from_kmsg anyone msg).

Definition test_error_response : run (KMessage * result Message KnownError) :=
  let! msg := captured "ZDE6ZWxpMjAzZTMwOlRyYW5zYWN0aW9uIElEIGxlbmd0aCB0b28gbG9uZ2UxOnY0Omx0DYAxOnkxOmVl" in
  Ret (printed msg).
Definition test_query : run (KMessage * result Message KnownError) :=
  let! msg := captured "ZDE6YWQyOmlkMjA6oGCokH64btALaJnYkDs1B0Sgw0A2OnRhcmdldDIwOqBgrrQAAGxyAAAYaAAAX5QAAG1kZTE6cTk6ZmluZF9ub2RlMTp0NDoBPwAAMTp2NDpVVLTgMTp5MTpxZQ==" in
  Ret (printed msg).
Definition test_query2 : run (KMessage * result Message KnownError) :=
  let! msg := captured "ZDE6YWQyOmlkMjA6oGCuq2l6uuzW00L4vlO3t9SZG3JlMTpxNDpwaW5nMTp0MjrhrzE6djQ6TFQCBjE6eTE6cWU=" in
  Ret (printed msg).

(** ** [message_impl.rs] *)

Definition test_ping (id : U160) : run Message :=
  let addr := SocketV4 [127; 0; 0; 1] 1337 in
  let me := SenderMe (mkNodeInfo id addr) in
  let dest := ReceiverAddr addr in
  let msg := MQuery (into_query
    (mkBase me dest (Some (sender_addr me)) (string_bytes "654") true None) Ping) in
  let! bytes := to_bytes bencode msg in
  match receive bdecode bytes (SocketV4 [127; 127; 127; 127] 127) with Ok m => Ret m | Err _ => Panic end.

(** ** [messenger_tests.rs]

    Two services, the packets between them delivered. *)

Definition query_base (client server : NodeInfo) (tid : string) : MessageBase :=
  mkBase (SenderMe client) (ReceiverNode server) (Some (addr client)) (string_bytes tid) true None.

(** The result of the first query of a service *)
Definition first_result (st : ServiceState) : run QueryResult :=
  let! t := unwrap (head (tasks st)) in
  match t_phase t with Returned r => Ret r | _ => Panic end.

Definition test_messenger_ping (client_id server_id : U160) : run unit :=
  let client := mkNodeInfo client_id (SocketV4 [127; 0; 0; 1] 54321) in
  let server := mkNodeInfo server_id (SocketV4 [127; 0; 0; 1] 12345) in
  let q := into_query (query_base client server "123") Ping in
  let! sent := send_message bencode false (MQuery q) (Ok ()) in
  match sent with
  | Ok (packet, _) =>
      let! answer := recv bencode bdecode (Some (mkTestHandler server)) packet (addr client) (Ok ()) in
      match answer with
      | Answered (Ok (reply, _)) _ =>
          let! got := recv bencode bdecode (S:=TestHandler) None reply (addr server) (Ok ()) in
          match got with
          | ToQueue r =>
              let! st := unwrap (exec_all bencode "channel closed" [EQuery q; ESent 0 (Ok ()); EReceive r; EWake 0]
                (service_new false 1)) in
              let! response := first_result st in
              match response with
              | Ok response =>
                  let b := resp_base response in
                  let! _ := assert (negb (read_only b)) in
                  let! _ := assert (match kind response with KindOk => true | _ => false end) in
                  let! _ := assert_eq (sender_id (origin b)) server_id in
                  let! _ := assert_eq (sender_addr (origin b)) (addr server) in
                  assert_eq (requestor_addr b) (Some (addr client))
              | Err _ => Panic
              end
          | _ => Panic
          end
      | _ => Panic
      end
  | Err _ => Panic
  end.

Definition test_timeout_readonly (client_id server_id : U160) : run unit :=
  let client := mkNodeInfo client_id (SocketV4 [127; 0; 0; 1] 34251) in
  let server := mkNodeInfo server_id (SocketV4 [127; 0; 0; 1] 15243) in
  let q := into_query (query_base client server "321") Ping in
  let! sent := send_message bencode false (MQuery q) (Ok ()) in
  match sent with
  | Ok (packet, _) =>
      let! answer := recv bencode bdecode (S:=TestHandler) None packet (addr client) (Ok ()) in
      match answer with
      | Dropped =>
          let! st := unwrap (exec_all bencode "channel closed" [EQuery q; ESent 0 (Ok ()); ETimeout 0]
            (service_new false 1)) in
          let! response := first_result st in
          match response with
          | Err e =>
              let! _ := assert (bool_decide (error_code (error e) = 201)
                && bool_decide (error_text (error e) = "Timeout"%string)) in
              let! _ := assert_eq (sender_id (origin (err_base e))) client_id in
              let! _ := assert_eq (sender_addr (origin (err_base e))) (addr client) in
              assert_eq (requestor_addr (err_base e)) (Some (addr client))
          | Ok _ => Panic
          end
      | _ => Panic
      end
  | Err _ => Panic
  end.

(** ** Lemmas *)

Lemma assert_true b : b = true → assert b = Ret ().
Proof. by intros ->. Qed.
Lemma assert_eq_true {A} `{EqDecision A} (a b : A) : a = b → assert_eq a b = Ret ().
Proof. intros ->. by apply assert_true, bool_decide_eq_true. Qed.

Lemma written_is_read_ok {A} `{SerdeLaw A ok, EqDecision A, !SerdeProper A} (a : A) :
  ok a → written_is_read a = Ret ().
Proof.
  intros Ha. pose proof bencode_format as Hf. destruct (read_written a Ha) as (v & v' & Hs & Hr & Hd).
  unfold written_is_read, bt_to_vec, bt_from_slice. rewrite Hs. cbn [run_bind]. rewrite Hr. cbn [unwrap run_bind].
  rewrite Hd. by apply assert_eq_true.
Qed.

Lemma shifts_out p u :
  u160_ok u → shr p u 160 = Ret min ∧ shl p u 160 = Ret min.
Proof.
  intros Hu. destruct (shr_spec p u 160 Hu) as (a & -> & Ha & Ea); [lia |].
  destruct (shl_spec p u 160 Hu) as (b & -> & Hb & Eb); [lia |].
  assert (Hmin : ∀ c, u160_ok c → value c = 0 → c = min).
  { intros c Hc E. by apply value_inj. }
  split; f_equal; apply Hmin; try done.
  - rewrite Ea. apply Z.shiftr_eq_0; [by apply value_in_width |].
    destruct (decide (value u = 0)) as [->|]; [done |]. apply Z.log2_lt_pow2.
    + pose proof (proj1 (value_in_width u Hu)). lia.
    + apply (value_in_width u Hu).
  - rewrite Eb. unfold wrap. apply Z.bits_inj'. intros i Hi. rewrite Z.bits_0.
    destruct (Z.ltb_spec i 160); [| by apply Z.mod_pow2_bits_high].
    rewrite Z.mod_pow2_bits_low, Z.shiftl_spec by lia. apply Z.testbit_neg_r. lia.
Qed.

Lemma shifts_pass p one two : u160_ok one → u160_ok two → test_shifts p one two = Ret ().
Proof.
  intros H1 H2. unfold test_shifts. cbv zeta.
  rewrite (proj1 (shifts_out p one H1)), (proj2 (shifts_out p two H2)). destruct p; vm_compute; reflexivity.
Qed.

(** The next identifier, read from its text *)
Ltac hex_step :=
  match goal with
  | |- context [from_hex hex_decode_text ?s] =>
      let r := eval vm_compute in (from_hex hex_decode_text s) in
      replace (from_hex hex_decode_text s) with r by (vm_compute; reflexivity)
  end; cbn [run_bind].

Lemma drawn_valid id addr d :
  u160_ok id → in_width 128 d.1 → in_width 32 d.2 → bep42 crc32c_table_free id addr →
  assert (drawn_validate id addr d) = Ret ().
Proof. intros ????. apply assert_true. by apply validate_bep42; [apply crc32c_table_free_u32 | ..]. Qed.

Lemma bep42_passes d6 d4 v random :
  u160_ok random → (∀ i, in_width 128 (v i).1 ∧ in_width 32 (v i).2) →
  (∀ d, d = d6 ∨ d = d4 → in_width 8 d.1.1 ∧ in_width 128 d.1.2 ∧ in_width 32 d.2) →
  test_bep42 d6 d4 v random = Ret () ↔ ¬ bep42 crc32c_table_free random (V4 [43; 213; 53; 83]).
Proof.
  intros Hr Hv Hd.
  assert (Hdrawn : ∀ d a i, d = d6 ∨ d = d4 → assert (drawn_validate (drawn_id a d) a (v i)) = Ret ()).
  { intros [[r ms] ls] a i E. destruct (Hd _ E) as (?&?&?). destruct (Hv i).
    apply drawn_valid; [| done | done |]; unfold drawn_id.
    - by apply from_ip_ok; try apply crc32c_table_free_u32.
    - by apply from_ip_bep42; try apply crc32c_table_free_u32. }
  unfold test_bep42. rewrite !Hdrawn by auto. cbn [run_bind].
  do 5 (hex_step; rewrite drawn_valid; [cbn [run_bind] | by split | apply Hv | apply Hv | by vm_compute]).
  assert (Hlast : drawn_validate random (V4 [43; 213; 53; 83]) (v 7%nat) = true ↔
    bep42 crc32c_table_free random (V4 [43; 213; 53; 83])).
  { unfold drawn_validate. apply validate_bep42; [apply crc32c_table_free_u32 | done | apply Hv..]. }
  rewrite <- Hlast. unfold assert. by destruct (drawn_validate random _ _).
Qed.

(** Times of a test that takes less than the life of a token *)
Definition times_ok (now : nat → Z) : Prop := ∀ i, now 0%nat ≤ now i < now 0%nat + 120 ∧ 0 ≤ now i ∧ now i + 120 < 2 ^ 64.

Lemma gen_passes keystream p key rand_bytes now :
  (∀ key nonce n, length (keystream key nonce n) = n) → (∀ key nonce n, bytes_ok (keystream key nonce n)) →
  length rand_bytes = 8%nat → bytes_ok rand_bytes → times_ok now →
  test_gen keystream p key rand_bytes now = Ret () ↔
  validate_token crc32c_table_free keystream p (mkTokenGenerator key) foreign_token (V4 [127; 0; 0; 1]) (now 1%nat) ≠ Ret true.
Proof.
  intros Hlen Hok Hr Hrok Hnow. assert (Hw : ∀ i, 0 ≤ now i ∧ in_width 64 (now i) ∧ in_width 64 (now i + 120)).
  { intros i. destruct (Hnow i). unfold in_width. lia. }
  unfold test_gen. destruct (validate_total crc32c_table_free keystream Hok p (mkTokenGenerator key)
    foreign_token (V4 [127; 0; 0; 1]) (now 1%nat)) as (v & ->); [by repeat constructor | apply Hw.. |].
  destruct v; cbn [run_bind negb assert]; [done |]. split; [done |]. intros _.
  rewrite validate_other; try done; try apply Hw; [| by repeat constructor..].
  cbn [run_bind negb assert]. rewrite validate_generate by (done || apply Hw).
  rewrite bool_decide_eq_true_2 by done. destruct (Hnow 3%nat) as [H _].
  by rewrite (proj2 (Z.leb_le _ _)), (proj2 (Z.ltb_lt _ _)) by lia.
Qed.

Lemma ping_passes id :
  u160_ok id → test_ping id = Ret (delivered (SocketV4 [127; 127; 127; 127] 127) (MQuery (mkQuery Ping
    (mkBase (SenderMe (mkNodeInfo id localhost)) (ReceiverAddr localhost) (Some localhost)
       (string_bytes "654") true None)))).
Proof.
  intros Hid. pose proof bencode_format as Hf. unfold test_ping. cbv zeta. fold localhost. cbn [sender_addr addr].
  destruct (to_bytes_receive (SocketV4 [127; 127; 127; 127] 127) (MQuery (into_query
    (mkBase (SenderMe (mkNodeInfo id localhost)) (ReceiverAddr localhost) (Some localhost)
       (string_bytes "654") true None) Ping))) as (bytes & Hb & Hr).
  - by repeat split; try apply Hid; repeat constructor.
  - rewrite Hb. cbn [run_bind]. by rewrite Hr.
Qed.

(** A service sends a message that can be sent, and it is received as such. *)
Lemma sent_received h m a from :
  message_ok m → receiver_addr (destination (base m)) = Some a → read_only (base m) || h = true →
  ∃ packet, send_message bencode h m (Ok ()) = Ret (Ok (packet, a)) ∧
    receive bdecode packet from = Ok (delivered from m).
Proof.
  intros Hm Ha Hh. pose proof bencode_format as Hf.
  destruct (to_bytes_receive from m Hm) as (packet & Hb & Hr). exists packet. split; [| done].
  unfold send_message. rewrite Hb. cbn [run_bind]. rewrite Ha. by destruct (read_only _), h.
Qed.

Lemma plain_local port : in_width 16 port → peer_plain (SocketV4 [127; 0; 0; 1] port).
Proof. intros Hp. by repeat split; try apply Hp; repeat constructor. Qed.

Lemma query_base_ok client server tid :
  u160_ok (id client) → peer_plain (addr client) →
  message_ok (MQuery (into_query (query_base client server tid) Ping)).
Proof. intros Hi Ha. split; [exact Hi | by split]. Qed.

Lemma messenger_ping_passes client_id server_id :
  u160_ok client_id → u160_ok server_id → test_messenger_ping client_id server_id = Ret ().
Proof.
  intros Hc Hs. unfold test_messenger_ping. cbv zeta. cbn [addr].
  set (client := mkNodeInfo client_id (SocketV4 [127; 0; 0; 1] 54321)).
  set (server := mkNodeInfo server_id (SocketV4 [127; 0; 0; 1] 12345)).
  set (q := into_query (query_base client server "123") Ping).
  destruct (sent_received false (MQuery q) (addr server) (addr client)) as (packet & Hsend & Hrecv);
    [by apply query_base_ok, plain_local | done | done |].
  rewrite Hsend. cbn [run_bind]. unfold recv at 1. cbn [addr client] in Hrecv. rewrite Hrecv.
  cbn [delivered handle_received handle_query test_handler].
  unfold test_handle_query. cbn [run_bind result_message].
  match goal with |- context [send_message _ true ?m _] => set (reply_message := m) end.
  destruct (sent_received true reply_message (addr client) (addr server)) as (reply & Hsend' & Hrecv');
    [split; [exact Hs | split; [done | by apply plain_local]] | done | done |].
  rewrite Hsend'. cbn [run_bind]. unfold recv. cbn [addr server] in Hrecv'. rewrite Hrecv'.
  cbn [delivered handle_received reply_message run_bind].
  match goal with |- context [EReceive ?r] => set (got := r) end.
  rewrite (answered_run true _ _ false 1 q got packet (addr server) Hsend) by (done || auto).
  cbn [unwrap run_bind first_result head tasks t_phase got resp_base read_only kind].
  cbn [assert negb run_bind origin sender_id sender_addr id addr requestor_addr].
  rewrite !assert_eq_true by done. done.
Qed.

Lemma timed_out_run h q packet a :
  send_message bencode h (MQuery q) (Ok ()) = Ret (Ok (packet, a)) →
  exec_all bencode "channel closed" [EQuery q; ESent 0 (Ok ()); ETimeout 0] (service_new h 1) =
  Some (mkService h [] [mkTask q true (Returned (generic q "Timeout")) Closed] 1).
Proof.
  intros Hsend. unfold service_new. cbn [exec_all exec mbind option_bind permits Nat.ltb Nat.leb].
  unfold start. cbn [tasks queries_outbound app length handler permits].
  change ([mkTask q true Sending Empty] !! 0%nat) with (Some (mkTask q true Sending Empty)).
  cbn [t_phase t_query]. rewrite Hsend. cbn [mbind option_bind].
  cbn -[remove_from_queue]. unfold time_out, remove_from_queue, take_first.
  cbn [queries_outbound position o_transaction_id t_query]. rewrite bool_decide_eq_true_2 by done. reflexivity.
Qed.

Lemma timeout_readonly_passes client_id server_id :
  u160_ok client_id → test_timeout_readonly client_id server_id = Ret ().
Proof.
  intros Hc. unfold test_timeout_readonly. cbv zeta. cbn [addr].
  set (client := mkNodeInfo client_id (SocketV4 [127; 0; 0; 1] 34251)).
  set (server := mkNodeInfo server_id (SocketV4 [127; 0; 0; 1] 15243)).
  set (q := into_query (query_base client server "321") Ping).
  destruct (sent_received false (MQuery q) (addr server) (addr client)) as (packet & Hsend & Hrecv);
    [by apply query_base_ok, plain_local | done | done |].
  rewrite Hsend. cbn [run_bind]. unfold recv. cbn [addr client] in Hrecv. rewrite Hrecv.
  cbn [delivered handle_received run_bind].
  rewrite (timed_out_run false q packet (addr server) Hsend).
  cbn [unwrap run_bind first_result head tasks t_phase generic err_base error error_code error_text into_error_generic].
  rewrite assert_true by done. cbn [run_bind]. by rewrite !assert_eq_true by done.
Qed.

(** ** Properties *)

(** C24: the unit tests of identifiers, contacts and messages pass whatever they
    draw, in both build profiles: operators, order, bits, bytes, shifts and
    hexadecimal texts of identifiers; encodings of contacts, node lists, errors
    and addresses; tokens; the query that is received as it was sent, the one that is
    answered and the one that times out. Three assertions
    depend on the draw: that no word of a random identifier is zero, that a
    random identifier is not valid for an address, and that a fixed token is not
    valid under a random key. *)
Theorem unit_tests_pass p one two (v : nat → Z * Z) d6 d4 keystream key rand_bytes now :
  u160_ok one → u160_ok two → (∀ i, in_width 128 (v i).1 ∧ in_width 32 (v i).2) →
  (∀ d, d = d6 ∨ d = d4 → in_width 8 d.1.1 ∧ in_width 128 d.1.2 ∧ in_width 32 d.2) →
  (∀ key nonce n, length (keystream key nonce n) = n) → (∀ key nonce n, bytes_ok (keystream key nonce n)) →
  length rand_bytes = 8%nat → bytes_ok rand_bytes → times_ok now →
  (test_new (msbytes one) (lsbytes one) = Ret () ↔ msbytes one ≠ 0 ∧ lsbytes one ≠ 0) ∧
  test_distance one two = Ret () ∧ test_ords = Ret () ∧ test_bytes one = Ret () ∧ test_bits = Ret () ∧
  test_hex = Ret () ∧ test_shifts p one two = Ret () ∧
  (test_bep42 d6 d4 v one = Ret () ↔ ¬ bep42 crc32c_table_free one (V4 [43; 213; 53; 83])) ∧
  test_node_new one = Ret () ∧ test_node_serde one two = Ret () ∧
  (test_gen keystream p key rand_bytes now = Ret () ↔
   validate_token crc32c_table_free keystream p (mkTokenGenerator key) foreign_token (V4 [127; 0; 0; 1]) (now 1%nat) ≠ Ret true) ∧
  test_find_node = Ret () ∧ test_response = Ret () ∧ test_ser_nodes one two = Ret () ∧
  test_error = Ret () ∧ test_addr_wrap = Ret () ∧
  test_ping one = Ret (delivered (SocketV4 [127; 127; 127; 127] 127) (MQuery (mkQuery Ping
    (mkBase (SenderMe (mkNodeInfo one localhost)) (ReceiverAddr localhost) (Some localhost)
       (string_bytes "654") true None)))) ∧
  test_messenger_ping one two = Ret () ∧ test_timeout_readonly one two = Ret ().
Proof.
  intros H1 H2 Hv Hd Hlen Hok Hr Hrok Hnow. split_and!.
  - unfold test_new. cbn [rand msbytes lsbytes]. unfold assert.
    destruct (Z.eqb_spec (msbytes one) 0), (Z.eqb_spec (lsbytes one) 0); cbn [negb run_bind]; intuition congruence.
  - unfold test_distance, distance, bitxor. cbn [msbytes lsbytes]. rewrite !Z.lxor_nilpotent.
    by rewrite !assert_eq_true by done.
  - reflexivity.
  - apply assert_eq_true. by rewrite from_be_to_be_bytes.
  - reflexivity.
  - vm_compute. reflexivity.
  - by apply shifts_pass.
  - by apply bep42_passes.
  - unfold test_node_new. destruct (node_v4_bytes (mkNodeInfo one localhost)) as (-> & _ & E).
    + by repeat split; try apply H1; repeat constructor.
    + cbn [run_bind]. by apply assert_eq_true.
  - unfold test_node_serde. rewrite !written_is_read_ok; [done | ..];
      by repeat split; try apply H1; try apply H2; repeat constructor.
  - by apply gen_passes.
  - vm_compute. reflexivity.
  - vm_compute. reflexivity.
  - apply written_is_read_ok. by repeat constructor; try apply H1; try apply H2.
  - vm_compute. reflexivity.
  - vm_compute. reflexivity.
  - by apply ping_passes.
  - by apply messenger_ping_passes.
  - by apply timeout_readonly_passes.
Qed.

(** ** The packets that the tests print *)

Example captured_packets :
  (∃ m r ns, test_find_nodes_response = Ret m ∧ k_response m = Some r ∧ r_nodes r = Some (mkCompactNodes ns) ∧
     length ns = 8%nat) ∧
  (∃ m r, test_ping_response_plus_data = Ret m ∧ k_response m = Some r ∧
     r_v (r_bep44 r) = Some (string_bytes "HELLOWORLD")) ∧
  (∃ m e, test_error_response = Ret (m, Ok (MError e)) ∧
     error e = mkKError 203 "Transaction ID length too long") ∧
  (∃ m q, test_query = Ret (m, Ok (MQuery q)) ∧
     c_name <$> client (q_base q) = Some "uTorrent"%string) ∧
  (∃ m q, test_query2 = Ret (m, Ok (MQuery q)) ∧ method q = Ping ∧
     c_name <$> client (q_base q) = Some "libtorrent"%string).
Proof.
  split_and!.
  - do 3 eexists. split_and!; [vm_compute; reflexivity | vm_compute; reflexivity.. ].
  - do 2 eexists. split_and!; vm_compute; reflexivity.
  - do 2 eexists. split; vm_compute; reflexivity.
  - do 2 eexists. split; vm_compute; reflexivity.
  - do 2 eexists. split_and!; vm_compute; reflexivity.
Qed.

Lemma unit_tests_pass_witness :
  test_shifts Release (new 5 6) (new 7 8) = Ret () ∧ test_timeout_readonly (new 5 6) (new 7 8) = Ret () ∧
  test_gen constant_stream Release [1] [1; 2; 3; 4; 5; 6; 7; 8] (λ i, 1000 + Z.of_nat (i `min` 3)) = Ret ().
Proof.
  destruct (unit_tests_pass Release (new 5 6) (new 7 8) (λ _, (1, 2)) (1, 2, 3) (4, 5, 6)
    constant_stream [1] [1; 2; 3; 4; 5; 6; 7; 8] (λ i, 1000 + Z.of_nat (i `min` 3)))
    as (_&_&_&_&_&_& H &_&_&_& Hg &_&_&_&_&_&_&_& H'); [by split | by split | by repeat split | | | | | | |].
  - by intros d [-> | ->].
  - intros. apply length_replicate.
  - intros. by apply Forall_replicate.
  - done.
  - by repeat constructor.
  - intros i. lia.
  - split_and!; [exact H | exact H' |]. apply Hg. vm_compute. discriminate.
Defined.
