(* ===== verification/BucketTests.v ===== *)
(** * The tests of the routing table

    The [#[tokio::test]] functions of [src/router/bucket.rs]. Ten tasks of two
    hundred additions each run at the same time; here every addition is a task of
    its own ([BucketTasks]), which allows all the orders of the ten and more, and
    a schedule says whose turn it is. What is drawn at random is an argument. *)

From S2P Require Import Prelude Text Externals Net U160 NodeInfo Bucket BucketTasks Wire Format BucketSerde.
From S2P Require Import Kmsg Message Service Messenger UnitTests.

(** [impl PartialEq for Bucket] *)
Fixpoint bucket_eqb (a b : Bucket) : bool :=
  bool_decide (own_id a = own_id b) && bool_decide (bucket_index a = bucket_index b)
  && bool_decide (k_size a = k_size b) && bool_decide (nodes a = nodes b)
  && match next_bucket a, next_bucket b with
     | None, None => true
     | Some a, Some b => bucket_eqb a b
     | _, _ => false
     end.

(** ** The tests *)

(** The calls [cs] as tasks on the chain [ch], scheduled by [ts], until all have
    returned; [None] when [ts] does not get there. *)
Definition join (own : U160) (k : Z) (cs : list call) (ts : list nat) (ch : list cell) : run (option (list cell)) :=
  let! s := tasks_run own k ts (mkSystem ch (call_stack <$> cs)) in
  Ret (s ← s; if forallb (λ st, match st with [] => true | _ => false end) (stacks s) then Some (chain s) else None).

(** The next step of a test, unless a schedule has ended too early *)
Definition and_then {A B} (m : run (option A)) (f : A → run (option B)) : run (option B) :=
  let! o := m in match o with Some a => f a | None => Ret None end.
#[local] Notation "'let!o' x ':=' m 'in' f" := (and_then m (λ x, f)) (at level 200, x name, f at level 200).

Definition test_node : NodeInfo := mkNodeInfo max localhost.

Definition random_node (p : profile) (d : Z * Z * Z) : run NodeInfo :=
  let '(ms, ls, places) := d in
  let! id := shr p (rand ms ls) (places mod 161) in
  Ret (mkNodeInfo id localhost).

(** [fill]: the draws of all tasks *)
Definition fill (p : profile) (k : Z) (draws : list (Z * Z * Z)) (ts : list nat) (ch : list cell) : run (option (list cell)) :=
  let! ns := run_collect (random_node p) draws in
  join min k (CallAdd <$> ns) ts ch.

(** The table whose buckets hold the nodes of a chain *)
Fixpoint table_from (own : U160) (k i : Z) (ns : list NodeInfo) (rest : list cell) : Bucket :=
  mkBucket own i k ns
    match rest with [] => None | c :: rest => Some (table_from own k (i + 1) (c_nodes c) rest) end.
Definition table_of (own : U160) (k : Z) (ch : list cell) : Bucket :=
  table_from own k 0 (nodes_at ch 0) (tail ch).

(** [bucket.nodes.write().await.pop().unwrap().id] *)
Definition last_id (ch : list cell) : run U160 :=
  let! n := unwrap (last (nodes_at ch 0)) in Ret (id n).

(** The schedules of the four awaited calls *)
Definition test_full (p : profile) (draws : list (Z * Z * Z)) (t1 t2 t3 : list nat) : run (option unit) :=
  let!o ch := join min 8 [CallAdd test_node] t1 (cells (root min 8)) in
  let!o ch := fill p 8 draws t2 ch in
  let!o ch := join min 8 [CallAdd test_node] t3 ch in
  let! i := last_id ch in
  let! _ := assert_eq i (id test_node) in
  Ret (Some ()).

(** [test_remove] up to its assertion *)
Definition removed (p : profile) (draws : list (Z * Z * Z)) (t1 t2 t3 t4 : list nat) : run (option (list cell)) :=
  let!o ch := join min 8 [CallAdd test_node] t1 (cells (root min 8)) in
  let!o ch := fill p 8 draws t2 ch in
  let!o ch := join min 8 [CallAdd test_node] t3 ch in
  join min 8 [CallRemove (id test_node)] t4 ch.
Definition test_remove (p : profile) (draws : list (Z * Z * Z)) (t1 t2 t3 t4 : list nat) : run (option unit) :=
  let!o ch := removed p draws t1 t2 t3 t4 in
  let! i := last_id ch in
  let! _ := assert (negb (bool_decide (i = id test_node))) in
  Ret (Some ()).

(** The tasks that look up while the others add: the [t]-th access of a lookup
    happens after [at_ t] steps of the additions. *)
Definition seen_at (ns : list NodeInfo) (ts : list nat) (ch : list cell) (at_ : nat → nat) (t : nat) : list cell :=
  match tasks_run min 8 (take (at_ t) ts) (mkSystem ch (call_stack <$> (CallAdd <$> ns))) with
  | Ret (Some s) => chain s
  | _ => ch
  end.
Definition test_fill_and_lookup_concurrent (p : profile) (draws : list (Z * Z * Z))
    (queries : list (Z * Z * Z * (nat → nat))) (t1 t2 t3 : list nat) : run (option unit) :=
  let!o ch := join min 8 [CallAdd test_node] t1 (cells (root min 8)) in
  let! ns := run_collect (random_node p) draws in
  let! _k_nearest := run_collect (λ q : Z * Z * Z * (nat → nat),
      let! query := random_node p q.1 in
      lookup_seen min 8 p (seen_at ns t2 ch q.2) FUEL 0 0 (id query)) queries in
  let!o ch := join min 8 (CallAdd <$> ns) t2 ch in
  let!o ch := join min 8 [CallAdd test_node] t3 ch in
  let! i := last_id ch in
  let! _ := assert_eq i (id test_node) in
  Ret (Some ()).

(** Calls that one task makes, each with its own schedule *)
Fixpoint add_each (k : Z) (ns : list (NodeInfo * list nat)) (ch : list cell) : run (option (list cell)) :=
  match ns with
  | [] => Ret (Some ch)
  | (n, ts) :: ns => let!o ch := join min k [CallAdd n] ts ch in add_each k ns ch
  end.

Definition test_lookup (p : profile) (draws : list (Z * Z * Z)) (ts : list nat) (more : list (Z * Z * Z * list nat))
    (d1 : Z * Z * Z) (query2 : U160) : run (option (list (list NodeInfo))) :=
  let!o ch := fill p 30 draws ts (cells (root min 30)) in
  let! ns := run_collect (λ d : Z * Z * Z * list nat, let! n := random_node p d.1 in Ret (n, d.2)) more in
  let!o ch := add_each 30 ns ch in
  let! query := random_node p d1 in
  let! found := run_collect (λ q, let! (_, l) := lookup_seen min 30 p (λ _, ch) FUEL 0 0 q in Ret l)
    [id query; query2; min] in
  Ret (Some found).

Definition test_serde (p : profile) (draws : list (Z * Z * Z)) (ts : list nat) : run (option unit) :=
  let!o ch := fill p 8 draws ts (cells (root min 8)) in
  let bucket := table_of min 8 ch in
  let! v := bucket_ser p bucket in
  let! v := unwrap (bdecode (bencode v)) in
  let! de := bucket_de p v in
  match de with
  | Ok de => let! _ := assert (bucket_eqb de bucket) in Ret (Some ())
  | Err _ => Panic
  end.

Definition test_file (p : profile) (draws : list (Z * Z * Z)) (ts : list nat) : run (option unit) :=
  let!o ch := fill p 8 draws ts (cells (root min 8)) in
  let bucket := table_of min 8 ch in
  let! file := save_to_file bencode p bucket in
  let! b2 := load_from_file bdecode p (Some file) in
  match b2 with
  | Ok b2 => let! _ := assert (bucket_eqb b2 bucket) in Ret (Some ())
  | Err _ => Panic
  end.

(** ** Nodes that stay *)

Section Kept.
Context (own : U160) (k : Z) (Hk : 0 ≤ k).

(** No addition takes a node out of the bucket it belongs to. *)
Lemma frame_keeps ch f ch' fs i x :
  cells_ok own k ch → frame_ok own ch f → frame_adds k ch f → frame_step own k ch f = Next ch' fs →
  belongs_at own i x = true → x ∈ ids (nodes_at ch i) → x ∈ ids (nodes_at ch' i).
Proof using Type.
  intros Hch (Hlt & Hnode & _) Ha E Hb Hx. pose proof (proj2 Hch) as Hc.
  destruct f as [j n|j n|j n|j n|j n|j n|j n idx|j n|j n|j x'|j x']; cbn [frame_step frame_index] in *;
    try done; try (apply access_Next in E as (ns & Hj & E)); try by simplify_eq.
  - repeat case_match; simplify_eq; try done. destruct (decide (i < length ch)%nat); [by rewrite nodes_at_snoc |].
    unfold nodes_at in Hx. rewrite lookup_ge_None_2 in Hx by lia. by apply not_elem_of_nil in Hx.
  - simplify_eq. destruct (decide (i = j)) as [->|]; [| by rewrite nodes_at_insert_ne].
    rewrite nodes_at_insert by done. by rewrite (nodes_at_eq _ _ _ Hj) in Hx.
  - destruct (ch !! j) as [c|] eqn:Hj; [| done].
    destruct (decide (i = j)) as [->|]; [| by repeat case_match; simplify_eq; rewrite ?nodes_at_insert_ne].
    rewrite (nodes_at_eq _ _ _ Hj) in Hx.
    destruct (c_nodes c !! idx) as [m|] eqn:Hi; [destruct (belongs_at own j (id m)) eqn:Hm |].
    + simplify_eq. by rewrite (nodes_at_eq _ _ _ Hj).
    + destruct (swap_remove idx (c_nodes c)) as [[m' ns]| |] eqn:Hs; simplify_eq.
      apply swap_remove_perm in Hs as [Hm' Hp]. simplify_eq. rewrite nodes_at_insert by done. simpl.
      rewrite <- (ids_perm _ _ Hp) in Hx. apply elem_of_cons in Hx as [->|]; [congruence | done].
    + simplify_eq. by rewrite nodes_at_insert.
  - repeat case_match; by simplify_eq.
  - destruct (add_or_update _ _) as [b| |] eqn:Hu; simplify_eq.
    destruct (decide (i = j)) as [->|]; [| by rewrite nodes_at_insert_ne].
    destruct (Hnode n) as [Hok Hp]; [done |].
    destruct (update_cell _ _ _ _ _ _ (Hc _ _ Hj) Hok Hp Hu) as [_ Hpost].
    rewrite nodes_at_insert by done. rewrite (nodes_at_eq _ _ _ Hj) in Hx. simpl in *.
    destruct Hpost as [[_ Hperm]|[_ [[_ ->]|[_ ->]]]]; [by rewrite (ids_perm _ _ Hperm) | | done].
    rewrite ids_app. apply elem_of_app. by left.
Qed.

(** The nodes of a chain, and those that its tasks are about to store, survive their
    encoding. *)
Definition stored_plain (ch : list cell) : Prop := Forall (λ c, Forall node_plain (c_nodes c)) ch.
Definition frame_plain (f : frame) : Prop := ∀ n, frame_node f = Some n → node_plain n.

Lemma one_plain f n : frame_node f = Some n → node_plain n → Forall frame_plain [f].
Proof using Type. intros E Hn. apply Forall_singleton. intros m Hm. by simplify_eq. Qed.

Lemma frame_stays_plain ch f ch' fs :
  cells_ok own k ch → frame_ok own ch f → frame_adds k ch f → stored_plain ch → frame_plain f →
  frame_step own k ch f = Next ch' fs → stored_plain ch' ∧ Forall frame_plain fs.
Proof using Type.
  intros Hch (Hlt & Hnode & _) Ha Hp Hf E. pose proof (proj2 Hch) as Hc.
  destruct f as [j n|j n|j n|j n|j n|j n|j n idx|j n|j n|j x'|j x']; cbn [frame_step frame_index] in *; try done;
    specialize (Hf n eq_refl);
    try (apply access_Next in E as (ns & Hj & E); pose proof (Forall_lookup_1 _ _ _ _ Hp Hj) as Hns; cbn beta in Hns).
  - simplify_eq. split; [done | apply (one_plain _ n); [by case_match | done]].
  - simplify_eq. split; [done | apply (one_plain _ n); [by case_match | done]].
  - simplify_eq. split; [done | apply (one_plain _ n); [by case_match | done]].
  - simplify_eq. split; [done | apply (one_plain _ n); [by case_match | done]].
  - destruct (Z.of_nat j =? MAX_BUCKET_INDEX); [| destruct (has_next ch j)]; simplify_eq;
      (split; [| first [by apply (one_plain _ n) | constructor]]); [done.. |].
    apply Forall_app_2; [done |]. by repeat constructor.
  - simplify_eq. split; [by apply Forall_insert | by apply (one_plain _ n)].
  - destruct (ch !! j) as [c|] eqn:Hj; [| done]. pose proof (Forall_lookup_1 _ _ _ _ Hp Hj) as Hns; cbn beta in Hns.
    destruct (c_nodes c !! idx) as [m|] eqn:Hm; [destruct (belongs_at own j (id m)) |].
    + simplify_eq. split; [done | by apply (one_plain _ n)].
    + destruct (swap_remove idx (c_nodes c)) as [[m' ns]| |] eqn:Hs; simplify_eq.
      apply swap_remove_perm in Hs as [_ Hperm]. rewrite <- Hperm in Hns. apply Forall_cons in Hns as [? ?].
      split; [by apply Forall_insert |]. apply Forall_cons_2; [by intros ? [= <-] | by apply (one_plain _ n)].
    + simplify_eq. split; [by apply Forall_insert | by apply (one_plain _ n)].
  - destruct (belongs_at own j (id n)); [| destruct (has_next ch j); [| done]]; simplify_eq;
      (split; [done | by apply (one_plain _ n)]).
  - destruct (add_or_update _ _) as [b| |] eqn:Hu; simplify_eq. split; [| constructor].
    destruct (Hnode n) as [Hok Hpre]; [done |].
    destruct (update_cell _ _ _ _ _ _ (Hc _ _ Hj) Hok Hpre Hu) as [_ Hpost].
    apply Forall_insert; [done |]. simpl in *.
    destruct Hpost as [[_ Hperm]|[_ [[_ ->]|[_ ->]]]]; [by rewrite Hperm | | done].
    by apply Forall_app_2; [| apply Forall_singleton].
Qed.

(** What holds at every moment of tasks that add *)
Definition adding (s : system) : Prop :=
  system_ok own k s ∧ system_adds k s ∧ stored_plain (chain s) ∧ Forall (Forall frame_plain) (stacks s).

Lemma adding_step s t ch fs :
  adding s → task_step own k t s = Next ch fs →
  adding (mkSystem ch (alter (λ st, fs ++ tail st) t (stacks s))) ∧ (length (chain s) ≤ length ch)%nat ∧
  ∀ i x, belongs_at own i x = true → x ∈ ids (nodes_at (chain s) i) → x ∈ ids (nodes_at ch i).
Proof using Hk.
  intros (Hs & Ha & Hp & Hfp) E.
  destruct (task_step_inv _ _ _ _ _ _ E) as (f & st & Ht & Hf).
  pose proof (Forall_lookup_1 _ _ _ _ (ok_stacks _ _ _ Hs) Ht) as [_ [Hok _]%Forall_cons].
  pose proof (Forall_lookup_1 _ _ _ _ Ha Ht) as [Haf _]%Forall_cons.
  pose proof (Forall_lookup_1 _ _ _ _ Hfp Ht) as [Hpf Hpst]%Forall_cons.
  destruct (frame_stays_plain _ _ _ _ (ok_cells _ _ _ Hs) Hok Haf Hp Hpf Hf) as [Hp' Hpfs].
  split; [split_and!; [by apply system_ok_step | by eapply system_adds_step | done |] |].
  { apply Forall_alter; [done |]. intros st' Hst' _. rewrite Ht in Hst'. injection Hst' as <-.
    by apply Forall_app_2. }
  split; [by apply (step_cells _ _ _ _ _ _ Hk (ok_cells _ _ _ Hs) Hok Hf) |]. intros i x Hb Hx.
  eapply frame_keeps; [apply Hs | exact Hok | exact Haf | exact Hf | done | done].
Qed.

Lemma adding_run ts s :
  adding s → ∃ o, tasks_run own k ts s = Ret o ∧ ∀ s', o = Some s' →
    adding s' ∧ (length (chain s) ≤ length (chain s'))%nat ∧ ∀ i x, belongs_at own i x = true → x ∈ ids (nodes_at (chain s) i) → x ∈ ids (nodes_at (chain s') i).
Proof using Hk.
  revert s. induction ts as [|t ts IH]; intros s Hs; cbn [tasks_run].
  { eexists. split; [done |]. by intros ? [= <-]. }
  destruct (task_step own k t s) as [| |ch fs] eqn:E.
  - eexists. split; [done |]. by intros ? [=].
  - destruct Hs as (Hs & Ha & _). by apply adds_no_panic in E.
  - destruct (adding_step s t ch fs Hs E) as (Hs1 & Hlen & Hkeep). destruct (IH _ Hs1) as (o & -> & Ho).
    exists o. split; [done |]. intros s' E'. destruct (Ho s' E') as (Hs' & Hlen' & Hkeep').
    split; [done |]. simpl in *. split; [lia |]. intros i x Hb Hx. by apply Hkeep', Hkeep.
Qed.

(** Additions that are scheduled until they return *)
Lemma adding_ends s : adding s → ∃ ts s', tasks_run own k ts s = Ret (Some s') ∧ all_done s'.
Proof using Hk.
  intros Hs. remember (system_cost k s) as c eqn:Hc. revert s Hs Hc.
  induction (lt_wf c) as [c _ IH]. intros s Hs ->.
  destruct (adds_progress own k s (proj1 Hs) (proj1 (proj2 Hs))) as [Hd|(t & ch & fs & E)]; [by exists [], s |].
  destruct (IH _ (system_cost_step own k s t ch fs Hk (proj1 Hs) E) _ (proj1 (adding_step _ _ _ _ Hs E)) eq_refl)
    as (ts & s' & Hts & Hd). exists (t :: ts), s'. cbn [tasks_run]. by rewrite E.
Qed.

(** A chain on which no task is working *)
Definition chain_free (ch : list cell) : Prop :=
  cells_ok own k ch ∧ (0 < length ch)%nat ∧ (∀ i, locked ch i = false) ∧ stored_plain ch.

Lemma all_returned (l : list stack) :
  forallb (λ st, match st with [] => true | _ => false end) l = true ↔ Forall (λ st, st = []) l.
Proof using Type.
  rewrite forallb_forall, Forall_forall. setoid_rewrite <- list_elem_of_In. split; intros H x Hx; specialize (H x Hx); by destruct x.
Qed.

Lemma join_Some cs ts ch ch' :
  join own k cs ts ch = Ret (Some ch') ↔
  ∃ s, tasks_run own k ts (mkSystem ch (call_stack <$> cs)) = Ret (Some s) ∧ all_done s ∧ chain s = ch'.
Proof using Type.
  unfold join, all_done. destruct (tasks_run _ _ _ _) as [[s|]| |]; cbn [run_bind mbind option_bind].
  - destruct (forallb _ _) eqn:Hd; split.
    + intros [= <-]. exists s. split_and!; [done | by apply all_returned | done].
    + by intros (? & [= <-] & _ & <-).
    + done.
    + intros (? & [= <-] & H%all_returned & _). congruence.
  - split; [done | by intros (? & ? & _)].
  - split; [done | by intros (? & ? & _)].
  - split; [done | by intros (? & ? & _)].
Qed.

Lemma done_free s : system_ok own k s → all_done s → ∀ i, locked (chain s) i = false.
Proof using Type.
  intros Hs Hd i. destruct (locked (chain s) i) eqn:E; [| done].
  apply (proj1 (ok_locks _ _ _ Hs)) in E as (t & st & Ht & Hin).
  pose proof (Forall_lookup_1 _ _ _ _ Hd Ht) as ->. by apply not_elem_of_nil in Hin.
Qed.

Lemma fresh_adding ch ns :
  chain_free ch → Forall node_plain ns → adding (mkSystem ch (call_stack <$> (CallAdd <$> ns))).
Proof using Type.
  intros (Hch & Hlen & Hfree & Hp) Hns. split_and!; [| apply adds_start | done |].
  - apply fresh_ok; try done. apply Forall_fmap. eapply Forall_impl; [exact Hns |]. by intros n [].
  - apply Forall_fmap, Forall_fmap. eapply Forall_impl; [exact Hns |]. intros n Hn. simpl.
    by apply (one_plain _ n).
Qed.

Lemma join_adds ns ts ch :
  chain_free ch → Forall node_plain ns →
  ∃ o, join own k (CallAdd <$> ns) ts ch = Ret o ∧ ∀ ch', o = Some ch' →
    chain_free ch' ∧ ∀ i x, belongs_at own i x = true → x ∈ ids (nodes_at ch i) → x ∈ ids (nodes_at ch' i).
Proof using Hk.
  intros Hch Hns. destruct (adding_run ts _ (fresh_adding ch ns Hch Hns)) as (o & E & Ho).
  exists (o ≫= λ s, if forallb (λ st, match st with [] => true | _ => false end) (stacks s) then Some (chain s) else None).
  split; [unfold join; by rewrite E |].
  intros ch' (s & -> & Hs)%bind_Some. destruct (forallb _ _) eqn:Hd; [| done]. injection Hs as <-.
  destruct (Ho s eq_refl) as ((Hs & _ & Hp & _) & Hlen & Hkeep). split; [| done]. destruct Hch as (_ & Hpos & _).
  split_and!; [apply Hs | simpl in Hlen; lia | apply (done_free s Hs); by apply all_returned | done].
Qed.

Lemma join_adds_ends ns ch :
  chain_free ch → Forall node_plain ns → ∃ ts ch', join own k (CallAdd <$> ns) ts ch = Ret (Some ch').
Proof using Hk.
  intros Hch Hns. destruct (adding_ends _ (fresh_adding ch ns Hch Hns)) as (ts & s & E & Hd).
  exists ts, (chain s). apply join_Some. by exists s.
Qed.

(** *** A node that is added again *)

(** The task that adds [n] to the chain: until it has returned its outermost call
    is at the first bucket. *)
Definition adding_again (n : NodeInfo) (s : system) : Prop :=
  id n ∈ ids (nodes_at (chain s) 0) ∧
  ∃ st, stacks s = [st] ∧
    match last st with
    | Some f => frame_index f = 0%nat ∧ frame_node f = Some n
    | None => ∃ m, last (nodes_at (chain s) 0) = Some m ∧ id m = id n
    end.

Lemma again_step n s t ch fs :
  adding s → belongs_at own 0 (id n) = true → adding_again n s → task_step own k t s = Next ch fs →
  adding_again n (mkSystem ch (alter (λ st, fs ++ tail st) t (stacks s))).
Proof using Hk.
  intros Hs Hb [Hin (st & Hst & Hbot)] E. destruct (adding_step s t ch fs Hs E) as (_ & _ & Hkeep).
  split; [by apply Hkeep |]. destruct (task_step_inv _ _ _ _ _ _ E) as (f & st' & Ht & Hf).
  rewrite Hst in Ht. destruct t as [|t]; [| done]. injection Ht as ->. simpl. rewrite Hst. simpl.
  exists (fs ++ st'). split; [done |]. destruct st' as [|g st'].
  2: { rewrite last_app, last_cons. rewrite last_cons, last_cons in Hbot. by destruct (last st'). }
  rewrite app_nil_r. simpl in Hbot. destruct Hbot as [Hi Hn].
  destruct f as [i m|i m|i m|i m|i m|i m|i m idx|i m|i m|i x|i x]; cbn [frame_index frame_node] in Hi, Hn;
    try discriminate Hn; injection Hn as ->; subst i; cbn [frame_step] in Hf;
    try (apply access_Next in Hf as (ns & Hj & Hf)).
  - injection Hf as <- <-. destruct (has_next _ _); split; reflexivity.
  - injection Hf as <- <-. destruct (_ <? _); split; reflexivity.
  - injection Hf as <- <-. destruct (has_next _ _); split; reflexivity.
  - injection Hf as <- <-. destruct (_ =? _); split; reflexivity.
  - cbn [Z.of_nat Z.eqb MAX_BUCKET_INDEX] in Hf. destruct (has_next _ _); injection Hf as <- <-; split; reflexivity.
  - injection Hf as <- <-. split; reflexivity.
  - destruct (chain s !! 0%nat) as [c|]; [| discriminate Hf].
    destruct (c_nodes c !! idx) as [m|]; [| injection Hf as <- <-; split; reflexivity].
    destruct (belongs_at own 0 (id m)); [injection Hf as <- <-; split; reflexivity |].
    destruct (swap_remove idx (c_nodes c)) as [[]| |]; [| discriminate Hf..].
    injection Hf as <- <-. split; reflexivity.
  - rewrite Hb in Hf. injection Hf as <- <-. split; reflexivity.
  - destruct Hs as ([[_ Hc] _ _] & _). specialize (Hc _ _ Hj). cbn [c_nodes] in Hc.
    rewrite (nodes_at_eq _ _ _ Hj) in Hin. cbn [c_nodes] in Hin.
    destruct (add_or_update_known (mkBucket own (Z.of_nat 0) k ns None) n Hin (nodes_nodup _ _ _ _ Hc))
      as (m & l1 & l2 & _ & Hm & E'). rewrite E' in Hf. injection Hf as <- <-. cbn [last].
    apply lookup_lt_Some in Hj as Hlt. rewrite nodes_at_insert by done. cbn [c_nodes nodes set_nodes].
    rewrite app_assoc, last_snoc. exists m. split; [reflexivity | exact Hm].
Qed.

Lemma again_run n ts s s' :
  adding s → belongs_at own 0 (id n) = true → adding_again n s → tasks_run own k ts s = Ret (Some s') →
  adding_again n s'.
Proof using Hk.
  intros Hs Hb. revert s Hs. induction ts as [|t ts IH]; intros s Hs Ha; cbn [tasks_run].
  { intros E. by injection E as <-. }
  destruct (task_step own k t s) as [| |ch fs] eqn:E; [done.. |]. apply IH.
  - by apply (adding_step s t ch fs).
  - by eapply again_step.
Qed.

(** Adding a stored node again makes it the last of the bucket it belongs to. *)
Lemma join_again n ts ch ch' :
  chain_free ch → node_plain n → belongs_at own 0 (id n) = true → id n ∈ ids (nodes_at ch 0) →
  join own k [CallAdd n] ts ch = Ret (Some ch') → ∃ m, last (nodes_at ch' 0) = Some m ∧ id m = id n.
Proof using Hk.
  intros Hch Hn Hb Hin (s & E & Hd & <-)%join_Some.
  assert (Hs : adding (mkSystem ch (call_stack <$> (CallAdd <$> [n])))).
  { apply fresh_adding; [done | by apply Forall_singleton]. }
  destruct (again_run n ts _ s Hs Hb) as [_ (st & Hst & Hbot)]; [| done |].
  - split; [done |]. exists [Enter 0 n]. by split_and!.
  - unfold all_done in Hd. rewrite Hst in Hd. apply Forall_singleton in Hd as ->. exact Hbot.
Qed.

(** Removing an identifier from the bucket it belongs to *)
Lemma join_remove x ts ch :
  chain_free ch → belongs_at own 0 x = true →
  ∃ o, join own k [CallRemove x] ts ch = Ret o ∧ ∀ ch', o = Some ch' → x ∉ ids (nodes_at ch' 0).
Proof using Hk.
  intros ([_ Hc] & Hlen & Hfree & _) Hb. unfold join.
  apply lookup_lt_is_Some in Hlen as [[ns b] Hi]. specialize (Hc _ _ Hi). cbn [c_nodes] in Hc.
  assert (b = false) as ->. { specialize (Hfree 0%nat). by rewrite (locked_at _ _ _ Hi) in Hfree. }
  assert (Hnone : ∀ t ts s, stacks s = [[]] → tasks_run own k (t :: ts) s = Ret None).
  { intros t ts' s E. cbn [tasks_run]. unfold task_step. rewrite E. by destruct t. }
  change (call_stack <$> [CallRemove x]) with [[RemoveAt 0 x]].
  assert (Hat : task_step own k 0 (mkSystem ch [[RemoveAt 0 x]]) = Next ch [RemoveHere 0 x]).
  { change (Next ch [if negb (has_next ch 0) || belongs_at own 0 x then RemoveHere 0 x else RemoveAt 1 x] =
      Next ch [RemoveHere 0 x]). by rewrite Hb, orb_true_r. }
  assert (Hhere : ∃ ns', task_step own k 0 (mkSystem ch [[RemoveHere 0 x]]) = Next (<[0%nat := mkCell ns' false]> ch) [] ∧
    x ∉ ids ns').
  { change (task_step own k 0 (mkSystem ch [[RemoveHere 0 x]])) with (frame_step own k ch (RemoveHere 0 x)).
    cbn [frame_step]. unfold access. rewrite Hi. cbn [c_locked c_nodes].
    destruct (position _ _) as [j|] eqn:Hpos.
    - destruct (nodes_remove own k _ ns x j Hc Hpos) as (n & ns' & -> & Hn & Hp & _). exists ns'. split; [done |].
      pose proof (nodes_nodup _ _ _ _ Hc) as Hnd. rewrite (ids_perm _ _ Hp) in Hnd.
      apply NoDup_cons in Hnd as [Hnot _]. by rewrite Hn in Hnot.
    - exists ns. rewrite list_insert_id by done. split; [done | by apply position_id_None]. }
  destruct Hhere as (ns' & Hhere & Hnot).
  destruct ts as [|[|t] ts]; [by eexists | | by eexists]. cbn [tasks_run]. rewrite Hat. cbn [alter list_alter tail app stacks].
  destruct ts as [|[|t] ts]; [by eexists | | by eexists]. cbn [tasks_run]. rewrite Hhere. cbn [alter list_alter tail app stacks].
  destruct ts as [|t ts]; [| rewrite Hnone by done; by eexists].
  eexists. split; [done |]. cbn. intros ? [= <-]. rewrite nodes_at_insert by by eapply lookup_lt_Some. done.
Qed.
End Kept.

(** ** The phases of the tests *)

Lemma bucket_eqb_refl b : bucket_eqb b b = true.
Proof.
  induction b as [o i k ns | o i k ns next IH] using Bucket_chain_ind; cbn [bucket_eqb own_id bucket_index k_size nodes next_bucket];
    rewrite !bool_decide_eq_true_2 by done; [done | exact IH].
Qed.

(** What [U160::rand] and [rand::random] may draw *)
Definition draw_ok (d : Z * Z * Z) : Prop := in_width 128 d.1.1 ∧ in_width 32 d.1.2 ∧ in_width 8 d.2.

Lemma localhost_ok : sock_ok localhost ∧ is_v4 localhost.
Proof. by repeat split; repeat constructor. Qed.

Lemma random_node_ok p d : draw_ok d → ∃ n, random_node p d = Ret n ∧ node_plain n.
Proof.
  intros (Hm & Hl & Hp). destruct d as [[ms ls] places]. cbn in Hm, Hl, Hp. unfold random_node.
  destruct (shr_spec p (rand ms ls) (places mod 161)) as (u & -> & Hu & _); [by split | |].
  - pose proof (Z.mod_pos_bound places 161). lia.
  - cbn [run_bind]. eexists. split; [done |]. split; [split; [done | apply localhost_ok] | done].
Qed.

Lemma collect_ok {A B} (P : B → Prop) (f : A → run B) l :
  Forall (λ a, ∃ b, f a = Ret b ∧ P b) l → ∃ bs, run_collect f l = Ret bs ∧ Forall P bs.
Proof.
  induction 1 as [|a l (b & E & Hb) _ (bs & Es & Hbs)]; [by exists [] |].
  exists (b :: bs). cbn [run_collect]. rewrite E. cbn [run_bind]. rewrite Es. by split; [| constructor].
Qed.

Lemma random_nodes_ok p draws :
  Forall draw_ok draws → ∃ ns, run_collect (random_node p) draws = Ret ns ∧ Forall node_plain ns.
Proof. intros Hd. apply collect_ok. eapply Forall_impl; [exact Hd |]. apply random_node_ok. Qed.

Lemma test_node_ok : node_plain test_node.
Proof. split; [split; [by split | apply localhost_ok] | done]. Qed.

Lemma test_node_here : belongs_at min 0 (id test_node) = true.
Proof. reflexivity. Qed.

Definition table1 : Bucket := mkBucket min 0 8 [test_node] None.

Lemma root_free k : in_width 8 k → chain_free min k (cells (root min k)).
Proof.
  intros Hk. destruct (table_cells min k (root min k)) as [Hc Hl]; [by apply root_ok |].
  split_and!; [done | simpl; lia | done | by repeat constructor].
Qed.

(** The first addition, however it is scheduled *)
Lemma first_add ts ch :
  join min 8 [CallAdd test_node] ts (cells (root min 8)) = Ret (Some ch) → ch = cells table1.
Proof.
  intros (s & E & Hd & <-)%join_Some. apply tasks_run_steps in E.
  destruct (call_alone_spec min 8 Debug (root min 8) (CallAdd test_node)) as (b & Hb & _ & Hend);
    [by apply root_ok | apply test_node_ok |].
  assert (b = table1) as ->. { vm_compute in Hb. injection Hb as <-. reflexivity. }
  rewrite (Hend s E); [done |]. intros s' Hs'. inversion Hs' as [? t c fs Ht]; subst.
  apply task_step_inv in Ht as (f & st & Ht & _). pose proof (Forall_lookup_1 _ _ _ _ Hd Ht). done.
Qed.

(** A chain of the tests: the first bucket keeps the test node. *)
Definition chain_tested (ch : list cell) : Prop :=
  chain_free min 8 ch ∧ id test_node ∈ ids (nodes_at ch 0).

Lemma join_one ts ch :
  chain_free min 8 ch → ∃ o, join min 8 [CallAdd test_node] ts ch = Ret o ∧ ∀ ch', o = Some ch' → chain_free min 8 ch' ∧
    ∀ i x, belongs_at min i x = true → x ∈ ids (nodes_at ch i) → x ∈ ids (nodes_at ch' i).
Proof.
  intros Hch. apply (join_adds min 8 ltac:(lia) [test_node]); [done |]. apply Forall_singleton, test_node_ok.
Qed.

Lemma phase1 ts :
  ∃ o, join min 8 [CallAdd test_node] ts (cells (root min 8)) = Ret o ∧ ∀ ch, o = Some ch → chain_tested ch.
Proof.
  destruct (join_one ts _ (root_free 8 ltac:(done))) as (o & E & Ho). exists o. split; [done |]. intros ch ->.
  split; [by apply Ho |]. rewrite (first_add ts ch E). left.
Qed.

Lemma phase2 ns ts ch :
  chain_tested ch → Forall node_plain ns →
  ∃ o, join min 8 (CallAdd <$> ns) ts ch = Ret o ∧ ∀ ch', o = Some ch' → chain_tested ch'.
Proof.
  intros [Hch Hin] Hns. destruct (join_adds min 8 ltac:(lia) ns ts ch Hch Hns) as (o & E & Ho).
  exists o. split; [done |]. intros ch' Hch'. destruct (Ho ch' Hch') as [Hf Hkeep].
  split; [done | by apply Hkeep; [apply test_node_here |]].
Qed.

Lemma phase3 ts ch :
  chain_tested ch →
  ∃ o, join min 8 [CallAdd test_node] ts ch = Ret o ∧ ∀ ch', o = Some ch' →
    chain_tested ch' ∧ last_id ch' = Ret (id test_node).
Proof.
  intros [Hch Hin]. destruct (join_one ts ch Hch) as (o & E & Ho). exists o. split; [done |]. intros ch' ->.
  destruct (Ho ch' eq_refl) as [Hf Hkeep]. split; [split; [done | by apply Hkeep; [apply test_node_here |]] |].
  destruct (join_again min 8 ltac:(lia) test_node ts ch ch' Hch test_node_ok test_node_here Hin E) as (m & Hm & Hid).
  unfold last_id. rewrite Hm. cbn [unwrap run_bind]. by rewrite Hid.
Qed.

(** A test either passes or its schedules have ended too early. *)
Definition passes (m : run (option unit)) : Prop := m = Ret None ∨ m = Ret (Some ()).

Lemma and_then_passes {A} (P : A → Prop) (m : run (option A)) f :
  (∃ o, m = Ret o ∧ ∀ a, o = Some a → P a) → (∀ a, P a → passes (f a)) → passes (and_then m f).
Proof. intros (o & -> & Ho) Hf. destruct o as [a|]; [by apply Hf, Ho | by left]. Qed.

Lemma last_passes ch :
  last_id ch = Ret (id test_node) →
  passes (let! i := last_id ch in let! _ := assert_eq i (id test_node) in Ret (Some ())).
Proof. intros ->. cbn [run_bind]. rewrite assert_eq_true by done. by right. Qed.

Lemma full_passes p draws t1 t2 t3 : Forall draw_ok draws → passes (test_full p draws t1 t2 t3).
Proof.
  intros (ns & Hns & Hok)%(random_nodes_ok p). unfold test_full, fill.
  apply (and_then_passes chain_tested); [apply phase1 |]. intros ch Hch. rewrite Hns. cbn [run_bind].
  apply (and_then_passes chain_tested); [by apply phase2 |]. intros ch1 Hch1.
  eapply and_then_passes; [by apply phase3 |]. intros ch2 [_ Hl]. by apply last_passes.
Qed.

(** Some schedules get to the end. *)
Lemma full_ends p draws : Forall draw_ok draws → ∃ t1 t2 t3, test_full p draws t1 t2 t3 = Ret (Some ()).
Proof.
  intros Hd. destruct (random_nodes_ok p draws Hd) as (ns & Hns & Hok).
  assert (Hends : ∀ ns ch, chain_free min 8 ch → Forall node_plain ns → ∃ ts ch', join min 8 (CallAdd <$> ns) ts ch = Ret (Some ch')).
  { intros. by apply join_adds_ends. }
  assert (Htest : Forall node_plain [test_node]) by apply Forall_singleton, test_node_ok.
  destruct (Hends [test_node] _ (root_free 8 ltac:(done)) Htest) as (t1 & ch1 & E1). change (CallAdd <$> [test_node]) with [CallAdd test_node] in E1.
  destruct (phase1 t1) as (o1 & E1' & H1). rewrite E1 in E1'. injection E1' as <-. specialize (H1 ch1 eq_refl).
  destruct (Hends ns ch1 (proj1 H1) Hok) as (t2 & ch2 & E2).
  destruct (phase2 ns t2 ch1 H1 Hok) as (o2 & E2' & H2). rewrite E2 in E2'. injection E2' as <-.
  specialize (H2 ch2 eq_refl). destruct (Hends [test_node] ch2 (proj1 H2) Htest) as (t3 & ch3 & E3).
  change (CallAdd <$> [test_node]) with [CallAdd test_node] in E3. exists t1, t2, t3. destruct (full_passes p draws t1 t2 t3 Hd) as [E|E]; [| exact E].
  unfold test_full, fill in E. rewrite E1 in E. cbn [and_then run_bind] in E. rewrite Hns in E. cbn [run_bind] in E. rewrite E2 in E.
  cbn [and_then run_bind] in E. rewrite E3 in E. cbn [and_then run_bind] in E.
  destruct (last_id ch3) as [i| |]; cbn [run_bind] in E; [| discriminate E..].
  unfold assert_eq, assert in E. by destruct (bool_decide _).
Qed.

Lemma seen_at_ok ns ts ch at_ t : chain_free min 8 ch → Forall node_plain ns → cells_ok min 8 (seen_at ns ts ch at_ t).
Proof.
  intros Hch Hns. unfold seen_at.
  destruct (adding_run min 8 ltac:(lia) (take (at_ t) ts) _ (fresh_adding min 8 ch ns Hch Hns)) as (o & -> & Ho).
  destruct o as [s|]; [apply (Ho s eq_refl) | apply Hch].
Qed.

Lemma concurrent_passes p draws queries t1 t2 t3 :
  Forall draw_ok draws → Forall (λ q, draw_ok q.1) queries →
  passes (test_fill_and_lookup_concurrent p draws queries t1 t2 t3).
Proof.
  intros (ns & Hns & Hok)%(random_nodes_ok p) Hq. unfold test_fill_and_lookup_concurrent.
  apply (and_then_passes chain_tested); [apply phase1 |]. intros ch Hch. rewrite Hns. cbn [run_bind].
  assert (∃ found, run_collect (λ q : Z * Z * Z * (nat → nat), let! query := random_node p q.1 in
    lookup_seen min 8 p (seen_at ns t2 ch q.2) FUEL 0 0 (id query)) queries = Ret found) as [found ->].
  { induction Hq as [|q queries Hq _ [found IH]]; [by eexists |]. cbn [run_collect].
    destruct (random_node_ok p q.1 Hq) as (n & -> & _). cbn [run_bind].
    destruct (lookup_seen_spec min 8 p (seen_at ns t2 ch q.2) FUEL 0 0 (id n)) as (t & l & -> & _);
      [by split | intros t; by apply seen_at_ok; [apply Hch |] | lia | unfold FUEL; lia |].
    cbn [run_bind]. rewrite IH. by eexists. }
  cbn [run_bind]. apply (and_then_passes chain_tested); [by apply phase2 |]. intros ch1 Hch1.
  eapply and_then_passes; [by apply phase3 |]. intros ch2 [_ Hl]. by apply last_passes.
Qed.

Lemma removed_total p draws t1 t2 t3 t4 :
  Forall draw_ok draws →
  ∃ o, removed p draws t1 t2 t3 t4 = Ret o ∧ ∀ ch, o = Some ch → id test_node ∉ ids (nodes_at ch 0).
Proof.
  intros (ns & Hns & Hok)%(random_nodes_ok p). unfold removed, fill.
  destruct (phase1 t1) as ([ch1|] & -> & H1); cbn [and_then run_bind]; [| by eexists]. rewrite Hns. cbn [run_bind].
  destruct (phase2 ns t2 ch1 (H1 _ eq_refl) Hok) as ([ch2|] & -> & H2); cbn [and_then run_bind]; [| by eexists].
  destruct (phase3 t3 ch2 (H2 _ eq_refl)) as ([ch3|] & -> & H3); cbn [and_then run_bind]; [| by eexists].
  apply (join_remove min 8 ltac:(lia)); [apply (H3 _ eq_refl) | apply test_node_here].
Qed.

Lemma remove_passes p draws t1 t2 t3 t4 :
  Forall draw_ok draws →
  test_remove p draws t1 t2 t3 t4 =
  let!o ch := removed p draws t1 t2 t3 t4 in match nodes_at ch 0 with [] => Panic | _ => Ret (Some ()) end.
Proof.
  intros Hd. unfold test_remove. destruct (removed_total p draws t1 t2 t3 t4 Hd) as ([ch|] & -> & Hch); [| done].
  cbn [and_then run_bind]. specialize (Hch ch eq_refl). unfold last_id.
  destruct (exists_last_cases (nodes_at ch 0)) as [->|(l & m & E)]; [done |]. rewrite E in *. rewrite last_snoc.
  cbn [unwrap run_bind]. rewrite assert_true.
  - cbn [run_bind]. by destruct l.
  - rewrite bool_decide_eq_false_2; [done |]. intros Hm. apply Hch. rewrite ids_app, <- Hm. apply elem_of_app. right. left.
Qed.

(** *** Tables that concurrent additions leave behind *)

Lemma table_from_plain own k i ns rest :
  0 ≤ i → i + Z.of_nat (length rest) ≤ MAX_BUCKET_INDEX → Forall node_plain ns → stored_plain rest →
  chain_plain own k i (table_from own k i ns rest).
Proof.
  intros Hi Hlen Hns Hrest. revert i ns Hi Hlen Hns. induction Hrest as [|c rest Hc _ IH]; intros i ns Hi Hlen Hns;
    simpl in *; [by constructor; [lia |] | constructor; [lia | done | apply IH; [lia.. | done]]].
Qed.

Lemma table_of_plain own k ch : chain_free own k ch → chain_plain own k 0 (table_of own k ch).
Proof.
  intros ([Hlen _] & Hpos & _ & Hp). destruct Hp as [|c ch Hc Hp]; [simpl in Hpos; lia |].
  apply table_from_plain; [done | unfold MAX_BUCKET_INDEX; simpl in *; lia | done | done].
Qed.

Lemma filled_free p k draws ts :
  in_width 8 k → Forall draw_ok draws →
  ∃ o, fill p k draws ts (cells (root min k)) = Ret o ∧ ∀ ch, o = Some ch → chain_free min k ch.
Proof.
  intros Hk (ns & Hns & Hok)%(random_nodes_ok p). unfold fill. rewrite Hns. cbn [run_bind].
  destruct (join_adds min k (proj1 Hk) ns ts _ (root_free k Hk) Hok) as (o & E & Ho). exists o.
  split; [done |]. intros ch Hch. by apply Ho.
Qed.

Lemma serde_passes p draws ts : Forall draw_ok draws → passes (test_serde p draws ts).
Proof.
  pose proof bencode_format. intros Hd. unfold test_serde. apply (and_then_passes (chain_free min 8)); [by apply filled_free |].
  intros ch Hch. cbn zeta. destruct (bucket_de_ser p min 8 (table_of min 8 ch)) as (v & Hs & Hw & Hde);
    [done | done | by apply table_of_plain |]. destruct (reads_back v Hw) as (v' & Hr & Heq).
  rewrite Hs. cbn [run_bind]. rewrite Hr. cbn [unwrap run_bind].
  rewrite <- (bucket_de_proper p v v' Heq), Hde. cbn [run_bind]. rewrite bucket_eqb_refl. by right.
Qed.

Lemma file_passes p draws ts : Forall draw_ok draws → passes (test_file p draws ts).
Proof.
  pose proof bencode_format. intros Hd. unfold test_file. apply (and_then_passes (chain_free min 8)); [by apply filled_free |].
  intros ch Hch. cbn zeta.
  destruct (load_saved_chain (to_vec:=bencode) (from_slice:=bdecode) p min 8 (table_of min 8 ch)) as (file & Hs & Hl);
    [done | done | by apply table_of_plain |].
  rewrite Hs. cbn [run_bind]. rewrite Hl. cbn [run_bind]. rewrite bucket_eqb_refl. by right.
Qed.

Lemma add_each_free k ns ch :
  0 ≤ k → Forall (λ x, node_plain x.1) ns → chain_free min k ch →
  ∃ o, add_each k ns ch = Ret o ∧ ∀ ch', o = Some ch' → chain_free min k ch'.
Proof.
  intros Hk Hns. revert ch. induction Hns as [|[n ts] ns Hn _ IH]; intros ch Hch; cbn [add_each].
  { eexists. split; [done |]. by intros ? [= <-]. }
  destruct (join_adds min k Hk [n] ts ch Hch) as (o & E & Ho); [by apply Forall_singleton |].
  change (CallAdd <$> [n]) with [CallAdd n] in E. rewrite E. unfold and_then. cbn [run_bind].
  destruct o as [ch1|]; [| by eexists]. by apply IH, Ho.
Qed.

(** What a lookup that ends has found *)
Lemma lookup_passes p draws ts more d1 query2 :
  Forall draw_ok draws → Forall (λ d, draw_ok d.1) more → draw_ok d1 →
  ∃ o, test_lookup p draws ts more d1 query2 = Ret o ∧
    ∀ found, o = Some found → Forall (λ l, (length l ≤ 30)%nat) found.
Proof.
  intros Hd Hm Hd1. unfold test_lookup.
  destruct (filled_free p 30 draws ts ltac:(done) Hd) as ([ch|] & -> & Hch); [| by eexists].
  specialize (Hch ch eq_refl). unfold and_then. cbn [run_bind].
  destruct (collect_ok (λ x : NodeInfo * list nat, node_plain x.1)
    (λ d : Z * Z * Z * list nat, let! n := random_node p d.1 in Ret (n, d.2)) more) as (ns & -> & Hns).
  { eapply Forall_impl; [exact Hm |]. intros d (n & -> & Hn)%(random_node_ok p). by eexists. }
  cbn [run_bind]. destruct (add_each_free 30 ns ch ltac:(lia) Hns Hch) as ([ch'|] & -> & Hch'); [| by eexists].
  specialize (Hch' ch' eq_refl). cbn [run_bind].
  destruct (random_node_ok p d1 Hd1) as (n & -> & _). cbn [run_bind].
  destruct (collect_ok (λ l : list NodeInfo, (length l ≤ 30)%nat)
    (λ q, let! (_, l) := lookup_seen min 30 p (λ _, ch') FUEL 0 0 q in Ret l) [id n; query2; min]) as (ls & -> & Hls).
  { apply Forall_forall. intros q _.
    destruct (lookup_seen_spec min 30 p (λ _, ch') FUEL 0 0 q) as (t & l & -> & Hl & _);
      [done | intros _; apply Hch' | lia | unfold FUEL; lia |].
    eexists. split; [done |]. lia. }
  cbn [run_bind]. eexists. split; [done |]. by intros ? [= <-].
Qed.

(** ** Properties *)



(** One task after the other *)
Example full_run :
  test_full Debug [(Z.ones 128, 7, 3); (5, 6, 200)] (replicate 3 0%nat) (replicate 3 1%nat ++ replicate 3 0%nat)
    (replicate 3 0%nat) = Ret (Some ()).
Proof. vm_compute. reflexivity. Qed.
