(* ===== verification/Server.v ===== *)
(** * The server

    [src/node.rs], [struct Server] and its [QueryHandler]: what a node answers
    to each query, and the store of announced peers. *)

From S2P Require Import Prelude Text Utils Externals Net U160 NodeInfo Bucket Wire Format BucketSerde.
From S2P Require Import Router Token Kmsg Message Service Messenger.

(** ** The store *)

(** The calls of [sled] on the tree of peers. [tree_swap] is the write of
    [fetch_and_update], which fetches, applies its function and writes. *)
Class Sled (D : Type) : Type := {
  open_tree : D → result unit unit;
  tree_get : D → list Z → result (option (list Z)) unit;
  tree_swap : D → list Z → option (list Z) → result D unit;
  tree_len : D → Z;
  tree_keys : D → list (result (list Z) unit);
}.

Definition fetch_and_update {D} `{Sled D} (d : D) (key : list Z)
    (f : option (list Z) → run (option (list Z))) : run (result D unit) :=
  match tree_get d key with
  | Err e => Ret (Err e)
  | Ok old => let! new := f old in Ret (tree_swap d key new)
  end.

Definition ok {A E} (r : result A E) : option A :=
  match r with Ok a => Some a | Err _ => None end.

(** What [sled] documents: the tree is a map; the keys it lists are in it, each
    once; its length is a [usize]. Every operation may fail. *)
Class SledLaw D `{Sled D} (view : D → gmap (list Z) (list Z)) : Prop := {
  get_view d k v : tree_get d k = Ok v → v = view d !! k;
  swap_view d k v d' : tree_swap d k v = Ok d' → view d' = partial_alter (λ _, v) k (view d);
  keys_nodup d : NoDup (omap ok (tree_keys d));
  keys_view d k : k ∈ omap ok (tree_keys d) → is_Some (view d !! k);
  len_view d : in_width 64 (tree_len d);
}.

(** ** The server *)

(** [struct Server] *)
Record Server (D : Type) : Type := mkServer {
  router : Router;
  transaction : Z;
  s_read_only : bool;
  me : NodeInfo;
  db : D;
  tokens : TokenGenerator;
}.
Arguments mkServer {D}.
Arguments router {D}.
Arguments transaction {D}.
Arguments s_read_only {D}.
Arguments me {D}.
Arguments db {D}.
Arguments tokens {D}.

Definition set_router {D} (r : Router) (s : Server D) : Server D :=
  mkServer r (transaction s) (s_read_only s) (me s) (db s) (tokens s).
Definition set_db {D} (d : D) (s : Server D) : Server D :=
  mkServer (router s) (transaction s) (s_read_only s) (me s) d (tokens s).

(** The server as it would be with a handler *)
Definition serving {D} (s : Server D) : Server D :=
  mkServer (router s) (transaction s) false (me s) (db s) (tokens s).

(** What one query draws from outside: random bytes and the clock for a token,
    the two random words of a validation, the sampling of
    [IteratorRandom::choose_multiple]. *)
Record Env : Type := mkEnv {
  e_rand : list Z;
  e_now : Z;
  e_ms : Z;
  e_ls : Z;
  e_choose : nat → list U160 → list U160;
}.

Definition max_samples : Z := 0xffff / 20 - 10.

Section Server.
Context {D : Type} `{Sled D}.
Context (crc32c : list Z → Z) (keystream : list Z → list Z → nat → list Z).
Context (to_vec : sval → list Z) (from_slice : list Z → option sval).
Context (p : profile).
#[local] Abbreviation Server := (Server D).

Definition response_base (self : Server) (tid : list Z) (to : Receiver) : MessageBase :=
  mkBase (SenderMe (me self)) to (receiver_addr to) tid false None.

(** [bt_bencode::from_slice::<Vec<SocketAddrWrapper>>(p).unwrap()] *)
Definition decode_peers (bytes : list Z) : run (list SocketAddrWrapper) :=
  match from_slice bytes with
  | Some v => match de v with Ok l => Ret l | Err _ => Panic end
  | None => Panic
  end.

(** The closure of [handle_announce] *)
Definition add_peer (wrap : SocketAddrWrapper) (old : option (list Z)) : run (option (list Z)) :=
  let! socks := match old with Some bytes => decode_peers bytes | None => Ret [] end in
  let socks := if bool_decide (wrap ∈ socks) then socks else socks ++ [wrap] in
  let! v := ser socks in Ret (Some (to_vec v)).

Definition handle_announce (env : Env) (self : Server) (response_base : MessageBase)
    (origin : NodeInfo) (info_hash : U160) (port : Z) (token : list Z) : run (QueryResult * Server) :=
  let! valid := validate_token crc32c keystream p (tokens self) token (sock_ip (addr origin)) (e_now env) in
  if negb valid then Ret (Err (into_error response_base Protocol), self)
  else if negb (node_validate crc32c origin (e_ms env) (e_ls env)) then
    Ret (Err (into_error response_base InvalidNodeId), self)
  else
    match open_tree (db self) with
    | Err _ => Ret (Err (into_error response_base Message.Server), self)
    | Ok _ =>
        let wrap := mkWrapper (Some (socket_addr (sock_ip (addr origin)) port)) in
        let! updated := fetch_and_update (db self) (to_be_bytes info_hash) (add_peer wrap) in
        match updated with
        | Err _ => Ret (Err (into_error response_base Message.Server), self)
        | Ok d => Ret (Ok (into_response response_base KindOk), set_db d self)
        end
    end.

Definition handle_get_peers (env : Env) (self : Server) (response_base : MessageBase)
    (origin : NodeInfo) (info_hash : U160) : run QueryResult :=
  let token := generate crc32c keystream (tokens self) (sock_ip (addr origin)) (e_rand env) (e_now env) in
  match open_tree (db self) with
  | Err _ => Ret (Err (into_error response_base Message.Server))
  | Ok _ =>
      match tree_get (db self) (to_be_bytes info_hash) with
      | Err _ => Ret (Err (into_error response_base Message.Server))
      | Ok (Some bytes) =>
          let! socks := decode_peers bytes in
          let! peers := run_collect (λ a, unwrap (socket_addr_of a)) socks in
          let! nodes := router_lookup p (router self) info_hash in
          Ret (Ok (into_response response_base (Peers peers token (Some nodes))))
      | Ok None =>
          let! nodes := router_lookup p (router self) info_hash in
          Ret (Ok (into_response response_base (KNearest nodes (Some token))))
      end
  end.

Definition handle_sample (env : Env) (self : Server) (response_base : MessageBase) (target : U160)
    : run QueryResult :=
  match open_tree (db self) with
  | Err _ => Ret (Err (into_error response_base Message.Server))
  | Ok _ =>
      let available := tree_len (db self) in
      let hashes := omap (λ k, k ← ok k; k ← to_sized 20 k; Some (from_be_bytes k)) (tree_keys (db self)) in
      let samples := e_choose env (Z.to_nat max_samples) hashes in
      let! nodes := router_lookup p (router self) target in
      Ret (Ok (into_response response_base (Samples nodes samples available 0)))
  end.

(** The match on the method in [handle_query] *)
Definition dispatch (env : Env) (self : Server) (response_base : MessageBase) (from : NodeInfo)
    (m : QueryMethod) : run (QueryResult * Server) :=
  let same r := let! r := r in Ret (r, self) in
  match m with
  | Ping => Ret (Ok (into_response response_base KindOk), self)
  | FindNode n =>
      let! nodes := router_lookup p (router self) n in
      Ret (Ok (into_response response_base (KNearest nodes None)), self)
  | GetPeers info_hash => same (handle_get_peers env self response_base from info_hash)
  | AnnouncePeer info_hash port token =>
      handle_announce env self response_base from info_hash port token
  | Put _ => Ret (Err (into_error response_base MethodUnknown), self)
  | Get => Ret (Err (into_error response_base MethodUnknown), self)
  | SampleInfohashes target => same (handle_sample env self response_base target)
  end.

(** [handle_query]; a read-only server has no handler, so the assertion holds. *)
Definition server_handle_query (env : Env) (self : Server) (query : Query) : run (QueryResult * Server) :=
  if s_read_only self then Panic
  else
    let from := sender_node (origin (q_base query)) in
    let response_base := response_base self (q_tid query) (sender_receiver (origin (q_base query))) in
    if u160_eqb (sender_id (origin (q_base query))) (id (me self)) then
      Ret (Err (into_error_generic response_base "Echo!"), self)
    else
      let! self :=
        if negb (read_only (q_base query)) then
          let! r := router_add p (router self) from in Ret (set_router r self)
        else Ret self in
      dispatch env self response_base from (method query).

Definition server_handle_error (self : Server) (tid : list Z) (source_addr : SocketAddr)
    (error : KnownError) : Error :=
  into_error (response_base self tid (ReceiverAddr source_addr)) error.
End Server.

(** ** Well-formed servers *)

(** A stored peer: an address that survives its encoding *)
Definition peer_ok (w : SocketAddrWrapper) : Prop :=
  ∃ a, socket_addr_of w = Some a ∧ sock_ok a ∧ sock_plain a.

Definition env_ok (env : Env) : Prop :=
  length (e_rand env) = 8%nat ∧ bytes_ok (e_rand env) ∧ 0 ≤ e_now env ∧ in_width 64 (e_now env + 120) ∧
  ∀ n l, e_choose env n l ⊆+ l ∧ length (e_choose env n l) = Nat.min n (length l).

Section Facts.
Context {D : Type} {view : D → gmap (list Z) (list Z)} `{Hsled : SledLaw D view}.
Context (crc32c : list Z → Z) (keystream : list Z → list Z → nat → list Z).
Context (to_vec : sval → list Z) (from_slice : list Z → option sval).
Context (keystream_length : ∀ key nonce n, length (keystream key nonce n) = n).
Context (keystream_ok : ∀ key nonce n, bytes_ok (keystream key nonce n)).
Context (Hformat : ByteFormat to_vec from_slice).
Context (p : profile).
#[local] Abbreviation Server := (Server D).
#[local] Abbreviation decode_peers := (decode_peers from_slice).
#[local] Abbreviation add_peer := (add_peer to_vec from_slice).
#[local] Abbreviation handle_announce := (handle_announce crc32c keystream to_vec from_slice p).
#[local] Abbreviation handle_get_peers := (handle_get_peers crc32c keystream from_slice p).
#[local] Abbreviation handle_sample := (handle_sample p).
#[local] Abbreviation dispatch := (dispatch crc32c keystream to_vec from_slice p).
#[local] Abbreviation server_handle_query := (server_handle_query crc32c keystream to_vec from_slice p).

(** What is stored, under hashes only, decodes to distinct peers. *)
Definition entry_peers (bytes : list Z) (peers : list SocketAddrWrapper) : Prop :=
  decode_peers bytes = Ret peers ∧ Forall peer_ok peers ∧ NoDup peers ∧ peers ≠ [].
Definition db_ok (d : D) : Prop :=
  ∀ k bytes, view d !! k = Some bytes →
    (∃ h, u160_ok h ∧ k = to_be_bytes h) ∧ ∃ peers, entry_peers bytes peers.

(** The abstract store: the peers announced for a hash, in order of arrival. *)
Definition peers_at (d : D) (h : U160) : list SocketAddr :=
  match view d !! to_be_bytes h with
  | Some bytes =>
      match decode_peers bytes with Ret peers => omap socket_addr_of peers | _ => [] end
  | None => []
  end.

Record server_ok (s : Server) : Prop := {
  sok_router : ∃ own k h, router_ok own k h (router s);
  sok_nodes : Forall node_v4 (all_nodes (buckets (router s)));
  sok_me : node_ok (me s);
  sok_db : db_ok (db s);
  sok_handler : s_read_only s = false;
}.

Lemma peer_plain_wrapper w : peer_ok w → wrapper_plain w.
Proof. intros (a & Ha & ? & ?). unfold wrapper_plain. by rewrite Ha. Qed.

Lemma decode_written peers :
  Forall peer_ok peers → ∃ v, ser peers = Ret v ∧ decode_peers (to_vec v) = Ret peers.
Proof.
  intros Hp. destruct (read_written (A:=list SocketAddrWrapper) peers) as (v & v' & Hs & Hr & Hd).
  { eapply Forall_impl; [exact Hp | apply peer_plain_wrapper]. }
  exists v. split; [done |]. unfold Server.decode_peers. by rewrite Hr, Hd.
Qed.

Definition insert_peer (w : SocketAddrWrapper) (peers : list SocketAddrWrapper) : list SocketAddrWrapper :=
  if bool_decide (w ∈ peers) then peers else peers ++ [w].

Lemma insert_peer_ok w peers :
  peer_ok w → Forall peer_ok peers → NoDup peers →
  Forall peer_ok (insert_peer w peers) ∧ NoDup (insert_peer w peers) ∧ insert_peer w peers ≠ [].
Proof.
  intros Hw Hp Hn. unfold insert_peer. case_bool_decide as Hin.
  { split_and!; [done | done |]. intros ->. by apply not_elem_of_nil in Hin. }
  split_and!; [| | by destruct peers].
  - by apply Forall_app_2, Forall_singleton.
  - apply NoDup_app. split_and!; [done | | apply NoDup_singleton]. set_solver.
Qed.

Lemma add_peer_spec d key w :
  db_ok d → peer_ok w →
  ∃ peers bytes, add_peer w (view d !! key) = Ret (Some bytes) ∧
    entry_peers bytes (insert_peer w peers) ∧
    match view d !! key with Some old => entry_peers old peers | None => peers = [] end.
Proof.
  intros Hd Hw. unfold Server.add_peer.
  assert (∃ peers, (match view d !! key with Some b => decode_peers b | None => Ret [] end) = Ret peers ∧
    Forall peer_ok peers ∧ NoDup peers ∧
    match view d !! key with Some old => entry_peers old peers | None => peers = [] end) as
    (peers & -> & Hp & Hn & Hold).
  { destruct (view d !! key) as [old|] eqn:E.
    - destruct (Hd _ _ E) as (_ & peers & Hdec & ? & ? & ?). by exists peers.
    - exists []. split_and!; [done | constructor | constructor | done]. }
  cbn [run_bind]. fold (insert_peer w peers).
  destruct (insert_peer_ok w peers Hw Hp Hn) as (Hp' & Hn' & Hne').
  destruct (decode_written _ Hp') as (v & -> & Hdec). cbn [run_bind].
  exists peers, (to_vec v). by split_and!.
Qed.

Lemma server_lookup s x :
  server_ok s → ∃ ns, router_lookup p (router s) x = Ret ns ∧ Forall node_v4 ns.
Proof.
  intros [(own & k & h & Hr) Hv4 _ _ _]. destruct (router_lookup_ok p own k h _ x Hr) as (ns & Hns & Hin).
  exists ns. split; [done |]. rewrite Forall_forall in Hv4 |- *. auto.
Qed.

Lemma server_add s n :
  server_ok s → node_v4 n →
  ∃ r, router_add p (router s) n = Ret r ∧ server_ok (set_router r s).
Proof using Type.
  clear keystream_length keystream_ok Hformat Hsled.
  intros [(own & k & h & Hr) Hv4 ? ? ?] Hn.
  destruct (router_add_ok p own k h _ n Hr (proj1 Hn)) as (r & Hadd & Hr').
  exists r. split; [done |]. split; try done; [by eauto |]. cbn [set_router router].
  rewrite Forall_forall in Hv4 |- *. intros m Hm.
  destruct (router_add_incl _ _ _ _ _ _ _ _ Hr (proj1 Hn) Hadd Hm) as [?| ->]; auto.
Qed.

(** *** Announcing *)

Lemma elem_of_peers a (peers : list SocketAddrWrapper) :
  a ∈ omap socket_addr_of peers ↔ mkWrapper (Some a) ∈ peers.
Proof.
  rewrite list_elem_of_omap. split; [| by exists (mkWrapper (Some a))].
  intros ([o] & Hw & Ha). cbn in Ha. by subst o.
Qed.

Definition insert_addr (a : SocketAddr) (l : list SocketAddr) : list SocketAddr :=
  if bool_decide (a ∈ l) then l else l ++ [a].

Lemma elem_of_insert_addr a l : a ∈ insert_addr a l.
Proof.
  unfold insert_addr. case_bool_decide; [done |]. apply elem_of_app. right. apply list_elem_of_here.
Qed.

Lemma omap_insert_peer a peers :
  omap socket_addr_of (insert_peer (mkWrapper (Some a)) peers) = insert_addr a (omap socket_addr_of peers).
Proof.
  unfold insert_peer, insert_addr. rewrite (bool_decide_ext _ _ (elem_of_peers a peers)).
  case_bool_decide; [done |]. by rewrite omap_app.
Qed.

Lemma to_be_bytes_inj h h' : u160_ok h → u160_ok h' → to_be_bytes h = to_be_bytes h' → h = h'.
Proof.
  intros Hh Hh' E. rewrite <- (from_be_to_be_bytes h), <- (from_be_to_be_bytes h') by done. by rewrite E.
Qed.

(** A write of the closure's result, seen on the abstract store *)
Lemma db_insert d d' h a peers bytes :
  u160_ok h → db_ok d → tree_swap d (to_be_bytes h) (Some bytes) = Ok d' →
  entry_peers bytes (insert_peer (mkWrapper (Some a)) peers) →
  match view d !! to_be_bytes h with Some old => entry_peers old peers | None => peers = [] end →
  db_ok d' ∧ peers_at d' h = insert_addr a (peers_at d h) ∧
  (∀ h', u160_ok h' → h' ≠ h → peers_at d' h' = peers_at d h').
Proof.
  intros Hh Hd Hswap Hnew Hold. apply swap_view in Hswap. split_and!.
  - intros k b. rewrite Hswap. destruct (decide (k = to_be_bytes h)) as [->|].
    + rewrite lookup_partial_alter_eq. intros [= <-]. eauto 10.
    + rewrite lookup_partial_alter_ne by done. apply Hd.
  - unfold peers_at. rewrite Hswap, lookup_partial_alter_eq. destruct Hnew as [-> _].
    rewrite omap_insert_peer. f_equal.
    destruct (view d !! to_be_bytes h) as [old|]; [by destruct Hold as [-> _] | by subst peers].
  - intros h' Hh' Hne. unfold peers_at. rewrite Hswap, lookup_partial_alter_ne; [done |].
    intros E. by apply Hne, to_be_bytes_inj.
Qed.

(** The peer an announcement stores *)
Definition announced (origin : NodeInfo) (port : Z) : SocketAddr := socket_addr (sock_ip (addr origin)) port.

(** The effect of a successful announcement on the store *)
Definition stores (d d' : D) (h : U160) (a : SocketAddr) : Prop :=
  peers_at d' h = insert_addr a (peers_at d h) ∧
  ∀ h', u160_ok h' → h' ≠ h → peers_at d' h' = peers_at d h'.

Lemma announce_spec env s b origin h port token :
  server_ok s → env_ok env → sock_ok (addr origin) → u160_ok h → in_width 16 port → bytes_ok token →
  ∃ valid r s',
    validate_token crc32c keystream p (tokens s) token (sock_ip (addr origin)) (e_now env) = Ret valid ∧
    handle_announce env s b origin h port token = Ret (r, s') ∧ server_ok s' ∧
    if negb valid then r = Err (into_error b Protocol) ∧ s' = s
    else if negb (node_validate crc32c origin (e_ms env) (e_ls env)) then
      r = Err (into_error b InvalidNodeId) ∧ s' = s
    else r = Err (into_error b Message.Server) ∧ s' = s ∨
      ∃ d, s' = set_db d s ∧ r = Ok (into_response b KindOk) ∧ stores (db s) d h (announced origin port).
Proof.
  intros Hs He [Ho _] Hh Hport Htok. destruct He as (_ & _ & Hnow0 & Hnow & _).
  destruct (validate_total crc32c keystream keystream_ok p (tokens s) token (sock_ip (addr origin))
    (e_now env) Htok Hnow0 Hnow) as [valid Hv].
  exists valid. unfold Server.handle_announce. rewrite Hv. cbn [run_bind].
  destruct valid; cbn [negb]; [| by eauto 10].
  destruct (node_validate _ _ _ _); cbn [negb]; [| by eauto 10].
  destruct (open_tree (db s)); [| by eauto 10].
  fold (announced origin port). unfold fetch_and_update.
  destruct (tree_get (db s) (to_be_bytes h)) as [old|] eqn:Hget; [| by eauto 10].
  apply get_view in Hget. subst old.
  destruct (add_peer_spec (db s) (to_be_bytes h) (mkWrapper (Some (announced origin port))))
    as (peers & bytes & -> & Hnew & Hold).
  { apply Hs. }
  { exists (announced origin port). unfold announced, sock_ok, sock_plain.
    by rewrite socket_addr_ip, socket_addr_port. }
  cbn [run_bind]. destruct (tree_swap _ _ _) as [d|] eqn:Hswap; [| by eauto 10].
  destruct (db_insert _ _ _ _ _ _ Hh (sok_db _ Hs) Hswap Hnew Hold) as (Hd & Hat & Hne).
  do 2 eexists. split; [done |]. split; [done |]. split; [| right; exists d; by split_and!].
  destruct Hs. by split.
Qed.
(** *** Looking up peers *)

Lemma collect_peers peers :
  Forall peer_ok peers →
  run_collect (λ a, unwrap (socket_addr_of a)) peers = Ret (omap socket_addr_of peers) ∧
  Forall peer_plain (omap socket_addr_of peers) ∧ length (omap socket_addr_of peers) = length peers.
Proof.
  induction 1 as [|w peers (a & Ha & Ho & Hpl) Hp (IH1 & IH2 & IH3)]; [by repeat constructor |].
  destruct w as [o]. cbn in Ha. subst o.
  assert (omap socket_addr_of (mkWrapper (Some a) :: peers) = a :: omap socket_addr_of peers) as -> by done.
  cbn [run_collect unwrap run_bind socket_addr_of]. rewrite IH1.
  split_and!; [done | by constructor | simpl; by rewrite IH3].
Qed.

Lemma get_peers_spec env s b origin h :
  server_ok s → u160_ok h →
  let token := generate crc32c keystream (tokens s) (sock_ip (addr origin)) (e_rand env) (e_now env) in
  ∃ r nodes, handle_get_peers env s b origin h = Ret r ∧
    router_lookup p (router s) h = Ret nodes ∧ Forall node_v4 nodes ∧
    Forall peer_plain (peers_at (db s) h) ∧
    (r = Err (into_error b Message.Server) ∨
     r = Ok (into_response b
       (if bool_decide (peers_at (db s) h = []) then KNearest nodes (Some token)
        else Peers (peers_at (db s) h) token (Some nodes)))).
Proof.
  intros Hs Hh token. destruct (server_lookup s h Hs) as (nodes & Hl & Hv4).
  assert (Hat : match view (db s) !! to_be_bytes h with
    | Some bytes => ∃ peers, decode_peers bytes = Ret peers ∧ Forall peer_ok peers ∧
        peers_at (db s) h = omap socket_addr_of peers ∧ peers_at (db s) h ≠ []
    | None => peers_at (db s) h = []
    end).
  { unfold peers_at. destruct (view (db s) !! to_be_bytes h) as [bytes|] eqn:E; [| done].
    destruct (sok_db _ Hs _ _ E) as (_ & peers & Hdec & Hp & _ & Hne). exists peers. rewrite Hdec.
    split_and!; [done | done | done |]. intros Hnil. apply Hne, length_zero_iff_nil.
    destruct (collect_peers peers Hp) as (_ & _ & <-). by rewrite Hnil. }
  assert (Hplain : Forall peer_plain (peers_at (db s) h)).
  { destruct (view (db s) !! to_be_bytes h) as [bytes|]; [| rewrite Hat; constructor].
    destruct Hat as (peers & _ & Hp & -> & _). by apply collect_peers. }
  unfold Server.handle_get_peers. rewrite Hl.
  destruct (open_tree (db s)); [| by eauto 10].
  destruct (tree_get (db s) (to_be_bytes h)) as [old|] eqn:Hget; [| by eauto 10].
  apply get_view in Hget. subst old. destruct (view (db s) !! to_be_bytes h) as [bytes|].
  - destruct Hat as (peers & -> & Hp & E & Hne). cbn [run_bind].
    destruct (collect_peers peers Hp) as (-> & _ & _). cbn [run_bind].
    do 2 eexists. split; [done |]. split_and!; [done.. |]. right.
    by rewrite bool_decide_eq_false_2, E.
  - do 2 eexists. split; [done |]. split_and!; [done.. |]. right. by rewrite Hat.
Qed.

(** *** Sampling *)

(** The hashes that have peers *)
Definition stored (d : D) (h : U160) : Prop := u160_ok h ∧ is_Some (view d !! to_be_bytes h).

Definition key_hash (k : result (list Z) unit) : option U160 :=
  k ← ok k; k ← to_sized 20 k; Some (from_be_bytes k).

Lemma key_hash_stored d k h :
  db_ok d → k ∈ tree_keys d → key_hash k = Some h → stored d h ∧ ok k = Some (to_be_bytes h).
Proof.
  intros Hd Hk Hh. unfold key_hash in Hh. destruct (ok k) as [b|] eqn:E; [| done].
  change (to_sized 20 b ≫= (λ k, Some (from_be_bytes k)) = Some h) in Hh.
  assert (Hb : is_Some (view d !! b)).
  { apply keys_view, list_elem_of_omap. by exists k. }
  destruct Hb as [bytes Hb]. destruct (Hd _ _ Hb) as ((h' & Hh' & ->) & _).
  unfold to_sized in Hh. rewrite length_to_be_bytes in Hh.
  change (Some (from_be_bytes (to_be_bytes h')) = Some h) in Hh. rewrite from_be_to_be_bytes in Hh by done. injection Hh as <-.
  split; [| done]. split; [done | by eexists].
Qed.

Lemma stored_hashes d :
  db_ok d → NoDup (omap key_hash (tree_keys d)) ∧ ∀ h, h ∈ omap key_hash (tree_keys d) → stored d h.
Proof.
  intros Hd. split.
  - pose proof (keys_nodup d) as Hn. assert (Hin : ∀ k, k ∈ tree_keys d → k ∈ tree_keys d) by done.
    revert Hn Hin. generalize (tree_keys d) at 1 2 4 as ks. intros ks Hn Hin.
    induction ks as [|k ks IH]; [constructor |]. cbn [omap list_omap] in *.
    assert (Hin' : ∀ k, k ∈ ks → k ∈ tree_keys d) by (intros; apply Hin; by right).
    destruct (key_hash k) as [h|] eqn:E.
    + destruct (key_hash_stored d k h Hd (Hin k (list_elem_of_here _ _)) E) as [_ Hok].
      rewrite Hok in Hn. apply NoDup_cons in Hn as [Hnotin Hn]. apply NoDup_cons. split; [| by apply IH].
      intros (k' & Hk' & E')%list_elem_of_omap. apply Hnotin, list_elem_of_omap. exists k'.
      split; [done |]. by apply (key_hash_stored d k' h Hd (Hin' k' Hk') E').
    + apply IH; [| done]. destruct (ok k); [by apply NoDup_cons in Hn as [_ ?] | done].
  - intros h (k & Hk & E)%list_elem_of_omap. by apply (key_hash_stored d k h).
Qed.

Lemma sample_spec env s b target :
  server_ok s → env_ok env →
  ∃ r, handle_sample env s b target = Ret r ∧
    (r = Err (into_error b Message.Server) ∨
     ∃ nodes samples, r = Ok (into_response b (Samples nodes samples (tree_len (db s)) 0)) ∧
       router_lookup p (router s) target = Ret nodes ∧ Forall node_v4 nodes ∧
       NoDup samples ∧ (∀ h, h ∈ samples → stored (db s) h) ∧
       length samples = Nat.min (Z.to_nat max_samples) (length (omap key_hash (tree_keys (db s))))).
Proof.
  intros Hs (_ & _ & _ & _ & Hch). destruct (server_lookup s target Hs) as (nodes & Hl & Hv4).
  unfold Server.handle_sample. destruct (open_tree (db s)); [| by eauto].
  rewrite Hl. cbn [run_bind]. eexists. split; [done |]. right.
  destruct (stored_hashes (db s) (sok_db _ Hs)) as [Hn Hst].
  fold key_hash.
  destruct (Hch (Z.to_nat max_samples) (omap key_hash (tree_keys (db s)))) as [Hsub Hlen].
  do 2 eexists. split; [done |]. split_and!; [done | done | | | done].
  - apply submseteq_Permutation in Hsub as [rest Hp]. rewrite Hp in Hn.
    by apply NoDup_app in Hn as [? _].
  - intros h Hh. apply Hst. by eapply elem_of_submseteq.
Qed.
(** *** Any query *)

(** The queries the server can answer: well formed, from an address it can give
    back, which is an IPv4 one where the sender may enter the routing table. *)
Record query_ok (q : Query) : Prop := {
  qok_id : u160_ok (sender_id (origin (q_base q)));
  qok_sock : sock_ok (q_addr q);
  qok_plain : sock_plain (q_addr q);
  qok_v4 : read_only (q_base q) = false → is_v4 (q_addr q);
  qok_method : method_ok (method q);
  qok_token : match method q with AnnouncePeer _ _ token => bytes_ok token | _ => True end;
}.

Lemma response_ok (s : Server) tid to k :
  server_ok s → wrapper_plain (mkWrapper (receiver_addr to)) → kind_ok k →
  message_ok (MResponse (into_response (response_base s tid to) k)).
Proof. intros Hs Ht Hk. split; [apply Hs | by split]. Qed.

Lemma error_reply_ok (s : Server) tid to e :
  server_ok s → message_ok (MError (into_error (response_base s tid to) e)).
Proof. intros Hs. apply into_error_ok. apply Hs. Qed.

(** A reply: built on the response base, and it can be sent *)
Definition reply_ok (b : MessageBase) (r : QueryResult) : Prop :=
  result_base r = b ∧ message_ok (result_message r).

Lemma dispatch_ok env (s : Server) tid to from m :
  server_ok s → env_ok env → wrapper_plain (mkWrapper (receiver_addr to)) → node_ok from →
  method_ok m → match m with AnnouncePeer _ _ token => bytes_ok token | _ => True end →
  ∃ r s', dispatch env s (response_base s tid to) from m = Ret (r, s') ∧ server_ok s' ∧
    reply_ok (response_base s tid to) r.
Proof.
  intros Hs He Hto Hnode Hm Htok. unfold Server.dispatch. set (b := response_base s tid to).
  assert (Herr : ∀ e, reply_ok b (Err (into_error b e))) by (intros e; split; [done | by apply error_reply_ok]).
  assert (Hok : ∀ k, kind_ok k → reply_ok b (Ok (into_response b k))).
  { intros k Hk. split; [done | by apply response_ok]. }
  destruct m as [|t|h|h port token|bep44| |t]; cbn [method_ok] in Hm.
  - by eauto 10.
  - destruct (server_lookup s t Hs) as (nodes & -> & Hv4). cbn [run_bind]. by eauto 10.
  - destruct (get_peers_spec env s b from h Hs Hm) as (r & nodes & -> & _ & Hv4 & Hplain & Hr).
    cbn [run_bind]. exists r, s. split; [done |]. split; [done |].
    destruct Hr as [->| ->]; [done |]. apply Hok. by case_bool_decide.
  - destruct Hm as [Hh Hport].
    destruct (announce_spec env s b from h port token Hs He (proj2 Hnode) Hh Hport Htok)
      as (valid & r & s2 & _ & -> & Hs2 & Hr).
    exists r, s2. split; [done |]. split; [done |].
    destruct (negb valid); [by destruct Hr as [-> _] |].
    destruct (negb _); [by destruct Hr as [-> _] |].
    destruct Hr as [[-> _]|(d & _ & -> & _)]; [done | by apply Hok].
  - by eauto 10.
  - by eauto 10.
  - destruct (sample_spec env s b t Hs He) as (r & -> & Hr). cbn [run_bind].
    exists r, s. split; [done |]. split; [done |].
    destruct Hr as [->|(nodes & samples & -> & _ & Hv4 & _ & Hst & _)]; [done |]. apply Hok.
    split; [done |]. split; [| split; [apply len_view | done]].
    apply Forall_forall. intros h Hh. by apply Hst.
Qed.

(** The sender of a well-formed query *)
Lemma query_sender q :
  query_ok q →
  let from := sender_node (origin (q_base q)) in
  node_ok from ∧ addr from = q_addr q ∧ id from = sender_id (origin (q_base q)) ∧
  wrapper_plain (mkWrapper (receiver_addr (sender_receiver (origin (q_base q))))).
Proof.
  intros [Hid Ho Hp _ _ _] from. unfold q_addr in *. subst from.
  by destruct (origin (q_base q)).
Qed.

(** A query that is no echo: the router learns the sender unless it is read
    only, and the method is answered on the new state. *)
Lemma server_query_dispatch env (s : Server) q :
  server_ok s → query_ok q → sender_id (origin (q_base q)) ≠ id (me s) →
  let from := sender_node (origin (q_base q)) in
  ∃ r, (if read_only (q_base q) then r = router s else router_add p (router s) from = Ret r) ∧
    server_ok (set_router r s) ∧
    server_handle_query env s q =
      dispatch env (set_router r s)
        (response_base s (q_tid q) (sender_receiver (origin (q_base q)))) from (method q).
Proof using Type.
  clear keystream_length keystream_ok Hformat Hsled.
  intros Hs Hq Hne from. unfold Server.server_handle_query. rewrite (sok_handler _ Hs).
  destruct (u160_eqb _ _) eqn:E; [by apply u160_eqb_eq in E |].
  destruct (query_sender q Hq) as (Hnode & Ha & _ & _).
  destruct (read_only (q_base q)) eqn:Hro; cbn [negb run_bind].
  - exists (router s). assert (set_router (router s) s = s) as -> by (by destruct s). done.
  - destruct (server_add s from Hs) as (r & Hr & Hr').
    { split; [done |]. fold from in Ha. rewrite Ha. by apply Hq. }
    exists r. fold from. rewrite Hr. cbn [run_bind]. done.
Qed.

Lemma server_query_spec env (s : Server) q :
  server_ok s → env_ok env → query_ok q →
  ∃ r s', server_handle_query env s q = Ret (r, s') ∧ server_ok s' ∧
    reply_ok (response_base s (q_tid q) (sender_receiver (origin (q_base q)))) r.
Proof.
  intros Hs He Hq. destruct (decide (sender_id (origin (q_base q)) = id (me s))) as [E|Hne].
  - unfold Server.server_handle_query. rewrite (sok_handler _ Hs), E, (proj2 (u160_eqb_eq _ _) eq_refl).
    do 2 eexists. split; [done |]. split; [done |]. split; [done |]. split; [apply Hs | done].
  - destruct (server_query_dispatch env s q Hs Hq Hne) as (r & _ & Hs1 & ->).
    destruct (query_sender q Hq) as (Hnode & _ & _ & Hto).
    apply (dispatch_ok env (set_router r s)); try done; apply Hq.
Qed.
End Facts.

(** ** The server as the messenger's handler *)

(** A server with what its queries will draw, one [Env] each. *)
Record Live (D : Type) : Type := mkLive { server : Server D; world : nat → Env; tick : nat }.
Arguments mkLive {D}.
Arguments server {D}.
Arguments world {D}.
Arguments tick {D}.

Section Handler.
Context {D : Type} {view : D → gmap (list Z) (list Z)} `{Hsled : SledLaw D view}.
Context (crc32c : list Z → Z) (keystream : list Z → list Z → nat → list Z).
Context (to_vec : sval → list Z) (from_slice : list Z → option sval) (p : profile).

Definition live_handle_query (l : Live D) (q : Query) : run (QueryResult * Live D) :=
  let! (r, s) := server_handle_query crc32c keystream to_vec from_slice p (world l (tick l)) (server l) q in
  Ret (r, mkLive s (world l) (S (tick l))).

Definition server_handler : QueryHandler (Live D) := {|
  handle_query := live_handle_query;
  handle_error l := server_handle_error (server l);
|}.

Lemma server_handler_law :
  (∀ key nonce n, length (keystream key nonce n) = n) →
  (∀ key nonce n, bytes_ok (keystream key nonce n)) →
  ByteFormat to_vec from_slice →
  @QueryHandlerLaw (Live D) server_handler
    (λ l, server_ok (view:=view) from_slice (server l) ∧ ∀ n, env_ok (world l n)) query_ok.
Proof.
  intros Hlen Hok Hf. split.
  - intros l q [Hs He] Hq.
    destruct (server_query_spec crc32c keystream to_vec from_slice Hlen Hok Hf p (world l (tick l)) (server l) q
      Hs (He (tick l)) Hq) as (r & s' & Hr & Hs' & Hbase & Hmsg).
    do 2 eexists. split; [cbn; unfold live_handle_query; rewrite Hr; cbn [run_bind]; reflexivity |].
    split; [done |]. split; [by rewrite Hbase | done].
  - intros l tid from e [Hs _] _ _. split; [done |]. by apply into_error_ok, Hs.
Qed.
End Handler.

(** ** A store that never fails, for examples *)

#[export] Instance gmap_sled : Sled (gmap (list Z) (list Z)) := {
  open_tree _ := Ok ();
  tree_get d k := Ok (d !! k);
  tree_swap d k v := Ok (partial_alter (λ _, v) k d);
  tree_len d := wrap 64 (Z.of_nat (size d));
  tree_keys d := Ok <$> (map_to_list d).*1;
}.

Lemma omap_ok {A E} (l : list A) : omap ok ((Ok (E:=E)) <$> l) = l.
Proof. induction l as [|a l IH]; [done |]. rewrite fmap_cons. cbn. by f_equal. Qed.

#[export] Instance gmap_sled_law : SledLaw (gmap (list Z) (list Z)) (λ d, d).
Proof.
  split.
  - by intros d k v [= <-].
  - by intros d k v d' [= <-].
  - intros d. cbn [tree_keys gmap_sled]. rewrite omap_ok. apply NoDup_fst_map_to_list.
  - intros d k. cbn [tree_keys gmap_sled]. rewrite omap_ok.
    intros ([k' v] & -> & Hin)%list_elem_of_fmap. apply elem_of_map_to_list in Hin. by exists v.
  - intros d. by apply wrap_in_width.
Qed.

Definition ex_server : Server (gmap (list Z) (list Z)) :=
  mkServer (mkRouter (root (new 5 6) 8) []) 0 false (mkNodeInfo (new 5 6) (ex_remote 2)) ∅
    (mkTokenGenerator [1]).
Definition ex_env (now : Z) : Env := mkEnv [1; 2; 3; 4; 5; 6; 7; 8] now 0 0 (λ n l, take n l).

Lemma ex_server_ok from_slice : server_ok (view:=λ d, d) from_slice ex_server.
Proof.
  split; cbn [ex_server router me db s_read_only].
  - exists (new 5 6), 8, []. split; [by apply root_ok | done | intros x Hx; by apply not_elem_of_nil in Hx].
  - constructor.
  - by repeat split; repeat constructor.
  - by intros k bytes Hk%lookup_empty_Some.
  - done.
Qed.

Lemma ex_env_ok now : 0 ≤ now < 2 ^ 64 - 120 → env_ok (ex_env now).
Proof.
  intros Hnow. split_and!; [done | by repeat constructor | cbn; lia | unfold in_width; cbn; lia |].
  intros n l. cbn. split; [| by rewrite length_take]. apply submseteq_take.
Qed.

(** ** Properties *)

Section Properties.
Context {D : Type} {view : D → gmap (list Z) (list Z)} `{Hsled : SledLaw D view}.
Context (crc32c : list Z → Z) (keystream : list Z → list Z → nat → list Z).
Context (to_vec : sval → list Z) (from_slice : list Z → option sval) (p : profile).
#[local] Abbreviation handle := (server_handle_query crc32c keystream to_vec from_slice p).
#[local] Abbreviation sok := (server_ok (view:=view) from_slice).
#[local] Abbreviation peers_at := (peers_at (view:=view) from_slice).

(** C7: the server keeps the promise the messenger relies on: in every well-formed
    state it answers every well-formed query without panic, the state stays
    well formed (table, bans, stored peers), the answer names the transaction,
    goes back to the sender and can be sent. *)
Theorem server_implements_handler :
  (∀ key nonce n, length (keystream key nonce n) = n) →
  (∀ key nonce n, bytes_ok (keystream key nonce n)) →
  ByteFormat to_vec from_slice →
  @QueryHandlerLaw (Live D) (server_handler crc32c keystream to_vec from_slice p)
    (λ l, sok (server l) ∧ ∀ n, env_ok (world l n)) query_ok.
Proof. apply server_handler_law. Qed.

(** What [handle_query] does with each query: an echo of the node's own
    identifier is refused and changes nothing; otherwise the sender is added to
    the router unless it is read only, the rest of the state is kept, and a
    ping is acknowledged, [find_node] answered with the table's lookup after
    that addition, and [put] and [get] refused as unknown methods. *)
Theorem handle_query_branches env s q :
  sok s → query_ok q →
  let from := sender_node (origin (q_base q)) in
  let base := response_base s (q_tid q) (sender_receiver (origin (q_base q))) in
  (sender_id (origin (q_base q)) = id (me s) →
   handle env s q = Ret (Err (into_error_generic base "Echo!"), s)) ∧
  (sender_id (origin (q_base q)) ≠ id (me s) → ∃ r,
     (if read_only (q_base q) then r = router s else router_add p (router s) from = Ret r) ∧
     match method q with
     | Ping => handle env s q = Ret (Ok (into_response base KindOk), set_router r s)
     | FindNode t => ∃ nodes, router_lookup p r t = Ret nodes ∧
         handle env s q = Ret (Ok (into_response base (KNearest nodes None)), set_router r s)
     | Put _ | Get => handle env s q = Ret (Err (into_error base MethodUnknown), set_router r s)
     | _ => True
     end).
Proof.
  intros Hs Hq from base. split.
  - intros E. unfold server_handle_query. by rewrite (sok_handler _ _ Hs), E, (proj2 (u160_eqb_eq _ _) eq_refl).
  - intros Hne. destruct (server_query_dispatch crc32c keystream to_vec from_slice p env s q Hs Hq Hne)
      as (r & Hr & Hs1 & ->).
    exists r. split; [exact Hr |]. destruct (method q); try done.
    destruct (server_lookup from_slice p (set_router r s) target Hs1) as (nodes & Hl & _).
    exists nodes. cbn [set_router router] in Hl. split; [done |].
    cbn [dispatch set_router router]. by rewrite Hl.
Qed.

(** C30: an announcement is stored exactly when its token is valid for the sender's
    address and the sender's identifier belongs to that address; it then adds
    the sender's address with the announced port to the hash's peers, once, and
    touches no other hash. Otherwise the error says which check failed and
    nothing changes; so it does when the store fails. *)
Theorem announce_correct env s b origin h port token :
  (∀ key nonce n, length (keystream key nonce n) = n) →
  (∀ key nonce n, bytes_ok (keystream key nonce n)) →
  ByteFormat to_vec from_slice →
  sok s → env_ok env → sock_ok (addr origin) → u160_ok h → in_width 16 port → bytes_ok token →
  let valid := validate_token crc32c keystream p (tokens s) token (sock_ip (addr origin)) (e_now env) in
  let a := socket_addr (sock_ip (addr origin)) port in
  ∃ r s', handle_announce crc32c keystream to_vec from_slice p env s b origin h port token = Ret (r, s') ∧
    sok s' ∧
    ((valid = Ret false ∧ r = Err (into_error b Protocol) ∧ s' = s) ∨
     (valid = Ret true ∧ node_validate crc32c origin (e_ms env) (e_ls env) = false ∧
        r = Err (into_error b InvalidNodeId) ∧ s' = s) ∨
     (valid = Ret true ∧ node_validate crc32c origin (e_ms env) (e_ls env) = true ∧
        (r = Err (into_error b Message.Server) ∧ s' = s ∨
         r = Ok (into_response b KindOk) ∧
         peers_at (db s') h =
           (if bool_decide (a ∈ peers_at (db s) h) then peers_at (db s) h else peers_at (db s) h ++ [a]) ∧
         ∀ h', u160_ok h' → h' ≠ h → peers_at (db s') h' = peers_at (db s) h'))).
Proof.
  intros Hlen Hkok Hf Hs He Ho Hh Hport Htok valid a.
  destruct (announce_spec crc32c keystream to_vec from_slice Hlen Hkok Hf p env s b origin h port token
    Hs He Ho Hh Hport Htok) as (v & r & s' & Hv & Hr & Hs' & Hcase).
  exists r, s'. split; [done |]. split; [done |]. subst valid. rewrite Hv.
  destruct v; cbn [negb] in Hcase; [right | by left].
  destruct (node_validate _ _ _ _); cbn [negb] in Hcase; [right | by left].
  split; [done |]. split; [done |]. destruct Hcase as [?|(d & -> & -> & Hat & Hne)]; [by left | right].
  by split_and!.
Qed.
(** The token a response carries *)
Definition response_token (k : ResponseKind) : option (list Z) :=
  match k with
  | KNearest _ token => token
  | Peers _ token _ => Some token
  | _ => None
  end.

Lemma get_peers_query env s q h r s' :
  sok s → query_ok q → sender_id (origin (q_base q)) ≠ id (me s) → method q = GetPeers h →
  handle env s q = Ret (Ok r, s') →
  let token := generate crc32c keystream (tokens s) (sock_ip (q_addr q)) (e_rand env) (e_now env) in
  tokens s' = tokens s ∧ db s' = db s ∧ me s' = me s ∧ sok s' ∧ ∃ nodes,
    kind r = if bool_decide (peers_at (db s) h = []) then KNearest nodes (Some token)
             else Peers (peers_at (db s) h) token (Some nodes).
Proof.
  intros Hs Hq Hne Hm.
  destruct (server_query_dispatch crc32c keystream to_vec from_slice p env s q Hs Hq Hne) as (r1 & _ & Hs1 & ->).
  destruct (query_sender q Hq) as (_ & Ha & _ & _). pose proof (qok_method _ Hq) as Hh. rewrite Hm in Hh |- *.
  cbn [dispatch method_ok] in *.
  destruct (get_peers_spec crc32c keystream from_slice p env (set_router r1 s)
    (response_base s (q_tid q) (sender_receiver (origin (q_base q)))) (sender_node (origin (q_base q))) h Hs1 Hh)
    as (res & nodes & -> & _ & _ & _ & Hres).
  cbn [run_bind]. intros [= -> <-]. split_and!; [done | done | done | done |].
  exists nodes. destruct Hres as [?|Hres]; [done |]. injection Hres as ->. cbn [kind into_response].
  cbn [set_router tokens db]. by rewrite Ha.
Qed.

(** C5: the announce protocol works from end to end: the token a [get_peers] answer
    carries lets the asker, from the same address and within 120 seconds,
    announce itself when its identifier belongs to its address; the
    announcement is acknowledged unless the store fails, and every later
    [get_peers] for the hash that the store answers lists the announced peer. *)
Theorem announce_then_get env1 env2 env3 s h port qa qb qc ra s1 rb s2 rc s3 token :
  (∀ key nonce n, length (keystream key nonce n) = n) →
  (∀ key nonce n, bytes_ok (keystream key nonce n)) →
  ByteFormat to_vec from_slice →
  sok s → env_ok env1 → env_ok env2 → env_ok env3 → query_ok qa → query_ok qb → query_ok qc →
  Forall (λ q, sender_id (origin (q_base q)) ≠ id (me s)) [qa; qb; qc] →
  method qa = GetPeers h → method qb = AnnouncePeer h port token → method qc = GetPeers h →
  handle env1 s qa = Ret (Ok ra, s1) → response_token (kind ra) = Some token →
  sock_ip (q_addr qb) = sock_ip (q_addr qa) → e_now env1 ≤ e_now env2 < e_now env1 + 120 →
  node_validate crc32c (sender_node (origin (q_base qb))) (e_ms env2) (e_ls env2) = true →
  handle env2 s1 qb = Ret (rb, s2) → handle env3 s2 qc = Ret (Ok rc, s3) →
  match rb with
  | Ok r => kind r = KindOk ∧ ∃ peers t nodes, kind rc = Peers peers t nodes ∧
      socket_addr (sock_ip (q_addr qb)) port ∈ peers
  | Err e => error e = mkKError (error_number Message.Server) (description Message.Server) ∧
      db s2 = db s
  end.
Proof.
  intros Hlen Hkok Hf Hs He1 He2 He3 Hqa Hqb Hqc Hids Hma Hmb Hmc Ha Htok Hip Hnow Hval Hb Hc.
  rewrite !Forall_cons in Hids. destruct Hids as (Hia & Hib & Hic & _).
  destruct (get_peers_query _ _ _ _ _ _ Hs Hqa Hia Hma Ha) as (Et1 & Ed1 & Em1 & Hs1 & nodes & Hka).
  set (tok := generate _ _ _ _ _ _) in Hka.
  assert (token = tok) as ->.
  { rewrite Hka in Htok. case_bool_decide; by injection Htok as <-. }
  rewrite <- Em1 in Hib, Hic.
  destruct (server_query_dispatch crc32c keystream to_vec from_slice p env2 s1 qb Hs1 Hqb Hib)
    as (r1 & _ & Hs1' & Hd). rewrite Hd in Hb.
  destruct (query_sender qb Hqb) as (Hnode & Haddr & _ & _).
  pose proof (qok_method _ Hqb) as Hm. pose proof (qok_token _ Hqb) as Hbytes.
  rewrite Hmb in Hb, Hm, Hbytes. cbn [dispatch method_ok] in Hb, Hm, Hbytes. destruct Hm as [Hh Hport].
  destruct (announce_spec crc32c keystream to_vec from_slice Hlen Hkok Hf p env2 (set_router r1 s1)
    (response_base s1 (q_tid qb) (sender_receiver (origin (q_base qb)))) (sender_node (origin (q_base qb)))
    h port tok Hs1' He2 (proj2 Hnode) Hh Hport Hbytes) as (valid & rb' & s2' & Hv & Hann & Hs2 & Hcase).
  rewrite Hann in Hb. injection Hb as -> ->.
  assert (valid = true) as ->.
  { cbn [set_router tokens] in Hv. rewrite Et1, Haddr, Hip in Hv. unfold tok in Hv.
    destruct He1 as (Hr & _ & Hn0 & Hn1 & _), He2 as (_ & _ & Hm0 & Hm1 & _).
    rewrite (validate_generate crc32c keystream Hlen) in Hv; try done.
    - rewrite bool_decide_eq_true_2, (proj2 (Z.leb_le _ _)), (proj2 (Z.ltb_lt _ _)) in Hv by (done || lia).
      by injection Hv.
    - unfold in_width in *. lia. }
  rewrite Hval in Hcase. cbn [negb] in Hcase.
  destruct Hcase as [[-> ->]|(d & -> & -> & Hat & _)].
  - split; [done | exact Ed1].
  - split; [done |]. assert (Hic' : sender_id (origin (q_base qc)) ≠ id (me (set_db d (set_router r1 s1)))) by done.
    destruct (get_peers_query _ _ _ _ _ _ Hs2 Hqc Hic' Hmc Hc) as (_ & _ & _ & _ & nodes' & Hkc).
    cbn [set_db db] in Hkc. rewrite Hat in Hkc. cbn [set_router db] in Hkc.
    set (a := announced _ port) in Hkc.
    pose proof (elem_of_insert_addr a (peers_at (db s1) h)) as Hin.
    rewrite bool_decide_eq_false_2 in Hkc by (intros E; rewrite E in Hin; by apply not_elem_of_nil in Hin).
    do 3 eexists. split; [exact Hkc |]. rewrite <- Haddr. exact Hin.
Qed.

(** C32: [sample_infohashes] is answered, unless the store fails, with distinct hashes
    that have peers, all of them when there are at most 3266 and exactly 3266
    otherwise, and with the size of the store. *)
Theorem sample_correct env s b target :
  sok s → env_ok env →
  ∃ r, handle_sample p env s b target = Ret r ∧
    (r = Err (into_error b Message.Server) ∨
     ∃ nodes samples, r = Ok (into_response b (Samples nodes samples (tree_len (db s)) 0)) ∧
       NoDup samples ∧ (∀ h, h ∈ samples → u160_ok h ∧ peers_at (db s) h ≠ []) ∧
       (Z.of_nat (length samples) ≤ 3266) ∧
       (Z.of_nat (length samples) < 3266 → length samples = length (omap key_hash (tree_keys (db s))))).
Proof.
  intros Hs He.
  destruct (sample_spec from_slice p env s b target Hs He) as (r & Hr & Hcase).
  exists r. split; [done |]. destruct Hcase as [?|(nodes & samples & -> & _ & _ & Hn & Hst & Hlen)]; [by left | right].
  exists nodes, samples. assert (max_samples = 3266) as Emax by done. rewrite Emax in Hlen.
  split_and!; [done | done | | lia | lia].
  intros h Hh. destruct (Hst h Hh) as [Hok [bytes Hb]]. split; [done |].
  destruct (sok_db _ _ Hs _ _ Hb) as (_ & peers & Hdec & Hp & _ & Hne).
  unfold Server.peers_at. rewrite Hb, Hdec. intros Hnil. apply Hne, length_zero_iff_nil.
  destruct (collect_peers peers Hp) as (_ & _ & <-). by rewrite Hnil.
Qed.
End Properties.

(** ** Examples *)

Definition ex_handle : Env → Server (gmap (list Z) (list Z)) → Query →
    run (QueryResult * Server (gmap (list Z) (list Z))) :=
  server_handle_query crc32c_table_free constant_stream bencode bdecode Debug.

(** A peer whose identifier belongs to its address, and what it asks *)
Definition ex_peer : NodeInfo := from_addr crc32c_table_free (SocketV4 [124; 31; 75; 21] 6881) 1 0 0.
Definition ex_ask (from : NodeInfo) (m : QueryMethod) : Query :=
  mkQuery m (mkBase (SenderRemote from) ReceiverMe None [7] true None).
Definition ex_hash : U160 := new 77 88.

Lemma ex_ask_ok from m :
  node_v4 from → method_ok m → match m with AnnouncePeer _ _ token => bytes_ok token | _ => True end →
  query_ok (ex_ask from m).
Proof.
  intros [[Hi Ha] Hv4] Hm Ht. split; try done.
  destruct from as [i [o port|]]; [done | by destruct Hv4].
Qed.

Lemma ex_peer_v4 : node_v4 ex_peer.
Proof. split; [| done]. split; [split; vm_compute; by split |]. by repeat split; repeat constructor. Qed.

Lemma ex_remote_v4 ms ls n : u160_ok (new ms ls) → in_width 8 n → node_v4 (mkNodeInfo (new ms ls) (ex_remote n)).
Proof. intros Hu Hn. split; [| done]. split; [exact Hu |]. by repeat split; repeat constructor; destruct Hn. Qed.

(** The response and the state of an answered query *)
Definition answered_with (o : run (QueryResult * Server (gmap (list Z) (list Z))))
    : Response * Server (gmap (list Z) (list Z)) :=
  match o with
  | Ret (Ok r, s) => (r, s)
  | _ => (mkResponseMsg KindOk (response_base ex_server [] ReceiverMe), ex_server)
  end.

Definition ex_step1 := answered_with (ex_handle (ex_env 1000) ex_server (ex_ask ex_peer (GetPeers ex_hash))).
Definition ex_token : list Z := default [] (response_token (kind (fst ex_step1))).
Definition ex_step2 :=
  answered_with (ex_handle (ex_env 1100) (snd ex_step1) (ex_ask ex_peer (AnnouncePeer ex_hash 4242 ex_token))).
Definition ex_step3 :=
  answered_with (ex_handle (ex_env 5000) (snd ex_step2)
    (ex_ask (mkNodeInfo (new 9 9) (ex_remote 9)) (GetPeers ex_hash))).

Lemma constant_stream_length key nonce n : length (constant_stream key nonce n) = n.
Proof. apply length_replicate. Qed.
Lemma constant_stream_ok key nonce n : bytes_ok (constant_stream key nonce n).
Proof. by apply Forall_replicate. Qed.

Lemma announce_then_get_witness :
  kind (fst ex_step2) = KindOk ∧ ∃ peers t nodes, kind (fst ex_step3) = Peers peers t nodes ∧
    SocketV4 [124; 31; 75; 21] 4242 ∈ peers.
Proof.
  apply (announce_then_get (view:=λ d, d) crc32c_table_free constant_stream bencode bdecode Debug
    (ex_env 1000) (ex_env 1100) (ex_env 5000) ex_server ex_hash 4242
    (ex_ask ex_peer (GetPeers ex_hash)) (ex_ask ex_peer (AnnouncePeer ex_hash 4242 ex_token))
    (ex_ask (mkNodeInfo (new 9 9) (ex_remote 9)) (GetPeers ex_hash))
    (fst ex_step1) (snd ex_step1) (Ok (fst ex_step2)) (snd ex_step2) (fst ex_step3) (snd ex_step3) ex_token).
  - exact constant_stream_length.
  - exact constant_stream_ok.
  - exact bencode_format.
  - apply ex_server_ok.
  - by apply ex_env_ok.
  - by apply ex_env_ok.
  - by apply ex_env_ok.
  - apply ex_ask_ok; [apply ex_peer_v4 | done | done].
  - apply ex_ask_ok; [apply ex_peer_v4 | done |]. vm_compute. by repeat (constructor; [by split |]).
  - apply ex_ask_ok; [by apply ex_remote_v4 | done | done].
  - repeat constructor; by vm_compute.
  - done.
  - done.
  - done.
  - vm_compute. reflexivity.
  - vm_compute. reflexivity.
  - done.
  - done.
  - vm_compute. reflexivity.
  - vm_compute. reflexivity.
  - vm_compute. reflexivity.
Defined.

Lemma server_implements_handler_witness :
  @QueryHandlerLaw (Live (gmap (list Z) (list Z)))
    (server_handler crc32c_table_free constant_stream bencode bdecode Debug)
    (λ l, server_ok (view:=λ d, d) bdecode (server l) ∧ ∀ n, env_ok (world l n)) query_ok.
Proof.
  exact (server_implements_handler crc32c_table_free constant_stream bencode bdecode Debug
    constant_stream_length constant_stream_ok bencode_format).
Defined.

Lemma handle_query_branches_witness :
  ex_handle (ex_env 1000) ex_server (ex_ask (me ex_server) Ping) =
  Ret (Err (into_error_generic (response_base ex_server [7] (ReceiverNode (me ex_server))) "Echo!"), ex_server).
Proof.
  refine (proj1 (handle_query_branches (view:=λ d, d) crc32c_table_free constant_stream bencode
    bdecode Debug (ex_env 1000) ex_server (ex_ask (me ex_server) Ping) _ _) eq_refl).
  - apply ex_server_ok.
  - apply ex_ask_ok; [by apply ex_remote_v4 | done | done].
Defined.

Lemma announce_correct_witness :
  ∃ r s', handle_announce crc32c_table_free constant_stream bencode bdecode Debug (ex_env 1000)
      ex_server (response_base ex_server [7] ReceiverMe) ex_peer ex_hash 4242 [1; 2; 3] = Ret (r, s') ∧
    server_ok (view:=λ d, d) bdecode s'.
Proof.
  destruct (announce_correct (view:=λ d, d) crc32c_table_free constant_stream bencode bdecode Debug
    (ex_env 1000) ex_server (response_base ex_server [7] ReceiverMe) ex_peer ex_hash 4242 [1; 2; 3]
    constant_stream_length constant_stream_ok bencode_format (ex_server_ok bdecode)
    (ex_env_ok 1000 ltac:(done)) (proj2 (proj1 ex_peer_v4)) ltac:(by repeat split) ltac:(by split)
    ltac:(by repeat (constructor; [by split |]))) as (r & s' & Hr & Hs & _).
  by exists r, s'.
Defined.

Lemma sample_correct_witness :
  ∃ r, handle_sample Debug (ex_env 1000) ex_server (response_base ex_server [7] ReceiverMe) min = Ret r.
Proof.
  destruct (sample_correct (view:=λ d, d) bdecode Debug (ex_env 1000) ex_server
    (response_base ex_server [7] ReceiverMe) min (ex_server_ok bdecode)
    (ex_env_ok 1000 ltac:(done))) as (r & Hr & _).
  by exists r.
Defined.

Definition ex_v6 : NodeInfo :=
  mkNodeInfo (new 1 1) (SocketV6 [32; 1; 13; 184; 0; 0; 0; 0; 0; 0; 0; 0; 0; 0; 0; 1] 6881 0 0).
(** A query from a node that may enter the routing table *)
Definition ex_join (from : NodeInfo) (m : QueryMethod) : Query :=
  mkQuery m (mkBase (SenderRemote from) ReceiverMe None [7] false None).

(** One query from an IPv6 address is enough to make a node panic: the sender
    enters the routing table, and every later answer that lists it cannot be
    written, since the compact form knows IPv4 addresses only. *)
Theorem ipv6_sender_breaks_answers to_vec :
  ∃ r1 s1 r2 s2,
    ex_handle (ex_env 1000) ex_server (ex_join ex_v6 Ping) = Ret (Ok r1, s1) ∧
    ex_handle (ex_env 1001) s1 (ex_ask ex_peer (FindNode ex_hash)) = Ret (Ok r2, s2) ∧
    to_bytes to_vec (MResponse r2) = Panic.
Proof.
  set (a1 := answered_with (ex_handle (ex_env 1000) ex_server (ex_join ex_v6 Ping))).
  set (a2 := answered_with (ex_handle (ex_env 1001) (snd a1) (ex_ask ex_peer (FindNode ex_hash)))).
  exists (fst a1), (snd a1), (fst a2), (snd a2).
  split; [vm_compute; reflexivity |]. split; vm_compute; reflexivity.
Qed.
