(* ===== verification/Node.v ===== *)
(** * Searching the network

    [src/node.rs], [impl Node]: building queries, asking one node, and the search
    [find_n_starting_at], a loop over a set of concurrent tasks. The task set
    ([UnboundedConcurrentTaskSet] of [src/utils.rs]) hands out the results in any
    order, so a step of the model picks any pending task and what it is answered. *)

From S2P Require Import Prelude Text Externals Net U160 NodeInfo Bucket Wire Format BucketSerde.
From S2P Require Import Router Token Kmsg Message Service Messenger Server.

(** ** Queries *)

(** [build_query]: the counter is a [usize], the identifier its low 16 bits. *)
Definition build_query {D} (self : Server D) (to : Receiver) (m : QueryMethod) : Query * Server D :=
  (into_query
     (mkBase (SenderMe (me self)) to (Some (addr (me self)))
        (to_be 2 (wrap 16 (transaction self))) (s_read_only self) None) m,
   mkServer (router self) (wrap 64 (transaction self + 1)) (s_read_only self) (me self) (db self) (tokens self)).

(** ** The search *)

Inductive OneResult : Type :=
  | FoundSome (nodes : list NodeInfo)
  | RemoveOne (n : NodeInfo)
  | FoundPeers (peers : list SocketAddr) (nodes : option (list NodeInfo)).

Inductive Found : Type :=
  | KClosest (nodes : list NodeInfo)
  | PeersFound (peers : gset SocketAddr).

(** A task of the set: the one that hands over the starting nodes, or a
    [send_find] to a node. *)
Inductive find_task : Type :=
  | Initial (nodes : list NodeInfo)
  | Asked (to : NodeInfo).

(** The local state of [find_n_starting_at], with the router its tasks update.
    [seen] is the [BTreeSet<Close>]: distances with nodes, in order of distance. *)
Record FindState : Type := mkFind {
  f_router : Router;
  ignore : gset NodeInfo;
  seen : list (U160 * NodeInfo);
  f_peers : gset SocketAddr;
  tasks : list find_task;
}.

(** The order of [Close], which looks at the distance only *)
Definition close_cmp (a b : U160 * NodeInfo) : comparison := u160_cmp a.1 b.1.
Definition close_insert (c : U160 * NodeInfo) (l : list (U160 * NodeInfo))
    : list (U160 * NodeInfo) * bool := btree_insert close_cmp c l.

Section Search.
Context (crc32c : list Z → Z) (p : profile).
(** The random words that the validation of a node draws *)
Context (draw : NodeInfo → Z * Z).
Context (target : U160) (find_peers : bool).

Definition valid (n : NodeInfo) : bool := node_validate crc32c n (draw n).1 (draw n).2.

(** [send_find], from the result of its query *)
Definition send_find (r : Router) (to : NodeInfo) (response : QueryResult) : run (OneResult * Router) :=
  match response with
  | Ok resp =>
      let! r := router_add p r (sender_node (origin (resp_base resp))) in
      Ret (match kind resp with
           | KNearest n _ => FoundSome n
           | Peers ps _ n => if find_peers then FoundPeers ps n else RemoveOne to
           | _ => RemoveOne to
           end, r)
  | Err _ => let! r := ban_id r (id to) in Ret (RemoveOne to, r)
  end.

(** The body of the inner loop, for one node *)
Definition consider (st : FindState) (found : NodeInfo) : FindState :=
  let d := distance target (id found) in
  if match seen st !! Z.to_nat (K_SIZE * 2) with Some c => u160_ltb d c.1 | None => true end then
    let (s, fresh) := close_insert (d, found) (seen st) in
    mkFind (f_router st) (ignore st) s (f_peers st)
      (if fresh && valid found then tasks st ++ [Asked found] else tasks st)
  else st.

(** The body of the outer loop *)
Definition handle_result (st : FindState) (one_result : OneResult) : FindState :=
  match one_result with
  | FoundSome nodes => foldl consider st nodes
  | RemoveOne n =>
      mkFind (f_router st) ({[n]} ∪ ignore st) (seen st) (f_peers st) (tasks st)
  | FoundPeers ps n =>
      foldl consider
        (mkFind (f_router st) (ignore st) (seen st) (list_to_set ps ∪ f_peers st) (tasks st))
        (default [] n)
  end.

(** One turn of the loop: the task at [i] is the one that finished; [response] is
    what its query returned. *)
Definition find_step (i : nat) (response : QueryResult) (st : FindState) : run (OneResult * FindState) :=
  match tasks st !! i with
  | None => Panic
  | Some t =>
      let! (one_result, r) :=
        match t with
        | Initial nodes => Ret (FoundSome nodes, f_router st)
        | Asked to => send_find (f_router st) to response
        end in
      Ret (one_result,
           handle_result (mkFind r (ignore st) (seen st) (f_peers st) (delete i (tasks st))) one_result)
  end.

Definition find_start (r : Router) (nodes : list NodeInfo) : FindState := mkFind r ∅ [] ∅ [Initial nodes].

(** The [filter_map] of the result *)
Definition kept (ignore : gset NodeInfo) (seen : list (U160 * NodeInfo)) : list NodeInfo :=
  omap (λ c, if decide (c.2 ∈ ignore) then None else Some c.2) seen.

(** What the search returns once no task is left *)
Definition find_finish (k : Z) (st : FindState) : Found :=
  if decide (f_peers st = ∅) then KClosest (take (Z.to_nat k) (kept (ignore st) (seen st))) else PeersFound (f_peers st).

(** The whole search: [schedule] says at each turn which task finishes (counted
    modulo the number of tasks) and how its query was answered. *)
Fixpoint find_loop (fuel : nat) (schedule : nat → nat * QueryResult) (st : FindState) : run FindState :=
  match tasks st with
  | [] => Ret st
  | _ =>
      match fuel with
      | O => NoFuel
      | S fuel =>
          let! (_, st') :=
            find_step ((schedule 0%nat).1 mod length (tasks st))%nat (schedule 0%nat).2 st in
          find_loop fuel (λ n, schedule (S n)) st'
      end
  end.

(** [find_n_starting_at]: the result and the router it leaves *)
Definition find_n_starting_at (fuel : nat) (schedule : nat → nat * QueryResult) (r : Router) (k : Z)
    (nodes : list NodeInfo) : run (Found * Router) :=
  let! st := find_loop fuel schedule (find_start r nodes) in
  Ret (find_finish k st, f_router st).

(** *** Runs *)

(** The tasks that finish in a run of the loop, each with the answer to its query *)
Fixpoint find_trace (fuel : nat) (schedule : nat → nat * QueryResult) (st : FindState)
    : list (find_task * QueryResult) :=
  match tasks st, fuel with
  | [], _ | _, O => []
  | _, S fuel =>
      let i := ((schedule 0%nat).1 mod length (tasks st))%nat in
      match tasks st !! i, find_step i (schedule 0%nat).2 st with
      | Some t, Ret (_, st') => (t, (schedule 0%nat).2) :: find_trace fuel (λ n, schedule (S n)) st'
      | _, _ => []
      end
  end.

Definition result_nodes (res : OneResult) : list NodeInfo :=
  match res with
  | FoundSome nodes => nodes
  | RemoveOne _ => []
  | FoundPeers _ n => default [] n
  end.

(** The ranges the code's types give an answer *)
Definition answer_ok (response : QueryResult) : Prop :=
  match response with
  | Ok r =>
      node_ok (sender_node (origin (resp_base r))) ∧
      match kind r with
      | KNearest ns _ | Peers _ _ (Some ns) => Forall node_ok ns
      | _ => True
      end
  | Err _ => True
  end.

Definition with_router (r : Router) (st : FindState) : FindState :=
  mkFind r (ignore st) (seen st) (f_peers st) (tasks st).

(** [reached r nodes h n st]: the search reaches [st] in [n] turns, having heard of
    the nodes [h]. The router is shared with the server and other searches, so
    between two turns it may become another one. *)
Inductive reached (r : Router) (nodes : list NodeInfo) : list NodeInfo → nat → FindState → Prop :=
  | reached_start : reached r nodes [] 0 (find_start r nodes)
  | reached_step h n st i response res st' :
      reached r nodes h n st → answer_ok response → find_step i response st = Ret (res, st') →
      reached r nodes (h ++ result_nodes res) (S n) st'
  | reached_router h n st r' : reached r nodes h n st → reached r nodes h n (with_router r' st).
End Search.

(** [find], [find_nodes], [find_n_nodes]: the search starts from the router's
    lookup; a search for nodes that returned peers would be unreachable code. *)
Definition find_start_lookup (p : profile) (r : Router) (target : U160) : run FindState :=
  let! nodes := router_lookup p r target in Ret (find_start r nodes).

Definition found_nodes (f : Found) : run (list NodeInfo) :=
  match f with
  | KClosest n => Ret n
  | PeersFound _ => Panic
  end.

(** ** Sorted insertion *)

Definition closer (a b : U160 * NodeInfo) : Prop := value a.1 < value b.1.

Lemma close_insert_sorted c l l' fresh :
  u160_ok c.1 → Forall (λ x, u160_ok x.1) l → StronglySorted closer l → close_insert c l = (l', fresh) →
  StronglySorted closer l' ∧ (fresh = false → ∃ x, x ∈ l ∧ x.1 = c.1).
Proof.
  unfold close_insert. intros Hc Hl Hs. revert l' fresh. induction Hs as [|x l Hs IH Hx]; intros l' fresh; simpl.
  { intros [= <- <-]. split; [by repeat constructor | done]. }
  apply Forall_cons in Hl as [Hxo Hl]. unfold close_cmp at 1. rewrite u160_cmp_value by done.
  destruct (Z.compare_spec (value c.1) (value x.1)).
  - intros [= <- <-]. split; [by constructor |]. intros _. exists x.
    split; [apply list_elem_of_here | by apply value_inj].
  - intros [= <- <-]. split; [| done]. constructor; [by constructor |]. constructor; [done |].
    eapply Forall_impl; [exact Hx |]. unfold closer. intros; lia.
  - destruct (btree_insert close_cmp c l) as [l'' f] eqn:E. intros [= <- <-].
    destruct (IH Hl l'' f eq_refl) as [Hs' Hf]. split.
    + constructor; [done |]. apply Forall_forall. intros y Hy.
      apply (btree_insert_elem _ _ _ _ _ _ E) in Hy as [Hy|[_ ->]]; [| done].
      rewrite Forall_forall in Hx. by apply Hx.
    + intros Hff. destruct (Hf Hff) as (y & Hy & ?). exists y. split; [by right | done].
Qed.

Lemma sorted_lookup l i j a b :
  StronglySorted closer l → l !! i = Some a → l !! j = Some b → (i < j)%nat → closer a b.
Proof.
  intros Hs. revert i j. induction Hs as [|x l Hs IH Hx]; intros i j Hi Hj Hlt; [done |].
  destruct j as [|j]; [lia |]. cbn in Hj. destruct i as [|i]; cbn in Hi.
  - injection Hi as ->. rewrite Forall_forall in Hx. by apply Hx, list_elem_of_lookup_2 with j.
  - by eapply (IH i j); [| | lia].
Qed.

(** Insertion only brings closer what stands at an index. *)
Lemma close_insert_lookup c l l' fresh i x :
  u160_ok c.1 → Forall (λ x, u160_ok x.1) l → StronglySorted closer l →
  close_insert c l = (l', fresh) → l !! i = Some x →
  ∃ x', l' !! i = Some x' ∧ value x'.1 ≤ value x.1.
Proof.
  unfold close_insert. intros Hc Hl Hs. revert l' fresh i. induction Hl as [|y l Hy Hl IH]; intros l' fresh i; simpl; [done |].
  unfold close_cmp at 1. rewrite u160_cmp_value by done.
  destruct (Z.compare_spec (value c.1) (value y.1)) as [| Hlt |].
  - intros [= <- <-] Hi. by exists x.
  - intros [= <- <-] Hi. destruct i as [|i]; cbn in Hi.
    + injection Hi as ->. exists c. split; [done |]. lia.
    + assert (Hi' : (i < length (y :: l))%nat) by (apply lookup_lt_Some in Hi; simpl; lia).
      apply lookup_lt_is_Some in Hi' as [z Hz]. exists z. split; [done |].
      assert (closer z x); [| unfold closer in *; lia].
      by eapply (sorted_lookup (y :: l) i (S i)); [| | | lia].
  - destruct (btree_insert close_cmp c l) as [l'' f] eqn:E. intros [= <- <-] Hi. destruct i as [|i]; cbn in Hi.
    + injection Hi as ->. by exists x.
    + apply StronglySorted_inv in Hs as [Hs _]. exact (IH Hs l'' f i eq_refl Hi).
Qed.

(** ** The invariant of the search *)

Section Invariant.
Context (crc32c : list Z → Z) (p : profile) (draw : NodeInfo → Z * Z).
Context (target : U160) (find_peers : bool) (Htarget : u160_ok target).
#[local] Abbreviation consider := (consider crc32c draw target).
#[local] Abbreviation handle_result := (handle_result crc32c draw target).
#[local] Abbreviation find_step := (find_step crc32c p draw target find_peers).
#[local] Abbreviation reached := (reached crc32c p draw target find_peers).

Definition far (x : NodeInfo) : Z := value (distance target (id x)).

(** A node heard of is in [seen], by its identifier, or the seventeenth closest
    of [seen] is no farther. *)
Definition covered (s : list (U160 * NodeInfo)) (x : NodeInfo) : Prop :=
  (∃ c, c ∈ s ∧ id c.2 = id x) ∨ ∃ c, s !! 16%nat = Some c ∧ value c.1 ≤ far x.

Definition entry_of (h : list NodeInfo) (c : U160 * NodeInfo) : Prop :=
  c.1 = distance target (id c.2) ∧ node_ok c.2 ∧ c.2 ∈ h.

Definition task_ok (t : find_task) : Prop :=
  match t with Initial ns => Forall node_ok ns | Asked n => node_ok n end.

Record find_inv (h : list NodeInfo) (st : FindState) : Prop := {
  inv_sorted : StronglySorted closer (seen st);
  inv_entries : Forall (entry_of h) (seen st);
  inv_covered : Forall (covered (seen st)) h;
  inv_tasks : Forall task_ok (tasks st);
  inv_heard : Forall node_ok h;
}.

Lemma entry_dist h c : entry_of h c → u160_ok c.1.
Proof. intros (-> & [? _] & _). by apply distance_ok. Qed.

Lemma entries_dist h s : Forall (entry_of h) s → Forall (λ c, u160_ok c.1) s.
Proof. intros Hs. eapply Forall_impl; [exact Hs | apply entry_dist]. Qed.

Lemma entry_more h h' c : entry_of h c → entry_of (h ++ h') c.
Proof. intros (? & ? & ?). split_and!; [done | done |]. apply elem_of_app. by left. Qed.

(** What [consider] does, whichever way it goes *)
Lemma consider_spec h st x :
  find_inv h st → node_ok x →
  find_inv (h ++ [x]) (consider st x) ∧
  f_peers (consider st x) = f_peers st ∧ f_router (consider st x) = f_router st ∧
  ignore (consider st x) = ignore st ∧
  (length (tasks (consider st x)) + length (seen st) ≤ length (tasks st) + length (seen (consider st x)))%nat.
Proof.
  intros [Hs He Hc Ht Hh] Hx. unfold Node.consider.
  assert (Hh' : Forall node_ok (h ++ [x])) by by apply Forall_app_2, Forall_singleton.
  set (d := distance target (id x)). assert (Hd : u160_ok d) by (apply distance_ok; [done | apply Hx]).
  pose proof (entries_dist _ _ He) as Hok.
  destruct (match seen st !! _ with Some c => u160_ltb d c.1 | None => true end) eqn:Hnear.
  - destruct (close_insert (d, x) (seen st)) as [s fresh] eqn:E.
    cbn [f_peers f_router ignore tasks seen].
    destruct (close_insert_sorted (d, x) _ _ _ Hd Hok Hs E) as [Hs' Hf].
    pose proof (btree_insert_length _ _ _ _ _ E) as Hlen.
    assert (Hcov : ∀ y, covered (seen st) y → covered s y).
    { intros y [(c & Hin & Hid)|(c & Hi & Hle)].
      - left. exists c. split; [| done]. apply (btree_insert_elem _ _ _ _ _ _ E). by left.
      - right. destruct (close_insert_lookup (d, x) _ _ _ _ _ Hd Hok Hs E Hi) as (c' & Hi' & Hle').
        exists c'. split; [done | lia]. }
    split_and!; [| done | done | done |].
    + split; cbn [seen tasks]; [done | | | | done].
      * apply Forall_forall. intros c Hin. apply (btree_insert_elem _ _ _ _ _ _ E) in Hin as [Hin|[_ ->]].
        { rewrite Forall_forall in He. by apply entry_more, He. }
        split_and!; [done | done | set_solver].
      * apply Forall_app. split; [eapply Forall_impl; [exact Hc | exact Hcov] |]. constructor; [| constructor].
        left. destruct fresh.
        { exists (d, x). split; [| done]. apply (btree_insert_elem _ _ _ _ _ _ E). by right. }
        destruct (Hf eq_refl) as (c & Hin & Heq). exists c.
        split; [apply (btree_insert_elem _ _ _ _ _ _ E); by left |].
        rewrite Forall_forall in He. destruct (He c Hin) as (Hcd & _). rewrite Heq in Hcd. cbn in Hcd.
        by apply (distance_inj target) in Hcd.
      * destruct (fresh && _); [| done]. by apply Forall_app_2, Forall_singleton.
    + rewrite Hlen. destruct fresh, (valid _ _ x); simpl; rewrite ?length_app; simpl; lia.
  - split_and!; try done. split; [done | | | done | done].
    + eapply Forall_impl; [exact He | apply entry_more].
    + apply Forall_app. split; [done |]. constructor; [| constructor]. right.
      change (Z.to_nat (K_SIZE * 2)) with 16%nat in Hnear.
      destruct (seen st !! 16%nat) as [c|] eqn:Hi; [| done]. exists c. split; [done |].
      apply list_elem_of_lookup_2 in Hi. rewrite Forall_forall in Hok.
      apply not_true_iff_false in Hnear. rewrite u160_ltb_lt in Hnear by auto. unfold far. fold d. lia.
Qed.
(** The loop's measure: a turn adds a task for a node that enters [seen] only. *)
Definition tasks_for_seen (st st' : FindState) : Prop :=
  (length (tasks st') + length (seen st) ≤ length (tasks st) + length (seen st'))%nat.

Lemma foldl_consider_spec h st xs :
  find_inv h st → Forall node_ok xs →
  let st' := foldl consider st xs in
  find_inv (h ++ xs) st' ∧ f_peers st' = f_peers st ∧ f_router st' = f_router st ∧
  ignore st' = ignore st ∧ tasks_for_seen st st'.
Proof.
  intros Hst Hxs. revert h st Hst. induction Hxs as [|x xs Hx Hxs IH]; intros h st Hst; simpl.
  - rewrite app_nil_r. split_and!; try done. unfold tasks_for_seen. lia.
  - destruct (consider_spec h st x Hst Hx) as (H1 & Hp1 & Hr1 & Hi1 & Hl1).
    destruct (IH _ _ H1) as (H2 & Hp2 & Hr2 & Hi2 & Hl2). rewrite <- app_assoc in H2.
    split_and!; [done | congruence.. |]. unfold tasks_for_seen in *. lia.
Qed.

Lemma handle_result_spec h st res :
  find_inv h st → Forall node_ok (result_nodes res) →
  find_inv (h ++ result_nodes res) (handle_result st res) ∧
  f_router (handle_result st res) = f_router st ∧
  tasks_for_seen st (handle_result st res) ∧
  f_peers (handle_result st res) =
    match res with FoundPeers ps _ => list_to_set ps ∪ f_peers st | _ => f_peers st end ∧
  ignore (handle_result st res) =
    match res with RemoveOne n => {[n]} ∪ ignore st | _ => ignore st end.
Proof.
  intros Hst Hok. destruct res as [ns|n|ps ns]; cbn [Node.handle_result result_nodes] in *.
  - destruct (foldl_consider_spec h st ns Hst Hok) as (? & ? & ? & ? & ?). by split_and!.
  - rewrite app_nil_r. split_and!; try done; [| unfold tasks_for_seen; simpl; lia]. by destruct Hst.
  - set (st1 := mkFind _ _ _ _ _). assert (Hst1 : find_inv h st1) by by destruct Hst.
    destruct (foldl_consider_spec h st1 (default [] ns) Hst1 Hok) as (? & -> & -> & -> & ?).
    by split_and!.
Qed.

Lemma send_find_nodes r to resp res r' :
  send_find p find_peers r to resp = Ret (res, r') → answer_ok resp →
  Forall node_ok (result_nodes res) ∧ (find_peers = false → ∀ ps n, res ≠ FoundPeers ps n) ∧
  (∀ n, res = RemoveOne n → n = to).
Proof.
  unfold send_find. destruct resp as [resp|e].
  - intros Hr [_ Hk]. destruct (router_add _ _ _) as [r1| |]; [| done | done]. cbn [run_bind] in Hr.
    injection Hr as <- <-. destruct (kind resp) as [|ns t|ps t ns| |]; cbn [result_nodes] in *;
      try (split_and!; [constructor | done | by intros ? [= <-]]).
    + by split_and!.
    + destruct find_peers; [| split_and!; [constructor | done | by intros ? [= <-]]].
      split_and!; [| done | done]. by destruct ns.
  - intros Hr _. destruct (ban_id _ _) as [r1| |]; [| done | done]. cbn [run_bind] in Hr.
    injection Hr as <- <-. split_and!; [constructor | done | by intros ? [= <-]].
Qed.

Lemma find_step_spec h i resp st res st' :
  find_inv h st → answer_ok resp → find_step i resp st = Ret (res, st') →
  find_inv (h ++ result_nodes res) st' ∧
  (S (length (tasks st')) + length (seen st) ≤ length (tasks st) + length (seen st'))%nat ∧
  (find_peers = false → f_peers st = ∅ → f_peers st' = ∅).
Proof.
  intros Hst Hresp. unfold Node.find_step. destruct (tasks st !! i) as [t|] eqn:Hi; [| done].
  set (first := match t with Initial _ => _ | Asked _ => _ end).
  destruct first as [[one r]| |] eqn:E; [| done | done]. cbn [run_bind]. intros [= <- <-].
  set (st1 := mkFind _ _ _ _ _).
  assert (Ht : task_ok t) by (eapply Forall_lookup in Hi; [exact Hi | apply Hst]).
  assert (Hst1 : find_inv h st1).
  { destruct Hst as [? ? ? Hts ?]. split; try done. by apply Forall_delete. }
  assert (Hone : Forall node_ok (result_nodes one) ∧ (find_peers = false → ∀ ps n, one ≠ FoundPeers ps n)).
  { unfold first in E. destruct t as [ns|to].
    - by injection E as <- <-.
    - destruct (send_find_nodes _ _ _ _ _ E Hresp) as (? & ? & _). done. }
  destruct Hone as [Hone Hnp]. destruct (handle_result_spec h st1 one Hst1 Hone) as (Hinv & _ & Hm & Hp & _).
  split; [exact Hinv |]. split.
  - unfold tasks_for_seen in Hm. cbn [tasks seen st1] in Hm. rewrite length_delete in Hm by done.
    apply lookup_lt_Some in Hi. lia.
  - intros Hf He. rewrite Hp. destruct one; [done | done |]. by destruct (Hnp Hf peers nodes).
Qed.

Lemma reached_inv r nodes h n st :
  Forall node_ok nodes → reached r nodes h n st →
  find_inv h st ∧ (n + length (tasks st) ≤ 1 + length (seen st))%nat ∧
  (find_peers = false → f_peers st = ∅).
Proof.
  intros Hns. induction 1 as [|h n st i resp res st' Hr (Hinv & Hlen & Hp) Hresp Hstep|h n st r' Hr (Hinv & ? & ?)].
  - split; [| split; [simpl; lia | done]]. split; try constructor; [exact Hns | constructor].
  - destruct (find_step_spec h i resp st res st' Hinv Hresp Hstep) as (? & ? & ?).
    split; [done |]. split; [lia | auto].
  - split; [by destruct Hinv | done].
Qed.

(** A strictly increasing list of naturals below a bound is no longer than it. *)
Lemma sorted_bound (f : U160 * NodeInfo → Z) l lo hi :
  StronglySorted (λ a b, f a < f b) l → Forall (λ a, lo ≤ f a < hi) l →
  Z.of_nat (length l) ≤ Z.max 0 (hi - lo).
Proof.
  intros Hs. revert lo. induction Hs as [|x l Hs IH Hx]; intros lo Hl; [simpl; lia |].
  apply Forall_cons in Hl as [Hxr Hl]. simpl. specialize (IH (f x + 1)).
  assert (Forall (λ a, f x + 1 ≤ f a < hi) l) as Hl'.
  { rewrite Forall_forall in *. intros y Hy. specialize (Hx y Hy). specialize (Hl y Hy). lia. }
  specialize (IH Hl'). lia.
Qed.

Lemma seen_bound h st : find_inv h st → Z.of_nat (length (seen st)) ≤ 2 ^ 160.
Proof.
  intros [Hs He _ _ _]. pose proof (sorted_bound (λ c, value c.1) (seen st) 0 (2 ^ 160) Hs) as Hb.
  rewrite Z.max_r in Hb by lia. rewrite Z.sub_0_r in Hb. apply Hb.
  apply entries_dist in He. eapply Forall_impl; [exact He |]. intros c Hc. by apply value_in_width.
Qed.

(** *** The router and the progress of the search *)

Definition router_good (r : Router) : Prop := ∃ own k h, router_ok own k h r.

Lemma send_find_total r to resp :
  router_good r → answer_ok resp →
  ∃ res r', send_find p find_peers r to resp = Ret (res, r') ∧ router_good r'.
Proof.
  intros (own & k & h & Hr) Hresp. unfold send_find. destruct resp as [resp|e].
  - destruct (router_add_ok p own k h r _ Hr (proj1 Hresp)) as (r' & -> & Hr').
    do 2 eexists. split; [done |]. by exists own, k, h.
  - destruct (ban_id_ok own k h r (id to) Hr) as (r' & -> & Hr').
    do 2 eexists. split; [done |]. by exists own, k, (h ++ [id to]).
Qed.

Lemma find_step_total h i resp st :
  find_inv h st → router_good (f_router st) → answer_ok resp → (i < length (tasks st))%nat →
  ∃ res st', find_step i resp st = Ret (res, st') ∧ router_good (f_router st').
Proof.
  intros Hst Hr Hresp Hi. unfold Node.find_step. apply lookup_lt_is_Some in Hi as [t Hi]. rewrite Hi.
  assert (Ht : task_ok t) by (eapply Forall_lookup in Hi; [exact Hi | apply Hst]).
  assert (∃ one r, match t with Initial nodes => Ret (FoundSome nodes, f_router st)
      | Asked to => send_find p find_peers (f_router st) to resp end = Ret (one, r) ∧ router_good r ∧
      Forall node_ok (result_nodes one)) as (one & r & -> & Hr' & Hone).
  { destruct t as [ns|to].
    - by exists (FoundSome ns), (f_router st).
    - destruct (send_find_total (f_router st) to resp Hr Hresp) as (one & r & E & Hr').
      exists one, r. split_and!; [done | done |]. by eapply send_find_nodes. }
  cbn [run_bind]. do 2 eexists. split; [done |].
  destruct (handle_result_spec h (mkFind r (ignore st) (seen st) (f_peers st) (delete i (tasks st))) one)
    as (_ & -> & _); [| done | done].
  destruct Hst as [? ? ? Hts ?]. split; try done. by apply Forall_delete.
Qed.

Lemma find_loop_total r nodes schedule h n st :
  Forall node_ok nodes → (∀ i, answer_ok (schedule i).2) →
  reached r nodes h n st → router_good (f_router st) →
  ∃ fuel h' n' st', find_loop crc32c p draw target find_peers fuel schedule st = Ret st' ∧
    tasks st' = [] ∧ reached r nodes h' n' st'.
Proof.
  intros Hns. remember (Z.to_nat (2 ^ 160 + 1 - Z.of_nat n)) as m eqn:Hm.
  revert schedule h n st Hm. induction m as [m IH] using lt_wf_ind.
  intros schedule h n st Hm Hsch Hr Hgood.
  destruct (tasks st) as [|t ts] eqn:Ht.
  { exists 0%nat, h, n, st. split; [simpl; by rewrite Ht | done]. }
  destruct (reached_inv r nodes h n st Hns Hr) as (Hinv & Hlen & _).
  pose proof (seen_bound h st Hinv) as Hb. rewrite Ht in Hlen. simpl in Hlen.
  set (i := ((schedule 0%nat).1 mod length (tasks st))%nat).
  assert (Hi : (i < length (tasks st))%nat) by (apply Nat.mod_upper_bound; by rewrite Ht).
  destruct (find_step_total h i _ st Hinv Hgood (Hsch 0%nat) Hi) as (res & st1 & Hstep & Hgood1).
  assert (Hr1 : reached r nodes (h ++ result_nodes res) (S n) st1) by (by eapply reached_step).
  assert (Hdec : (Z.to_nat (2 ^ 160 + 1 - Z.of_nat (S n)) < m)%nat).
  { clear -Hm Hlen Hb. generalize dependent (2 ^ 160). intros; subst. lia. }
  destruct (IH (Z.to_nat (2 ^ 160 + 1 - Z.of_nat (S n))) Hdec (λ j, schedule (S j)) _ (S n) st1 eq_refl
    (λ j, Hsch (S j)) Hr1 Hgood1) as (fuel & h' & n' & st' & Hloop & ?).
  exists (S fuel), h', n', st'. split; [| done]. cbn [find_loop]. rewrite Ht. rewrite <- Ht.
  fold i. rewrite Hstep. exact Hloop.
Qed.

(** *** The peers *)

(** What a finished task adds to the peers *)
Definition peers_of (t : find_task * QueryResult) : list SocketAddr :=
  match t with
  | (Asked _, Ok resp) =>
      match kind resp with Peers ps _ _ => if find_peers then ps else [] | _ => [] end
  | _ => []
  end.

Lemma f_peers_foldl st ns : f_peers (foldl consider st ns) = f_peers st.
Proof using Type.
  clear Htarget. revert st. induction ns as [|n ns IH]; intros st; [done |]. cbn [foldl]. rewrite IH.
  unfold Node.consider. destruct (match _ !! _ with Some _ => _ | None => _ end); [| done].
  by destruct (close_insert _ _).
Qed.

Lemma find_step_peers i resp st t res st' :
  tasks st !! i = Some t → find_step i resp st = Ret (res, st') →
  f_peers st' = list_to_set (peers_of (t, resp)) ∪ f_peers st.
Proof using Type.
  clear Htarget. intros Hi. unfold Node.find_step. rewrite Hi.
  assert (Hnone : ∀ X : gset SocketAddr, X = list_to_set [] ∪ X) by set_solver.
  destruct t as [ns|to]; cbn [run_bind peers_of].
  - intros [= _ <-]. cbn [Node.handle_result]. rewrite f_peers_foldl. apply Hnone.
  - unfold send_find. destruct resp as [resp|e].
    + destruct (router_add _ _ _) as [r| |]; cbn [run_bind]; [| done..]. intros [= _ <-].
      destruct (kind resp) as [|ns tk|ps tk ns|d|ns sm av iv]; cbn [Node.handle_result f_peers];
        rewrite ?f_peers_foldl; try apply Hnone.
      destruct find_peers; cbn [Node.handle_result f_peers]; rewrite ?f_peers_foldl; [done | apply Hnone].
    + destruct (ban_id _ _) as [r| |]; cbn [run_bind]; [| done..]. intros [= _ <-]. apply Hnone.
Qed.

(** The peers of a search are those of the answers it got, and no others. *)
Lemma find_loop_peers fuel schedule st st' a :
  find_loop crc32c p draw target find_peers fuel schedule st = Ret st' →
  a ∈ f_peers st' ↔ a ∈ f_peers st ∨
    ∃ t, t ∈ find_trace crc32c p draw target find_peers fuel schedule st ∧ a ∈ peers_of t.
Proof using Type.
  clear Htarget. revert schedule st.
  induction fuel as [|fuel IH]; intros schedule st Hl; cbn [find_loop find_trace] in *.
  - destruct (tasks st); [| done]. injection Hl as <-. set_solver.
  - destruct (tasks st) as [|t0 ts] eqn:Ht; [injection Hl as <-; set_solver |]. rewrite <- Ht in *.
    set (i := (_ mod _)%nat) in *.
    destruct (Node.find_step _ _ _ _ _ i _ st) as [[res st1]| |] eqn:Hstep; [| done..]. cbn [run_bind] in Hl.
    destruct (tasks st !! i) as [t|] eqn:Hi; [| unfold Node.find_step in Hstep; by rewrite Hi in Hstep].
    rewrite (IH _ _ Hl), (find_step_peers i _ st t res st1 Hi Hstep).
    rewrite elem_of_union, elem_of_list_to_set. setoid_rewrite elem_of_cons. naive_solver.
Qed.

(** *** The result *)

Lemma elem_of_kept ig s m : m ∈ kept ig s ↔ ∃ c, c ∈ s ∧ c.2 = m ∧ m ∉ ig.
Proof.
  unfold kept. rewrite list_elem_of_omap. split.
  - intros (c & Hc & E). exists c. case_decide; [done |]. injection E as <-. done.
  - intros (c & Hc & <- & Hn). exists c. by rewrite decide_False.
Qed.

Lemma kept_cons ig c s :
  kept ig (c :: s) = if decide (c.2 ∈ ig) then kept ig s else c.2 :: kept ig s.
Proof. unfold kept. cbn. by case_decide. Qed.

Lemma kept_app ig s s' : kept ig (s ++ s') = kept ig s ++ kept ig s'.
Proof. apply omap_app. Qed.

Lemma kept_sorted h ig s :
  StronglySorted closer s → Forall (entry_of h) s → StronglySorted (λ a b, far a < far b) (kept ig s).
Proof.
  intros Hs. induction Hs as [|c s Hs IH Hc]; intros He; [constructor |].
  apply Forall_cons in He as [Hce He]. specialize (IH He). rewrite kept_cons.
  case_decide; [done |]. constructor; [done |]. apply Forall_forall. intros m Hm.
  apply elem_of_kept in Hm as (c' & Hc' & <- & _). rewrite Forall_forall in Hc, He.
  specialize (Hc c' Hc'). destruct (He c' Hc') as (Hd' & _), Hce as (Hd & _).
  unfold closer in Hc. unfold far. by rewrite <- Hd, <- Hd'.
Qed.

(** At most as many entries are dropped as there are nodes to ignore. *)
Lemma kept_length (ig : gset NodeInfo) (s : list (U160 * NodeInfo)) :
  NoDup s.*2 → (length s ≤ length (kept ig s) + size ig)%nat.
Proof.
  revert ig. induction s as [|c s IH]; intros ig Hn; [simpl; lia |].
  rewrite fmap_cons in Hn. apply NoDup_cons in Hn as [Hc Hn]. rewrite kept_cons. cbn [length].
  case_decide as Hin.
  - specialize (IH (ig ∖ {[c.2]}) Hn).
    assert (kept (ig ∖ {[c.2]}) s = kept ig s) as E.
    { clear IH Hn. induction s as [|c' s IHs]; [done |]. rewrite fmap_cons in Hc.
      rewrite !kept_cons, IHs by set_solver. assert (c'.2 ≠ c.2) by set_solver.
      destruct (decide (c'.2 ∈ ig)); [rewrite decide_True by set_solver | rewrite decide_False by set_solver]; done. }
    rewrite E in IH. assert (size ig = S (size (ig ∖ {[c.2]}))) as ->; [| lia].
    rewrite size_difference by set_solver. rewrite size_singleton.
    assert (size ig ≠ 0%nat); [| lia]. intros H0%size_empty_inv. set_solver.
  - specialize (IH ig Hn). simpl. lia.
Qed.

Lemma seen_nodup h st : find_inv h st → NoDup (seen st).*2.
Proof.
  intros [Hs He _ _ _]. induction Hs as [|c s Hs IH Hc]; [constructor |].
  apply Forall_cons in He as [(Hd & _) He]. rewrite fmap_cons. apply NoDup_cons. split; [| by apply IH].
  intros (c' & Hcc & Hin)%list_elem_of_fmap. rewrite Forall_forall in Hc, He. specialize (Hc c' Hin).
  destruct (He c' Hin) as (Hd' & _). unfold closer in Hc. rewrite Hd, Hd', Hcc in Hc. lia.
Qed.

Lemma far_inj a b : node_ok a → node_ok b → far a = far b → id a = id b.
Proof.
  intros [Ha _] [Hb _] E. unfold far in E. apply value_inj in E; [| by apply distance_ok..].
  by apply distance_inj in E.
Qed.

(** Elements of a strictly increasing list before and after a cut *)
Lemma sorted_app_lt (f : NodeInfo → Z) l1 l2 a b :
  StronglySorted (λ a b, f a < f b) (l1 ++ l2) → a ∈ l1 → b ∈ l2 → f a < f b.
Proof.
  induction l1 as [|x l1 IH]; intros Hs Ha Hb; [by apply not_elem_of_nil in Ha |].
  apply StronglySorted_inv in Hs as [Hs Hx]. apply elem_of_cons in Ha as [->|Ha]; [| by apply IH].
  rewrite Forall_forall in Hx. apply Hx, elem_of_app. by right.
Qed.

Lemma sorted_take (f : NodeInfo → Z) n l :
  StronglySorted (λ a b, f a < f b) l → StronglySorted (λ a b, f a < f b) (take n l).
Proof.
  intros Hs. revert n. induction Hs as [|x l Hs IH Hx]; intros [|n]; simpl; try constructor; [done |].
  by apply Forall_take.
Qed.

Lemma sorted_nodup_ids l : StronglySorted (λ a b, far a < far b) l → NoDup (ids l).
Proof.
  induction 1 as [|x l Hs IH Hx]; [constructor |]. unfold ids in *. rewrite fmap_cons.
  apply NoDup_cons. split; [| done]. intros (y & Hy & Hin)%list_elem_of_fmap.
  rewrite Forall_forall in Hx. specialize (Hx y Hin). unfold far in Hx. rewrite Hy in Hx. lia.
Qed.

(** Among at most [17 - k] ignored nodes, [k] of the first seventeen entries are kept. *)
Lemma kept_enough k h st c :
  find_inv h st → seen st !! 16%nat = Some c → (size (ignore st) + k ≤ 17)%nat →
  (k ≤ length (kept (ignore st) (take 17 (seen st))))%nat.
Proof.
  intros Hinv Hc Hsize. pose proof (seen_nodup h st Hinv) as Hnd.
  assert (Hlen : (16 < length (seen st))%nat) by by eapply lookup_lt_Some.
  pose proof (kept_length (ignore st) (take 17 (seen st))) as Hkl. rewrite length_take, fmap_take in Hkl.
  specialize (Hkl ltac:(by eapply sublist_NoDup, sublist_take)). lia.
Qed.

Lemma kept_first k h st c :
  find_inv h st → seen st !! 16%nat = Some c → (size (ignore st) + k ≤ 17)%nat →
  length (take k (kept (ignore st) (seen st))) = k ∧
  ∀ m, m ∈ take k (kept (ignore st) (seen st)) → node_ok m ∧ far m ≤ value c.1.
Proof.
  intros Hinv Hc Hsize. pose proof (kept_enough k h st c Hinv Hc Hsize) as Hk.
  destruct Hinv as [Hs He _ _ _].
  rewrite <- (take_drop 17 (seen st)), kept_app, take_app_le by done.
  split; [rewrite length_take; lia |].
  intros m (e & Hin & <- & _)%elem_of_take_weak%elem_of_kept.
  rewrite Forall_forall in He. destruct (He e) as (Hd & Hok & _); [by eapply elem_of_take_weak |].
  split; [done |]. unfold far. rewrite <- Hd. apply list_elem_of_lookup in Hin as [j Hj].
  apply lookup_take_Some in Hj as [Hj Hj17]. destruct (decide (j = 16%nat)) as [->|].
  - rewrite Hc in Hj. injection Hj as ->. lia.
  - assert (closer e c) as Hcl by (eapply sorted_lookup; [done.. | lia]). unfold closer in Hcl. lia.
Qed.

(** What a search for nodes returns, from any state with the invariant *)
Lemma closest_found heard st k :
  find_inv heard st → f_peers st = ∅ →
  ∃ ns, found_nodes (find_finish k st) = Ret ns ∧
    StronglySorted (λ a b, far a < far b) ns ∧ NoDup (ids ns) ∧ (length ns ≤ Z.to_nat k)%nat ∧
    (∀ m, m ∈ ns → m ∈ heard ∧ m ∉ ignore st) ∧
    ((size (ignore st) + Z.to_nat k ≤ 17)%nat → ∀ x, x ∈ heard →
       id x ∈ ids ns ∨ (∃ m, m ∈ ignore st ∧ id m = id x) ∨
       length ns = Z.to_nat k ∧ ∀ m, m ∈ ns → far m < far x).
Proof using Type*.
  intros Hinv Hp. unfold find_finish. rewrite decide_True by done. set (l := kept (ignore st) (seen st)).
  assert (Hl : StronglySorted (λ a b, far a < far b) l) by (destruct Hinv; by eapply kept_sorted).
  exists (take (Z.to_nat k) l). split; [done |]. split_and!.
  - by apply sorted_take.
  - by eapply sorted_nodup_ids, sorted_take.
  - rewrite length_take. lia.
  - intros m Hm%elem_of_take_weak. apply elem_of_kept in Hm as (c & Hc & <- & ?). split; [| done].
    destruct Hinv as [_ He _ _ _]. rewrite Forall_forall in He. by apply He.
  - intros Hsize x Hx. destruct (decide (id x ∈ ids (take (Z.to_nat k) l))) as [?|Hno]; [by left | right].
    pose proof (inv_covered _ _ Hinv) as Hcov. rewrite Forall_forall in Hcov.
    destruct (Hcov x Hx) as [(c & Hc & Hid)|(c & Hc & Hle)].
    + destruct (decide (c.2 ∈ ignore st)) as [?|Hni]; [left; eauto | right].
      assert (Hin : c.2 ∈ take (Z.to_nat k) l ++ drop (Z.to_nat k) l).
      { rewrite take_drop. apply elem_of_kept. eauto. }
      apply elem_of_app in Hin as [Hin|Hin]; [exfalso; apply Hno, elem_of_ids; eauto |]. split.
      * rewrite length_take. assert (drop (Z.to_nat k) l ≠ []).
        { intros E. rewrite E in Hin. by apply not_elem_of_nil in Hin. }
        destruct (decide (length l ≤ Z.to_nat k)%nat); [by rewrite drop_ge in H by done | lia].
      * intros m Hm. unfold far at 2. rewrite <- Hid. rewrite <- (take_drop (Z.to_nat k) l) in Hl.
        by eapply (sorted_app_lt far).
    + right. destruct (kept_first _ _ _ _ Hinv Hc Hsize) as [Hlen Hfirst]. split; [done |].
      intros m Hm. destruct (Hfirst m Hm) as [Hok Hmc]. assert (far m ≠ far x); [| unfold far in *; lia].
      intros E%far_inj; [| done |].
      * apply Hno, elem_of_ids. eauto.
      * pose proof (inv_heard _ _ Hinv) as Hh. rewrite Forall_forall in Hh. by apply Hh.
Qed.
End Invariant.

(** ** Properties *)

Section Properties.
Context (crc32c : list Z → Z) (p : profile) (draw : NodeInfo → Z * Z).
Context (target : U160) (find_peers : bool).
#[local] Abbreviation reached := (reached crc32c p draw target find_peers).
#[local] Abbreviation far := (far target).

(** C10: the search ends: whichever task finishes first at each turn and whatever
    the queries are answered, the loop runs out of tasks without panic after a
    bounded number of turns, one more than the nodes it has seen at most. *)
Theorem find_returns r nodes schedule own k h :
  u160_ok target → router_ok own k h r → Forall node_ok nodes → (∀ i, answer_ok (schedule i).2) →
  ∃ fuel heard turns st,
    find_loop crc32c p draw target find_peers fuel schedule (find_start r nodes) = Ret st ∧
    tasks st = [] ∧ reached r nodes heard turns st ∧
    (turns ≤ 1 + length (seen st))%nat ∧ Z.of_nat (length (seen st)) ≤ 2 ^ 160.
Proof.
  intros Ht Hr Hns Hsch.
  destruct (find_loop_total crc32c p draw target find_peers Ht r nodes schedule [] 0 (find_start r nodes)
    Hns Hsch) as (fuel & heard & n & st & Hloop & Htasks & Hreach).
  { constructor. }
  { by exists own, k, h. }
  destruct (reached_inv crc32c p draw target find_peers Ht r nodes heard n st Hns Hreach) as (Hinv & Hlen & _).
  exists fuel, heard, n, st. split_and!; [done | done | done | lia | by eapply seen_bound].
Qed.

(** C4: what a search for nodes returns: at most [k] nodes in order of distance to
    the target, no identifier twice, all heard of in the search, none that
    failed to answer; and when at most [17 - k] nodes failed to answer they are
    the closest: every other node heard of that did not fail is farther than
    all [k] of them. A search for nodes never finds peers, so the [unreachable!]
    of [find_nodes] is. *)
Theorem find_closest r nodes heard turns st k :
  u160_ok target → Forall node_ok nodes → reached r nodes heard turns st → find_peers = false →
  ∃ ns, found_nodes (find_finish k st) = Ret ns ∧
    StronglySorted (λ a b, far a < far b) ns ∧ NoDup (ids ns) ∧ (length ns ≤ Z.to_nat k)%nat ∧
    (∀ m, m ∈ ns → m ∈ heard ∧ m ∉ ignore st) ∧
    ((size (ignore st) + Z.to_nat k ≤ 17)%nat → ∀ x, x ∈ heard →
       id x ∈ ids ns ∨ (∃ m, m ∈ ignore st ∧ id m = id x) ∨
       length ns = Z.to_nat k ∧ ∀ m, m ∈ ns → far m < far x).
Proof.
  intros Ht Hns Hreach Hfp.
  destruct (reached_inv crc32c p draw target find_peers Ht r nodes heard turns st Hns Hreach) as (Hinv & _ & Hp).
  apply closest_found; auto.
Qed.
End Properties.

(** *** Transaction identifiers *)

(** The queries a node builds one after the other *)
Fixpoint build_queries {D} (self : Server D) (l : list (Receiver * QueryMethod)) : list Query :=
  match l with
  | [] => []
  | (to, m) :: l => let (q, self) := build_query self to m in q :: build_queries self l
  end.

Lemma build_queries_tid {D} (self : Server D) l i q :
  build_queries self l !! i = Some q →
  q_tid q = to_be 2 (wrap 16 (transaction self + Z.of_nat i)) ∧ q_addr q = addr (me self).
Proof.
  revert self i. induction l as [|[to m] l IH]; intros self i Hi; [done |].
  cbn [build_queries build_query] in Hi. destruct i as [|i]; cbn [lookup list_lookup] in Hi.
  - injection Hi as <-. split; [| done]. cbn. by rewrite Z.add_0_r.
  - apply IH in Hi as [-> ->]. cbn [transaction me]. split; [| done]. f_equal. unfold wrap.
    rewrite <- (Z.add_mod_idemp_l _ _ (2 ^ 16)) by done.
    rewrite <- Znumtheory.Zmod_div_mod by (done || by exists (2 ^ 48)).
    rewrite Z.add_mod_idemp_l by done. f_equal. lia.
Qed.

(** The identifiers of a node's queries: two bytes, the same for two queries
    exactly when a multiple of 65536 queries lies between them, so that up to
    65536 queries can be outstanding without ambiguity. *)
Theorem transaction_ids {D} (self : Server D) l i j qi qj :
  build_queries self l !! i = Some qi → build_queries self l !! j = Some qj →
  length (q_tid qi) = 2%nat ∧ q_addr qi = addr (me self) ∧
  (q_tid qi = q_tid qj ↔ Z.of_nat i `mod` 65536 = Z.of_nat j `mod` 65536).
Proof.
  intros [Ei Hi]%build_queries_tid [Ej _]%build_queries_tid. rewrite Ei, Ej.
  split_and!; [by rewrite length_to_be | done |].
  assert (Hw : ∀ z, in_width (8 * Z.of_nat 2) (wrap 16 z)) by (intros; by apply wrap_in_width).
  unfold wrap. change (2 ^ 16) with 65536. split.
  - intros E%(f_equal from_be). rewrite !from_be_to_be in E by apply Hw. revert E.
    Z.to_euclidean_division_equations. lia.
  - intros E. f_equal. rewrite <- (Z.add_mod_idemp_r _ (Z.of_nat i)), E by done.
    by rewrite Z.add_mod_idemp_r.
Qed.

Lemma transaction_ids_witness :
  let l := replicate 3 (ReceiverMe, Ping) in
  length (q_tid (into_query (mkBase (SenderMe (me ex_server)) ReceiverMe (Some (ex_remote 2)) [0; 2] false None) Ping))
    = 2%nat ∧ build_queries ex_server l !! 2%nat =
    Some (into_query (mkBase (SenderMe (me ex_server)) ReceiverMe (Some (ex_remote 2)) [0; 2] false None) Ping).
Proof.
  split; [| vm_compute; reflexivity].
  apply (transaction_ids ex_server (replicate 3 (ReceiverMe, Ping)) 2 2 _
    (into_query (mkBase (SenderMe (me ex_server)) ReceiverMe (Some (ex_remote 2)) [0; 2] false None) Ping));
    vm_compute; reflexivity.
Defined.

(** *** Asking one node *)

(** The outcome of asking a node decides its place in the routing table: a node
    whose query failed is banned, so that it is not in the table, and the
    search is told to ignore it; one that answered is offered to the router,
    and its nodes go to the search. An answer of another kind makes the search
    ignore the node but does not ban it. *)
Theorem send_find_correct p find_peers own k h r to response :
  router_ok own k h r → answer_ok response →
  ∃ res r', send_find p find_peers r to response = Ret (res, r') ∧
    match response with
    | Err _ => res = RemoveOne to ∧ router_ok own k (h ++ [id to]) r' ∧
        id to ∈ banned_ids r' ∧ id to ∉ ids (all_nodes (buckets r'))
    | Ok a =>
        router_add p r (sender_node (origin (resp_base a))) = Ret r' ∧ router_ok own k h r' ∧
        match kind a with
        | KNearest ns _ => res = FoundSome ns
        | Peers ps _ ns => res = if find_peers then FoundPeers ps ns else RemoveOne to
        | _ => res = RemoveOne to
        end
    end.
Proof.
  intros Hr Ha. unfold send_find. destruct response as [a|e].
  - destruct (router_add_ok p own k h r _ Hr (proj1 Ha)) as (r' & -> & Hr'). cbn [run_bind].
    do 2 eexists. split; [done |]. split_and!; [done | done |]. by destruct (kind a).
  - destruct (ban_id_ok own k h r (id to) Hr) as (r' & -> & Hr'). cbn [run_bind].
    do 2 eexists. split; [done |].
    assert (Hb : id to ∈ banned_ids r').
    { rewrite (router_banned _ _ _ _ Hr'). unfold remembered. rewrite length_app, drop_app_le.
      - set_solver.
      - unfold BAN_COUNT. simpl. lia. }
    split_and!; [done | done | done |]. by apply (router_absent _ _ _ _ Hr').
Qed.

Definition ex_router : Router := mkRouter (root (new 5 6) 8) [].
Lemma ex_router_ok : router_ok (new 5 6) 8 [] ex_router.
Proof. split; [by apply root_ok | done | intros x Hx; by apply not_elem_of_nil in Hx]. Qed.

Definition no_answer : QueryResult := generic (ex_service_query 7 2) "Timeout".

Lemma send_find_correct_witness :
  ∃ res r', send_find Debug false ex_router (ex_node 1 2) no_answer = Ret (res, r') ∧
    res = RemoveOne (ex_node 1 2) ∧ router_ok (new 5 6) 8 [new 1 2] r' ∧
    new 1 2 ∈ banned_ids r' ∧ new 1 2 ∉ ids (all_nodes (buckets r')).
Proof. exact (send_find_correct Debug false (new 5 6) 8 [] ex_router (ex_node 1 2) no_answer ex_router_ok I). Defined.

(** *** Examples of searches *)

Definition ex_draw (n : NodeInfo) : Z * Z := (0, 0).

Lemma find_returns_witness :
  ∃ fuel heard turns st,
    find_loop crc32c_table_free Debug ex_draw min false fuel (λ _, (0%nat, no_answer))
      (find_start ex_router [ex_peer]) = Ret st ∧
    tasks st = [] ∧ reached crc32c_table_free Debug ex_draw min false ex_router [ex_peer] heard turns st ∧
    (turns ≤ 1 + length (seen st))%nat ∧ Z.of_nat (length (seen st)) ≤ 2 ^ 160.
Proof.
  eapply (find_returns crc32c_table_free Debug ex_draw min false); [done | exact ex_router_ok | | done].
  repeat constructor; apply ex_peer_v4.
Defined.

(** The state after the first turn of a search from these nodes *)
Definition after_start (nodes : list NodeInfo) : FindState :=
  handle_result crc32c_table_free ex_draw min (mkFind ex_router ∅ [] ∅ []) (FoundSome nodes).

Lemma find_closest_witness :
  ∃ ns, found_nodes (find_finish 8 (after_start [ex_peer])) = Ret ns ∧
    StronglySorted (λ a b, far min a < far min b) ns ∧ NoDup (ids ns) ∧ (length ns ≤ 8)%nat ∧
    (∀ m, m ∈ ns → m ∈ [ex_peer] ∧ m ∉ ignore (after_start [ex_peer])) ∧
    ((size (ignore (after_start [ex_peer])) + 8 ≤ 17)%nat → ∀ x, x ∈ [ex_peer] →
       id x ∈ ids ns ∨ (∃ m, m ∈ ignore (after_start [ex_peer]) ∧ id m = id x) ∨
       length ns = 8%nat ∧ ∀ m, m ∈ ns → far min m < far min x).
Proof.
  apply (find_closest crc32c_table_free Debug ex_draw min false ex_router [ex_peer] [ex_peer] 1
    (after_start [ex_peer]) 8); [done | repeat constructor; apply ex_peer_v4 | | done].
  apply (reached_step crc32c_table_free Debug ex_draw min false ex_router [ex_peer] [] 0
    (find_start ex_router [ex_peer]) 0 no_answer (FoundSome [ex_peer])); [constructor | done | reflexivity].
Defined.

(** A node whose identifier does not belong to its address is never asked, but it
    is kept among the nodes seen and returned all the same. *)
Theorem invalid_node_returned :
  ∃ n st, valid crc32c_table_free ex_draw n = false ∧
    find_loop crc32c_table_free Debug ex_draw min false 1 (λ _, (0%nat, no_answer))
      (find_start ex_router [n]) = Ret st ∧
    tasks st = [] ∧ find_finish 8 st = KClosest [n].
Proof.
  exists (ex_node 1 2), (after_start [ex_node 1 2]).
  split; [by vm_compute |]. split; [vm_compute; reflexivity |]. split; vm_compute; reflexivity.
Qed.
