(* ===== verification/Sweep.v ===== *)
(** * Sweeping the key space

    [src/node.rs], [Node::infohash_sweep]: a walk over the identifiers from low to
    high that asks every node it hears of, once, for samples of the hashes it
    stores, with 200 queries under way at first and a search in the background
    where it finds a large gap. *)

From S2P Require Import Prelude Text Externals Net U160 NodeInfo Bucket Wire Format BucketSerde.
From S2P Require Import Router Token Kmsg Message Service Messenger Server Node.

(** The constants of the code, read from their hexadecimal text *)
Definition next_highest : U160 := new 0x000007ffffffffffffffffffffffffff 0xffffffff.
Definition large_gap_size : U160 := new 0x00003fffffffffffffffffffffffffff 0xffffffff.
Definition travellers : nat := 200.

(** The local variables: [queried] and [to_send] (a [BTreeSet<NodeInfo>], here in
    its order), the running tasks by their node, what was sent on [tx], and the
    target of the backfill that has not finished, if there is one. [asked]
    records every node a task was made for; the code does not keep it. *)
Record SweepState : Type := mkSweep {
  queried : gset U160;
  to_send : list NodeInfo;
  running : list NodeInfo;
  sent : list U160;
  backfill : option U160;
  asked : list NodeInfo;
}.

(** ** One query *)

(** The two queries of [query_one] *)
Definition sample_query {D} (self : Server D) (n : NodeInfo) : Query :=
  (build_query self (node_receiver n) (SampleInfohashes (bitor (id n) next_highest))).1.
Definition fallback_query {D} (self : Server D) (n : NodeInfo) : Query :=
  (build_query self (node_receiver n) (FindNode (bitor (id n) next_highest))).1.

(** What [query_one] returns, from the results of its queries; the second is made
    only when the first brought no samples. *)
Definition query_one (n : NodeInfo) (sample fallback : QueryResult)
    : U160 * list NodeInfo * option (list U160) :=
  match sample with
  | Ok (mkResponseMsg (Samples nodes samples _ _) _) => (id n, nodes, Some samples)
  | _ =>
      match fallback with
      | Ok (mkResponseMsg (KNearest nodes _) _) => (id n, nodes, None)
      | _ => (id n, [], None)
      end
  end.

(** ** The queue *)

Definition node_insert (n : NodeInfo) (l : list NodeInfo) : list NodeInfo * bool :=
  btree_insert node_cmp n l.

(** [add_to_send_queue] *)
Definition enqueue (target : U160) (st : SweepState) (n : NodeInfo) : SweepState :=
  if u160_ltb target (id n) then
    if decide (id n ∈ queried st) then st
    else mkSweep ({[id n]} ∪ queried st) (node_insert n (to_send st)).1 (running st) (sent st)
           (backfill st) (asked st)
  else st.
Definition add_to_send_queue (target : U160) (nodes : list NodeInfo) (st : SweepState) : SweepState :=
  foldl (enqueue target) st nodes.

(** [query_next!] *)
Definition query_next (st : SweepState) : SweepState :=
  match to_send st with
  | [] => st
  | n :: rest => mkSweep (queried st) rest (running st ++ [n]) (sent st) (backfill st) (asked st ++ [n])
  end.

(** One of the nodes found at either end of the key space *)
Definition seed (st : SweepState) (n : NodeInfo) : SweepState :=
  mkSweep ({[id n]} ∪ queried st) (node_insert n (to_send st)).1 (running st) (sent st) (backfill st) (asked st).

(** Up to the loop: [low] and [high] are what the two searches found. *)
Definition sweep_start (low high : list NodeInfo) : SweepState :=
  Nat.iter travellers query_next (foldl seed (mkSweep ∅ [] [] [] None []) (low ++ high)).

(** ** The loop *)

Definition large_gap (target : U160) (st : SweepState) : bool :=
  match to_send st with
  | [] => false
  | q :: _ => u160_ltb large_gap_size (distance (id q) target)
  end.

(** One turn, for the task at [i] *)
Definition sweep_result (i : nat) (sample fallback : QueryResult) (st : SweepState) : option SweepState :=
  n ← running st !! i;
  let '(target, nodes, samples) := query_one n sample fallback in
  let st := mkSweep (queried st) (to_send st) (delete i (running st)) (sent st ++ default [] samples)
              (backfill st) (asked st) in
  let st :=
    match nodes with
    | [] =>
        if large_gap target st && bool_decide (backfill st = None) then
          mkSweep (queried st) (to_send st) (running st) (sent st) (Some target) (asked st)
        else st
    | _ => add_to_send_queue target nodes st
    end in
  Some (query_next st).

(** The backfill finishes with the nodes its search found. *)
Definition sweep_backfilled (nodes : list NodeInfo) (st : SweepState) : option SweepState :=
  target ← backfill st;
  let st := add_to_send_queue target nodes st in
  Some (mkSweep (queried st) (to_send st) (running st) (sent st) None (asked st)).

Inductive sweep_event : Type :=
  | Result (i : nat) (sample fallback : QueryResult)
  | Backfilled (nodes : list NodeInfo).

Definition sweep_step (st : SweepState) (e : sweep_event) : option SweepState :=
  match e with
  | Result i sample fallback => sweep_result i sample fallback st
  | Backfilled nodes => sweep_backfilled nodes st
  end.

Fixpoint sweep_run (es : list sweep_event) (st : SweepState) : option SweepState :=
  match es with
  | [] => Some st
  | e :: es => st' ← sweep_step st e; sweep_run es st'
  end.

Lemma sweep_constants :
  next_highest = new (Z.ones 107) (Z.ones 32) ∧ large_gap_size = new (Z.ones 110) (Z.ones 32).
Proof. by split. Qed.

(** ** The queue in order *)

Definition lower (a b : NodeInfo) : Prop := value (id a) < value (id b).
Definition id_ok (n : NodeInfo) : Prop := u160_ok (id n).

Lemma sock_cmp_refl a : sock_cmp a a = Eq.
Proof. destruct a; simpl; by rewrite !Z.compare_refl. Qed.

(** [node_cmp] follows the identifiers where they differ. *)
Lemma node_cmp_value a b :
  id_ok a → id_ok b →
  node_cmp a b = match value (id a) ?= value (id b) with Eq => sock_cmp (addr a) (addr b) | c => c end.
Proof. intros. unfold node_cmp. by rewrite u160_cmp_value. Qed.

Lemma node_insert_lower n l :
  id_ok n → Forall id_ok l → StronglySorted lower l → (id n ∈ ids l → n ∈ l) →
  StronglySorted lower (node_insert n l).1 ∧
  (node_insert n l).1 ≡ₚ (if decide (id n ∈ ids l) then l else n :: l).
Proof.
  intros Hn Hl Hs Hin. unfold node_insert.
  destruct (btree_insert node_cmp n l) as [l' fresh] eqn:E. cbn [fst].
  pose proof (btree_insert_perm _ _ _ _ _ E) as Hp.
  assert (StronglySorted lower l' ∧ fresh = negb (bool_decide (id n ∈ ids l))) as [Hs' ->].
  { clear Hp. revert l' fresh E. induction Hs as [|x l Hs IH Hx]; intros l' fresh; simpl.
    { intros [= <- <-]. split; [by repeat constructor | done]. }
    apply Forall_cons in Hl as [Hxo Hl]. rewrite node_cmp_value by done.
    assert (Hrest : ∀ y, y ∈ l → value (id x) < value (id y)).
    { intros y Hy. rewrite Forall_forall in Hx. by apply Hx. }
    destruct (Z.compare_spec (value (id n)) (value (id x))) as [Heq|Hlt|Hgt].
    - assert (Hid : id n = id x) by by apply value_inj.
      assert (n = x) as ->.
      { assert (n ∈ x :: l) as [?|Hy]%elem_of_cons; [| done |].
        - apply Hin. unfold ids. rewrite fmap_cons, Hid. apply list_elem_of_here.
        - specialize (Hrest n Hy). lia. }
      rewrite sock_cmp_refl. intros [= <- <-]. split; [by constructor |].
      rewrite bool_decide_eq_true_2; [done |]. apply list_elem_of_here.
    - intros [= <- <-]. split.
      + constructor; [by constructor |]. constructor; [done |].
        apply Forall_forall. intros y Hy. specialize (Hrest y Hy). unfold lower. lia.
      + rewrite bool_decide_eq_false_2; [done |]. intros [Hy|(y & Hy & Hyin)%elem_of_ids]%elem_of_cons.
        { rewrite Hy in Hlt. lia. }
        specialize (Hrest y Hyin). rewrite Hy in Hrest. lia.
    - destruct (btree_insert node_cmp n l) as [l'' f] eqn:E. intros [= <- <-].
      assert (Hne : id n ≠ id x) by (intros E'; rewrite E' in Hgt; lia).
      destruct (IH Hl) with (l' := l'') (fresh := f) as [IH1 ->]; [| done |].
      { intros Hn'. assert (n ∈ x :: l) as [->|?]%elem_of_cons; [| done | done].
        apply Hin. by right. }
      split.
      + constructor; [done |]. apply Forall_forall. intros y Hy.
        apply (btree_insert_elem _ _ _ _ _ _ E) in Hy as [Hy|[_ ->]]; [by apply Hrest | done].
      + f_equal. apply bool_decide_ext. rewrite elem_of_cons. naive_solver. }
  split; [done |]. rewrite Hp. case_bool_decide; [by rewrite decide_True | by rewrite decide_False].
Qed.

(** ** The invariant of the walk *)

(** After [turns] results, with the nodes [h] heard of: the nodes asked and waiting
    have distinct identifiers, all of them in [queried]; the waiting ones are in
    order; of the asked ones [turns] are answered and the others running. *)
Record sweep_inv (h : list NodeInfo) (turns : nat) (st : SweepState) : Prop := {
  sw_nodup : NoDup (ids (asked st ++ to_send st));
  sw_queried : ∀ x, x ∈ ids (asked st ++ to_send st) → x ∈ queried st;
  sw_heard : Forall (λ n, id_ok n ∧ n ∈ h) (asked st ++ to_send st);
  sw_sorted : StronglySorted lower (to_send st);
  sw_running : ∃ answered, asked st ≡ₚ answered ++ running st ∧ length answered = turns;
}.

Lemma sweep_inv_heard h h' t st : (∀ n, n ∈ h → n ∈ h') → sweep_inv h t st → sweep_inv h' t st.
Proof.
  intros Hh [? ? Hok ? ?]. split; try done. eapply Forall_impl; [exact Hok |]. naive_solver.
Qed.

(** A node that enters the queue, with its identifier entered in [queried] *)
Lemma insert_inv h t st n :
  sweep_inv h t st → id_ok n → n ∈ h → (id n ∈ ids (asked st ++ to_send st) → n ∈ to_send st) →
  sweep_inv h t (mkSweep ({[id n]} ∪ queried st) (node_insert n (to_send st)).1 (running st) (sent st)
                   (backfill st) (asked st)).
Proof.
  intros [Hnd Hq Hok Hs Hr] Hn Hin Hold.
  pose proof Hok as Hok'. apply Forall_app in Hok' as [Hoka Hoks].
  destruct (node_insert_lower n (to_send st) Hn) as [Hs' Hp]; [| done | |].
  { eapply Forall_impl; [exact Hoks |]. naive_solver. }
  { intros Hn'. apply Hold. rewrite ids_app. apply elem_of_app. by right. }
  split; cbn [asked to_send queried running]; [| | | done | done].
  - rewrite ids_app in *. rewrite (ids_perm _ _ Hp). case_decide as Hd; [done |].
    change (ids (n :: to_send st)) with (id n :: ids (to_send st)).
    rewrite <- Permutation_middle. apply NoDup_cons. split; [| done].
    intros Hn'. apply Hd. specialize (Hold Hn'). apply elem_of_ids. eauto.
  - intros x. rewrite ids_app, elem_of_app. rewrite (ids_perm _ _ Hp). intros Hx.
    assert (x = id n ∨ x ∈ ids (asked st ++ to_send st)) as [->|Hx']; [| set_solver |].
    + rewrite ids_app, elem_of_app. case_decide; [tauto |].
      change (ids (n :: to_send st)) with (id n :: ids (to_send st)) in Hx. rewrite elem_of_cons in Hx. tauto.
    + apply Hq in Hx'. set_solver.
  - apply Forall_app. split; [done |]. rewrite Hp. case_decide; [done |]. by constructor.
Qed.

Lemma enqueue_inv h t st target n :
  sweep_inv h t st → id_ok n → n ∈ h → sweep_inv h t (enqueue target st n).
Proof.
  intros Hst Hn Hin. unfold enqueue. destruct (u160_ltb _ _); [| done]. case_decide as Hq; [done |].
  apply insert_inv; [done.. |]. intros Hid. by apply (sw_queried _ _ _ Hst) in Hid.
Qed.

Lemma enqueue_frame target st n :
  running (enqueue target st n) = running st ∧ sent (enqueue target st n) = sent st ∧
  backfill (enqueue target st n) = backfill st ∧ asked (enqueue target st n) = asked st.
Proof. unfold enqueue. destruct (u160_ltb _ _); [| done]. by case_decide. Qed.

Lemma add_to_send_queue_inv h t st target ns :
  sweep_inv h t st → Forall id_ok ns → (∀ n, n ∈ ns → n ∈ h) →
  sweep_inv h t (add_to_send_queue target ns st).
Proof.
  unfold add_to_send_queue. intros Hst Hok Hin. revert st Hst.
  induction Hok as [|n ns Hn Hok IH]; intros st Hst; [done |]. simpl.
  apply IH; [set_solver |]. apply enqueue_inv; [done | done | set_solver].
Qed.

Lemma add_to_send_queue_frame target ns st :
  running (add_to_send_queue target ns st) = running st ∧ sent (add_to_send_queue target ns st) = sent st ∧
  backfill (add_to_send_queue target ns st) = backfill st.
Proof.
  unfold add_to_send_queue. revert st. induction ns as [|n ns IH]; intros st; [done |]. simpl.
  destruct (IH (enqueue target st n)) as (-> & -> & ->).
  by destruct (enqueue_frame target st n) as (-> & -> & -> & _).
Qed.

Lemma query_next_inv h t st : sweep_inv h t st → sweep_inv h t (query_next st).
Proof.
  intros [Hnd Hq Hok Hs (ans & Hp & Hlen)]. unfold query_next.
  destruct (to_send st) as [|n rest] eqn:E; [by split; rewrite ?E; eauto |].
  assert (Heq : (asked st ++ [n]) ++ rest = asked st ++ n :: rest) by by rewrite <- app_assoc.
  split; cbn [asked to_send queried running]; rewrite ?Heq; [done | done | done | |].
  - by apply StronglySorted_inv in Hs as [? _].
  - exists ans. split; [| done]. by rewrite Hp, <- app_assoc.
Qed.

Lemma query_next_width st :
  (length (running (query_next st)) ≤ S (length (running st)))%nat ∧ sent (query_next st) = sent st ∧
  backfill (query_next st) = backfill st.
Proof. unfold query_next. destruct (to_send st); simpl; rewrite ?length_app; simpl; split_and!; auto; lia. Qed.

(** ** The start *)

Definition consistent (l : list NodeInfo) : Prop := ∀ a b, a ∈ l → b ∈ l → id a = id b → a = b.

Lemma seed_all_inv h st l :
  consistent h → Forall id_ok l → (∀ n, n ∈ l → n ∈ h) → sweep_inv h 0 st → asked st = [] →
  let st' := foldl seed st l in
  sweep_inv h 0 st' ∧ asked st' = [] ∧ running st' = running st ∧ sent st' = sent st ∧ backfill st' = backfill st.
Proof.
  intros Hc Hok Hin. revert st. induction Hok as [|n l Hn Hok IH]; intros st Hst Ha; [done |]. simpl.
  destruct (IH ltac:(set_solver) (seed st n)) as (? & ? & -> & -> & ->); [| done | by split_and!].
  apply (insert_inv h 0 st n); [done | done | apply Hin, list_elem_of_here |]. rewrite Ha. simpl. intros (m & Hm & Hmin)%elem_of_ids.
  assert (m = n) as <-; [| done]. apply Hc; [| set_solver | done].
  pose proof (sw_heard _ _ _ Hst) as Hh. rewrite Ha in Hh. simpl in Hh. rewrite Forall_forall in Hh.
  by apply Hh.
Qed.

Lemma iter_query_next_inv h k st :
  sweep_inv h 0 st →
  sweep_inv h 0 (Nat.iter k query_next st) ∧
  (length (running (Nat.iter k query_next st)) ≤ k + length (running st))%nat ∧
  sent (Nat.iter k query_next st) = sent st ∧ backfill (Nat.iter k query_next st) = backfill st.
Proof.
  intros Hst. induction k as [|k (IH1 & IH2 & IH3 & IH4)]; [split_and!; try done; simpl; lia |]. simpl.
  destruct (query_next_width (Nat.iter k query_next st)) as (Hw & -> & ->).
  split_and!; [by apply query_next_inv | lia | done | done].
Qed.

Lemma sweep_start_inv low high :
  consistent (low ++ high) → Forall id_ok (low ++ high) →
  sweep_inv (low ++ high) 0 (sweep_start low high) ∧
  (length (running (sweep_start low high)) ≤ travellers)%nat ∧
  sent (sweep_start low high) = [] ∧ backfill (sweep_start low high) = None.
Proof.
  intros Hc Hok. unfold sweep_start. generalize travellers as k. intros k.
  destruct (seed_all_inv (low ++ high) (mkSweep ∅ [] [] [] None []) (low ++ high) Hc Hok)
    as (Hinv & _ & Hr & Hs & Hb); [done | | done |].
  { split; simpl; [constructor | intros x Hx; by apply not_elem_of_nil in Hx | constructor | constructor |].
    by exists []. }
  destruct (iter_query_next_inv _ k _ Hinv) as (? & Hw & Hsent & Hback).
  split_and!; [done | | by rewrite Hsent | by rewrite Hback].
  assert (Hr0 : length (running (foldl seed (mkSweep ∅ [] [] [] None []) (low ++ high))) = 0%nat) by by rewrite Hr.
  rewrite Hr0, Nat.add_0_r in Hw. exact Hw.
Qed.

(** ** A step *)

(** The nodes and samples of an answer, which [query_one] passes on *)
Definition nobody : NodeInfo := mkNodeInfo min (SocketV4 [0; 0; 0; 0] 0).
Definition answer_nodes (sample fallback : QueryResult) : list NodeInfo :=
  (query_one nobody sample fallback).1.2.
Definition answer_samples (sample fallback : QueryResult) : list U160 :=
  default [] (query_one nobody sample fallback).2.

Lemma query_one_answer n sample fallback :
  ∃ s, query_one n sample fallback = (id n, answer_nodes sample fallback, s) ∧
       default [] s = answer_samples sample fallback.
Proof.
  unfold answer_nodes, answer_samples. destruct sample as [[[] b]|e], fallback as [[[] b']|e'];
    by eexists.
Qed.

Definition event_nodes (e : sweep_event) : list NodeInfo :=
  match e with Result _ sample fallback => answer_nodes sample fallback | Backfilled nodes => nodes end.
Definition event_samples (e : sweep_event) : list U160 :=
  match e with Result _ sample fallback => answer_samples sample fallback | Backfilled _ => [] end.
Definition is_result (e : sweep_event) : bool :=
  match e with Result _ _ _ => true | Backfilled _ => false end.

Lemma sweep_step_inv h t st e st' :
  sweep_inv h t st → Forall id_ok (event_nodes e) → sweep_step st e = Some st' →
  sweep_inv (h ++ event_nodes e) (t + count (is_result e)) st' ∧
  (length (running st') ≤ length (running st))%nat ∧ sent st' = sent st ++ event_samples e.
Proof.
  intros Hst Hok He.
  assert (Hst' : sweep_inv (h ++ event_nodes e) t st).
  { eapply sweep_inv_heard; [| exact Hst]. set_solver. }
  destruct e as [i sample fallback|nodes]; cbn [sweep_step event_nodes event_samples is_result count] in *.
  - unfold sweep_result in He. destruct (running st !! i) as [n|] eqn:Hi; [| done].
    destruct (query_one_answer n sample fallback) as (s & Hq & Hs).
    cbn [mbind option_bind] in He. rewrite Hq in He. injection He as <-.
    set (ns := answer_nodes sample fallback) in *. rewrite Hs.
    set (st1 := mkSweep (queried st) (to_send st) (delete i (running st))
      (sent st ++ answer_samples sample fallback) (backfill st) (asked st)).
    assert (Hst1 : sweep_inv (h ++ ns) (t + 1) st1).
    { destruct Hst' as [? ? ? ? (ans & Hp & Hlen)]. split; try done. exists (ans ++ [n]).
      split; [| rewrite length_app; simpl; lia]. cbn [asked running st1].
      rewrite Hp, (delete_Permutation _ _ _ Hi) at 1. by rewrite <- app_assoc. }
    assert (Hlen1 : S (length (running st1)) = length (running st)).
    { cbn [running st1]. rewrite length_delete by by eexists. apply lookup_lt_Some in Hi. lia. }
    set (st2 := match ns with [] => _ | _ => _ end).
    assert (sweep_inv (h ++ ns) (t + 1) st2 ∧ running st2 = running st1 ∧ sent st2 = sent st1)
      as (Hst2 & Hr2 & Hs2).
    { unfold st2. clearbody ns. clear st2. destruct ns as [|x ns'].
      - destruct (_ && _); [| done]. split; [| done]. by destruct Hst1.
      - destruct (add_to_send_queue_frame (id n) (x :: ns') st1) as (Hf1 & Hf2 & _). split; [| done].
        apply add_to_send_queue_inv; [done | done |]. set_solver. }
    destruct (query_next_width st2) as (Hw & -> & _). rewrite Hr2 in Hw.
    split_and!; [by apply query_next_inv | lia | by rewrite Hs2].
  - unfold sweep_backfilled in He. destruct (backfill st) as [target|]; [| done].
    cbn [mbind option_bind] in He. injection He as <-.
    destruct (add_to_send_queue_frame target nodes st) as (Hf1 & Hf2 & _).
    rewrite Nat.add_0_r, app_nil_r. cbn [running sent]. split_and!; [| by rewrite Hf1 | done].
    assert (Hq : sweep_inv (h ++ nodes) t (add_to_send_queue target nodes st)).
    { apply add_to_send_queue_inv; [done | done |]. set_solver. }
    by destruct Hq.
Qed.

Lemma sweep_run_inv h t st es st' :
  sweep_inv h t st → Forall (λ e, Forall id_ok (event_nodes e)) es → sweep_run es st = Some st' →
  sweep_inv (h ++ concat (event_nodes <$> es)) (t + length (filter (λ e, is_result e = true) es)) st' ∧
  (length (running st') ≤ length (running st))%nat ∧ sent st' = sent st ++ concat (event_samples <$> es).
Proof.
  intros Hst Hes. revert h t st Hst. induction Hes as [|e es He Hes IH]; intros h t st Hst Hrun; simpl in Hrun.
  - injection Hrun as <-. simpl. rewrite !app_nil_r, Nat.add_0_r. done.
  - apply bind_Some in Hrun as (st1 & H1 & H2).
    destruct (sweep_step_inv h t st e st1 Hst He H1) as (Hinv1 & Hlen1 & Hsent1).
    destruct (IH _ _ _ Hinv1 H2) as (Hinv2 & Hlen2 & Hsent2).
    rewrite !fmap_cons. cbn [concat]. rewrite filter_cons.
    split_and!; [| lia | by rewrite Hsent2, Hsent1, <- app_assoc].
    rewrite <- app_assoc in Hinv2. destruct (is_result e); cbn [count] in Hinv2.
    + rewrite decide_True by done. simpl length. by rewrite <- Nat.add_assoc in Hinv2.
    + rewrite decide_False by done. by rewrite Nat.add_0_r in Hinv2.
Qed.

(** Distinct identifiers are at most 2^160. *)
Lemma nodup_ids_bound l : NoDup (ids l) → Forall id_ok l → Z.of_nat (length l) ≤ 2 ^ 160.
Proof.
  intros Hn Hok. rewrite <- (Z2Nat.id (2 ^ 160)) by lia. apply Nat2Z.inj_le.
  assert (Hlt : ∀ n, id_ok n → (Z.to_nat (value (id n)) < Z.to_nat (2 ^ 160))%nat).
  { intros n [??]%value_in_width. by apply Z2Nat.inj_lt. }
  revert Hlt. generalize (Z.to_nat (2 ^ 160)) as m. intros m Hlt.
  rewrite <- (length_fmap (λ n, Z.to_nat (value (id n))) l), <- (length_seq m 0).
  apply submseteq_length, NoDup_submseteq.
  - clear Hlt. induction Hok as [|n l Hno Hok IH]; [constructor |].
    apply NoDup_cons in Hn as [Hnin Hn]. rewrite fmap_cons. apply NoDup_cons. split; [| by apply IH].
    intros (k & Hk & Hkin)%list_elem_of_fmap. apply Hnin, elem_of_ids. exists k. split; [| done].
    rewrite Forall_forall in Hok. pose proof (Hok k Hkin) as Hko.
    destruct (value_in_width _ Hno) as [? _], (value_in_width _ Hko) as [? _].
    apply value_inj; [done | done |]. by apply Z2Nat.inj.
  - intros x (n & -> & Hin)%list_elem_of_fmap. apply elem_of_seq. rewrite Forall_forall in Hok.
    specialize (Hlt n (Hok n Hin)). lia.
Qed.

(** ** Properties *)


Definition ex_sweep_node (ms : Z) : NodeInfo := mkNodeInfo (new ms 0) (ex_remote 3).
Definition ex_nearest (ns : list NodeInfo) : QueryResult :=
  Ok (mkResponseMsg (KNearest ns None) (response_base ex_server [0; 0] ReceiverMe)).
Definition ex_sweep_start : SweepState := sweep_start [ex_sweep_node 1] [ex_sweep_node 2].

(** The first answer brings two nodes, the others nothing. *)
Definition ex_sweep_events : list sweep_event :=
  [Result 0 no_answer (ex_nearest [ex_sweep_node (2 ^ 126); ex_sweep_node (2 ^ 127)]);
   Result 0 no_answer no_answer; Result 0 no_answer no_answer; Result 0 no_answer no_answer].
Definition ex_sweep_end : SweepState := default ex_sweep_start (sweep_run ex_sweep_events ex_sweep_start).

Lemma ex_sweep_nodes : Forall id_ok (ex_sweep_node <$> [1; 2; 3; 2 ^ 126; 2 ^ 127]).
Proof. repeat constructor; vm_compute; by repeat split. Qed.


(** The walk can end while a backfill is still searching: when the last running
    task finishes and nothing waits, the loop is left, and the nodes the
    backfill then adds to the queue are never asked. *)
Theorem sweep_ends_during_backfill :
  ∃ low high es st z st',
    sweep_run es (sweep_start low high) = Some st ∧ running st = [] ∧ backfill st ≠ None ∧
    sweep_step st (Backfilled [z]) = Some st' ∧ to_send st' = [z] ∧ z ∉ asked st' ∧
    ∀ e, sweep_step st' e = None.
Proof.
  exists [ex_sweep_node 1], [ex_sweep_node 2], ex_sweep_events, ex_sweep_end, (ex_sweep_node 3),
    (default ex_sweep_end (sweep_step ex_sweep_end (Backfilled [ex_sweep_node 3]))).
  split; [vm_compute; reflexivity |]. split; [vm_compute; reflexivity |].
  split; [by vm_compute |]. split; [vm_compute; reflexivity |]. split; [vm_compute; reflexivity |].
  split; [refine (bool_decide_unpack _ _); vm_compute; exact I |].
  intros [i sample fallback|nodes]; [| by vm_compute].
  cbn [sweep_step]. unfold sweep_result. set (st := default _ _).
  assert (running st = []) as -> by (vm_compute; reflexivity). done.
Qed.
