(* ===== verification/Start.v ===== *)
(** * Starting a node and joining the network

    [src/node.rs], [Node::new] and [Node::bootstrap]: how the parts are put
    together, and the first search of a node. Opening the store and the socket,
    the random draws and the saved table are what they turn out to be; the
    queries of [bootstrap] are answered as the network pleases. *)

From S2P Require Import Prelude Text Externals Net U160 NodeInfo Bucket Wire Format BucketSerde.
From S2P Require Import Router Token Kmsg Message Service Messenger Server Node.

Definition MAX_CONCURRENCY : nat := 8.

Inductive start_error : Type := OpenDb | BindAddress.

(** What [Node::new] finds outside: the store, the table file, the socket, the key
    of the token generator and the draws of the identifier *)
Record Outside (D : Type) : Type := mkOutside {
  o_store : result D unit;
  o_file : option (list Z);
  o_bound : result unit unit;
  o_key : list Z;
  o_draws : Z * Z * Z;
}.
Arguments mkOutside {D}.
Arguments o_store {D}.
Arguments o_file {D}.
Arguments o_bound {D}.
Arguments o_key {D}.
Arguments o_draws {D}.

(** [struct Node] *)
Record Node (D : Type) : Type := mkNode { n_service : ServiceState; n_server : Server D }.
Arguments mkNode {D}.
Arguments n_service {D}.
Arguments n_server {D}.

Section Start.
Context {D : Type} (crc32c : list Z → Z) (from_slice : list Z → option sval) (p : profile).

(** [Node::new] *)
Definition node_new (w : Outside D) (addr : SocketAddr) (read_only : bool) (public_ip : IpAddr)
    : run (result (Node D) start_error) :=
  match o_store w with
  | Err _ => Ret (Err OpenDb)
  | Ok db =>
      let '(r, ms, ls) := o_draws w in
      let me := from_addr crc32c (socket_addr public_ip (sock_port addr)) r ms ls in
      let! router := router_new from_slice p (o_file w) me in
      let server := mkServer router 0 read_only me db (mkTokenGenerator (o_key w)) in
      match o_bound w with
      | Err _ => Ret (Err BindAddress)
      | Ok _ => Ret (Ok (mkNode (service_new (negb read_only) MAX_CONCURRENCY) server))
      end
  end.

(** The random words that validating a node draws *)
Context (draw : NodeInfo → Z * Z).

(** [find] and its callers, with the router they leave *)
Definition find (fuel : nat) (schedule : nat → nat * QueryResult) (r : Router) (target : U160)
    (find_peers : bool) (k : Z) : run (Found * Router) :=
  let! nodes := router_lookup p r target in
  find_n_starting_at crc32c p draw target find_peers fuel schedule r k nodes.

Definition find_n_nodes (fuel : nat) (schedule : nat → nat * QueryResult) (r : Router) (target : U160) (n : Z)
    : run (list NodeInfo * Router) :=
  let! (found, r) := find fuel schedule r target false n in
  let! ns := found_nodes found in
  Ret (ns, r).

Definition find_nodes (fuel : nat) (schedule : nat → nat * QueryResult) (r : Router) (target : U160)
    : run (list NodeInfo * Router) :=
  find_n_nodes fuel schedule r target K_SIZE.

Definition find_n_nodes_starting_at (fuel : nat) (schedule : nat → nat * QueryResult) (r : Router) (target : U160)
    (n : Z) (nodes : list NodeInfo) : run (list NodeInfo * Router) :=
  let! (found, r) := find_n_starting_at crc32c p draw target false fuel schedule r n nodes in
  let! ns := found_nodes found in
  Ret (ns, r).

Definition find_peers (fuel : nat) (schedule : nat → nat * QueryResult) (r : Router) (target : U160)
    : run (Found * Router) :=
  find fuel schedule r target true K_SIZE.

(** The query of [bootstrap] *)
Definition bootstrap_query (s : Server D) (bootstrap_node : SocketAddr) : Query * Server D :=
  build_query s (ReceiverAddr bootstrap_node) Ping.

(** [Node::bootstrap], from the result of its query: what it reports having found,
    and the router it leaves *)
Definition bootstrap (fuel : nat) (schedule : nat → nat * QueryResult) (r : Router) (ping : QueryResult)
    : run (result (list NodeInfo) Message.Error * Router) :=
  match ping with
  | Err e => Ret (Err e, r)
  | Ok response =>
      let! r := router_add p r (sender_node (origin (resp_base response))) in
      let! (found, r) := find_nodes fuel schedule r (router_own_id r) in
      Ret (Ok found, r)
  end.
End Start.

(** ** What a search leaves in the router *)

(** A router with our identifier whose table has IPv4 nodes only: what the
    server needs of it. *)
Definition router_v4 (own : U160) (k : Z) (r : Router) : Prop :=
  (∃ h, router_ok own k h r) ∧ Forall node_v4 (all_nodes (buckets r)).

(** An answer with the ranges of its types, from an IPv4 address *)
Definition answer_v4 (response : QueryResult) : Prop :=
  answer_ok response ∧
  match response with Ok r => is_v4 (addr (sender_node (origin (resp_base r)))) | Err _ => True end.

Lemma router_v4_own own k r : router_v4 own k r → router_own_id r = own ∧ u160_ok own.
Proof.
  intros [(h & [(Ho & _ & Hb) _ _]) _]. split; [| done]. unfold router_own_id.
  revert Hb. generalize 0, (buckets r). by intros i b [].
Qed.

Lemma router_v4_add p own k r node :
  router_v4 own k r → node_v4 node →
  ∃ r', router_add p r node = Ret r' ∧ router_v4 own k r'.
Proof.
  intros [[h Hr] Hv] Hn. destruct (router_add_ok p own k h r node Hr (proj1 Hn)) as (r' & E & Hr').
  exists r'. split; [done |]. split; [by exists h |]. rewrite Forall_forall in *. intros n Hin.
  destruct (router_add_incl p own k h r node r' n Hr (proj1 Hn) E Hin) as [?| ->]; auto.
Qed.

Lemma router_v4_ban own k r x :
  router_v4 own k r → ∃ r', ban_id r x = Ret r' ∧ router_v4 own k r'.
Proof.
  intros [[h Hr] Hv]. destruct (ban_id_ok own k h r x Hr) as (r' & E & Hr').
  exists r'. split; [done |]. split; [by eexists |]. unfold ban_id in E.
  destruct (remove_table own k (buckets r) x (router_table _ _ _ _ Hr)) as (b & removed & Eb & _ & Hpost & _).
  rewrite Eb in E. cbn [run_bind] in E. injection E as <-. cbn [buckets].
  destruct removed; cbn [remove_post] in Hpost.
  - destruct Hpost as (n & _ & Hp). rewrite Hp in Hv. by apply Forall_cons in Hv as [_ ?].
  - by destruct Hpost as [_ ->].
Qed.

Lemma router_v4_nodes own k r : router_v4 own k r → Forall node_ok (all_nodes (buckets r)).
Proof. intros [_ Hv]. eapply Forall_impl; [exact Hv |]. by intros n []. Qed.

Section Search.
Context (crc32c : list Z → Z) (p : profile) (draw : NodeInfo → Z * Z).
Context (own : U160) (k : Z) (target : U160) (find_peers : bool).

Lemma send_find_v4 r to response res r' :
  router_v4 own k r → answer_v4 response → send_find p find_peers r to response = Ret (res, r') →
  router_v4 own k r'.
Proof using Type.
  intros Hr [Hok Hv4]. unfold send_find. destruct response as [resp|e].
  - destruct (router_v4_add p own k r (sender_node (origin (resp_base resp))) Hr) as (r1 & -> & Hr1);
      [split; [apply Hok | done] |]. cbn [run_bind]. by intros [= _ <-].
  - destruct (router_v4_ban own k r (id to) Hr) as (r1 & -> & Hr1). cbn [run_bind]. by intros [= _ <-].
Qed.

Lemma find_loop_v4 fuel schedule st st' :
  router_v4 own k (f_router st) → (∀ i, answer_v4 (schedule i).2) →
  find_loop crc32c p draw target find_peers fuel schedule st = Ret st' →
  router_v4 own k (f_router st').
Proof using Type.
  revert schedule st. induction fuel as [|fuel IH]; intros schedule st Hr Hs; cbn [find_loop].
  { destruct (tasks st); [by intros [= <-] | done]. }
  destruct (tasks st) as [|t ts] eqn:Ht; [by intros [= <-] |]. rewrite <- Ht.
  unfold find_step. destruct (tasks st !! _) as [task|]; [| done].
  assert (Hstep : ∀ one r, match task with
      | Initial nodes => Ret (FoundSome nodes, f_router st)
      | Asked to => send_find p find_peers (f_router st) to (schedule 0%nat).2 end = Ret (one, r) →
    router_v4 own k r).
  { destruct task as [ns|to]; intros one r E; [by injection E as _ <- | by eapply send_find_v4]. }
  destruct (match task with Initial _ => _ | Asked _ => _ end) as [[one r]| |]; [| done..].
  cbn [run_bind]. apply IH; [| auto]. clear IH. specialize (Hstep one r eq_refl).
  assert (Hc : ∀ ns st0, f_router (foldl (consider crc32c draw target) st0 ns) = f_router st0).
  { induction ns as [|n ns IHn]; intros st0; [done |]. simpl. rewrite IHn. unfold consider.
    repeat case_match; done. }
  by destruct one; simpl; rewrite ?Hc.
Qed.
End Search.

(** ** Properties *)

Section Properties.
Context {D : Type} {view : D → gmap (list Z) (list Z)} `{Hsled : SledLaw D view}.
Context (crc32c : list Z → Z) (to_vec : sval → list Z) (from_slice : list Z → option sval) (p : profile).

(** The table file a node may find: none, one that is no bencode, or one that
    [save_to_file] wrote for a well-formed table of IPv4 nodes *)
Definition file_ok (file : option (list Z)) : Prop :=
  match file with
  | None => True
  | Some bytes =>
      from_slice bytes = None ∨
      ∃ own k b, table_ok own k b ∧ Forall node_v4 (all_nodes b) ∧ save_to_file to_vec p b = Ret bytes
  end.

Lemma v4_plain b : Forall node_v4 (all_nodes b) → table_plain b.
Proof using Type.
  intros Hb. eapply Forall_impl; [exact Hb |]. intros n [_ Hv]. unfold sock_plain. by destruct (addr n).
Qed.

Lemma router_new_v4 file node :
  ByteFormat to_vec from_slice → file_ok file → u160_ok (id node) →
  ∃ own k r, router_new from_slice p file node = Ret r ∧ router_v4 own k r ∧
    (file = None → own = id node ∧ k = K_SIZE).
Proof using Type.
  intros Hfmt Hfile Hid. unfold router_new.
  assert (Hroot : router_v4 (id node) K_SIZE (mkRouter (root (id node) K_SIZE) [])).
  { split; [| constructor]. exists []. split; [by apply root_ok | done |].
    intros x Hx. by apply not_elem_of_nil in Hx. }
  destruct file as [bytes|]; cbn [load_from_file run_bind]; [| by do 3 eexists].
  destruct Hfile as [Hnone|(own & k & b & Hb & Hv & Hsave)].
  { rewrite Hnone. do 3 eexists. split; [done |]. by split. }
  destruct (load_saved p own k b Hb (v4_plain b Hv)) as (file & Hs & Hl).
  rewrite Hsave in Hs. injection Hs as <-. unfold load_from_file in Hl.
  rewrite Hl. exists own, k, (mkRouter b []). split; [done |]. split; [| done].
  split; [| done]. exists []. split; [done | done |]. intros x Hx. by apply not_elem_of_nil in Hx.
Qed.

Lemma node_new_spec (w : Outside D) addr read_only public_ip r ms ls :
  ByteFormat to_vec from_slice → (∀ l, in_width 32 (crc32c l)) →
  sock_ok (socket_addr public_ip (sock_port addr)) →
  o_draws w = (r, ms, ls) → in_width 8 r → in_width 128 ms → in_width 32 ls →
  (∀ d, o_store w = Ok d → db_ok (view:=view) from_slice d) → file_ok (o_file w) →
  match o_store w, o_bound w with
  | Err _, _ => node_new crc32c from_slice p w addr read_only public_ip = Ret (Err OpenDb)
  | Ok _, Err _ => node_new crc32c from_slice p w addr read_only public_ip = Ret (Err BindAddress)
  | Ok d, Ok _ => ∃ n,
      node_new crc32c from_slice p w addr read_only public_ip = Ret (Ok n) ∧
      n_service n = service_new (negb read_only) MAX_CONCURRENCY ∧
      s_read_only (n_server n) = read_only ∧
      me (n_server n) = from_addr crc32c (socket_addr public_ip (sock_port addr)) r ms ls ∧
      server_ok (view:=view) from_slice (serving (n_server n)) ∧
      (o_file w = None → router_own_id (router (n_server n)) = id (me (n_server n)) ∧
         all_nodes (buckets (router (n_server n))) = [])
  end.
Proof using Type.
  intros Hfmt Hcrc Hsock Hdraws Hr Hms Hls Hdb Hfile. unfold node_new. rewrite Hdraws.
  destruct (o_store w) as [d|] eqn:Hstore; [| done].
  set (me := from_addr crc32c (socket_addr public_ip (sock_port addr)) r ms ls).
  assert (Hid : u160_ok (id me)) by (by apply from_ip_ok).
  destruct (router_new_v4 (o_file w) me Hfmt Hfile Hid) as (own & k & rt & Hrt & Hv & Hnew).
  rewrite Hrt. cbn [run_bind]. destruct (o_bound w); [| done].
  eexists. split; [done |]. cbn [n_service n_server Server.me router s_read_only serving].
  split_and!; [done.. | |].
  - split; cbn; [| apply Hv | by split | by apply Hdb | done].
    destruct Hv as [[h ?] _]. by exists own, k, h.
  - intros Hnone. destruct (Hnew Hnone) as [-> ->]. rewrite Hnone in Hrt. cbn in Hrt. by injection Hrt as <-.
Qed.

(** C34: what [Node::new] sets up, unless the store or the socket cannot be opened:
    an identifier that is valid for the public address whatever a validation
    draws, a service with nothing outstanding and all its permits, which answers
    queries exactly when the node is not read only, and then a server in the
    state that the handlers need, with the saved table if there is one and an
    empty one under the new identifier otherwise. It does not panic on a file
    that [save_to_file] wrote or that is no bencode. *)
Theorem node_new_ok (w : Outside D) addr read_only public_ip r ms ls :
  ByteFormat to_vec from_slice → (∀ l, in_width 32 (crc32c l)) →
  sock_ok (socket_addr public_ip (sock_port addr)) →
  o_draws w = (r, ms, ls) → in_width 8 r → in_width 128 ms → in_width 32 ls →
  (∀ d, o_store w = Ok d → db_ok (view:=view) from_slice d) → file_ok (o_file w) →
  match o_store w, o_bound w with
  | Err _, _ => node_new crc32c from_slice p w addr read_only public_ip = Ret (Err OpenDb)
  | Ok _, Err _ => node_new crc32c from_slice p w addr read_only public_ip = Ret (Err BindAddress)
  | Ok d, Ok _ => ∃ n,
      node_new crc32c from_slice p w addr read_only public_ip = Ret (Ok n) ∧
      service_ok MAX_CONCURRENCY (n_service n) ∧ handler (n_service n) = negb read_only ∧
      (∀ ms' ls', in_width 128 ms' → in_width 32 ls' →
         node_validate crc32c (me (n_server n)) ms' ls' = true) ∧
      (read_only = false → server_ok (view:=view) from_slice (n_server n)) ∧
      (o_file w = None → router_own_id (router (n_server n)) = id (me (n_server n)) ∧
         all_nodes (buckets (router (n_server n))) = [])
  end.
Proof.
  intros Hfmt Hcrc Hsock Hdraws Hr Hms Hls Hdb Hfile.
  pose proof (node_new_spec w addr read_only public_ip r ms ls Hfmt Hcrc Hsock Hdraws Hr Hms Hls Hdb Hfile) as Hspec.
  destruct (o_store w), (o_bound w); try exact Hspec. destruct Hspec as (n & Hn & Hsv & Hro & Hme & Hok & Hnew).
  exists n. rewrite Hsv. split_and!; [done | apply service_new_ok | done | | | exact Hnew].
  - intros ms' ls' ??. rewrite Hme. apply validate_bep42; [done | by apply (from_ip_ok crc32c) | done | done |].
    by apply from_ip_bep42.
  - intros E. rewrite <- Hro in E. unfold serving in Hok. rewrite <- E in Hok. by destruct (n_server n).
Qed.

Lemma find_total draw schedule own k r target fp :
  router_v4 own k r → u160_ok target → (∀ i, answer_v4 (schedule i).2) →
  ∃ fuel ns st heard, router_lookup p r target = Ret ns ∧
    find_loop crc32c p draw target fp fuel schedule (find_start r ns) = Ret st ∧
    find_inv target heard st ∧ router_v4 own k (f_router st) ∧ (fp = false → f_peers st = ∅).
Proof using Type.
  intros Hr Ht Hs. pose proof (proj1 Hr) as [h Hrt].
  destruct (router_lookup_ok p own k h r target Hrt) as (ns & Hlookup & Hin).
  assert (Hns : Forall node_ok ns).
  { pose proof (router_v4_nodes own k r Hr) as Hall. rewrite Forall_forall in *. auto. }
  destruct (find_loop_total crc32c p draw target fp Ht r ns schedule [] 0 (find_start r ns) Hns
    (λ i, proj1 (Hs i))) as (fuel & heard & n & st & Hloop & Htasks & Hreach); [constructor | by exists own, k, h |].
  destruct (reached_inv crc32c p draw target fp Ht r ns heard n st Hns Hreach) as (Hinv & _ & Hp).
  exists fuel, ns, st, heard. split_and!; [done | done | done | | done].
  by eapply (find_loop_v4 crc32c p draw own k target fp fuel schedule (find_start r ns)).
Qed.

(** What the filter leaves of [seen], cut to [n] *)
Lemma found_closest target heard st (n : nat) :
  u160_ok target → find_inv target heard st →
  let found := take n (kept (ignore st) (seen st)) in
  Forall node_ok found ∧ (length found ≤ n)%nat ∧
  StronglySorted (λ a b, value (distance target (id a)) < value (distance target (id b))) found.
Proof using Type.
  intros Ht [Hsort He _ _ _] found. split_and!.
  - apply Forall_forall. intros m (c & Hc & <- & _)%elem_of_take_weak%elem_of_kept.
    rewrite Forall_forall in He. apply (He c Hc).
  - subst found. rewrite length_take. lia.
  - by apply sorted_take, (kept_sorted target heard).
Qed.

Lemma find_nodes_total draw schedule own k r target :
  router_v4 own k r → u160_ok target → (∀ i, answer_v4 (schedule i).2) →
  ∃ fuel found r', find_nodes crc32c p draw fuel schedule r target = Ret (found, r') ∧
    router_v4 own k r' ∧ Forall node_ok found ∧ (length found ≤ 8)%nat ∧
    StronglySorted (λ a b, value (distance target (id a)) < value (distance target (id b))) found.
Proof using Type.
  intros Hr Ht Hs. destruct (find_total draw schedule own k r target false Hr Ht Hs)
    as (fuel & ns & st & heard & Hlookup & Hloop & Hinv & Hr' & Hp).
  exists fuel, (take 8 (kept (ignore st) (seen st))), (f_router st).
  unfold find_nodes, find_n_nodes, find, find_n_starting_at. rewrite Hlookup. cbn [run_bind].
  rewrite Hloop. cbn [run_bind]. unfold find_finish. rewrite decide_True by auto.
  split; [done |]. split; [done |]. by apply (found_closest target heard st 8).
Qed.

(** A node that was asked in the search from [ns] named the peer [a]. *)
Definition peer_named draw fuel schedule r target ns (a : SocketAddr) : Prop :=
  ∃ to resp ps token nodes,
    (Asked to, Ok resp) ∈ find_trace crc32c p draw target true fuel schedule (find_start r ns) ∧
    kind resp = Peers ps token nodes ∧ a ∈ ps.


End Properties.

(** ** Examples *)

Definition ex_outside : Outside (gmap (list Z) (list Z)) := mkOutside (Ok ∅) None (Ok ()) [1] (5, 6, 7).

Lemma node_new_ok_witness :
  ∃ n, node_new crc32c_table_free bdecode Debug ex_outside (SocketV4 [0; 0; 0; 0] 6881) false
      (V4 [124; 31; 75; 21]) = Ret (Ok n) ∧
    service_ok MAX_CONCURRENCY (n_service n) ∧ handler (n_service n) = true ∧
    (∀ ms' ls', in_width 128 ms' → in_width 32 ls' →
       node_validate crc32c_table_free (me (n_server n)) ms' ls' = true) ∧
    (false = false → server_ok (view:=λ d, d) bdecode (n_server n)) ∧
    (o_file ex_outside = None → router_own_id (router (n_server n)) = id (me (n_server n)) ∧
       all_nodes (buckets (router (n_server n))) = []).
Proof.
  apply (node_new_ok (view:=λ d, d) crc32c_table_free bencode bdecode Debug ex_outside
    (SocketV4 [0; 0; 0; 0] 6881) false (V4 [124; 31; 75; 21]) 5 6 7); try done.
  - exact bencode_format.
  - exact crc32c_table_free_u32.
  - by repeat split; repeat constructor.
  - intros d [= <-] k bytes Hk. by apply lookup_empty_Some in Hk.
Defined.

(** The bootstrap node answers, and nobody else does. *)
Definition ex_bootstrap_answer : QueryResult := ex_pong 7 2.


(** The one node in the table names a peer. *)
Definition ex_router_peer : Router := mkRouter (mkBucket (new 5 6) 0 8 [ex_peer] None) [].
Lemma ex_router_peer_v4 : router_v4 (new 5 6) 8 ex_router_peer.
Proof.
  destruct (router_v4_add Debug (new 5 6) 8 ex_router ex_peer) as (r & E & Hr); [| exact ex_peer_v4 |].
  - split; [exists []; exact ex_router_ok | constructor].
  - vm_compute in E. by injection E as <-.
Qed.
Definition ex_peers_answer : QueryResult :=
  Ok (mkResponseMsg (Peers [ex_remote 33] [1] None)
    (mkBase (SenderRemote ex_peer) ReceiverMe None [0; 0] false None)).

Example ex_find_peers :
  find_peers crc32c_table_free Debug ex_draw 2 (λ _, (0%nat, ex_peers_answer)) ex_router_peer min =
  Ret (PeersFound {[ex_remote 33]}, ex_router_peer).
Proof. vm_compute. reflexivity. Qed.

