(* ===== verification/System.v ===== *)
(** * A node at work

    The parts of a node together: the messenger's service, the server that
    answers for it, and any number of searches under way ([src/node.rs],
    [find_n_starting_at] and [send_find] with the calls into
    [src/messenger/service.rs] that they wait for). They share the routing
    table, the transaction counter and the permits of the service. A state is
    what a node holds between two steps of its tasks; a [happening] is one such
    step or a packet that comes in, so a list of happenings is one interleaving
    of everything that a node does. *)

From S2P Require Import Prelude Text Externals Net U160 NodeInfo Bucket Wire Format BucketSerde.
From S2P Require Import Router Token Kmsg Message Received Service Messenger Server Node Start.

(** ** State *)

(** A task of a search: finished, its result waiting in the task set; or on its way
    through [send_find], from the start of the task over the built query that
    waits for a permit to the query under way as the task [c] of the service. *)
Inductive search_task : Type :=
  | Finished (t : find_task) (one_result : OneResult)
  | ToAsk (to : NodeInfo)
  | Queued (to : NodeInfo) (q : Query)
  | Asking (to : NodeInfo) (c : nat).

(** The local state of one [find_n_starting_at] *)
Record Search : Type := mkSearch {
  se_target : U160;
  se_find_peers : bool;
  se_ignore : gset NodeInfo;
  se_seen : list (U160 * NodeInfo);
  se_peers : gset SocketAddr;
  se_tasks : list search_task;
}.

Record System (D : Type) : Type := mkSystem {
  sy_service : ServiceState;
  sy_live : Live D;
  sy_searches : list Search;
}.
Arguments mkSystem {D}.
Arguments sy_service {D}.
Arguments sy_live {D}.
Arguments sy_searches {D}.

Definition set_tasks (ts : list search_task) (s : Search) : Search :=
  mkSearch (se_target s) (se_find_peers s) (se_ignore s) (se_seen s) (se_peers s) ts.

Definition set_server {D} (srv : Server D) (l : Live D) : Live D := mkLive srv (world l) (tick l).

(** The search [i] of a node with its task [j] *)
Definition at_task {D} (y : System D) (i j : nat) : option (Search * search_task) :=
  s ← sy_searches y !! i; t ← se_tasks s !! j; Some (s, t).

(** The node with the task [j] of the search [i] replaced *)
Definition set_task {D} (i j : nat) (t : search_task) (y : System D) : System D :=
  mkSystem (sy_service y) (sy_live y)
    (alter (λ s, set_tasks (<[j := t]> (se_tasks s)) s) i (sy_searches y)).

(** The task set of a search as the loop sees it *)
Definition task_view (t : search_task) : find_task :=
  match t with
  | Finished t _ => t
  | ToAsk to | Queued to _ | Asking to _ => Asked to
  end.
Definition search_view (r : Router) (s : Search) : FindState :=
  mkFind r (se_ignore s) (se_seen s) (se_peers s) (task_view <$> se_tasks s).

(** A task that was added to the set *)
Definition new_task (t : find_task) : search_task :=
  match t with
  | Initial nodes => Finished (Initial nodes) (FoundSome nodes)
  | Asked to => ToAsk to
  end.

(** ** Steps *)

Inductive happening : Type :=
  | Packet (slice : list Z) (from : SocketAddr) (io : result unit string)
  | Find (target : U160) (find_peers : bool)
  | Build (i j : nat)
  | Ask (i j : nat)
  | Sent (c : nat) (io : result unit string)
  | Wake (c : nat)
  | Timeout (c : nat)
  | Answer (i j : nat)
  | Turn (i j : nat).

Section System.
Context {D : Type} `{Sled D}.
Context (crc32c : list Z → Z) (keystream : list Z → list Z → nat → list Z).
Context (to_vec : sval → list Z) (from_slice : list Z → option sval) (closed : string).
Context (p : profile) (draw : NodeInfo → Z * Z).
#[local] Abbreviation System := (System D).

(** An event of the service that sends nothing *)
Definition served (y : System) (e : event) : option System :=
  st ← exec to_vec closed (sy_service y) e; Some (mkSystem st (sy_live y) (sy_searches y)).

(** A query's first send, which serializes it *)
Definition sent (y : System) (c : nat) (io : result unit string) : run (option System) :=
  match Service.tasks (sy_service y) !! c with
  | Some t =>
      match t_phase t, send_message to_vec (handler (sy_service y)) (MQuery (t_query t)) io with
      | Sending, Panic => Panic
      | _, _ => Ret (served y (ESent c io))
      end
  | None => Ret None
  end.

(** The packet [slice], as the receive loop and the task it spawns treat it *)
Definition packet (y : System) (slice : list Z) (from : SocketAddr) (io : result unit string) : run System :=
  let! r := @recv (Live D) (server_handler crc32c keystream to_vec from_slice p) to_vec from_slice
              (if handler (sy_service y) then Some (sy_live y) else None) slice from io in
  Ret match r with
      | Dropped => y
      | Answered _ l => mkSystem (sy_service y) l (sy_searches y)
      | ToQueue r => mkSystem (return_result (sy_service y) r) (sy_live y) (sy_searches y)
      end.

(** The query of [send_find] *)
Definition find_query (s : Search) (srv : Server D) (to : NodeInfo) : Query * Server D :=
  build_query srv (node_receiver to)
    (if se_find_peers s then GetPeers (se_target s) else FindNode (se_target s)).

(** The body of the outer loop for the result of the task [j] *)
Definition turn (s : Search) (j : nat) (one_result : OneResult) : Search :=
  let st := handle_result crc32c draw (se_target s)
              (mkFind (mkRouter (root min 0) []) (se_ignore s) (se_seen s) (se_peers s) []) one_result in
  mkSearch (se_target s) (se_find_peers s) (ignore st) (seen st) (f_peers st)
    (delete j (se_tasks s) ++ (new_task <$> tasks st)).

(** One happening; [None] when it cannot occur. *)
Definition sys_step (y : System) (h : happening) : run (option System) :=
  let srv := server (sy_live y) in
  match h with
  | Packet slice from io => let! y := packet y slice from io in Ret (Some y)
  | Find target find_peers =>
      let! nodes := router_lookup p (router srv) target in
      Ret (Some (mkSystem (sy_service y) (sy_live y)
        (sy_searches y ++ [mkSearch target find_peers ∅ [] ∅ [new_task (Initial nodes)]])))
  | Sent c io => sent y c io
  | Wake c => Ret (served y (EWake c))
  | Timeout c => Ret (served y (ETimeout c))
  | Build i j =>
      match at_task y i j with
      | Some (s, ToAsk to) =>
          let (q, srv) := find_query s srv to in
          Ret (Some (set_task i j (Queued to q)
            (mkSystem (sy_service y) (set_server srv (sy_live y)) (sy_searches y))))
      | _ => Ret None
      end
  | Ask i j =>
      match at_task y i j with
      | Some (s, Queued to q) =>
          Ret (set_task i j (Asking to (length (Service.tasks (sy_service y)))) <$> served y (EQuery q))
      | _ => Ret None
      end
  | Answer i j =>
      match at_task y i j with
      | Some (s, Asking to c) =>
          match t_phase <$> Service.tasks (sy_service y) !! c with
          | Some (Returned response) =>
              let! (one_result, r) := send_find p (se_find_peers s) (router srv) to response in
              Ret (Some (set_task i j (Finished (Asked to) one_result)
                (mkSystem (sy_service y) (set_server (set_router r srv) (sy_live y)) (sy_searches y))))
          | _ => Ret None
          end
      | _ => Ret None
      end
  | Turn i j =>
      match at_task y i j with
      | Some (s, Finished _ one_result) =>
          Ret (Some (mkSystem (sy_service y) (sy_live y) (<[i := turn s j one_result]> (sy_searches y))))
      | _ => Ret None
      end
  end.

(** A run: the happenings one after the other *)
Fixpoint sys_run (y : System) (hs : list happening) : run (option System) :=
  match hs with
  | [] => Ret (Some y)
  | h :: hs =>
      let! y := sys_step y h in
      match y with
      | Some y => sys_run y hs
      | None => Ret None
      end
  end.
End System.

(** A node that [Node::new] made *)
Definition system_of {D} (n : Node D) (world : nat → Env) : System D :=
  mkSystem (n_service n) (mkLive (n_server n) world 0) [].

(** ** The turn of a search *)

Section Turn.
Context (crc32c : list Z → Z) (draw : NodeInfo → Z * Z) (target : U160).

(** [handle_result] adds its tasks behind those that are there, and looks at neither
    them nor the router. *)
Lemma consider_frame r ts st n :
  let st' := consider crc32c draw target st n in
  consider crc32c draw target (mkFind r (ignore st) (seen st) (f_peers st) (ts ++ tasks st)) n =
  mkFind r (ignore st') (seen st') (f_peers st') (ts ++ tasks st').
Proof.
  unfold consider. cbn [seen ignore f_peers f_router tasks].
  destruct (match _ !! _ with Some _ => _ | None => _ end); [| by destruct st].
  destruct (close_insert _ _) as [s fresh]. destruct (fresh && _); cbn; [by rewrite app_assoc | done].
Qed.

Lemma foldl_consider_frame r ts st ns :
  let st' := foldl (consider crc32c draw target) st ns in
  foldl (consider crc32c draw target) (mkFind r (ignore st) (seen st) (f_peers st) (ts ++ tasks st)) ns =
  mkFind r (ignore st') (seen st') (f_peers st') (ts ++ tasks st').
Proof.
  revert st. induction ns as [|n ns IH]; intros st; [done |]. cbn [foldl].
  rewrite consider_frame. apply IH.
Qed.

Lemma handle_result_frame r r0 ig s ps ts one :
  let st' := handle_result crc32c draw target (mkFind r0 ig s ps []) one in
  handle_result crc32c draw target (mkFind r ig s ps ts) one =
  mkFind r (ignore st') (seen st') (f_peers st') (ts ++ tasks st').
Proof.
  destruct one as [ns|n|peers ns]; cbn [handle_result ignore seen f_peers f_router tasks].
  - pose proof (foldl_consider_frame r ts (mkFind r0 ig s ps []) ns) as H. cbn in H.
    by rewrite app_nil_r in H.
  - by rewrite app_nil_r.
  - pose proof (foldl_consider_frame r ts (mkFind r0 ig s (list_to_set peers ∪ ps) []) (default [] ns)) as H.
    cbn in H. by rewrite app_nil_r in H.
Qed.
End Turn.

Lemma view_new_task t : task_view (new_task t) = t.
Proof. by destruct t. Qed.

Lemma view_turn crc32c draw r s j one :
  search_view r (turn crc32c draw s j one) =
  handle_result crc32c draw (se_target s)
    (mkFind r (se_ignore s) (se_seen s) (se_peers s) (delete j (task_view <$> se_tasks s))) one.
Proof.
  unfold search_view, turn. cbn [se_ignore se_seen se_peers se_tasks].
  rewrite (handle_result_frame crc32c draw (se_target s) r (mkRouter (root min 0) [])). f_equal.
  rewrite fmap_app, <- list_fmap_delete. f_equal. rewrite <- list_fmap_compose.
  rewrite <- list_fmap_id. apply list_fmap_ext. intros i t _. apply view_new_task.
Qed.

(** ** The invariant *)

(** A task of the service: its query can be sent, and what it was answered is in
    the ranges of its types and comes from an IPv4 address. *)
Record task_typed (t : task) : Prop := {
  tt_query : message_ok (MQuery (t_query t));
  tt_value : ∀ r, t_chan t = Value r → answer_v4 r;
  tt_returned : ∀ r, t_phase t = Returned r → answer_v4 r;
}.

Lemma exec_typed max_q tv cl st e st' :
  service_ok max_q st → exec tv cl st e = Some st' →
  (∀ r, e = EReceive r → answer_v4 r) →
  (∀ q, e = EQuery q ∨ e = EQueryUnbounded q → message_ok (MQuery q)) →
  Forall task_typed (Service.tasks st) → Forall task_typed (Service.tasks st').
Proof.
  intros Hok He Hr Hq Hts. rewrite Forall_lookup in Hts |- *. intros c t' Ht'.
  destruct (Service.tasks st !! c) as [t|] eqn:Ht.
  - destruct (exec_moves max_q tv cl st e st' c t Hok He Ht) as (u & Hu & Hmq & _ & _ & Hval & Hret).
    rewrite Ht' in Hu. injection Hu as <-. destruct (Hts c t Ht) as [Htq Htv Htr]. split.
    + by rewrite Hmq.
    + intros r [?|[-> _]]%Hval; auto.
    + intros r [?|[?|[text ->]]]%Hret; [auto.. | by split].
  - destruct (exec_new tv cl st e st' c t' He Ht Ht') as (Hch & Hph & Hnew).
    split; [by apply Hq | congruence | congruence].
Qed.

Lemma exec_length max_q tv cl st e st' :
  service_ok max_q st → exec tv cl st e = Some st' →
  (length (Service.tasks st) ≤ length (Service.tasks st'))%nat.
Proof.
  intros Hok He. destruct (decide (length (Service.tasks st) = 0)%nat) as [->|Hn]; [lia |].
  destruct (lookup_lt_is_Some_2 (Service.tasks st) (length (Service.tasks st) - 1)) as [t Ht]; [lia |].
  destruct (exec_moves max_q tv cl st e st' _ t Hok He Ht) as (u & Hu & _). apply lookup_lt_Some in Hu. lia.
Qed.

Lemma exec_handler tv cl st e st' : exec tv cl st e = Some st' → handler st' = handler st.
Proof.
  intros He. destruct e; simpl in He; repeat case_match; simplify_eq/=; try done.
  - unfold return_result. by destruct (remove_from_queue _ _ _) as [[]].
  - unfold time_out. by destruct (remove_from_queue _ _ _) as [[]].
Qed.

(** *** What packets bring *)

Lemma v4_plain_sock a : is_v4 a → sock_plain a.
Proof. by destruct a. Qed.

Lemma node_v4_all_ok ns : Forall node_v4 ns → Forall node_ok ns.
Proof. intros Hns. eapply Forall_impl; [exact Hns |]. by intros n []. Qed.

Lemma message_sender from m :
  message_typed from m → sock_ok from →
  node_ok (sender_node (origin (base m))) ∧ addr (sender_node (origin (base m))) = from.
Proof.
  intros [[Hid _] Ho _ _] Hs. rewrite Ho in Hid |- *. by split; [split |].
Qed.

(** An answer that arrives from an IPv4 address *)
Lemma answer_received from r :
  message_typed from (result_message r) → sock_ok from → is_v4 from → answer_v4 r.
Proof.
  intros Hm Hs Hv. destruct (message_sender from _ Hm Hs) as [Hn Ha]. destruct Hm as [[_ Hm] _ _ _].
  destruct r as [r|e]; [| by split]. cbn in Hn, Ha, Hm. destruct Hm as [Hk _].
  split; [split; [exact Hn |] | by rewrite Ha].
  destruct (kind r) as [|ns tk|ps tk [ns|]|d|ns sm av iv]; try done; apply node_v4_all_ok; [done | apply Hk].
Qed.

(** A query that arrives from an IPv4 address *)
Lemma query_received from q :
  message_typed from (MQuery q) → sock_ok from → is_v4 from → query_ok q.
Proof.
  intros Hm Hs Hv. destruct (message_sender from _ Hm Hs) as [_ Ha].
  destruct Hm as [[Hid [Hmt _]] Ho _ Htok]. cbn in *.
  assert (Haddr : q_addr q = from) by (unfold q_addr; rewrite Ho; done).
  split; try done; rewrite Haddr; auto using v4_plain_sock.
Qed.

Lemma send_message_total to_vec h m io :
  message_ok m → ∃ res, send_message to_vec h m io = Ret res.
Proof.
  intros Hm. unfold send_message. destruct (negb _ && negb _); [by eexists |].
  destruct (de_ser (to_kmsg m) (to_kmsg_ok m Hm)) as (v & Hs & _).
  unfold to_bytes. rewrite Hs. cbn [run_bind]. destruct (receiver_addr _); by eexists.
Qed.

Section Facts.
Context {D : Type} {view : D → gmap (list Z) (list Z)} `{Hsled : SledLaw D view}.
Context (crc32c : list Z → Z) (keystream : list Z → list Z → nat → list Z).
Context (to_vec : sval → list Z) (from_slice : list Z → option sval) (closed : string).
Context (keystream_length : ∀ key nonce n, length (keystream key nonce n) = n).
Context (keystream_ok : ∀ key nonce n, bytes_ok (keystream key nonce n)).
Context (Hformat : ByteFormat to_vec from_slice).
Context (p : profile) (draw : NodeInfo → Z * Z) (max_q : nat).
#[local] Abbreviation System := (System D).
#[local] Abbreviation server_ok := (server_ok (view:=view) from_slice).
#[local] Abbreviation sys_step := (sys_step crc32c keystream to_vec from_slice closed p draw).
#[local] Abbreviation sys_run := (sys_run crc32c keystream to_vec from_slice closed p draw).
#[local] Abbreviation packet := (packet crc32c keystream to_vec from_slice p).

(** Where the result of a finished task comes from *)
Definition came (s : Search) (t : find_task) (one_result : OneResult) : Prop :=
  (∃ nodes, t = Initial nodes ∧ one_result = FoundSome nodes) ∨
  ∃ to r r' response, t = Asked to ∧ answer_ok response ∧
    send_find p (se_find_peers s) r to response = Ret (one_result, r').

Definition stask_ok (n : nat) (s : Search) (t : search_task) : Prop :=
  match t with
  | Finished t one_result => came s t one_result
  | ToAsk _ => True
  | Queued _ q => message_ok (MQuery q)
  | Asking _ c => (c < n)%nat
  end.

(** The search is at a state that the loop of [Node] reaches. *)
Definition search_run (s : Search) (heard : list NodeInfo) (turns : nat) : Prop :=
  ∃ r0 nodes, Forall node_ok nodes ∧ ∀ r,
    reached crc32c p draw (se_target s) (se_find_peers s) r0 nodes heard turns (search_view r s).

Record search_ok (n : nat) (s : Search) : Prop := {
  so_target : u160_ok (se_target s);
  so_run : ∃ heard turns, search_run s heard turns;
  so_stasks : Forall (stask_ok n s) (se_tasks s);
}.

Record sys_ok (y : System) : Prop := {
  so_service : service_ok max_q (sy_service y);
  so_tasks : Forall task_typed (Service.tasks (sy_service y));
  so_server : server_ok (serving (server (sy_live y)));
  so_mode : handler (sy_service y) = true → s_read_only (server (sy_live y)) = false;
  so_me : sock_plain (addr (me (server (sy_live y))));
  so_world : ∀ n, env_ok (world (sy_live y) n);
  so_searches : Forall (search_ok (length (Service.tasks (sy_service y)))) (sy_searches y);
}.

(** *** The server's part *)

Lemma serving_id (s : Server D) : s_read_only s = false → serving s = s.
Proof using Type. destruct s; cbn. by intros ->. Qed.

Lemma server_router (s : Server D) :
  server_ok (serving s) → ∃ own k, router_v4 own k (router s).
Proof using Type. intros [(own & k & h & Hr) Hv _ _ _]. exists own, k. split; [by exists h | done]. Qed.

Lemma server_set_router (s : Server D) own k r :
  server_ok (serving s) → router_v4 own k r → server_ok (serving (set_router r s)).
Proof using Type.
  intros [_ _ ? ? ?] [[h Hr] Hv]. split; try done. by exists own, k, h.
Qed.

(** Handling a query keeps the identity and the mode of the server. *)
Lemma handle_query_me env (s : Server D) q r s' :
  server_handle_query crc32c keystream to_vec from_slice p env s q = Ret (r, s') →
  me s' = me s ∧ s_read_only s' = s_read_only s.
Proof using Type.
  unfold server_handle_query. destruct (s_read_only s) eqn:Hro; [done |].
  destruct (u160_eqb _ _); [by intros [= _ <-] |]. intros Hh. inv_run.
  assert (Ha : me a = me s ∧ s_read_only a = s_read_only s).
  { destruct (negb _); inv_run; done. }
  rewrite <- Hro. destruct Ha as [<- <-].
  destruct (method q); cbn [dispatch] in Hh; inv_run; simplify_eq; try done.
  unfold handle_announce in Hh. inv_run.
  repeat case_match; inv_run; simplify_eq; try done.
  all: repeat case_match; inv_run; by simplify_eq.
Qed.

(** *** Changing one part *)

Lemma search_ok_more n n' s : (n ≤ n')%nat → search_ok n s → search_ok n' s.
Proof using Type.
  intros Hn [Ht Hr Hs]. split; [done | done |]. eapply Forall_impl; [exact Hs |].
  intros [] Hok; cbn in *; try done. lia.
Qed.

Lemma sys_ok_service y st :
  sys_ok y → service_ok max_q st → Forall task_typed (Service.tasks st) →
  handler st = handler (sy_service y) →
  (length (Service.tasks (sy_service y)) ≤ length (Service.tasks st))%nat →
  sys_ok (mkSystem st (sy_live y) (sy_searches y)).
Proof using Type.
  intros [_ _ ? Hmode ? ? Hs] Hst Hts Hh Hlen. split; cbn [sy_service sy_live sy_searches]; try done.
  - by rewrite Hh.
  - eapply Forall_impl; [exact Hs |]. intros s. by apply search_ok_more.
Qed.

Lemma served_ok y e y' :
  sys_ok y → served to_vec closed y e = Some y' →
  (∀ r, e = EReceive r → answer_v4 r) →
  (∀ q, e = EQuery q ∨ e = EQueryUnbounded q → message_ok (MQuery q)) → sys_ok y'.
Proof using Type.
  intros Hy He Hr Hq. unfold served in He. apply bind_Some in He as (st & He & [= <-]).
  pose proof (so_service _ Hy) as Hok. apply sys_ok_service; [done | | | |].
  - by eapply exec_ok.
  - eapply exec_typed; [exact Hok | exact He | done | done | apply Hy].
  - by eapply exec_handler.
  - by eapply exec_length.
Qed.

Lemma sys_ok_live y l :
  sys_ok y → server_ok (serving (server l)) → s_read_only (server l) = s_read_only (server (sy_live y)) →
  me (server l) = me (server (sy_live y)) → (∀ n, env_ok (world l n)) →
  sys_ok (mkSystem (sy_service y) l (sy_searches y)).
Proof using Type.
  intros [? ? _ Hmode Hme _ ?] Hs Hro E Hw. split; try done.
  - cbn. intros Hh. rewrite Hro. by apply Hmode.
  - cbn. by rewrite E.
Qed.

(** *** Packets *)

(** What a packet leaves alone: searches, permits, and how far each query is *)
Definition quiet (y y' : System) : Prop :=
  sy_searches y' = sy_searches y ∧ permits (sy_service y') = permits (sy_service y) ∧
  t_phase <$> Service.tasks (sy_service y') = t_phase <$> Service.tasks (sy_service y).

Lemma quiet_refl y : quiet y y.
Proof using Type. by split_and!. Qed.

Lemma return_result_quiet y r :
  quiet y (mkSystem (return_result (sy_service y) r) (sy_live y) (sy_searches y)).
Proof using Type.
  unfold quiet, return_result. cbn [sy_searches sy_service].
  destruct (remove_from_queue _ _ _) as [[o|] queue]; cbn [permits Service.tasks]; [| done].
  split_and!; [done | done |]. apply list_eq. intros c. rewrite !list_lookup_fmap.
  destruct (decide (c = return_value o)) as [->|].
  - rewrite list_lookup_alter_eq. destruct (_ !! return_value o) as [[q pm [] ch]|]; done.
  - by rewrite list_lookup_alter_ne.
Qed.

(** What a packet from an IPv4 address does to a node: it never makes it panic. *)
Lemma packet_ok (y : System) slice from io :
  sys_ok y → bytes_ok slice → sock_ok from → is_v4 from →
  ∃ y', packet y slice from io = Ret y' ∧ sys_ok y' ∧ quiet y y'.
Proof using All.
  intros Hy Hb Ho Hv. unfold System.packet, recv.
  assert (Hq : ∀ r, message_typed from (result_message r) →
    let y' := mkSystem (return_result (sy_service y) r) (sy_live y) (sy_searches y) in
    sys_ok y' ∧ quiet y y').
  { intros r Hm. split; [| apply return_result_quiet].
    apply (served_ok y (EReceive r)); [done | done | | by intros ? []].
    intros ? [= <-]. by eapply answer_received. }
  destruct (receive from_slice slice from) as [m|[[raw|] e]] eqn:E.
  - pose proof (received_typed to_vec from_slice Hformat slice from m Hb Ho (v4_plain_sock _ Hv) E) as Hm.
    destruct m as [q|r|e]; cbn [handle_received run_bind].
    + destruct (handler (sy_service y)) eqn:Hh; cbn [run_bind]; [| eauto using quiet_refl].
      set (l := sy_live y). cbn [handle_query server_handler]. unfold live_handle_query.
      pose proof (so_server _ Hy) as Hs. rewrite serving_id in Hs by by apply so_mode.
      destruct (server_query_spec crc32c keystream to_vec from_slice keystream_length keystream_ok Hformat p
        (world l (tick l)) (server l) q Hs (so_world _ Hy _) (query_received _ _ Hm Ho Hv))
        as (r & s' & Hr & Hs' & _ & Hmsg).
      rewrite Hr. cbn [run_bind]. destruct (send_message_total to_vec true (result_message r) io Hmsg) as [res ->].
      cbn [run_bind]. destruct (handle_query_me _ _ _ _ _ Hr) as [Hme Hro].
      eexists. split; [done |]. split; [| by split_and!]. apply sys_ok_live; try done; [| apply Hy].
      cbn [server]. by rewrite serving_id by apply Hs'.
    + by destruct (Hq (Ok r) Hm); eauto.
    + by destruct (Hq (Err e) Hm); eauto.
  - destruct (handler (sy_service y)); cbn [run_bind]; [| eauto using quiet_refl].
    edestruct (send_message_total to_vec true) as [res ->].
    { cbn [handle_error server_handler]. apply into_error_ok. apply (sok_me _ _ (so_server _ Hy)). }
    cbn [run_bind]. exists y. split; [by destruct y |]. split; [done | apply quiet_refl].
  - cbn [run_bind]. eauto using quiet_refl.
Qed.

(** *** The tasks of a search *)

Lemma at_task_Some y i j s t :
  at_task y i j = Some (s, t) ↔ sy_searches (D:=D) y !! i = Some s ∧ se_tasks s !! j = Some t.
Proof using Type.
  unfold at_task. split.
  - intros (s' & Hs & (t' & Ht & [= <- <-])%bind_Some)%bind_Some. done.
  - intros [-> Ht]. cbn. by rewrite Ht.
Qed.

(** A task goes on: the loop sees the same task. *)
Lemma set_task_ok y i j s t t' :
  sys_ok y → at_task y i j = Some (s, t) → task_view t' = task_view t →
  stask_ok (length (Service.tasks (sy_service y))) s t' → sys_ok (set_task i j t' y).
Proof using Type.
  intros Hy (Hi & Hj)%at_task_Some Hview Ht'. destruct Hy as [? ? ? ? ? ? Hs]. split; try done.
  cbn [set_task sy_searches sy_service]. rewrite Forall_lookup in Hs |- *. intros k s' Hk.
  destruct (decide (k = i)) as [->|]; [| rewrite list_lookup_alter_ne in Hk by done; by eapply Hs].
  rewrite list_lookup_alter_eq, Hi in Hk. injection Hk as <-. destruct (Hs i s Hi) as [Htg Hr Hts].
  split; [done | |].
  - assert (E : ∀ r, search_view r (set_tasks (<[j := t']> (se_tasks s)) s) = search_view r s).
    { intros r. unfold search_view, set_tasks. cbn. f_equal. rewrite list_fmap_insert, Hview.
      apply list_insert_id. by rewrite list_lookup_fmap, Hj. }
    destruct Hr as (heard & turns & r0 & nodes & Hns & Hr). exists heard, turns, r0, nodes.
    split; [done |]. intros r. rewrite E. apply Hr.
  - cbn [set_tasks se_tasks]. by apply Forall_insert.
Qed.

Lemma find_query_ok s (srv : Server D) to q srv' :
  server_ok (serving srv) → sock_plain (addr (me srv)) → u160_ok (se_target s) →
  find_query s srv to = (q, srv') →
  message_ok (MQuery q) ∧ server_ok (serving srv') ∧ me srv' = me srv ∧ s_read_only srv' = s_read_only srv.
Proof using Type.
  intros Hs Hp Ht [= <- <-]. pose proof (sok_me _ _ Hs) as [Hid Hsock]. split_and!; [| | done | done].
  - split; [exact Hid |]. split; [by destruct (se_find_peers s) | by split].
  - destruct Hs as [? ? ? ? ?]. by split.
Qed.

(** Asking a node and learning its answer *)
Lemma send_find_live fp (srv : Server D) to response :
  server_ok (serving srv) → answer_v4 response →
  ∃ one r, send_find p fp (router srv) to response = Ret (one, r) ∧ server_ok (serving (set_router r srv)).
Proof using Type.
  intros Hs Ha. destruct (server_router srv Hs) as (own & k & Hr). pose proof (proj1 Hr) as [h Hrt].
  destruct (send_find_total p fp (router srv) to response) as (one & r & E & _);
    [by exists own, k, h | apply Ha |].
  exists one, r. split; [done |]. eapply server_set_router; [done |]. by eapply send_find_v4.
Qed.

(** A turn of the loop is a turn of the search of [Node]. *)
Lemma turn_run s j t one heard turns :
  search_run s heard turns → se_tasks s !! j = Some (Finished t one) → came s t one →
  search_run (turn crc32c draw s j one) (heard ++ result_nodes one) (S turns).
Proof using Type.
  intros (r0 & nodes & Hns & Hr) Hj Hcame. exists r0, nodes. split; [done |]. intros r.
  assert (Hj' : (task_view <$> se_tasks s) !! j = Some t) by by rewrite list_lookup_fmap, Hj.
  destruct Hcame as [(ns & -> & ->)|(to & rt & rt' & resp & -> & Hresp & Hfind)].
  - eapply (reached_step _ _ _ _ _ _ _ _ _ _ j no_answer); [apply (Hr r) | done |].
    rewrite view_turn. unfold find_step, search_view. cbn [tasks]. by rewrite Hj'.
  - change (search_view r (turn crc32c draw s j one)) with
      (with_router r (search_view rt' (turn crc32c draw s j one))).
    apply reached_router. eapply (reached_step _ _ _ _ _ _ _ _ _ _ j resp); [apply (Hr rt) | done |].
    rewrite view_turn. unfold find_step, search_view. cbn [tasks]. rewrite Hj'. cbn [f_router turn se_find_peers]. by rewrite Hfind.
Qed.

Lemma turn_ok n s j t one :
  search_ok n s → se_tasks s !! j = Some (Finished t one) → search_ok n (turn crc32c draw s j one).
Proof using Type.
  intros [Ht (heard & turns & Hr) Hts] Hj. split; [done | |].
  - assert (Hc : came s t one) by (eapply Forall_lookup in Hts; [| exact Hj]; done).
    exists (heard ++ result_nodes one), (S turns). by eapply turn_run.
  - cbn [turn se_tasks]. apply Forall_app. split; [by apply Forall_delete |].
    apply Forall_fmap, Forall_true. intros []; cbn; [left; eauto | done].
Qed.

(** *** Every happening *)

(** Packets consist of bytes and come from IPv4 addresses, identifiers are in range. *)
Definition happening_ok (h : happening) : Prop :=
  match h with
  | Packet slice from _ => bytes_ok slice ∧ sock_ok from ∧ is_v4 from
  | Find target _ => u160_ok target
  | _ => True
  end.

Lemma sys_step_ok y h :
  sys_ok y → happening_ok h →
  ∃ o, sys_step y h = Ret o ∧ ∀ y', o = Some y' → sys_ok y'.
Proof using All.
  intros Hy Hh. pose proof (so_server _ Hy) as Hsrv. pose proof (so_searches _ Hy) as Hss.
  assert (Hserved : ∀ e, (∀ r, e ≠ EReceive r) → (∀ q, e ≠ EQuery q ∧ e ≠ EQueryUnbounded q) →
    ∀ y', served to_vec closed y e = Some y' → sys_ok y').
  { intros e H1 H2 y' E. apply (served_ok y e); [done | done | by intros r ?%H1 |].
    intros q [Hq|Hq]; by apply (H2 q) in Hq. }
  destruct h as [slice from io|target fp|i j|i j|c io|c|c|i j|i j]; cbn [System.sys_step].
  - destruct Hh as (Hb & Ho & Hv). destruct (packet_ok y slice from io Hy Hb Ho Hv) as (y' & -> & Hy' & _).
    eexists. split; [done |]. by intros ? [= <-].
  - destruct (server_router _ Hsrv) as (own & k & [[h Hr] Hv]).
    destruct (router_lookup_ok p own k h _ target Hr) as (ns & -> & Hin). cbn [run_bind].
    eexists. split; [done |]. intros ? [= <-]. destruct Hy. split; try done.
    cbn [sy_searches sy_service]. apply Forall_app_2; [done |]. apply Forall_singleton.
    split; [done | |].
    + exists [], 0%nat, (mkRouter (root min 0) []), ns. split.
      * apply Forall_forall. intros n Hn%Hin. rewrite Forall_forall in Hv. by apply Hv.
      * intros r. change (search_view r _) with (with_router r (find_start (mkRouter (root min 0) []) ns)).
        apply reached_router, reached_start.
    + apply Forall_singleton. left. by exists ns.
  - destruct (at_task y i j) as [[s []]|] eqn:Hat; try (eexists; split; [done |]; by intros ? [=]).
    destruct (find_query s _ to) as [q srv'] eqn:Hq. pose proof Hat as [Hi _]%at_task_Some.
    eapply Forall_lookup in Hi; [| exact Hss].
    destruct (find_query_ok _ _ _ _ _ Hsrv (so_me _ Hy) (so_target _ _ Hi) Hq) as (Hm & Hs' & Hme & Hro).
    eexists. split; [done |]. intros ? [= <-]. eapply set_task_ok; [| exact Hat | done | done].
    apply sys_ok_live; try done. apply Hy.
  - destruct (at_task y i j) as [[s []]|] eqn:Hat; try (eexists; split; [done |]; by intros ? [=]).
    eexists. split; [done |]. intros y' (y1 & He & ->)%fmap_Some.
    pose proof Hat as [Hi Hj]%at_task_Some. eapply Forall_lookup in Hi; [| exact Hss].
    assert (Hq : message_ok (MQuery q)).
    { pose proof (so_stasks _ _ Hi) as Hts. by eapply Forall_lookup in Hts; [| exact Hj]. }
    assert (Hy1 : sys_ok y1).
    { apply (served_ok y (EQuery q)); [done | done | done |]. intros ? [[= <-]|?]; done. }
    unfold served in He. apply bind_Some in He as (st & He & [= <-]). simpl in He.
    destruct (Nat.ltb_spec 0 (permits (sy_service y))); [| done]. injection He as <-.
    eapply set_task_ok; [exact Hy1 | exact Hat | done |].
    cbn [stask_ok sy_service start Service.tasks]. rewrite length_app. simpl. lia.
  - unfold sent. destruct (Service.tasks _ !! c) as [t|] eqn:Hc; [| eexists; split; [done |]; by intros ? [=]].
    assert (Ht : task_typed t) by (eapply Forall_lookup in Hc; [exact Hc | apply Hy]).
    destruct (send_message_total to_vec (handler (sy_service y)) (MQuery (t_query t)) io (tt_query _ Ht)) as [res ->].
    eexists. split; [by destruct (t_phase t) |]. intros y'. by apply Hserved.
  - eexists. split; [done |]. by apply Hserved.
  - eexists. split; [done |]. by apply Hserved.
  - destruct (at_task y i j) as [[s []]|] eqn:Hat; try (eexists; split; [done |]; by intros ? [=]).
    destruct (Service.tasks _ !! c) as [t|] eqn:Hc; [| eexists; split; [done |]; by intros ? [=]].
    cbn [fmap option_fmap option_map].
    destruct (t_phase t) as [| |response] eqn:Hph; try (eexists; split; [done |]; by intros ? [=]).
    assert (Ha : answer_v4 response).
    { eapply Forall_lookup in Hc; [| apply Hy]. by apply (tt_returned _ Hc). }
    destruct (send_find_live (se_find_peers s) (server (sy_live y)) to response Hsrv Ha) as (one & r & E & Hs').
    rewrite E. cbn [run_bind]. eexists. split; [done |]. intros ? [= <-].
    eapply set_task_ok; [| exact Hat | done | right; do 4 eexists; split_and!; [done | apply Ha | exact E]].
    apply sys_ok_live; try done. apply Hy.
  - destruct (at_task y i j) as [[s []]|] eqn:Hat; try (eexists; split; [done |]; by intros ? [=]).
    eexists. split; [done |]. intros ? [= <-]. apply at_task_Some in Hat as [Hi Hj].
    destruct Hy. split; try done. cbn [sy_searches sy_service]. apply Forall_insert; [done |].
    eapply turn_ok; [| exact Hj]. by eapply Forall_lookup in Hi.
Qed.

Lemma sys_run_ok y hs :
  sys_ok y → Forall happening_ok hs →
  ∃ o, sys_run y hs = Ret o ∧ ∀ y', o = Some y' → sys_ok y'.
Proof using All.
  intros Hy Hhs. revert y Hy. induction Hhs as [|h hs Hh Hhs IH]; intros y Hy; cbn [System.sys_run].
  - eexists. split; [done |]. by intros ? [= <-].
  - destruct (sys_step_ok y h Hy Hh) as (o & -> & Ho). cbn [run_bind].
    destruct o as [y1|]; [by apply IH, Ho | by eexists].
Qed.
End Facts.

(** ** Properties *)

Section Properties.
Context {D : Type} {view : D → gmap (list Z) (list Z)} `{Hsled : SledLaw D view}.
Context (crc32c : list Z → Z) (keystream : list Z → list Z → nat → list Z).
Context (to_vec : sval → list Z) (from_slice : list Z → option sval) (closed : string).
Context (p : profile) (draw : NodeInfo → Z * Z).
#[local] Abbreviation ok := (sys_ok (view:=view) crc32c from_slice p draw).
#[local] Abbreviation run := (sys_run crc32c keystream to_vec from_slice closed p draw).


(** What a search returns, once it has no task left *)
Definition search_result (k : Z) (s : Search) : option Found :=
  match se_tasks s with
  | [] => Some (find_finish k (search_view (mkRouter (root min 0) []) s))
  | _ => None
  end.

(** C2: the searches of a node at work are the searches of [Node]: whatever else the
    node does in between, packets, other searches and timeouts, and although all
    share one table, each search is at a state its own loop reaches from
    well-formed starting nodes. So what a finished search for nodes returns is
    in order of distance, without a repeated identifier or a node that failed,
    and, when at most nine nodes failed, the eight closest of all it heard of. *)
Theorem system_searches (y y' : System D) max_q hs s :
  (∀ key nonce n, length (keystream key nonce n) = n) →
  (∀ key nonce n, bytes_ok (keystream key nonce n)) →
  ByteFormat to_vec from_slice →
  ok max_q y → Forall happening_ok hs → run y hs = Ret (Some y') → s ∈ sy_searches y' →
  ∃ heard turns r0 nodes, Forall node_ok nodes ∧
    (∀ r, reached crc32c p draw (se_target s) (se_find_peers s) r0 nodes heard turns (search_view r s)) ∧
    (se_find_peers s = false → se_tasks s = [] → ∃ ns, search_result K_SIZE s = Some (KClosest ns) ∧
       StronglySorted (λ a b, far (se_target s) a < far (se_target s) b) ns ∧ NoDup (ids ns) ∧
       (length ns ≤ 8)%nat ∧ (∀ m, m ∈ ns → m ∈ heard ∧ m ∉ se_ignore s) ∧
       ((size (se_ignore s) ≤ 9)%nat → ∀ x, x ∈ heard →
          id x ∈ ids ns ∨ (∃ m, m ∈ se_ignore s ∧ id m = id x) ∨
          length ns = 8%nat ∧ ∀ m, m ∈ ns → far (se_target s) m < far (se_target s) x)).
Proof.
  intros Hlen Hkok Hf Hy Hhs Hrun Hs.
  destruct (sys_run_ok crc32c keystream to_vec from_slice closed Hlen Hkok Hf p draw max_q y hs Hy Hhs)
    as (o & Ho & Hok). rewrite Hrun in Ho. injection Ho as <-.
  pose proof (so_searches _ _ _ _ _ _ (Hok y' eq_refl)) as Hss. rewrite Forall_forall in Hss.
  destruct (Hss s Hs) as [Ht (heard & turns & r0 & nodes & Hns & Hr) _].
  exists heard, turns, r0, nodes. split; [done |]. split; [exact Hr |]. intros Hfp Hnil.
  set (st := search_view (mkRouter (root min 0) []) s).
  destruct (reached_inv crc32c p draw (se_target s) (se_find_peers s) Ht r0 nodes heard turns st Hns (Hr _))
    as (Hinv & _ & Hp).
  destruct (closest_found (se_target s) Ht heard st K_SIZE Hinv (Hp Hfp))
    as (ns & Hfound & Hsort & Hnd & Hl & Hin & Hclosest).
  exists ns. unfold search_result. rewrite Hnil. fold st. split_and!; [| done | done | done | done |].
  - by destruct (find_finish K_SIZE st); [injection Hfound as -> |].
  - intros Hsize. apply Hclosest. change (Z.to_nat K_SIZE) with 8%nat. cbn [st search_view ignore]. lia.
Qed.
End Properties.

(** ** A node at work *)

Definition ex_system : System (gmap (list Z) (list Z)) :=
  system_of (mkNode (service_new true MAX_CONCURRENCY) ex_server) (λ _, ex_env 1000).

Lemma ex_system_ok : sys_ok (view:=λ d, d) crc32c_table_free bdecode Debug ex_draw MAX_CONCURRENCY ex_system.
Proof.
  split; cbn [ex_system system_of sy_service sy_live sy_searches n_service n_server server world]; try done.
  - apply service_new_ok.
  - apply ex_server_ok.
  - intros _. by apply ex_env_ok.
Qed.

Definition ex_run : System (gmap (list Z) (list Z)) → list happening →
    run (option (System (gmap (list Z) (list Z)))) :=
  sys_run crc32c_table_free constant_stream bencode bdecode "channel closed" Debug ex_draw.

(** A node introduces itself with a ping; the search that is started then asks it,
    and it answers with no nodes. *)
Definition ex_bytes (m : Message) : list Z := match to_bytes bencode m with Ret l => l | _ => [] end.
Definition ex_base (tid : list Z) : MessageBase :=
  mkBase (SenderMe ex_peer) (ReceiverAddr (ex_remote 2)) (Some (addr ex_peer)) tid false None.
Definition ex_day : list happening :=
  [Packet (ex_bytes (MQuery (mkQuery Ping (ex_base [1])))) (addr ex_peer) (Ok ());
   Packet [100; 1; 2; 3] (ex_remote 77) (Ok ());
   Find min false; Turn 0 0; Build 0 0; Ask 0 0; Sent 0 (Ok ());
   Packet (ex_bytes (MResponse (mkResponseMsg (KNearest [] None) (ex_base [0; 0])))) (addr ex_peer) (Ok ());
   Wake 0; Answer 0 0; Turn 0 0].

Definition ex_evening : option (System (gmap (list Z) (list Z))) :=
  match ex_run ex_system ex_day with Ret o => o | _ => None end.

Example ex_evening_search :
  (y ← ex_evening; s ← sy_searches y !! 0%nat; search_result K_SIZE s) = Some (KClosest [ex_peer]).
Proof. vm_compute. reflexivity. Qed.

Lemma ex_bytes_ok l : bool_decide (bytes_ok l) = true → bytes_ok l.
Proof. apply bool_decide_eq_true_1. Qed.

Lemma ex_packet_ok slice from io :
  bool_decide (bytes_ok slice) = true → sock_ok from → is_v4 from → happening_ok (Packet slice from io).
Proof. intros ?%ex_bytes_ok ??. done. Qed.

Lemma ex_day_ok : Forall happening_ok ex_day.
Proof.
  unfold ex_day. repeat apply Forall_cons_2; try done; try apply Forall_nil_2.
  all: apply ex_packet_ok; [by vm_compute | by repeat split; repeat constructor | done].
Qed.


Lemma system_searches_witness :
  ∃ y s ns, ex_evening = Some y ∧ s ∈ sy_searches y ∧ search_result K_SIZE s = Some (KClosest ns) ∧
    NoDup (ids ns).
Proof.
  destruct (ex_run ex_system ex_day) as [[y|]| |] eqn:E; [| by vm_compute in E..].
  destruct (sy_searches y !! 0%nat) as [s|] eqn:Es; [| exfalso; by vm_compute in E; injection E as <-].
  assert (Hs : se_find_peers s = false ∧ se_tasks s = []).
  { vm_compute in E. injection E as <-. vm_compute in Es. by injection Es as <-. }
  pose proof E as Hrun. unfold ex_run in Hrun.
  destruct (system_searches (view:=λ d, d) crc32c_table_free constant_stream bencode bdecode "channel closed" Debug
    ex_draw ex_system y MAX_CONCURRENCY ex_day s constant_stream_length constant_stream_ok bencode_format
    ex_system_ok ex_day_ok Hrun (list_elem_of_lookup_2 _ _ _ Es)) as (heard & turns & r0 & nodes & _ & _ & Hres).
  destruct (Hres (proj1 Hs) (proj2 Hs)) as (ns & Hr & _ & Hnd & _).
  exists y, s, ns. split_and!; [| by eapply list_elem_of_lookup_2 | done | done].
  unfold ex_evening. by rewrite E.
Defined.
