(* ===== verification/Liveness.v ===== *)
(** * Searches of a node at work end

    Over [System]: what a node does by itself, between packets and new searches,
    is bounded by a potential that every such step lowers, and as long as a
    search is not finished one more step is possible. *)

From S2P Require Import Prelude Text Externals Net U160 NodeInfo Bucket Wire Format BucketSerde.
From S2P Require Import Router Token Kmsg Message Received Service Messenger Server Node Start System.

(** ** Sums *)

Fixpoint zsum {A} (f : A → Z) (l : list A) : Z :=
  match l with
  | [] => 0
  | x :: l => f x + zsum f l
  end.

Lemma zsum_app {A} (f : A → Z) l k : zsum f (l ++ k) = zsum f l + zsum f k.
Proof. induction l as [|x l IH]; simpl; [done |]. rewrite IH. lia. Qed.

Lemma zsum_insert {A} (f : A → Z) l (i : nat) x y :
  l !! i = Some x → zsum f (<[i := y]> l) = zsum f l - f x + f y.
Proof.
  revert i. induction l as [|a l IH]; intros [|i] Hi; [done.. | |]; cbn in Hi.
  - injection Hi as ->. cbn. lia.
  - change (<[S i := y]> (a :: l)) with (a :: <[i := y]> l). cbn [zsum]. rewrite (IH i Hi). lia.
Qed.

Lemma zsum_delete {A} (f : A → Z) l (i : nat) x :
  l !! i = Some x → zsum f (delete i l) = zsum f l - f x.
Proof.
  revert i. induction l as [|a l IH]; intros [|i] Hi; [done.. | |]; cbn in Hi.
  - injection Hi as ->. cbn. lia.
  - change (delete (S i) (a :: l)) with (a :: delete i l). cbn [zsum]. rewrite (IH i Hi). lia.
Qed.

Lemma zsum_alter {A} (f : A → Z) g l (i : nat) x :
  l !! i = Some x → zsum f (alter g i l) = zsum f l - f x + f (g x).
Proof.
  revert i. induction l as [|a l IH]; intros [|i] Hi; [done.. | |]; cbn in Hi.
  - injection Hi as ->. cbn. lia.
  - change (alter g (S i) (a :: l)) with (a :: alter g i l). cbn [zsum]. rewrite (IH i Hi). lia.
Qed.

Lemma zsum_fmap {A B} (f : B → Z) (g : A → B) l : zsum f (g <$> l) = zsum (λ x, f (g x)) l.
Proof. induction l as [|x l IH]; [done |]. rewrite fmap_cons. simpl. by rewrite IH. Qed.

Lemma zsum_nonneg {A} (f : A → Z) l : Forall (λ x, 0 ≤ f x) l → 0 ≤ zsum f l.
Proof. induction 1; simpl; lia. Qed.

Lemma zsum_le {A} (f : A → Z) n l : (∀ x, f x ≤ n) → zsum f l ≤ n * Z.of_nat (length l).
Proof. intros Hf. induction l as [|x l IH]; simpl; [lia |]. specialize (Hf x). lia. Qed.

(** ** The potential *)

(** What is left to do for a query of the service *)
Definition phase_weight (ph : phase) : Z :=
  match ph with Sending => 2 | Waiting => 1 | Returned _ => 0 end.

(** What is left to do for a task of a search: asking makes a query, which weighs
    two. *)
Definition stask_weight (t : search_task) : Z :=
  match t with
  | ToAsk _ => 6
  | Queued _ _ => 5
  | Asking _ _ => 2
  | Finished _ _ => 1
  end.

(** Each identifier that a search has not seen may bring one more task. *)
Definition search_weight (s : Search) : Z :=
  6 * (2 ^ 160 - Z.of_nat (length (se_seen s))) + zsum stask_weight (se_tasks s).

Definition potential {D} (y : System D) : Z :=
  zsum search_weight (sy_searches y) + zsum phase_weight (t_phase <$> Service.tasks (sy_service y)).

(** The steps a node takes by itself *)
Definition internal (h : happening) : bool :=
  match h with Packet _ _ _ | Find _ _ => false | _ => true end.
Definition new_search (h : happening) : bool :=
  match h with Find _ _ => true | _ => false end.
Definition how_many (f : happening → bool) (hs : list happening) : Z :=
  Z.of_nat (length (filter (λ h, f h = true) hs)).

Lemma how_many_cons f h hs : how_many f (h :: hs) = (if f h then 1 else 0) + how_many f hs.
Proof.
  unfold how_many. rewrite filter_cons. destruct (f h); simpl; lia.
Qed.

(** *** The service's part *)

Lemma phases_keep f (c : nat) (ts : list task) :
  (∀ t, t_phase (f t) = t_phase t) → t_phase <$> alter f c ts = t_phase <$> ts.
Proof.
  intros Hf. apply list_eq. intros i. rewrite !list_lookup_fmap. destruct (decide (i = c)) as [->|].
  - rewrite list_lookup_alter_eq. destruct (ts !! c); [| done]. cbn. by rewrite Hf.
  - by rewrite list_lookup_alter_ne.
Qed.

Lemma phases_set ph (c : nat) (ts : list task) :
  t_phase <$> alter (set_phase ph) c ts = alter (λ _, ph) c (t_phase <$> ts).
Proof.
  apply list_eq. intros i. rewrite list_lookup_fmap. destruct (decide (i = c)) as [->|].
  - rewrite !list_lookup_alter_eq, list_lookup_fmap. by destruct (ts !! c).
  - by rewrite !list_lookup_alter_ne, list_lookup_fmap.
Qed.

(** The events that move a query on *)
Definition on_task (e : event) (c : nat) : Prop :=
  (∃ io, e = ESent c io) ∨ e = EWake c ∨ e = ETimeout c.

Lemma exec_weight tv cl st e c st' :
  on_task e c → exec tv cl st e = Some st' →
  zsum phase_weight (t_phase <$> Service.tasks st') < zsum phase_weight (t_phase <$> Service.tasks st).
Proof.
  assert (Hset : ∀ t ph, Service.tasks st !! c = Some t → phase_weight ph < phase_weight (t_phase t) →
    zsum phase_weight (t_phase <$> alter (set_phase ph) c (Service.tasks st)) <
    zsum phase_weight (t_phase <$> Service.tasks st)).
  { intros t ph Ht Hlt. rewrite phases_set. erewrite zsum_alter; [| by rewrite list_lookup_fmap, Ht]. cbn. lia. }
  intros He Hx. destruct He as [[io ->]|[->| ->]]; simpl in Hx;
    (destruct (Service.tasks st !! c) as [t|] eqn:Ht; [| done]); destruct (t_phase t) eqn:Hph; try done.
  - destruct (send_message _ _ _ _) as [[a|e]| |]; simplify_eq/=;
      by apply (Hset t); [| rewrite Hph].
  - destruct (t_chan t); simplify_eq/=; by apply (Hset t); [| rewrite Hph].
  - injection Hx as <-. unfold time_out. destruct (remove_from_queue _ _ _) as [w queue].
    cbn [finish Service.tasks].
    set (ts := match w with Some o => _ | None => _ end).
    assert (E : t_phase <$> ts = t_phase <$> Service.tasks st).
    { unfold ts. destruct w as [o|]; [| done]. apply phases_keep. by intros [? ? ? []]. }
    rewrite phases_set, E, <- phases_set. by apply (Hset t); [| rewrite Hph].
Qed.

(** *** The search's part *)

Section Progress.
Context {D : Type} {view : D → gmap (list Z) (list Z)} `{Hsled : SledLaw D view}.
Context (crc32c : list Z → Z) (keystream : list Z → list Z → nat → list Z).
Context (to_vec : sval → list Z) (from_slice : list Z → option sval) (closed : string).
Context (keystream_length : ∀ key nonce n, length (keystream key nonce n) = n).
Context (keystream_ok : ∀ key nonce n, bytes_ok (keystream key nonce n)).
Context (Hformat : ByteFormat to_vec from_slice).
Context (p : profile) (draw : NodeInfo → Z * Z) (max_q : nat).
#[local] Abbreviation System := (System D).
#[local] Abbreviation sys_ok := (sys_ok (view:=view) crc32c from_slice p draw max_q).
#[local] Abbreviation sys_step := (sys_step crc32c keystream to_vec from_slice closed p draw).
#[local] Abbreviation sys_run := (sys_run crc32c keystream to_vec from_slice closed p draw).

Lemma search_inv n s :
  System.search_ok crc32c p draw n s → ∃ heard, find_inv (se_target s) heard (search_view (mkRouter (root min 0) []) s).
Proof using Type.
  intros [Ht (heard & turns & r0 & nodes & Hns & Hr) _]. exists heard.
  by eapply (reached_inv crc32c p draw (se_target s) (se_find_peers s) Ht).
Qed.

Lemma search_weight_nonneg n s : System.search_ok crc32c p draw n s → 0 ≤ search_weight s.
Proof using Type.
  intros Hs. destruct (search_inv n s Hs) as [heard Hinv].
  pose proof (seen_bound (se_target s) (so_target _ _ _ _ _ Hs) _ _ Hinv) as Hb. cbn in Hb.
  unfold search_weight. assert (0 ≤ zsum stask_weight (se_tasks s)).
  { apply zsum_nonneg, Forall_true. by intros []. }
  generalize dependent (2 ^ 160). intros. lia.
Qed.

Lemma potential_nonneg (y : System) : sys_ok y → 0 ≤ potential y.
Proof using Type.
  intros Hy. unfold potential.
  assert (0 ≤ zsum search_weight (sy_searches y)).
  { apply zsum_nonneg. pose proof (so_searches _ _ _ _ _ _ Hy) as Hs.
    eapply Forall_impl; [exact Hs |]. intros s. apply search_weight_nonneg. }
  assert (0 ≤ zsum phase_weight (t_phase <$> Service.tasks (sy_service y))).
  { apply zsum_nonneg, Forall_true. by intros []. }
  lia.
Qed.

Lemma set_task_potential (y : System) i j s t t' :
  at_task y i j = Some (s, t) →
  potential (set_task i j t' y) = potential y - stask_weight t + stask_weight t'.
Proof using Type.
  intros [Hi Hj]%at_task_Some. unfold potential, set_task. cbn [sy_searches sy_service].
  rewrite (zsum_alter _ _ _ _ s Hi). unfold search_weight at 3. cbn [set_tasks se_seen se_tasks].
  rewrite (zsum_insert _ _ _ t _ Hj). unfold search_weight at 2. lia.
Qed.

(** A task that finished has brought well-formed nodes. *)
Lemma came_nodes n s j t one :
  System.search_ok crc32c p draw n s → se_tasks s !! j = Some (Finished t one) →
  Forall node_ok (result_nodes one).
Proof using Type.
  intros Hs Hj. destruct (search_inv n s Hs) as [heard Hinv].
  pose proof (so_stasks _ _ _ _ _ Hs) as Hts. eapply Forall_lookup in Hts; [| exact Hj].
  destruct Hts as [(ns & -> & ->)|(to & r & r' & resp & -> & Hresp & Hfind)].
  - pose proof (inv_tasks _ _ _ Hinv) as Ht. cbn [search_view tasks] in Ht.
    eapply (Forall_lookup_1 _ _ j (Initial ns)) in Ht; [exact Ht |]. by rewrite list_lookup_fmap, Hj.
  - by eapply send_find_nodes.
Qed.

Lemma turn_weight n s j t one :
  System.search_ok crc32c p draw n s → se_tasks s !! j = Some (Finished t one) →
  search_weight (turn crc32c draw s j one) ≤ search_weight s - 1.
Proof using Type.
  intros Hs Hj. pose proof (came_nodes n s j t one Hs Hj) as Hone.
  destruct (search_inv n s Hs) as [heard Hinv].
  set (st := mkFind (mkRouter (root min 0) []) (se_ignore s) (se_seen s) (se_peers s) []).
  assert (Hst : find_inv (se_target s) heard st) by (destruct Hinv; by split).
  destruct (handle_result_spec crc32c draw (se_target s) (so_target _ _ _ _ _ Hs) heard st one Hst Hone)
    as (_ & _ & Hm & _). unfold tasks_for_seen in Hm. cbn [tasks seen st length] in Hm.
  unfold search_weight, turn. fold st. cbn [se_seen se_tasks].
  rewrite zsum_app, (zsum_delete _ _ _ _ Hj), zsum_fmap. cbn [stask_weight].
  pose proof (zsum_le (λ t, stask_weight (new_task t)) 6 (tasks (handle_result crc32c draw (se_target s) st one)))
    as Hw. assert (∀ t, stask_weight (new_task t) ≤ 6) as Hnew by (by intros []).
  specialize (Hw Hnew). generalize dependent (2 ^ 160). intros. lia.
Qed.

(** Every happening: what a node does by itself lowers the potential, a packet
    keeps it, and a new search raises it by a fixed amount. *)
Lemma step_potential y h y' :
  sys_ok y → happening_ok h → sys_step y h = Ret (Some y') →
  potential y' ≤ potential y - (if internal h then 1 else 0) +
    (if new_search h then 6 * 2 ^ 160 + 1 else 0).
Proof using All.
  intros Hy Hh Hs.
  assert (Hserved : ∀ e c, on_task e c → served to_vec closed y e = Some y' → potential y' ≤ potential y - 1).
  { intros e c He Hx. unfold served in Hx. apply bind_Some in Hx as (st & Hx & [= <-]).
    pose proof (exec_weight _ _ _ _ _ _ He Hx). unfold potential. cbn [sy_service sy_searches]. lia. }
  destruct h as [slice from io|target fp|i j|i j|c io|c|c|i j|i j]; cbn [System.sys_step internal new_search] in *.
  - destruct Hh as (Hb & Ho & Hv).
    destruct (packet_ok crc32c keystream to_vec from_slice closed keystream_length keystream_ok Hformat p draw
      max_q y slice from io Hy Hb Ho Hv) as (y1 & Hp & _ & Hss & _ & Hph).
    rewrite Hp in Hs. injection Hs as <-. unfold potential. rewrite Hss, Hph. lia.
  - inv_run. unfold potential. cbn [sy_service sy_searches].
    rewrite zsum_app. cbn [zsum]. unfold search_weight at 2. cbn [se_seen se_tasks zsum stask_weight new_task length].
    rewrite Z.sub_0_r. generalize (2 ^ 160). intros. lia.
  - destruct (at_task y i j) as [[s []]|] eqn:Hat; try done. destruct (find_query _ _ _) as [q srv].
    injection Hs as <-. rewrite (set_task_potential _ i j s (ToAsk to)) by done.
    change (potential (mkSystem _ _ _)) with (potential y). cbn [stask_weight]. lia.
  - destruct (at_task y i j) as [[s []]|] eqn:Hat; try done. injection Hs as Hs.
    apply fmap_Some in Hs as (y1 & Hx & ->). unfold served in Hx. apply bind_Some in Hx as (st & Hx & [= <-]).
    simpl in Hx. destruct (Nat.ltb_spec 0 (permits (sy_service y))); [| done]. injection Hx as <-.
    rewrite (set_task_potential _ i j s (Queued to q)) by done. unfold potential.
    cbn [sy_service sy_searches start Service.tasks stask_weight]. rewrite fmap_app, zsum_app. cbn. lia.
  - unfold sent in Hs. destruct (Service.tasks _ !! c) as [t|]; [| done].
    assert (served to_vec closed y (ESent c io) = Some y').
    { repeat case_match; by simplify_eq. }
    rewrite Z.add_0_r. eapply Hserved; [left; by eexists | done].
  - injection Hs as Hs. rewrite Z.add_0_r. eapply Hserved; [right; by left | done].
  - injection Hs as Hs. rewrite Z.add_0_r. eapply Hserved; [right; by right | done].
  - destruct (at_task y i j) as [[s []]|] eqn:Hat; try done.
    destruct (t_phase <$> _) as [[| |response]|]; try done. inv_run. destruct a as [one r].
    inv_run. rewrite (set_task_potential _ i j s (Asking to c)) by done.
    change (potential (mkSystem _ _ _)) with (potential y). cbn [stask_weight]. lia.
  - destruct (at_task y i j) as [[s []]|] eqn:Hat; try done. injection Hs as <-.
    apply at_task_Some in Hat as [Hi Hj]. pose proof (so_searches _ _ _ _ _ _ Hy) as Hss.
    eapply Forall_lookup in Hss; [| exact Hi]. pose proof (turn_weight _ s j t one_result Hss Hj).
    unfold potential. cbn [sy_searches sy_service]. rewrite (zsum_insert _ _ _ s _ Hi). lia.
Qed.

(** *** A step is possible *)

(** A query under way moves on by itself: it is sent, or it times out. *)
Lemma pending_step y c t :
  sys_ok y → Service.tasks (sy_service y) !! c = Some t → pending t = true →
  ∃ h y', internal h = true ∧ sys_step y h = Ret (Some y').
Proof using Type.
  intros Hy Hc Hp. unfold pending in Hp. destruct (t_phase t) eqn:Hph; [| | done].
  - assert (Ht : task_typed t) by (eapply Forall_lookup in Hc; [exact Hc | apply Hy]).
    destruct (send_message_total to_vec (handler (sy_service y)) (MQuery (t_query t)) (Ok ()) (tt_query _ Ht)) as [res E].
    exists (Sent c (Ok ())). cbn [System.sys_step internal]. unfold sent, served, exec.
    rewrite Hc, Hph, E. destruct res; by eexists.
  - exists (Timeout c). cbn [System.sys_step internal]. unfold served, exec. rewrite Hc, Hph. by eexists.
Qed.

Lemma holders_pending ts : (0 < holders ts)%nat → ∃ (c : nat) t, ts !! c = Some t ∧ pending t = true.
Proof using Type.
  unfold holders. induction ts as [|t ts IH]; simpl; [lia |]. intros Hh.
  destruct (holds t) eqn:E.
  - exists 0%nat, t. split; [done |]. unfold holds in E. by apply andb_true_iff in E as [_ ?].
  - destruct IH as (c & u & ? & ?); [simpl in Hh; lia |]. by exists (S c), u.
Qed.

Lemma can_step y i s :
  sys_ok y → (0 < max_q)%nat → sy_searches y !! i = Some s → se_tasks s ≠ [] →
  ∃ h y', internal h = true ∧ sys_step y h = Ret (Some y').
Proof using Type.
  intros Hy Hq Hi Hne. destruct (se_tasks s) as [|t ts] eqn:Hts; [done |].
  assert (Hat : at_task y i 0 = Some (s, t)) by (apply at_task_Some; by rewrite Hts).
  pose proof (so_searches _ _ _ _ _ _ Hy) as Hss. eapply Forall_lookup in Hss; [| exact Hi].
  pose proof (so_stasks _ _ _ _ _ Hss) as Hok. rewrite Hts in Hok. apply Forall_cons in Hok as [Hok _].
  destruct t as [t one|to|to q|to c].
  - exists (Turn i 0). cbn [System.sys_step internal]. rewrite Hat. by eexists.
  - exists (Build i 0). cbn [System.sys_step internal]. rewrite Hat.
    destruct (find_query _ _ _). by eexists.
  - destruct (decide (0 < permits (sy_service y)))%nat as [Hp|Hp].
    + exists (Ask i 0). cbn [System.sys_step internal]. rewrite Hat. unfold served, exec.
      rewrite (proj2 (Nat.ltb_lt _ _) Hp). by eexists.
    + destruct (holders_pending (Service.tasks (sy_service y))) as (c & u & Hc & Hpd).
      { pose proof (ok_permits _ _ (so_service _ _ _ _ _ _ Hy)). lia. }
      by eapply pending_step.
  - cbn in Hok. apply lookup_lt_is_Some in Hok as [u Hc]. destruct (pending u) eqn:Hpd; [by eapply pending_step |].
    unfold pending in Hpd. destruct (t_phase u) as [| |response] eqn:Hph; try done.
    assert (Ha : answer_v4 response).
    { eapply Forall_lookup in Hc; [| apply Hy]. by apply (tt_returned _ Hc). }
    destruct (send_find_live from_slice p (se_find_peers s) (server (sy_live y)) to response
      (so_server _ _ _ _ _ _ Hy) Ha) as (one & r & E & _).
    exists (Answer i 0). cbn [System.sys_step internal]. rewrite Hat, Hc. cbn [fmap option_fmap option_map].
    rewrite Hph, E. cbn [run_bind]. by eexists.
Qed.

Lemma run_potential y hs y' :
  sys_ok y → Forall happening_ok hs → sys_run y hs = Ret (Some y') →
  sys_ok y' ∧ potential y' + how_many internal hs ≤ potential y + (6 * 2 ^ 160 + 1) * how_many new_search hs.
Proof using All.
  intros Hy Hhs. revert y Hy. induction Hhs as [|h hs Hh Hhs IH]; intros y Hy Hr; cbn [System.sys_run] in Hr.
  - injection Hr as <-. split; [done |]. unfold how_many. simpl length. rewrite Z.mul_0_r. lia.
  - destruct (sys_step_ok crc32c keystream to_vec from_slice closed keystream_length keystream_ok Hformat p draw
      max_q y h Hy Hh) as (o & Ho & Hok). rewrite Ho in Hr. cbn [run_bind] in Hr.
    destruct o as [y1|]; [| done]. pose proof (step_potential y h y1 Hy Hh Ho).
    destruct (IH y1 (Hok y1 eq_refl) Hr) as [? ?]. split; [done |].
    rewrite !how_many_cons. destruct (internal h), (new_search h); lia.
Qed.
End Progress.

(** ** Properties *)

(** C3: a node at work finishes its searches, even if no query is ever answered:
    between packets it can take only a bounded number of steps by itself
    ([potential] counts identifiers not yet seen and queries not yet ended), and
    as long as some search has a task left one such step is possible, so the
    service's permits and timeouts never block it. *)
Theorem searches_end {D} {view : D → gmap (list Z) (list Z)} `{Hsled : SledLaw D view}
    crc32c keystream to_vec from_slice closed p draw max_q (y y' : System D) hs :
  (∀ key nonce n, length (keystream key nonce n) = n) →
  (∀ key nonce n, bytes_ok (keystream key nonce n)) →
  ByteFormat to_vec from_slice → (0 < max_q)%nat →
  sys_ok (view:=view) crc32c from_slice p draw max_q y → Forall happening_ok hs →
  sys_run crc32c keystream to_vec from_slice closed p draw y hs = Ret (Some y') →
  0 ≤ potential y' ∧
  potential y' + how_many internal hs ≤ potential y + (6 * 2 ^ 160 + 1) * how_many new_search hs ∧
  ((∃ s, s ∈ sy_searches y' ∧ se_tasks s ≠ []) →
   ∃ h y'', internal h = true ∧
     sys_step crc32c keystream to_vec from_slice closed p draw y' h = Ret (Some y'')).
Proof.
  intros Hlen Hkok Hf Hq Hy Hhs Hrun.
  destruct (run_potential crc32c keystream to_vec from_slice closed Hlen Hkok Hf p draw max_q y hs y' Hy Hhs Hrun)
    as [Hy' Hb].
  split; [by eapply potential_nonneg |]. split; [done |].
  intros (s & [i Hi]%list_elem_of_lookup & Hne). by eapply can_step.
Qed.

(** Before the node that was found has answered *)
Definition ex_noon : list happening := take 7 ex_day.

Lemma searches_end_witness :
  ∃ y h y', ex_run ex_system ex_noon = Ret (Some y) ∧ internal h = true ∧
    sys_step crc32c_table_free constant_stream bencode bdecode "channel closed" Debug ex_draw y h = Ret (Some y').
Proof.
  destruct (ex_run ex_system ex_noon) as [[y|]| |] eqn:E; [| by vm_compute in E..].
  destruct (sy_searches y !! 0%nat) as [s|] eqn:Es; [| exfalso; by vm_compute in E; injection E as <-].
  assert (Hs : se_tasks s ≠ []).
  { vm_compute in E. injection E as <-. vm_compute in Es. by injection Es as <-. }
  pose proof E as Hrun. unfold ex_run in Hrun.
  destruct (searches_end (view:=λ d, d) crc32c_table_free constant_stream bencode bdecode "channel closed" Debug
    ex_draw MAX_CONCURRENCY ex_system y ex_noon constant_stream_length constant_stream_ok bencode_format
    ltac:(unfold MAX_CONCURRENCY; lia) ex_system_ok ltac:(apply Forall_take, ex_day_ok) Hrun) as (_ & _ & H).
  destruct H as (h & y' & Hh & Hstep); [exists s; split; [by eapply list_elem_of_lookup_2 | done] |].
  exists y, h, y'. split; [reflexivity |]. split; [exact Hh | exact Hstep].
Defined.
