(* ===== verification/Main.v ===== *)
(** * The program

    [src/main.rs] and [src/parameters.rs]: the command line's options with their
    defaults, and what [main] makes of them: set up the log, start a node,
    bootstrap it and search the peers of one info hash. *)

From S2P Require Import Prelude Text Externals Net U160 NodeInfo Bucket Wire Format BucketSerde.
From S2P Require Import Router Token Kmsg Message Service Messenger Server Node Start.

(** ** Options *)

(** [log::LevelFilter] *)
Inductive LevelFilter : Type := LOff | LError | LWarn | LInfo | LDebug | LTrace.

(** [struct Parameters] *)
Record Parameters : Type := mkParameters {
  bind_v4 : string;
  bind_v6 : option string;
  public_ip : option string;
  state : option string;
  peer : string;
  timeout : Z;
  no_verify_id : bool;
  log_no_color : bool;
  log_level : LevelFilter;
  log_std_level : option LevelFilter;
  log_file_level : option LevelFilter;
  log_dir : string;
  log_file : string;
}.

(** The defaults of the [structopt] attributes *)
Definition default_parameters : Parameters := {|
  bind_v4 := "0.0.0.0:6881"; bind_v6 := None; public_ip := None; state := None;
  peer := "router.bittorrent.com:6881"; timeout := 500; no_verify_id := false;
  log_no_color := false; log_level := LDebug; log_std_level := None; log_file_level := None;
  log_dir := "./logs/"; log_file := "log-%Y-%m-%d-%H-%M-%S.txt";
|}.

(** ** Logging *)

(** [log::Level] *)
Inductive Level : Type := LevelError | LevelWarn | LevelInfo | LevelDebug | LevelTrace.

#[local] Open Scope string_scope.

(** The palette of the terminal *)
Definition colors (l : Level) : string :=
  match l with
  | LevelError => "9"
  | LevelWarn => "220"
  | LevelInfo => "228"
  | LevelDebug => "230"
  | LevelTrace => "248"
  end.

Definition level_str (l : Level) : string :=
  match l with LevelError => "ERROR" | LevelWarn => "WARN" | LevelInfo => "INFO" | LevelDebug => "DEBUG" | LevelTrace => "TRACE" end.

(** One line of the log: the closure [fmt]; [now] is the formatted time. *)
Definition fmt (test color : bool) (now target : string) (l : Level) (message : string) : string :=
  let esc := String (Ascii.ascii_of_nat 27) "" in
  let ansi_pfx := if color then esc +:+ "[38;5;" +:+ colors l +:+ "m" else "" in
  let ansi_sfx := if color then esc +:+ "[0m" else "" in
  let test_str := if test then "Test-" else "" in
  ansi_pfx +:+ test_str +:+ "[" +:+ now +:+ "][" +:+ target +:+ "][" +:+ level_str l +:+ "] "
  +:+ message +:+ ansi_sfx.

(** A chain of the dispatch that [init_logging] builds: the colour of its lines, its
    level, the levels of single targets, and the file it writes to, if it does not
    write to the terminal. *)
Record LogChain : Type := mkChain {
  in_color : bool;
  chain_level : LevelFilter;
  level_for : list (string * LevelFilter);
  log_to : option string;
}.

(** ** [main] *)

Inductive main_error : Type :=
  | LoggingFailed
  | PeerLookup
  | InvalidPeer
  | InvalidBind
  | InvalidPublicIp
  | NodeFailed (e : start_error)
  | BootstrapFailed (e : Message.Error).

(** What [main] finds outside: the parsed command line, whether this is a test build,
    the time in a format (none for a format that [chrono] does not read), whether
    a log file opens and a dispatch applies, the parsers of [std::net] with the
    name lookup, what [Node::new] finds, the answer to the first ping, how the network answers
    the two searches, and whether waiting for Ctrl-C works. *)
Record World (D : Type) : Type := mkWorld {
  w_args : option Parameters;
  w_test : bool;
  w_now : string → option string;
  w_log_opens : string → bool;
  w_log_applies : list LogChain → bool;
  to_socket_addrs : string → option (list SocketAddr);
  sock_from_str : string → option SocketAddr;
  ip_from_str : string → option IpAddr;
  w_outside : Outside D;
  w_ping : QueryResult;
  w_bootstrap : nat → nat * QueryResult;
  w_search : nat → nat * QueryResult;
  w_ctrl_c : bool;
}.
Arguments mkWorld {D}.
Arguments w_args {D}.
Arguments w_test {D}.
Arguments w_now {D}.
Arguments w_log_opens {D}.
Arguments w_log_applies {D}.
Arguments to_socket_addrs {D}.
Arguments sock_from_str {D}.
Arguments ip_from_str {D}.
Arguments w_outside {D}.
Arguments w_ping {D}.
Arguments w_bootstrap {D}.
Arguments w_search {D}.
Arguments w_ctrl_c {D}.

(** [init_fail!] panics, [map_err_with!] returns the error. *)
Definition init_logging {D} (w : World D) (p : Parameters) : run (result (list LogChain) main_error) :=
  let test_str := if w_test w then "Test-" else "" in
  let out := mkChain (negb (log_no_color p)) (default (log_level p) (log_std_level p))
    [("dht_explorer::node", LDebug); ("dht_explorer::router", LOff); ("sled", LOff)] None in
  let! name := unwrap (w_now w (log_dir p +:+ test_str +:+ log_file p)) in
  let! _ := unwrap (if w_log_opens w name then Some () else None) in
  let file := mkChain false (default (log_level p) (log_file_level p))
    [("dht_explorer::router", LOff); ("sled", LOff)] (Some name) in
  Ret (if w_log_applies w [out; file] then Ok [out; file] else Err LoggingFailed).

(** The info hash that [main] searches *)
Definition searched_hash : string := "B9FF4E7CE60DA918EB18D06AF1FDE0050D78E96E".

Section Main.
Context {D : Type} (crc32c : list Z → Z) (from_slice : list Z → option sval) (p : profile).
Context (draw : NodeInfo → Z * Z) (hex_decode_to_slice : nat → string → option (list Z)).

(** [init_fail!] panics, [?] returns the error. The node is read only: it drops
    the queries that come in while [main] waits, so the table that the second
    search starts from is the one that the first has left. *)
Definition main (fuel : nat) (w : World D) : run (result Found main_error) :=
  let! params := unwrap (w_args w) in
  let!? _ := init_logging w params in
  let!? addrs := Ret (ok_or (to_socket_addrs w (peer params)) PeerLookup) in
  let!? peer := Ret (ok_or (head addrs) InvalidPeer) in
  let!? addr := Ret (ok_or (sock_from_str w (bind_v4 params)) InvalidBind) in
  let! text := unwrap (public_ip params) in
  let!? ip := Ret (ok_or (ip_from_str w text) InvalidPublicIp) in
  let! n := node_new crc32c from_slice p (w_outside w) addr true ip in
  let!? n := Ret (match n with Ok n => Ok n | Err e => Err (NodeFailed e) end) in
  let! (bootstrapped, r) :=
    bootstrap crc32c p draw fuel (w_bootstrap w) (router (n_server n)) (w_ping w) in
  let!? _ := Ret (match bootstrapped with Ok _ => Ok () | Err e => Err (BootstrapFailed e) end) in
  let! target := from_hex hex_decode_to_slice searched_hash in
  let! (found, _) := find_peers crc32c p draw fuel (w_search w) r target in
  let! _ := unwrap (if w_ctrl_c w then Some () else None) in
  Ret (Ok found).
End Main.

(** ** Lemmas *)

(** More fuel changes nothing. *)
Lemma find_loop_more crc32c p draw target fp fuel fuel' schedule st st' :
  (fuel ≤ fuel')%nat → find_loop crc32c p draw target fp fuel schedule st = Ret st' →
  find_loop crc32c p draw target fp fuel' schedule st = Ret st'.
Proof.
  revert fuel' schedule st. induction fuel as [|fuel IH]; intros fuel' schedule st Hf; cbn [find_loop].
  - destruct (tasks st) eqn:E; [| done]. intros [= <-]. destruct fuel'; cbn [find_loop]; by rewrite E.
  - destruct (tasks st) as [|t ts] eqn:E.
    + intros [= <-]. destruct fuel'; cbn [find_loop]; by rewrite E.
    + destruct fuel' as [|fuel']; [lia |]. cbn [find_loop]. rewrite E. rewrite <- E.
      destruct (find_step _ _ _ _ _ _ _ st) as [[res st1]| |]; cbn [run_bind]; [| done..].
      apply IH. lia.
Qed.

Lemma find_more crc32c p draw fuel fuel' schedule r target fp k res :
  (fuel ≤ fuel')%nat → find crc32c p draw fuel schedule r target fp k = Ret res →
  find crc32c p draw fuel' schedule r target fp k = Ret res.
Proof.
  intros Hf. unfold find, find_n_starting_at.
  destruct (router_lookup p r target) as [ns| |]; cbn [run_bind]; [| done..].
  destruct (find_loop _ _ _ _ _ fuel _ _) as [st| |] eqn:E; cbn [run_bind]; [| done..].
  by rewrite (find_loop_more _ _ _ _ _ _ fuel' _ _ _ Hf E).
Qed.

(** The node that [main] starts, bootstrapped and asked for peers *)
Lemma started_search crc32c p draw own k r a target w1 w2 :
  router_v4 own k r → answer_v4 (Ok a) → (∀ i, answer_v4 (w1 i).2) → (∀ i, answer_v4 (w2 i).2) →
  u160_ok target →
  ∃ fuel nodes r' found r'', ∀ fuel', (fuel ≤ fuel')%nat →
    bootstrap crc32c p draw fuel' w1 r (Ok a) = Ret (Ok nodes, r') ∧
    find_peers crc32c p draw fuel' w2 r' target = Ret (found, r'').
Proof.
  intros Hr Ha H1 H2 Ht. destruct Ha as [Hok Hv4].
  destruct (router_v4_add p own k r (sender_node (origin (resp_base a))) Hr) as (r1 & Hadd & Hr1);
    [split; [apply Hok | done] |].
  destruct (router_v4_own own k r1 Hr1) as [Hown Ho].
  destruct (find_total crc32c p draw w1 own k r1 own false Hr1 Ho H1)
    as (f1 & ns1 & st1 & heard1 & Hl1 & Hloop1 & _ & Hr2 & Hp1).
  destruct (find_total crc32c p draw w2 own k (f_router st1) target true Hr2 Ht H2)
    as (f2 & ns2 & st2 & heard2 & Hl2 & Hloop2 & _).
  exists (Nat.max f1 f2), (take 8 (kept (ignore st1) (seen st1))), (f_router st1), (find_finish K_SIZE st2), (f_router st2).
  intros f Hf. split.
  - unfold bootstrap, find_nodes, find_n_nodes. rewrite Hadd. cbn [run_bind]. rewrite Hown.
    assert (E : find crc32c p draw f1 w1 r1 own false K_SIZE = Ret (find_finish K_SIZE st1, f_router st1)).
    { unfold find, find_n_starting_at. rewrite Hl1. cbn [run_bind]. by rewrite Hloop1. }
    rewrite (find_more crc32c p draw f1 f w1 r1 own false K_SIZE _ ltac:(lia) E). cbn [run_bind]. unfold find_finish.
    by rewrite decide_True by auto.
  - unfold find_peers. apply (find_more _ _ _ f2); [lia |]. unfold find, find_n_starting_at. rewrite Hl2.
    cbn [run_bind]. by rewrite Hloop2.
Qed.

(** ** Properties *)

Section Properties.
Context {D : Type} {view : D → gmap (list Z) (list Z)} `{Hsled : SledLaw D view}.
Context (crc32c : list Z → Z) (to_vec : sval → list Z) (from_slice : list Z → option sval) (p : profile).
Context (draw : NodeInfo → Z * Z) (hex_decode_to_slice : nat → string → option (list Z)).
#[local] Abbreviation main := (main crc32c from_slice p draw hex_decode_to_slice).

End Properties.

(** Options that [main] never looks at: where the state is kept, the timeout, the
    check of identifiers and the IPv6 address are fixed in the code. *)
Lemma main_ignores {D} crc32c from_slice p draw hex fuel (w w' : World D) q q' :
  w_args w = Some q → w_args w' = Some q' →
  bind_v4 q = bind_v4 q' → public_ip q = public_ip q' → peer q = peer q' →
  init_logging w q = init_logging w q' →
  w' = mkWorld (Some q') (w_test w) (w_now w) (w_log_opens w) (w_log_applies w) (to_socket_addrs w) (sock_from_str w)
         (ip_from_str w) (w_outside w) (w_ping w) (w_bootstrap w) (w_search w) (w_ctrl_c w) →
  main crc32c from_slice p draw hex fuel w' = main crc32c from_slice p draw hex fuel w.
Proof. intros Hq Hq' Eb Ei Ep El ->. unfold main. rewrite Hq. cbn. rewrite Eb, Ei, Ep, El. reflexivity. Qed.

(** ** Examples *)

(** A line of the terminal's log *)
Example fmt_line : fmt false false "now" "main" LevelInfo "Found!" = "[now][main][INFO] Found!".
Proof. reflexivity. Qed.

Definition ex_world (q : Parameters) : World (gmap (list Z) (list Z)) := {|
  w_args := Some q; w_test := false; w_now := Some; w_log_opens := λ _, true; w_log_applies := λ _, true;
  to_socket_addrs := λ _, Some [ex_remote 7]; sock_from_str := λ _, Some (SocketV4 [0; 0; 0; 0] 6881);
  ip_from_str := λ _, Some (V4 [124; 31; 75; 21]); w_outside := ex_outside; w_ping := ex_bootstrap_answer;
  w_bootstrap := λ _, (0%nat, no_answer); w_search := λ _, (0%nat, no_answer); w_ctrl_c := true;
|}.
Definition ex_public : Parameters :=
  mkParameters "0.0.0.0:6881" None (Some "124.31.75.21"%string) None "peer:6881" 500 false false LDebug None None "" "".

